(** * sXLM liquid-staking protocol: off-chain services

    A shallow embedding of the TypeScript back end of the sXLM protocol
    (exchange-rate manager, staking engine, API gateway routes, withdrawal
    queue processor, keeper bot, leverage and restaking simulators) and the
    properties of its specification that concern these services.

    ECMAScript [number] values are IEEE-754 binary64 floating-point numbers:
    they are modelled by [spec_float] with the standard library's executable
    specification of the binary64 operations (round to nearest, ties to
    even).  [bigint] values are modelled by [Z]. *)

From Stdlib Require Import ZArith QArith Qround Qabs Qpower Lia Lqa Bool.
From Stdlib Require Import Floats.SpecFloat.
From stdpp Require Import gmap strings list sorting fin_maps.

Local Open Scope Z_scope.

(* ===================================================================== *)
(** ** ECMAScript numbers *)
(* ===================================================================== *)

Module JSNumber.

Definition prec : Z := 53.
Definition emax : Z := 1024.

(** A JS [number]. *)
Definition number : Type := spec_float.

(** [Number(b)] for a bigint [b]: the nearest binary64 value. *)
Definition ofBigInt (b : Z) : number := binary_normalize prec emax b 0 false.

Definition add (x y : number) : number := SFadd prec emax x y.
Definition sub (x y : number) : number := SFsub prec emax x y.
Definition mul (x y : number) : number := SFmul prec emax x y.
Definition div (x y : number) : number := SFdiv prec emax x y.

(** [x < y], [x <= y], [x > y] (false as soon as one side is NaN). *)
Definition ltb (x y : number) : bool := SFltb x y.
Definition leb (x y : number) : bool := SFleb x y.
Definition gtb (x y : number) : bool := SFltb y x.

(** Literals of the source. *)
Definition zero : number := S754_zero false.
Definition one : number := S754_finite false 4503599627370496 (-52).
Definition infinity : number := S754_infinity false.
(** [1e7] and [10000 * 1e7]. *)
Definition n1e7 : number := S754_finite false 5368709120000000 (-29).
Definition n10000 : number := S754_finite false 5497558138880000 (-39).
(** [100], [0.7], [0.06], [0.04] *)
Definition n100 : number := S754_finite false 7036874417766400 (-46).
Definition n0_7 : number := S754_finite false 6305039478318694 (-53).
Definition n0_06 : number := S754_finite false 8646911284551352 (-57).
Definition n0_04 : number := S754_finite false 5764607523034235 (-57).

(** The integer [s * m * 2^e] rounded towards minus infinity. *)
Definition floorZ (s : bool) (m : positive) (e : Z) : Z :=
  match e with
  | Z0 => cond_Zopp s (Zpos m)
  | Zpos p => cond_Zopp s (Zpos m) * 2 ^ Zpos p
  | Zneg p => cond_Zopp s (Zpos m) / 2 ^ Zpos p
  end.

(** [Math.floor(x)]. *)
Definition Math_floor (x : number) : number :=
  match x with
  | S754_finite s m e =>
      if 0 <=? e then x
      else match floorZ s m e with
           | Z0 => S754_zero s
           | z => ofBigInt z
           end
  | _ => x
  end.

(** [BigInt(x)] for a number [x]: a [RangeError] ([None]) unless [x] is
    an integral finite number. *)
Definition toBigInt (x : number) : option Z :=
  match x with
  | S754_zero _ => Some 0
  | S754_finite s m e =>
      match e with
      | Zneg p =>
          if (Zpos m mod 2 ^ Zpos p =? 0) then Some (floorZ s m e) else None
      | _ => Some (floorZ s m e)
      end
  | _ => None
  end.

(** [isFinite(x)] *)
Definition isFinite (x : number) : bool :=
  match x with
  | S754_zero _ | S754_finite _ _ _ => true
  | _ => false
  end.

(** The rational value of a finite number (0 for the others). *)
Definition pow2 (e : Z) : Q := (2 ^ e)%Q.

Definition toQ (x : number) : Q :=
  match x with
  | S754_finite s m e => (inject_Z (cond_Zopp s (Zpos m)) * pow2 e)%Q
  | _ => 0%Q
  end.

(** Positive normal numbers: a full 53-bit mantissa at an exponent between
    [lo] and [hi]. *)
Definition pnormal (lo hi : Z) (x : number) : bool :=
  match x with
  | S754_finite false m e =>
      (2 ^ 52 <=? Zpos m) && (Zpos m <? 2 ^ 53) && (lo <=? e) && (e <=? hi)
  | _ => false
  end.

(** The unit roundoff [2^-53]. *)
Definition u : Q := 1 # 9007199254740992.

(** [x.toFixed(7)], given by what the string spells.  Below [10^21] it is
    a sign and the digits [n] of the integer for which [n / 10^7] is nearest
    to [|x|], the larger one on a tie; for the other numbers it is
    [String(x)]. *)
Inductive Fixed : Type :=
| FixedDigits (negative : bool) (n : Z)
| FixedString (x : number).

Definition n1e21 : number := ofBigInt (10 ^ 21).

Definition toFixed7 (x : number) : Fixed :=
  match x with
  | S754_zero _ => FixedDigits false 0
  | S754_finite s m e =>
      if leb n1e21 (S754_finite false m e) then FixedString x
      else FixedDigits s (Qfloor (inject_Z (Zpos m) * pow2 e * inject_Z (10 ^ 7) + (1 # 2)))
  | _ => FixedString x
  end.

End JSNumber.

Import JSNumber.

(* ===================================================================== *)
(** ** staking-engine/exchangeRateManager.ts *)
(* ===================================================================== *)

Module ExchangeRateManager.

(** Functions that [throw] return [None]. *)

Definition computeExchangeRate (totalXlmStaked totalSxlmSupply : Z) : number :=
  if totalSxlmSupply =? 0 then one
  else div (ofBigInt totalXlmStaked) (ofBigInt totalSxlmSupply).

Definition xlmToSxlm (xlmStroops : Z) (exchangeRate : number) : option Z :=
  if leb exchangeRate zero then None
  else toBigInt (Math_floor (div (ofBigInt xlmStroops) exchangeRate)).

Definition sxlmToXlm (sxlmStroops : Z) (exchangeRate : number) : option Z :=
  if leb exchangeRate zero then None
  else toBigInt (Math_floor (mul (ofBigInt sxlmStroops) exchangeRate)).

End ExchangeRateManager.

Import ExchangeRateManager.


(* ===================================================================== *)
(** ** config/index.ts *)
(* ===================================================================== *)

Module Config.
Definition sxlmTokenContractId : string := "CCSST2JJPO2XX7XKPIEZBVE3YVT3OKVZWVOOCUULQYM2YTXRQYS24DUA".
Definition stakingContractId : string := "CBTSQ6AVMK63LXF3BA7WREUGXX2QYYQXKIO7KPZXCEAEAKRVWJS7J7K3".
Definition lendingContractId : string := "CBY22XHGAIXFK5RROK4UAFC3BQH5D3ZKA3F2SWURHISB44EXXOYDAHYO".
Definition lpPoolContractId : string := "CDDYQEF74BJ2D4D4SC5ZVWWFTWRP7APFHSPOLPRT7QIU5H6SGYN6KBIA".
Definition governanceContractId : string := "CDGJP5AYMG2T5D3TZD5LGDO37SOF5LI3SPNOE2UBLLP7ZXANGB52CDS6".

(** [admin.publicKey], which is also the public key of
    [Keypair.fromSecret(admin.secretKey)] *)
Definition adminPublicKey : string := "".

(** [protocol.unbondingPeriodMs]: 7 days *)
Definition unbondingPeriodMs : Z := 7 * 24 * 60 * 60 * 1000.
(** [protocol.minStakeAmount]: 1 XLM in stroops *)
Definition minStakeAmount : Z := 10000000.
(** [protocol.maxStakeAmount]: 10M XLM in stroops *)
Definition maxStakeAmount : Z := 100000000000000.
End Config.

(* ===================================================================== *)
(** ** The Soroban RPC server and the effects of the services *)
(* ===================================================================== *)

Module Soroban.

Inductive ScVal : Type :=
| ScAddress (a : string)
| ScI128 (v : Z)
| ScU64 (v : Z).

(** [contract.call(method, ...args)] *)
Record ContractCall : Type := mkCall
  { callContract : string; callMethod : string; callArgs : list ScVal }.

(** What [server.simulateTransaction] answers. *)
Inductive Simulation : Type :=
| SimError (error : string)
| SimRestore (retval : option Z)
| SimSuccess (retval : option Z).

(** Payloads published on the Redis event bus. *)
Inductive Event : Type :=
| WithdrawalReady (withdrawalId : Z) (wallet : string) (amount : Z) (claimTxHash : string)
| SlashingApplied (amount : Z) (reason : string).

(** The world outside the services (the ledger behind the RPC server, the
    event bus and the database server): an arbitrary state machine.
    [submit] is a signed admin invocation that is prepared, sent and polled:
    it gives the transaction hash ([inr]) or the message of the error it
    throws ([inl]), and moves the ledger.  [publish] tells whether the event
    bus accepts an event.  [database] is one call of the database client: it
    is answered ([None]) or rejected with the message of the error that the
    client throws, and moves the world too. *)
Record Ledger : Type := mkLedger
  { world : Type;
    addressValid : string -> bool;
    accountFound : world -> string -> bool;
    simulate : world -> string -> ContractCall -> Simulation;
    submit : world -> ContractCall -> (string + string) * world;
    publish : world -> Event -> bool;
    database : world -> option string * world }.

(** What a service does to the outside, in order. *)
Inductive Action : Type :=
| GetAccount (address : string)
| Simulate (source : string) (call : ContractCall)
| Submit (call : ContractCall)
| Publish (event : Event)
| DbCreateWithdrawal (wallet : string) (amount : Z) (unlockTime : Z).

(** What is thrown: an [Error] with its message, or a plain object with a
    [message] field that is not an instance of [Error].  The latter is how
    the SDK rejects the load of an account that the ledger does not have
    (routes/stake.ts and routes/unstake.ts read the message of both). *)
Inductive Thrown : Type :=
| Err (message : string)
| PlainObject (message : string).

(** [err instanceof Error] *)
Definition instanceofError (err : Thrown) : bool :=
  match err with Err _ => true | PlainObject _ => false end.

(** [err instanceof Error ? err.message : err?.message] *)
Definition messageOf (err : Thrown) : string :=
  match err with Err message | PlainObject message => message end.

(** [err instanceof Error ? err.message : String(err)] *)
Definition messageOrString (err : Thrown) : string :=
  match err with Err message => message | PlainObject _ => "[object Object]" end.

Section Eff.
Context (L : Ledger).

(** Computations that read and move the ledger, log their actions and
    may throw. *)
Definition Eff (A : Type) : Type :=
  world L * list Action -> (Thrown + A) * (world L * list Action).

Definition ret {A} (a : A) : Eff A := fun s => (inr a, s).
Definition raise {A} (err : Thrown) : Eff A := fun s => (inl err, s).
Definition throw {A} (message : string) : Eff A := raise (Err message).
Definition bind {A B} (m : Eff A) (k : A -> Eff B) : Eff B :=
  fun s => match m s with
           | (inl e, s') => (inl e, s')
           | (inr a, s') => k a s'
           end.
(** [try { m } catch (e) { h e }] *)
Definition catch {A} (m : Eff A) (h : Thrown -> Eff A) : Eff A :=
  fun s => match m s with
           | (inl e, s') => h e s'
           | r => r
           end.
Definition log (a : Action) : Eff unit :=
  fun s => (inr tt, (s.1, s.2 ++ [a])).
(** The outcome of [m], thrown error included, as a value. *)
Definition outcome {A} (m : Eff A) : Eff (Thrown + A) :=
  fun s => (inr (m s).1, (m s).2).

(** [server.getAccount(address)] *)
Definition getAccount (address : string) : Eff unit :=
  fun s => if accountFound L s.1 address
           then (inr tt, (s.1, s.2 ++ [GetAccount address]))
           else (inl (PlainObject "Account not found"), (s.1, s.2 ++ [GetAccount address])).

(** [new Address(a).toScVal()] *)
Definition toAddress (a : string) : Eff ScVal :=
  if addressValid L a then ret (ScAddress a) else throw "Invalid address".

(** [server.simulateTransaction] of a transaction made of one call. *)
Definition simulateTransaction (source : string) (call : ContractCall) : Eff Simulation :=
  fun s => (inr (simulate L s.1 source call), (s.1, s.2 ++ [Simulate source call])).

(** prepare, sign, send and poll one admin invocation *)
Definition sendTransaction (call : ContractCall) : Eff string :=
  fun s => match submit L s.1 call with
           | (inr hash, w') => (inr hash, (w', s.2 ++ [Submit call]))
           | (inl message, w') => (inl (Err message), (w', s.2 ++ [Submit call]))
           end.

(** [eventBus.publish(channel, data)] *)
Definition publishEvent (event : Event) : Eff unit :=
  fun s => if publish L s.1 event
           then (inr tt, (s.1, s.2 ++ [Publish event]))
           else (inl (Err "[EventBus] Not connected. Call connect() first."),
                 (s.1, s.2 ++ [Publish event])).

(** One call of the database client ([prisma.withdrawal.findMany],
    [update], [create]): it is answered or it rejects. *)
Definition prismaCall : Eff unit :=
  fun s => match database L s.1 with
           | (None, w') => (inr tt, (w', s.2))
           | (Some message, w') => (inl (Err message), (w', s.2))
           end.
End Eff.

Arguments ret {L A} _ _.
Arguments raise {L A} _ _.
Arguments throw {L A} _ _.
Arguments bind {L A B} _ _ _.
Arguments catch {L A} _ _ _.
Arguments log {L} _ _.
Arguments outcome {L A} _ _.
Arguments prismaCall {L} _.
Arguments getAccount {L} _ _.
Arguments toAddress {L} _.
Arguments simulateTransaction {L} _ _ _.
Arguments sendTransaction {L} _ _.
Arguments publishEvent {L} _ _.

(** The actions of a run, and its result. *)
Definition run {L A} (m : Eff L A) (w : world L) : (Thrown + A) * (world L * list Action) :=
  m (w, []).
Definition actions {L A} (m : Eff L A) (w : world L) : list Action := (run m w).2.2.
Definition result {L A} (m : Eff L A) (w : world L) : Thrown + A := (run m w).1.
Definition after {L A} (m : Eff L A) (w : world L) : world L := (run m w).2.1.

End Soroban.

Import Soroban.

Notation "'do' x <- m ; k" := (bind m (fun x => k))
  (at level 10, x name, m at level 100, k at level 200).
Notation "m ;; k" := (bind m (fun _ => k))
  (at level 100, k at level 200, right associativity).


(** [haystack.includes(needle)] and [s.toLowerCase()] on ASCII strings. *)
Fixpoint includes (needle haystack : string) : bool :=
  String.prefix needle haystack ||
  match haystack with
  | EmptyString => false
  | String _ rest => includes needle rest
  end.

Definition lowerAscii (c : Ascii.ascii) : Ascii.ascii :=
  let n := Ascii.nat_of_ascii c in
  if (65 <=? n)%nat && (n <=? 90)%nat then Ascii.ascii_of_nat (n + 32) else c.

Fixpoint toLowerCase (s : string) : string :=
  match s with
  | EmptyString => EmptyString
  | String c rest => String (lowerAscii c) (toLowerCase rest)
  end.

(** [BigInt(Math.floor(x))], which throws a [RangeError] on NaN and on
    the infinities. *)
Definition bigIntFloor {L} (x : number) : Eff L Z :=
  match toBigInt (Math_floor x) with
  | Some z => ret z
  | None => throw "RangeError: The number cannot be converted to a BigInt because it is not an integer"
  end.

(* ===================================================================== *)
(** ** The [withdrawals] table of the database (prisma) *)
(* ===================================================================== *)

Module Prisma.

Inductive Status : Type := Pending | Processing | Completed | Failed | Claimed.

#[global] Instance Status_eq_dec : EqDecision Status.
Proof. solve_decision. Defined.

Record Withdrawal : Type := mkWithdrawal
  { wallet : string;
    amount : Z;
    status : Status;
    unlockTime : Z;
    createdAt : Z }.

(** The table, by primary key [id]. *)
Abbreviation Table := (gmap Z Withdrawal).


Definition setStatus (st : Status) (w : Withdrawal) : Withdrawal :=
  mkWithdrawal (wallet w) (amount w) st (unlockTime w) (createdAt w).

(** [prisma.withdrawal.update({ where: { id }, data })] *)
Definition update (id : Z) (data : Withdrawal -> Withdrawal) (db : Table) : Table :=
  alter data id db.

(** [prisma.withdrawal.findMany({ where })] *)
Definition findMany (where_ : Withdrawal -> bool) (db : Table) : list (Z * Withdrawal) :=
  filter (fun r => Is_true (where_ r.2)) (map_to_list db).


(** [orderBy: { createdAt: "asc" }] *)
Definition createdBefore (r1 r2 : Z * Withdrawal) : Prop := createdAt r1.2 <= createdAt r2.2.

#[global] Instance createdBefore_dec : RelDecision createdBefore.
Proof. intros r1 r2. unfold createdBefore. apply _. Defined.

Definition orderByCreatedAt (rows : list (Z * Withdrawal)) : list (Z * Withdrawal) :=
  merge_sort createdBefore rows.

End Prisma.

Import Prisma.

(* ===================================================================== *)
(** ** staking-engine/index.ts: StakingEngine *)
(* ===================================================================== *)

Module StakingEngine.







End StakingEngine.

Import StakingEngine.

(* ===================================================================== *)
(** ** staking-engine/withdrawalQueueProcessor.ts *)
(* ===================================================================== *)

Module WithdrawalQueueProcessor.

(** How a cycle, or the processing of one withdrawal, ends: it returns, or
    a call of the database client that no [try] guards rejects and its
    error leaves [processQueue]; in both cases with the table as it is
    then. *)
Inductive Cycle : Type :=
| Finished (db : Table)
| Rejected (e : Thrown) (db : Table).

Definition tableAfter (c : Cycle) : Table :=
  match c with Finished db | Rejected _ db => db end.

Definition isPermanentFailure (errorMessage : string) : bool :=
  includes "already claimed" errorMessage
  || includes "not found" errorMessage
  || includes "insufficient" errorMessage.

(** The ready withdrawals of a cycle: pending, unlock time passed, oldest
    first, at most 50. *)
Definition isReady (now : Z) (w : Withdrawal) : bool :=
  bool_decide (status w = Pending) && bool_decide (unlockTime w <= now).

Definition readyWithdrawals (now : Z) (db : Table) : list (Z * Withdrawal) :=
  take 50 (orderByCreatedAt (findMany (isReady now) db)).

Section Processor.
Context {L : Ledger}.

(** [callClaimWithdrawal(wallet, id)] of the contract client: the admin
    account is loaded ([getSourceAccount()]), then [claim_withdrawal] is
    invoked on the staking contract. *)
Definition callClaimWithdrawal (userPublicKey : string) (withdrawalId : Z) : Eff L string :=
  getAccount Config.adminPublicKey ;;
  do addr <- toAddress userPublicKey;
  sendTransaction
    (mkCall Config.stakingContractId "claim_withdrawal" [addr; ScU64 withdrawalId]).

(** The four statements of the [try] block for one withdrawal: the error
    that ends them, if any, and the table as they leave it. *)
Definition tryClaim (id : Z) (withdrawal : Withdrawal) (db : Table)
    : Eff L (option Thrown * Table) :=
  (* Mark as processing to prevent double-processing *)
  do marked <- outcome prismaCall;
  match marked with
  | inl e => ret (Some e, db)
  | inr _ =>
      let db1 := update id (setStatus Processing) db in
      (* Execute the claim on-chain *)
      do claimResult <- outcome (callClaimWithdrawal (wallet withdrawal) id);
      match claimResult with
      | inl e => ret (Some e, db1)
      | inr txHash =>
          (* Mark as completed *)
          do completed <- outcome prismaCall;
          match completed with
          | inl e => ret (Some e, db1)
          | inr _ =>
              let db2 := update id (setStatus Completed) db1 in
              (* Emit event *)
              do published <- outcome (publishEvent
                                (WithdrawalReady id (wallet withdrawal) (amount withdrawal)
                                   txHash));
              match published with
              | inl e => ret (Some e, db2)
              | inr _ => ret (None, db2)
              end
          end
      end
  end.

(** The body of the loop for one withdrawal: the [try] block and its
    handler, which writes the status that the message of the error decides.
    No [try] guards the update of the handler. *)
Definition processOne (r : Z * Withdrawal) (db : Table) : Eff L Cycle :=
  do tried <- tryClaim r.1 r.2 db;
  match tried.1 with
  | None => ret (Finished tried.2)
  | Some err =>
      let errorMessage := messageOrString err in
      do updated <- outcome prismaCall;
      match updated with
      | inl e => ret (Rejected e tried.2)
      | inr _ =>
          ret (Finished (update r.1 (setStatus (if isPermanentFailure errorMessage
                                                then Failed else Pending)) tried.2))
      end
  end.

Fixpoint processLoop (rows : list (Z * Withdrawal)) (db : Table) : Eff L Cycle :=
  match rows with
  | [] => ret (Finished db)
  | r :: rest =>
      do c <- processOne r db;
      match c with
      | Finished db' => processLoop rest db'
      | Rejected e db' => ret (Rejected e db')
      end
  end.

(** [processQueue(prisma)] at time [now]; its [findMany] is outside every
    [try] with a handler. *)
Definition processQueue (now : Z) (db : Table) : Eff L Cycle :=
  do found <- outcome prismaCall;
  match found with
  | inl e => ret (Rejected e db)
  | inr _ => processLoop (readyWithdrawals now db) db
  end.

(** Cycles one after the other, at the given times; the timer of
    [startWithdrawalQueueProcessor] catches what a cycle throws. *)
Fixpoint processCycles (nows : list Z) (db : Table) : Eff L Table :=
  match nows with
  | [] => ret db
  | now :: rest => do c <- processQueue now db; processCycles rest (tableAfter c)
  end.

End Processor.

(** The withdrawals that a run attempts to claim. *)
Definition claimedIds (acts : list Action) : list Z :=
  omap (fun a => match a with
                 | Submit (mkCall _ "claim_withdrawal" [_; ScU64 id]) => Some id
                 | _ => None
                 end) acts.

End WithdrawalQueueProcessor.

Import WithdrawalQueueProcessor.

(* ===================================================================== *)
(** ** staking-engine/contractClient.ts *)
(* ===================================================================== *)

Module ContractClient.

(** What [server.getTransaction(hash)] answers. *)
Inductive TxStatus : Type := SUCCESS | FAILED | NOT_FOUND.

(** How [pollTransaction] ends: it returns at some attempt, or throws
    because the transaction failed, or because it is not confirmed after
    the last attempt. *)
Inductive Polled : Type :=
| Confirmed (attempt : nat)
| TransactionFailed (attempt : nat)
| NotConfirmed.

(** [pollTransaction(hash, maxAttempts = 30, intervalMs = 2000)]:
    [getTransaction] gives the answer of the server to each attempt; the
    loop is at attempt [attempt] with [remaining] attempts to go. *)
Fixpoint pollLoop (getTransaction : nat -> TxStatus) (remaining attempt : nat) : Polled :=
  match remaining with
  | O => NotConfirmed
  | S remaining' =>
      match getTransaction attempt with
      | SUCCESS => Confirmed attempt
      | FAILED => TransactionFailed attempt
      | NOT_FOUND => pollLoop getTransaction remaining' (S attempt)
      end
  end.

Definition pollTransaction (getTransaction : nat -> TxStatus) (maxAttempts : nat) : Polled :=
  pollLoop getTransaction maxAttempts 0.

Section Client.
Context {L : Ledger}.

(** [executeAdminContractCall(method, args)]: an admin invocation on the
    staking contract. *)
Definition executeAdminContractCall (method : string) (args : list ScVal) : Eff L string :=
  getAccount Config.adminPublicKey ;;
  sendTransaction (mkCall Config.stakingContractId method args).

Definition callRecalibrateRate : Eff L string := executeAdminContractCall "recalibrate_rate" [].

Definition callApplySlashing (slashAmount : Z) : Eff L string :=
  executeAdminContractCall "apply_slashing" [ScI128 slashAmount].

Definition callPause : Eff L string := executeAdminContractCall "pause" [].
Definition callUnpause : Eff L string := executeAdminContractCall "unpause" [].

(** [getExchangeRate()]: the rate of the staking contract, an i128 with 7
    decimals, as a number. *)
Definition getExchangeRate : Eff L number :=
  getAccount Config.adminPublicKey ;;
  do simResult <- simulateTransaction Config.adminPublicKey
                    (mkCall Config.stakingContractId "get_exchange_rate" []);
  match simResult with
  | SimError e => throw ("getExchangeRate simulation failed: " +:+ e)
  | SimSuccess (Some raw) | SimRestore (Some raw) => ret (div (ofBigInt raw) n1e7)
  | _ => throw "getExchangeRate: no result from simulation"
  end.

End Client.

End ContractClient.

(* ===================================================================== *)
(** ** staking-engine/exchangeRateManager.ts: the cached rate *)
(* ===================================================================== *)

Module RateCache.

Record CachedRate : Type := mkCached { rate : number; fetchedAt : Z }.

(** The module variables [cachedRate] and [isRefreshing]. *)
Record Manager : Type := mkManager
  { cachedRate : option CachedRate; isRefreshing : bool }.

(** [config.protocol.exchangeRateRefreshIntervalMs] *)
Definition exchangeRateRefreshIntervalMs : Z := 60000.

Definition STALE_THRESHOLD_MS : Z := exchangeRateRefreshIntervalMs * 3.

(** [isStale(cached)] when [Date.now()] is [now]. *)
Definition isStale (now : Z) (cached : CachedRate) : bool :=
  now - fetchedAt cached >? STALE_THRESHOLD_MS.

Section Refresh.
Context {L : Ledger}.

(** [refreshRate()]; [later] is what [Date.now()] answers when the rate is
    stored.  The early return of a call that finds a refresh running is
    before the [try]: it leaves [isRefreshing] as it is. *)
Definition refreshRate (this : Manager) (later : Z) : Eff L (number * Manager) :=
  match (if isRefreshing this then cachedRate this else None) with
  | Some cached => ret (rate cached, this)
  | None =>
      catch
        (do fetched <- ContractClient.getExchangeRate;
         if leb fetched zero || negb (isFinite fetched)
         then throw "Invalid exchange rate received"
         else ret (fetched, mkManager (Some (mkCached fetched later)) false))
        (fun _ =>
           match cachedRate this with
           | Some cached => ret (rate cached, mkManager (cachedRate this) false)
           | None => ret (JSNumber.one, mkManager None false)
           end)
  end.

(** [getCurrentRate()]; [now] is what [Date.now()] answers to the test of
    staleness. *)
Definition getCurrentRate (this : Manager) (now later : Z) : Eff L (number * Manager) :=
  match cachedRate this with
  | Some cached =>
      if negb (isStale now cached) then ret (rate cached, this)
      else refreshRate this later
  | None => refreshRate this later
  end.

End Refresh.

End RateCache.

(* ===================================================================== *)
(** ** api-gateway/routes: staking and lending *)
(* ===================================================================== *)

Module Gateway.

(** [config.admin.publicKey] *)
Definition adminPublicKey : string := Config.adminPublicKey.

(** Bodies accepted by [stakeSchema], [unstakeSchema] and [amountSchema]:
    a 56-character address and a positive number. *)
Record AmountBody : Type := mkBody { userAddress : string; amount : number }.

Definition schemaAccepts (body : AmountBody) : bool :=
  (String.length (userAddress body) =? 56)%nat && gtb (amount body) zero.

Definition parse {L} (body : AmountBody) : Eff L unit :=
  if schemaAccepts body then ret tt else throw "ZodError".

(** [rpc.assembleTransaction(tx, simResult)] of the SDK, for a simulation
    that is not an error: it takes the authorisation entries from
    [simResult.result] and throws a [TypeError] when there is no result. *)
Definition assembleTransaction {L} (op : ContractCall) (simResult : Simulation)
    : Eff L ContractCall :=
  match simResult with
  | SimSuccess (Some _) | SimRestore (Some _) => ret op
  | _ => throw "Cannot read properties of undefined (reading 'auth')"
  end.

(** [stakingEngine.getExchangeRate()], which is [getCurrentRate()] of the
    exchange-rate manager. *)
Definition getExchangeRate {L} (rates : RateCache.Manager) (clock : Z * Z)
    : Eff L (number * RateCache.Manager) :=
  RateCache.getCurrentRate rates clock.1 clock.2.

(** *** POST /staking/stake *)

Inductive StakeReply : Type :=
| StakeBelowMinimum                       (* 400, "Minimum stake is 1 XLM" *)
| StakeAboveMaximum                       (* 400, "Maximum stake is 10000000 XLM" *)
| StakeSimulationFailed (error : string)  (* 400, "Transaction simulation failed: ..." *)
| StakeFailed (message : string)          (* 400, from the catch block *)
| StakeBuilt (xdr : ContractCall) (estimatedSxlm : Fixed) (exchangeRate : number).

Definition friendbotMessage : string :=
  "Your testnet account has no XLM. Please fund it via the Stellar Friendbot (https://friendbot.stellar.org/?addr=YOUR_ADDRESS) before staking.".

(** The route answers with its reply and leaves the rate cache of the
    engine as the second component.  [rates] is the cache when the request
    arrives; [clock k] is what [Date.now()] answers in the [k]-th call of
    [stakingEngine.getExchangeRate()] (to its test of staleness, and when it
    stores a rate).  A request that throws leaves the cache as the throwing
    statement found it, which is [rates]: the rate is read after everything
    that can throw. *)
Definition stake {L} (rates : RateCache.Manager) (clock : nat -> Z * Z) (body : AmountBody)
    : Eff L (StakeReply * RateCache.Manager) :=
  catch
    (parse body ;;
     do xlmStroops <- bigIntFloor (mul (amount body) n1e7);
     if xlmStroops <? Config.minStakeAmount then ret (StakeBelowMinimum, rates)
     else if xlmStroops >? Config.maxStakeAmount then ret (StakeAboveMaximum, rates)
     else
       do addr <- toAddress (userAddress body);
       let depositOp := mkCall Config.stakingContractId "deposit" [addr; ScI128 xlmStroops] in
       getAccount (userAddress body) ;;
       do simResult <- simulateTransaction (userAddress body) depositOp;
       match simResult with
       | SimError e => ret (StakeSimulationFailed e, rates)
       | _ =>
           do preparedTx <- assembleTransaction depositOp simResult;
           do first <- getExchangeRate rates (clock 0%nat);
           do second <- getExchangeRate first.2 (clock 1%nat);
           ret (StakeBuilt preparedTx (toFixed7 (div (amount body) first.1)) second.1,
                second.2)
       end)
    (fun err =>
       let rawMsg := messageOf err in
       ret (StakeFailed (if includes "account not found" (toLowerCase rawMsg)
                         then friendbotMessage else rawMsg), rates)).

(** *** POST /staking/unstake *)

(** [querySxlmBalance(server, userAddress)] *)
Definition querySxlmBalance {L} (address : string) : Eff L Z :=
  do addr <- toAddress address;
  let readOp := mkCall Config.sxlmTokenContractId "balance" [addr] in
  getAccount adminPublicKey ;;
  do simResult <- simulateTransaction adminPublicKey readOp;
  match simResult with
  | SimRestore _ => throw "ENTRY_ARCHIVED"
  | SimError e =>
      if includes "EntryArchived" e || includes "MissingValue" e
      then throw "ENTRY_ARCHIVED"
      else throw ("Balance check failed: " +:+ e)
  | SimSuccess (Some v) => ret v
  | SimSuccess None => ret 0
  end.

Inductive UnstakeReply : Type :=
| UnstakeNotPositive                       (* 400, "Amount must be positive" *)
| UnstakeEntryArchived                     (* 400, code ENTRY_ARCHIVED *)
| UnstakeInsufficientBalance (userBalance : Z)  (* 400, "Insufficient sXLM balance. ..." *)
| UnstakeWithdrawalFailed                  (* 400, simulation trapped *)
| UnstakeSimulationFailed (error : string) (* 400 *)
| UnstakeFailed (message : string)         (* 400, from the catch block *)
| UnstakeBuilt (xdr : ContractCall) (estimatedXlm : Fixed) (exchangeRate : number)
    (unlockTime : Z).

(** [rates] is the rate cache of the engine when the request arrives and
    [clock] what [Date.now()] answers inside
    [stakingEngine.getExchangeRate()]; [now] is the [Date.now()] of the
    unlock time, [hasPrisma] tells whether the route was given a database
    client.  The reply comes with the rate cache as the request leaves
    it. *)
Definition unstake {L} (rates : RateCache.Manager) (clock : Z * Z) (now : Z)
    (hasPrisma : bool) (body : AmountBody) : Eff L (UnstakeReply * RateCache.Manager) :=
  catch
    (parse body ;;
     do sxlmStroops <- bigIntFloor (mul (amount body) n1e7);
     if sxlmStroops <=? 0 then ret (UnstakeNotPositive, rates)
     else
       (* Check user's sXLM balance before simulation *)
       do balance <- catch
                       (do b <- querySxlmBalance (userAddress body); ret (inr b))
                       (fun balErr =>
                          if instanceofError balErr
                             && String.eqb (messageOf balErr) "ENTRY_ARCHIVED"
                          then ret (inl UnstakeEntryArchived)
                          else raise balErr);
       match balance with
       | inl reply => ret (reply, rates)
       | inr userBalance =>
           if userBalance <? sxlmStroops
           then ret (UnstakeInsufficientBalance userBalance, rates)
           else
             do addr <- toAddress (userAddress body);
             let withdrawOp :=
               mkCall Config.stakingContractId "request_withdrawal" [addr; ScI128 sxlmStroops] in
             getAccount (userAddress body) ;;
             do simResult <- simulateTransaction (userAddress body) withdrawOp;
             match simResult with
             | SimError e =>
                 if includes "UnreachableCodeReached" e
                 then ret (UnstakeWithdrawalFailed, rates)
                 else ret (UnstakeSimulationFailed e, rates)
             | _ =>
                 do preparedTx <- assembleTransaction withdrawOp simResult;
                 do read <- getExchangeRate rates clock;
                 (* Record pending withdrawal in DB so it appears in the UI list *)
                 let unlockTime := now + Config.unbondingPeriodMs in
                 (if hasPrisma
                  then log (DbCreateWithdrawal (userAddress body) sxlmStroops unlockTime) ;;
                       catch prismaCall (fun _ => ret tt)
                  else ret tt) ;;
                 ret (UnstakeBuilt preparedTx (toFixed7 (mul (amount body) read.1)) read.1
                        unlockTime, read.2)
             end
       end)
    (fun err => ret (UnstakeFailed (messageOf err), rates)).

(** *** The lending routes *)

(** [queryContractView(server, contractId, method, args)]: the value, or
    [null] *)
Definition queryContractView {L} (contractId method : string) (args : list ScVal)
    : Eff L (option Z) :=
  getAccount adminPublicKey ;;
  do simResult <- simulateTransaction adminPublicKey (mkCall contractId method args);
  match simResult with
  | SimSuccess (Some v) | SimRestore (Some v) => ret (Some v)
  | _ => ret None
  end.

Definition trapMessage (method : string) : option string :=
  if String.eqb method "deposit_collateral"
  then Some "Insufficient sXLM balance. Stake XLM first to receive sXLM, then deposit it as collateral."
  else if String.eqb method "withdraw_collateral"
  then Some "Withdrawal would make your position unhealthy, or you have no collateral deposited."
  else if String.eqb method "borrow"
  then Some "Borrow exceeds your collateral limit. Deposit more sXLM or reduce the borrow amount."
  else if String.eqb method "repay"
  then Some "Repay amount exceeds your outstanding debt."
  else if String.eqb method "liquidate"
  then Some "This position cannot be liquidated — it may already be healthy or have no debt."
  else None.

(** [buildContractTx(server, contractId, method, args, userAddress)] *)
Definition buildContractTx {L} (contractId method : string) (args : list ScVal)
    (address : string) : Eff L ContractCall :=
  let op := mkCall contractId method args in
  getAccount address ;;
  do simResult <- simulateTransaction address op;
  match simResult with
  | SimError e =>
      match (if includes "UnreachableCodeReached" e then trapMessage method else None) with
      | Some message => throw message
      | None => throw ("Simulation failed: " +:+ e)
      end
  | _ => assembleTransaction op simResult
  end.

Inductive LendingReply : Type :=
| LendingInsufficientLiquidity (poolBalance : Z)  (* 400, "Insufficient pool liquidity. ..." *)
| LendingFailed (message : string)                (* 400, from the catch block *)
| LendingBuilt (xdr : ContractCall).

(** POST /lending/borrow *)
Definition borrow {L} (body : AmountBody) : Eff L LendingReply :=
  catch
    (parse body ;;
     do stroops <- bigIntFloor (mul (amount body) n1e7);
     (* Pre-flight: check pool has enough XLM liquidity *)
     do poolBalRaw <- queryContractView Config.lendingContractId "get_pool_balance" [];
     let poolBalance := default 0 poolBalRaw in
     if poolBalance <? stroops then ret (LendingInsufficientLiquidity poolBalance)
     else
       do addr <- toAddress (userAddress body);
       do xdr <- buildContractTx Config.lendingContractId "borrow"
                   [addr; ScI128 stroops] (userAddress body);
       ret (LendingBuilt xdr))
    (fun err => ret (LendingFailed (messageOf err))).

(** GET /lending/position/:wallet, the max borrow that it reports.
    [collateral] is [position[0]] of the [get_position] view, [cfBpsRaw]
    and [erRaw] are what the [get_collateral_factor] and
    [get_exchange_rate] views return ([None] for [null]). *)
Definition maxBorrowStroops (collateral : Z) (cfBpsRaw erRaw : option Z) : number :=
  let cfBps := ofBigInt (default 7000 cfBpsRaw) in
  let er := ofBigInt (default 10000000 erRaw) in
  div (mul (mul (ofBigInt collateral) er) cfBps) (mul n10000 n1e7).

Definition maxBorrow (collateral : Z) (cfBpsRaw erRaw : option Z) : number :=
  div (maxBorrowStroops collateral cfBpsRaw erRaw) n1e7.

(** The transactions that a run builds and simulates for the user. *)
Definition builtFor (address : string) (acts : list Action) : list ContractCall :=
  omap (fun a => match a with
                 | Simulate source call =>
                     if String.eqb source address then Some call else None
                 | _ => None
                 end) acts.

End Gateway.

(* ===================================================================== *)
(** ** keeper/index.ts: KeeperBot *)
(* ===================================================================== *)

Module Keeper.


(** The public key of [Keypair.fromSecret(config.admin.secretKey)] *)
Definition adminPublicKey : string := Gateway.adminPublicKey.

Section Bot.
Context {L : Ledger}.

(** [simulateView(contractId, method, [])] *)
Definition simulateView (contractId method : string) : Eff L (option Z) :=
  getAccount adminPublicKey ;;
  do simResult <- simulateTransaction adminPublicKey (mkCall contractId method []);
  match simResult with
  | SimSuccess (Some v) | SimRestore (Some v) => ret (Some v)
  | _ => ret None
  end.

(** [executeAdminCall(contractId, method, args)] *)
Definition executeAdminCall (contractId method : string) (args : list ScVal) : Eff L string :=
  getAccount adminPublicKey ;;
  sendTransaction (mkCall contractId method args).

(** [callAddRewards(amount)] of the contract client *)
Definition callAddRewards (amount : Z) : Eff L string :=
  executeAdminCall Config.stakingContractId "add_rewards" [ScI128 amount].

Definition queryLendingAccruedInterest : Eff L Z :=
  catch
    (do result <- simulateView Config.lendingContractId "total_accrued_interest";
     ret (default 0 result))
    (fun _ => ret 0).

Definition harvestLendingInterest (pendingBefore : Z) : Eff L Z :=
  catch
    (do hash <- executeAdminCall Config.lendingContractId "harvest_interest" [];
     do pendingAfter <- queryLendingAccruedInterest;
     let harvested :=
       if pendingBefore >? pendingAfter
       then pendingBefore - pendingAfter
       else pendingBefore (* fallback if query fails *) in
     ret harvested)
    (fun _ => ret 0).

Definition runHarvestCycle : Eff L unit :=
  do pendingInterest <- queryLendingAccruedInterest;
  if pendingInterest <=? 0 then ret tt
  else
    do harvested <- harvestLendingInterest pendingInterest;
    if harvested <=? 0 then ret tt
    else catch (callAddRewards harvested ;; ret tt) (fun _ => ret tt).

(** The five contracts of [bumpAllContractTTLs], by name and id. *)
Definition contracts : list (string * string) :=
  [ ("sXLM Token", Config.sxlmTokenContractId);
    ("Staking", Config.stakingContractId);
    ("Lending", Config.lendingContractId);
    ("LP Pool", Config.lpPoolContractId);
    ("Governance", Config.governanceContractId) ].

Fixpoint bumpLoop (cs : list (string * string)) : Eff L unit :=
  match cs with
  | [] => ret tt
  | c :: rest =>
      catch (executeAdminCall c.2 "bump_instance" [] ;; ret tt) (fun _ => ret tt) ;;
      bumpLoop rest
  end.

Definition bumpAllContractTTLs : Eff L unit := bumpLoop contracts.

Definition recalibrateStakingRate : Eff L unit :=
  catch (executeAdminCall Config.stakingContractId "recalibrate_rate" [] ;; ret tt)
        (fun _ => ret tt).




End Bot.


(** The admin invocations of a run. *)
Definition submitted (acts : list Action) : list ContractCall :=
  omap (fun a => match a with Submit call => Some call | _ => None end) acts.

End Keeper.

(* ===================================================================== *)
(** ** leverage-engine/index.ts: LeverageEngine *)
(* ===================================================================== *)

(** The arithmetic that the simulator uses.  The program runs on
    [binary64]; [exact] is the same arithmetic without rounding, on the
    rationals. *)
Class Arith (N : Type) : Type :=
  { lit : Z -> N;
    plus : N -> N -> N;
    minus : N -> N -> N;
    times : N -> N -> N;
    over : N -> N -> N;
    less : N -> N -> bool }.

#[global] Instance binary64 : Arith number :=
  {| lit := ofBigInt; plus := add; minus := sub; times := mul; over := div; less := ltb |}.

#[global] Instance exact : Arith Q :=
  {| lit := inject_Z; plus := Qplus; minus := Qminus; times := Qmult; over := Qdiv;
     less := fun x y => negb (Qle_bool y x) |}.

Module LeverageEngine.

Section Simulate.
Context {N : Type} `{Arith N}.

Record LeverageSimulationInput : Type := mkInput
  { principal : N;
    loops : N;
    collateralFactor : N;
    stakingAPR : N;
    borrowAPR : N }.

Record LeverageLoopDetail : Type := mkDetail
  { loop : N;
    deposited : N;
    borrowed : N;
    detailTotalStaked : N;
    detailTotalBorrowed : N }.

Record LeverageSimulationResult : Type := mkResult
  { maxLeverage : N;
    effectiveLeverage : N;
    totalStaked : N;
    totalBorrowed : N;
    netYieldPercent : N;
    grossYield : N;
    borrowCost : N;
    netYield : N;
    loopDetailsOf : list LeverageLoopDetail }.

(** The variables that the loop updates. *)
Record LoopState : Type := mkState
  { stTotalStaked : N;
    stTotalBorrowed : N;
    currentDeposit : N;
    loopDetails : list LeverageLoopDetail }.

Definition loopBody (cf : N) (i : N) (st : LoopState) : LoopState :=
  let totalStaked := plus (stTotalStaked st) (currentDeposit st) in
  let borrowed := times (currentDeposit st) cf in
  let totalBorrowed := plus (stTotalBorrowed st) borrowed in
  mkState totalStaked totalBorrowed borrowed
    (loopDetails st ++
       [mkDetail (plus i (lit 1)) (currentDeposit st) borrowed totalStaked totalBorrowed]).

(** [for (let i = 0; i < loops; i++) body], with fuel: [None] when the
    fuel does not suffice. *)
Fixpoint forLoop (fuel : nat) (loops cf : N) (i : N) (st : LoopState) : option LoopState :=
  match fuel with
  | O => None
  | S fuel' =>
      if less i loops then forLoop fuel' loops cf (plus i (lit 1)) (loopBody cf i st)
      else Some st
  end.

(** The engine has no field: [this] is the empty object. *)
Definition simulate (fuel : nat) (this : unit) (input : LeverageSimulationInput)
    : option LeverageSimulationResult :=
  let maxLeverage := over (lit 1) (minus (lit 1) (collateralFactor input)) in
  match forLoop fuel (loops input) (collateralFactor input) (lit 0)
          (mkState (lit 0) (lit 0) (principal input) []) with
  | None => None
  | Some st =>
      let totalStaked := stTotalStaked st in
      let totalBorrowed := stTotalBorrowed st in
      let effectiveLeverage := over totalStaked (principal input) in
      let grossYield := times totalStaked (stakingAPR input) in
      let borrowCost := times totalBorrowed (borrowAPR input) in
      let netYield := minus grossYield borrowCost in
      let netYieldPercent := times (over netYield (principal input)) (lit 100) in
      Some (mkResult maxLeverage effectiveLeverage totalStaked totalBorrowed
              netYieldPercent grossYield borrowCost netYield (loopDetails st))
  end.

End Simulate.

Arguments LeverageSimulationInput N : clear implicits.
Arguments LeverageSimulationResult N : clear implicits.
Arguments LeverageLoopDetail N : clear implicits.
Arguments LoopState N : clear implicits.

(** Enough fuel for the 20 loops that the gateway accepts. *)
Definition fuel : nat := 32.

End LeverageEngine.

(* ===================================================================== *)
(** ** restaking-engine/index.ts: RestakingEngine *)
(* ===================================================================== *)

Module RestakingEngine.

Record RestakingLoopStep : Type := mkStep
  { step : number;
    action : string;
    stepAmount : number;
    stepTotalStaked : number;
    stepTotalBorrowed : number;
    stepHealthFactor : number }.

Record RestakingSimulationResult : Type := mkResult
  { initialDeposit : number;
    resultLoops : number;
    totalStaked : number;
    totalBorrowed : number;
    effectiveLeverage : number;
    estimatedNetAPR : number;
    healthFactor : number;
    steps : list RestakingLoopStep }.

(** The engine object: its only field is the database client. *)
Record Engine : Type := mkEngine { prisma : Table }.

Record LoopState : Type := mkState
  { stTotalStaked : number;
    stTotalBorrowed : number;
    currentAmount : number;
    stSteps : list RestakingLoopStep }.

Definition n3 : number := ofBigInt 3.
Definition n2 : number := ofBigInt 2.

(** [totalBorrowed > 0 ? (totalStaked * collateralFactor) / totalBorrowed : Infinity] *)
Definition healthOf (totalStaked totalBorrowed collateralFactor : number) : number :=
  if gtb totalBorrowed zero then div (mul totalStaked collateralFactor) totalBorrowed
  else infinity.

Definition loopBody (collateralFactor : number) (i : number) (st : LoopState) : LoopState :=
  let totalStaked := add (stTotalStaked st) (currentAmount st) in
  let totalBorrowed := stTotalBorrowed st in
  let s1 := mkStep (add (mul i n3) one) "stake" (currentAmount st) totalStaked totalBorrowed
              (healthOf totalStaked totalBorrowed collateralFactor) in
  let s2 := mkStep (add (mul i n3) n2) "deposit_collateral" (currentAmount st) totalStaked
              totalBorrowed (healthOf totalStaked totalBorrowed collateralFactor) in
  let borrowAmount := mul (currentAmount st) collateralFactor in
  let totalBorrowed' := add totalBorrowed borrowAmount in
  let hf := div (mul totalStaked collateralFactor) totalBorrowed' in
  let s3 := mkStep (add (mul i n3) n3) "borrow" borrowAmount totalStaked totalBorrowed' hf in
  mkState totalStaked totalBorrowed' borrowAmount (stSteps st ++ [s1; s2; s3]).

Fixpoint forLoop (fuel : nat) (loops cf : number) (i : number) (st : LoopState)
    : option LoopState :=
  match fuel with
  | O => None
  | S fuel' =>
      if ltb i loops then forLoop fuel' loops cf (add i one) (loopBody cf i st)
      else Some st
  end.

(** [simulate(principal, loops, collateralFactor = 0.7, stakingAPR = 0.06,
    borrowAPR = 0.04)]; an omitted argument is [None]. *)
Definition simulate (fuel : nat) (this : Engine) (principal loops : number)
    (collateralFactor stakingAPR borrowAPR : option number)
    : option RestakingSimulationResult :=
  let collateralFactor := default n0_7 collateralFactor in
  let stakingAPR := default n0_06 stakingAPR in
  let borrowAPR := default n0_04 borrowAPR in
  match forLoop fuel loops collateralFactor zero (mkState zero zero principal []) with
  | None => None
  | Some st =>
      let totalStaked := stTotalStaked st in
      let totalBorrowed := stTotalBorrowed st in
      let effectiveLeverage := div totalStaked principal in
      let grossYield := mul totalStaked stakingAPR in
      let borrowCost := mul totalBorrowed borrowAPR in
      let netAPR := mul (div (sub grossYield borrowCost) principal) n100 in
      let finalHF := healthOf totalStaked totalBorrowed collateralFactor in
      Some (mkResult principal loops totalStaked totalBorrowed effectiveLeverage
              netAPR finalHF (stSteps st))
  end.

End RestakingEngine.

(* ===================================================================== *)
(** ** The simulators on the store of objects *)
(* ===================================================================== *)

(** The two [simulate] methods once more, with the objects that they handle
    where ECMAScript has them: in a store, by reference.  The engine is an
    object ([this]); the leverage simulator is given its input as an
    object; both simulators make an array, fill it with [push] and return
    it inside their result. *)
Module Store.

Inductive Obj : Type :=
| LeverageEngineObj                               (* the class has no field *)
| RestakingEngineObj (prisma : Table)             (* [this.prisma] *)
| InputObj (input : LeverageEngine.LeverageSimulationInput number)
| DetailArray (items : list (LeverageEngine.LeverageLoopDetail number))
| StepArray (items : list RestakingEngine.RestakingLoopStep).

(** The store, by object identity. *)
Abbreviation Heap := (gmap positive Obj).

(** Programs on the store; [None] when the fuel of a loop runs out, or
    when an object is not of the type that the source declares for it. *)
Definition M (A : Type) : Type := Heap -> option (A * Heap).

Definition ret {A} (a : A) : M A := fun h => Some (a, h).

Definition bind {A B} (m : M A) (k : A -> M B) : M B :=
  fun h => match m h with
           | Some (a, h') => k a h'
           | None => None
           end.

(** A new object. *)
Definition alloc (o : Obj) : M positive :=
  fun h => let l := fresh (dom h) in Some (l, <[l := o]> h).

(** [const { principal, loops, ... } = input] *)
Definition readInput (input : positive)
    : M (LeverageEngine.LeverageSimulationInput number) :=
  fun h => match h !! input with
           | Some (InputObj i) => Some (i, h)
           | _ => None
           end.

(** [loopDetails.push(detail)] and [steps.push(step)] *)
Definition pushDetail (array : positive) (detail : LeverageEngine.LeverageLoopDetail number)
    : M unit :=
  fun h => match h !! array with
           | Some (DetailArray items) => Some (tt, <[array := DetailArray (items ++ [detail])]> h)
           | _ => None
           end.

Definition pushStep (array : positive) (step : RestakingEngine.RestakingLoopStep) : M unit :=
  fun h => match h !! array with
           | Some (StepArray items) => Some (tt, <[array := StepArray (items ++ [step])]> h)
           | _ => None
           end.

End Store.

Module LeverageEngineStore.

(** The result object; [loops] is the array of the loop details. *)
Record LeverageSimulationResult : Type := mkResult
  { maxLeverage : number;
    effectiveLeverage : number;
    totalStaked : number;
    totalBorrowed : number;
    netYieldPercent : number;
    grossYield : number;
    borrowCost : number;
    netYield : number;
    loops : positive }.

(** The [let] variables of [simulate]. *)
Record Locals : Type := mkLocals
  { varTotalStaked : number;
    varTotalBorrowed : number;
    varCurrentDeposit : number }.

Definition loopBody (collateralFactor : number) (loopDetails : positive) (i : number)
    (v : Locals) : Store.M Locals :=
  let totalStaked := plus (varTotalStaked v) (varCurrentDeposit v) in
  let borrowed := times (varCurrentDeposit v) collateralFactor in
  let totalBorrowed := plus (varTotalBorrowed v) borrowed in
  Store.bind
    (Store.pushDetail loopDetails
       (LeverageEngine.mkDetail (plus i (lit 1)) (varCurrentDeposit v) borrowed totalStaked
          totalBorrowed))
    (fun _ => Store.ret (mkLocals totalStaked totalBorrowed borrowed)).

Fixpoint forLoop (fuel : nat) (loops collateralFactor : number) (loopDetails : positive)
    (i : number) (v : Locals) : Store.M Locals :=
  match fuel with
  | O => fun _ => None
  | S fuel' =>
      if less i loops
      then Store.bind (loopBody collateralFactor loopDetails i v)
             (forLoop fuel' loops collateralFactor loopDetails (plus i (lit 1)))
      else Store.ret v
  end.

(** [simulate(input)] of the engine [this] *)
Definition simulate (fuel : nat) (this input : positive) : Store.M LeverageSimulationResult :=
  Store.bind (Store.readInput input) (fun given =>
  let principal := LeverageEngine.principal given in
  let collateralFactor := LeverageEngine.collateralFactor given in
  let maxLeverage := over (lit 1) (minus (lit 1) collateralFactor) in
  Store.bind (Store.alloc (Store.DetailArray [])) (fun loopDetails =>
  Store.bind (forLoop fuel (LeverageEngine.loops given) collateralFactor loopDetails (lit 0)
                (mkLocals (lit 0) (lit 0) principal)) (fun v =>
  let totalStaked := varTotalStaked v in
  let totalBorrowed := varTotalBorrowed v in
  let effectiveLeverage := over totalStaked principal in
  let grossYield := times totalStaked (LeverageEngine.stakingAPR given) in
  let borrowCost := times totalBorrowed (LeverageEngine.borrowAPR given) in
  let netYield := minus grossYield borrowCost in
  let netYieldPercent := times (over netYield principal) (lit 100) in
  Store.ret (mkResult maxLeverage effectiveLeverage totalStaked totalBorrowed netYieldPercent
               grossYield borrowCost netYield loopDetails)))).

End LeverageEngineStore.

Module RestakingEngineStore.

(** The result object; [steps] is the array of the steps. *)
Record RestakingSimulationResult : Type := mkResult
  { initialDeposit : number;
    resultLoops : number;
    totalStaked : number;
    totalBorrowed : number;
    effectiveLeverage : number;
    estimatedNetAPR : number;
    healthFactor : number;
    steps : positive }.

(** The [let] variables of [simulate]. *)
Record Locals : Type := mkLocals
  { varTotalStaked : number;
    varTotalBorrowed : number;
    varCurrentAmount : number }.

Definition loopBody (collateralFactor : number) (steps : positive) (i : number)
    (v : Locals) : Store.M Locals :=
  (* Step 1: Stake XLM -> get sXLM *)
  let totalStaked := add (varTotalStaked v) (varCurrentAmount v) in
  let totalBorrowed := varTotalBorrowed v in
  Store.bind
    (Store.pushStep steps
       (RestakingEngine.mkStep (add (mul i RestakingEngine.n3) one) "stake"
          (varCurrentAmount v) totalStaked totalBorrowed
          (RestakingEngine.healthOf totalStaked totalBorrowed collateralFactor))) (fun _ =>
  (* Step 2: Deposit sXLM as collateral *)
  Store.bind
    (Store.pushStep steps
       (RestakingEngine.mkStep (add (mul i RestakingEngine.n3) RestakingEngine.n2)
          "deposit_collateral" (varCurrentAmount v) totalStaked totalBorrowed
          (RestakingEngine.healthOf totalStaked totalBorrowed collateralFactor))) (fun _ =>
  (* Step 3: Borrow XLM against collateral *)
  let borrowAmount := mul (varCurrentAmount v) collateralFactor in
  let totalBorrowed' := add totalBorrowed borrowAmount in
  let hf := div (mul totalStaked collateralFactor) totalBorrowed' in
  Store.bind
    (Store.pushStep steps
       (RestakingEngine.mkStep (add (mul i RestakingEngine.n3) RestakingEngine.n3) "borrow"
          borrowAmount totalStaked totalBorrowed' hf)) (fun _ =>
  Store.ret (mkLocals totalStaked totalBorrowed' borrowAmount)))).

Fixpoint forLoop (fuel : nat) (loops collateralFactor : number) (steps : positive)
    (i : number) (v : Locals) : Store.M Locals :=
  match fuel with
  | O => fun _ => None
  | S fuel' =>
      if ltb i loops
      then Store.bind (loopBody collateralFactor steps i v)
             (forLoop fuel' loops collateralFactor steps (add i one))
      else Store.ret v
  end.

(** [simulate(principal, loops, collateralFactor = 0.7, stakingAPR = 0.06,
    borrowAPR = 0.04)] of the engine [this]; an omitted argument is
    [None]. *)
Definition simulate (fuel : nat) (this : positive) (principal loops : number)
    (collateralFactor stakingAPR borrowAPR : option number)
    : Store.M RestakingSimulationResult :=
  let collateralFactor := default n0_7 collateralFactor in
  let stakingAPR := default n0_06 stakingAPR in
  let borrowAPR := default n0_04 borrowAPR in
  Store.bind (Store.alloc (Store.StepArray [])) (fun steps =>
  Store.bind (forLoop fuel loops collateralFactor steps zero (mkLocals zero zero principal))
    (fun v =>
  let totalStaked := varTotalStaked v in
  let totalBorrowed := varTotalBorrowed v in
  let effectiveLeverage := div totalStaked principal in
  let grossYield := mul totalStaked stakingAPR in
  let borrowCost := mul totalBorrowed borrowAPR in
  let netAPR := mul (div (sub grossYield borrowCost) principal) n100 in
  let finalHF := RestakingEngine.healthOf totalStaked totalBorrowed collateralFactor in
  Store.ret (mkResult principal loops totalStaked totalBorrowed effectiveLeverage netAPR
               finalHF steps))).

End RestakingEngineStore.

(* ===================================================================== *)
(** ** api-gateway/routes: the other lending routes *)
(* ===================================================================== *)

Module LendingRoutes.

Inductive Reply : Type :=
| InsufficientSxlm (sxlmBalance : Z)   (* 400, "Insufficient sXLM balance. ..." *)
| Failed (message : string)            (* 400, from the catch block *)
| Built (xdr : ContractCall).

(** Bodies accepted by [liquidateSchema]: two 56-character addresses. *)
Record LiquidateBody : Type := mkLiquidate
  { liquidatorAddress : string; borrowerAddress : string }.

Definition liquidateSchemaAccepts (body : LiquidateBody) : bool :=
  (String.length (liquidatorAddress body) =? 56)%nat
  && (String.length (borrowerAddress body) =? 56)%nat.

Section Routes.
Context {L : Ledger}.

(** POST /lending/deposit-collateral *)
Definition depositCollateral (body : Gateway.AmountBody) : Eff L Reply :=
  catch
    (Gateway.parse body ;;
     do stroops <- bigIntFloor (mul (Gateway.amount body) n1e7);
     (* Pre-flight: check user has enough sXLM before simulating *)
     do addr <- toAddress (Gateway.userAddress body);
     do sxlmRaw <- Gateway.queryContractView Config.sxlmTokenContractId "balance" [addr];
     let sxlmBalance := default 0 sxlmRaw in
     if sxlmBalance <? stroops then ret (InsufficientSxlm sxlmBalance)
     else
       do addr' <- toAddress (Gateway.userAddress body);
       do xdr <- Gateway.buildContractTx Config.lendingContractId "deposit_collateral"
                   [addr'; ScI128 stroops] (Gateway.userAddress body);
       ret (Built xdr))
    (fun err => ret (Failed (messageOf err))).

(** POST /lending/withdraw-collateral and POST /lending/repay: the two
    routes differ by the method that they invoke. *)
Definition amountRoute (method : string) (body : Gateway.AmountBody) : Eff L Reply :=
  catch
    (Gateway.parse body ;;
     do stroops <- bigIntFloor (mul (Gateway.amount body) n1e7);
     do addr <- toAddress (Gateway.userAddress body);
     do xdr <- Gateway.buildContractTx Config.lendingContractId method
                 [addr; ScI128 stroops] (Gateway.userAddress body);
     ret (Built xdr))
    (fun err => ret (Failed (messageOf err))).

Definition withdrawCollateral : Gateway.AmountBody -> Eff L Reply :=
  amountRoute "withdraw_collateral".

Definition repay : Gateway.AmountBody -> Eff L Reply := amountRoute "repay".

(** POST /lending/liquidate *)
Definition liquidate (body : LiquidateBody) : Eff L Reply :=
  catch
    ((if liquidateSchemaAccepts body then ret tt else throw "ZodError") ;;
     do liquidator <- toAddress (liquidatorAddress body);
     do borrower <- toAddress (borrowerAddress body);
     do xdr <- Gateway.buildContractTx Config.lendingContractId "liquidate"
                 [liquidator; borrower] (liquidatorAddress body);
     ret (Built xdr))
    (fun err => ret (Failed (messageOf err))).

End Routes.

End LendingRoutes.


(* ===================================================================== *)
(** ** staking-engine/index.ts: the admin operations *)
(* ===================================================================== *)

Module StakingAdmin.

Section Admin.
Context {L : Ledger}.

(** [applySlashing(slashAmountStroops)]; the event is published without
    its timestamp. *)
Definition applySlashing (slashAmountStroops : Z) : Eff L string :=
  do result <- ContractClient.callApplySlashing slashAmountStroops;
  catch (ContractClient.callRecalibrateRate ;; ret tt) (fun _ => ret tt) ;;
  publishEvent (SlashingApplied slashAmountStroops "admin") ;;
  ret result.

Definition pause : Eff L string := ContractClient.callPause.
Definition unpause : Eff L string := ContractClient.callUnpause.

End Admin.

End StakingAdmin.

(* ===================================================================== *)
(** ** staking-engine/delegationManager.ts *)
(* ===================================================================== *)

Module DelegationManager.

(** The rows of the [validators] table, by [pubkey]. *)
Record Validator : Type := mkValidator
  { allocatedStake : Z;
    performanceScore : number;
    uptime : number }.

Abbreviation Validators := (gmap string Validator).

Definition decrement (deduction : Z) (v : Validator) : Validator :=
  mkValidator (allocatedStake v - deduction) (performanceScore v) (uptime v).

(** [orderBy: { performanceScore: "asc" }] *)
Definition scoreBefore (r1 r2 : string * Validator) : Prop :=
  leb (performanceScore r1.2) (performanceScore r2.2) = true.

#[global] Instance scoreBefore_dec : RelDecision scoreBefore.
Proof. intros r1 r2. unfold scoreBefore. apply _. Defined.

(** [findMany({ where: { allocatedStake: { gt: 0 } },
                orderBy: { performanceScore: "asc" } })] *)
Definition staked (db : Validators) : list (string * Validator) :=
  merge_sort scoreBefore
    (filter (fun r => 0 < allocatedStake r.2) (map_to_list db)).

(** The loop of [deallocateWithdrawal] over the validators that it read. *)
Fixpoint deallocateLoop (validators : list (string * Validator)) (remaining : Z)
    (db : Validators) : Validators :=
  match validators with
  | [] => db
  | (pubkey, v) :: rest =>
      if remaining <=? 0 then db
      else
        let deduction :=
          if remaining <? allocatedStake v then remaining else allocatedStake v in
        deallocateLoop rest (remaining - deduction) (alter (decrement deduction) pubkey db)
  end.

(** [deallocateWithdrawal(xlmAmountStroops)] *)
Definition deallocateWithdrawal (xlmAmountStroops : Z) (db : Validators) : Validators :=
  let validators := staked db in
  if (length validators =? 0)%nat then db
  else deallocateLoop validators xlmAmountStroops db.

End DelegationManager.

(* ===================================================================== *)
(** ** leverage-engine/index.ts: [optimal] *)
(* ===================================================================== *)

Module LeverageOptimal.

Record OptimalLeverageResult : Type := mkOptimal
  { collateralFactor : number;
    maxLeverage : number;
    optimalLoops : number;
    stakingAPR : number;
    borrowAPR : number;
    netYieldPercent : number }.

Definition n20 : number := ofBigInt 20.
Definition n1000 : number := ofBigInt 1000.

Definition simulateAt (loops cf sAPR bAPR : number)
    : option (LeverageEngine.LeverageSimulationResult number) :=
  LeverageEngine.simulate LeverageEngine.fuel tt
    (LeverageEngine.mkInput n1000 loops cf sAPR bAPR).

(** [for (let loops = 1; loops <= 20; loops++)], with fuel; the result is
    [bestLoops] when the loop ends. *)
Fixpoint searchLoop (fuel : nat) (cf sAPR bAPR : number) (loops bestLoops prevNetYield : number)
    : option number :=
  match fuel with
  | O => None
  | S fuel' =>
      if leb loops n20 then
        match simulateAt loops cf sAPR bAPR with
        | None => None
        | Some result =>
            if gtb loops one
               && ltb (sub (LeverageEngine.netYield result) prevNetYield) one
            then Some bestLoops
            else searchLoop fuel' cf sAPR bAPR (add loops one) loops
                   (LeverageEngine.netYield result)
        end
      else Some bestLoops
  end.

(** [optimal(stakingAPR = 0.06, borrowAPR = 0.04, collateralFactor = 0.7)];
    an omitted argument is [None]. *)
Definition optimal (fuel : nat) (stakingAPR borrowAPR collateralFactor : option number)
    : option OptimalLeverageResult :=
  let stakingAPR := default n0_06 stakingAPR in
  let borrowAPR := default n0_04 borrowAPR in
  let collateralFactor := default n0_7 collateralFactor in
  let maxLeverage := div one (sub one collateralFactor) in
  match searchLoop fuel collateralFactor stakingAPR borrowAPR one one zero with
  | None => None
  | Some bestLoops =>
      match simulateAt bestLoops collateralFactor stakingAPR borrowAPR with
      | None => None
      | Some finalResult =>
          Some (mkOptimal collateralFactor maxLeverage bestLoops stakingAPR borrowAPR
                  (LeverageEngine.netYieldPercent finalResult))
      end
  end.

End LeverageOptimal.

(* ===================================================================== *)
(** * Vocabulary of the properties *)
(* ===================================================================== *)

(** *** Rounding to the nearest binary64 number *)

(** The position of [N / D] between two integers, and rounding to the
    nearest integer, ties to even. *)
Definition locZ (N D : Z) : location :=
  if N mod D =? 0 then loc_Exact else loc_Inexact (Z.compare (2 * (N mod D)) D).

Definition rneZ (N D : Z) : Z := round_nearest_even (N / D) (locZ N D).

(** The float with mantissa [k], where [2^52 <= k <= 2^53], at exponent [E]. *)
Definition mkFloat (s : bool) (k E : Z) : number :=
  if k <? 2 ^ 53 then S754_finite s (Z.to_pos k) E
  else S754_finite s (Z.to_pos (2 ^ 52)) (E + 1).

(** [k] is the integer nearest to [y], the even one on a tie. *)
Definition nearestEven (y : Q) (k : Z) : Prop :=
  (Qabs (inject_Z k - y) <= 1 # 2)%Q /\
  ((Qabs (inject_Z k - y) == 1 # 2)%Q -> Z.even k = true).

(** [f] is the positive normal binary64 number nearest to [X > 0]. *)
Definition rounds (X : Q) (f : number) : Prop :=
  exists k E,
    f = mkFloat false k E /\ (-1074 <= E <= 970)%Z /\
    (inject_Z (2 ^ 52) * pow2 E <= X)%Q /\ (X < inject_Z (2 ^ 53) * pow2 E)%Q /\
    nearestEven (X / pow2 E) k.

(** [v] is [q] up to [k] roundings: [q (1-u)^k <= v <= q / (1-u)^k]. *)
Definition near (k : nat) (q v : Q) : Prop :=
  (0 < q /\ q * (1 - u) ^ Z.of_nat k <= v /\ v * (1 - u) ^ Z.of_nat k <= q)%Q.


(** The number of stroops of a request, when it has one. *)
Definition stroopsOf (amount : number) : option Z :=
  toBigInt (Math_floor (mul amount n1e7)).

(** What a route answers, without the rate cache that it leaves. *)
Definition reply {L : Ledger} {A B : Type} (m : Eff L (A * B)) (w : world L) : Thrown + A :=
  match result m w with
  | inl e => inl e
  | inr r => inr r.1
  end.

(** The end of the unstake route, after the simulation: the read of the
    exchange rate, the record of the withdrawal and the reply. *)
Definition unstakeBuilds {L : Ledger} (rates : RateCache.Manager) (clock : Z * Z) (now : Z)
    (hasPrisma : bool) (body : Gateway.AmountBody) (stroops : Z) (withdrawOp : ContractCall)
    (s : world L * list Action)
    : (Thrown + Gateway.UnstakeReply * RateCache.Manager) * (world L * list Action) :=
  match Gateway.getExchangeRate rates clock s with
  | (inl err, s1) => (inr (Gateway.UnstakeFailed (messageOf err), rates), s1)
  | (inr read, s1) =>
      let unlockTime := now + Config.unbondingPeriodMs in
      (inr (Gateway.UnstakeBuilt withdrawOp (toFixed7 (mul (Gateway.amount body) read.1))
              read.1 unlockTime, read.2),
       if hasPrisma
       then ((database L s1.1).2,
             s1.2 ++ [DbCreateWithdrawal (Gateway.userAddress body) stroops unlockTime])
       else s1)
  end.

(** The view that [getExchangeRate()] of the contract client simulates, and
    what a read of the rate may do to the ledger: nothing when the cache
    answers, else the load of the admin account and the simulation. *)
Definition exchangeRateView : ContractCall :=
  mkCall Config.stakingContractId "get_exchange_rate" [].

Definition rateReadActions (new : list Action) : Prop :=
  new = [] \/ new = [GetAccount Config.adminPublicKey] \/
  new = [GetAccount Config.adminPublicKey; Simulate Config.adminPublicKey exchangeRateView].

(** The answer of the handler of the stake route to a thrown message. *)
Definition stakeCaught (rawMsg : string) : Gateway.StakeReply :=
  Gateway.StakeFailed (if includes "account not found" (toLowerCase rawMsg)
                       then Gateway.friendbotMessage else rawMsg).

(** The end of the stake route, after the simulation: the two reads of the
    exchange rate and the reply. *)
Definition stakeBuilds {L : Ledger} (rates : RateCache.Manager) (clock : nat -> Z * Z)
    (body : Gateway.AmountBody) (depositOp : ContractCall) (s : world L * list Action)
    : (Thrown + Gateway.StakeReply * RateCache.Manager) * (world L * list Action) :=
  match Gateway.getExchangeRate rates (clock 0%nat) s with
  | (inl err, s1) => (inr (stakeCaught (messageOf err), rates), s1)
  | (inr first, s1) =>
      match Gateway.getExchangeRate first.2 (clock 1%nat) s1 with
      | (inl err, s2) => (inr (stakeCaught (messageOf err), rates), s2)
      | (inr second, s2) =>
          (inr (Gateway.StakeBuilt depositOp
                  (toFixed7 (div (Gateway.amount body) first.1)) second.1, second.2), s2)
      end
  end.

(** [1] XLM and [0.9999999] XLM as request amounts. *)
Definition oneXlm : number := one.
Definition justBelowOneXlm : number := div (ofBigInt 9999999) n1e7.

(** Whether a run simulates or submits an invocation of [method]. *)
Definition invokes (method : string) (acts : list Action) : bool :=
  existsb (fun a => match a with
                    | Simulate _ call | Submit call => String.eqb (callMethod call) method
                    | _ => false
                    end) acts.

Definition unstakeError (r : Gateway.UnstakeReply) : bool :=
  match r with Gateway.UnstakeBuilt _ _ _ _ => false | _ => true end.

Definition lendingError (r : Gateway.LendingReply) : bool :=
  match r with Gateway.LendingBuilt _ => false | _ => true end.

(** Whether a simulation succeeded with a result, which
    [rpc.assembleTransaction] reads. *)
Definition hasResult (simResult : Simulation) : bool :=
  match simResult with
  | SimSuccess (Some _) | SimRestore (Some _) => true
  | _ => false
  end.

(** The invocations that the routes of the gateway build. *)
Definition builtMethods : list string :=
  ["deposit"; "request_withdrawal"; "deposit_collateral"; "withdraw_collateral"; "borrow";
   "repay"; "liquidate"].

(** A small ledger to run the services on: its state is the interest
    accrued on the lending contract, which [harvest_interest] empties; every
    account exists, an sXLM balance is 5 XLM and the lending pool holds
    2 XLM; the simulation of an invocation that a route builds succeeds
    with a result. *)
Definition demoLedger : Ledger :=
  {| world := Z;
     addressValid := fun _ => true;
     accountFound := fun _ _ => true;
     simulate := fun w _ call =>
       if String.eqb (callMethod call) "total_accrued_interest" then SimSuccess (Some w)
       else if String.eqb (callMethod call) "balance" then SimSuccess (Some 50000000)
       else if String.eqb (callMethod call) "get_pool_balance" then SimSuccess (Some 20000000)
       else if existsb (String.eqb (callMethod call)) builtMethods then SimSuccess (Some 0)
       else SimSuccess None;
     submit := fun w call =>
       if String.eqb (callMethod call) "harvest_interest" then (inr "tx", 0)
       else (inr "tx", w);
     publish := fun _ _ => true;
     database := fun w => (None, w) |}.

(** A well-formed account address (one of the validators of [prisma/seed.ts]). *)
Definition demoAddress : string := "GCCD6AJOYZCUAQLX32ZJF2MKFFAUJ53PVCFQI3RHWKL3V47QYE2BNAUT".

(** A rate cache that holds the rate 1.0, fetched at time 0, and a clock
    that stands at one second. *)
Definition demoRates : RateCache.Manager :=
  RateCache.mkManager (Some (RateCache.mkCached one 0)) false.

Definition demoClock : nat -> Z * Z := fun _ => (1000, 1000).



Definition accruedInterestView : ContractCall :=
  mkCall Config.lendingContractId "total_accrued_interest" [].

Definition harvestInterestCall : ContractCall :=
  mkCall Config.lendingContractId "harvest_interest" [].

(** A table with a pending withdrawal whose unlock time has passed at time
    100, and a completed one. *)
Definition demoTable : Table :=
  {[ 1 := mkWithdrawal demoAddress 30000000 Pending 50 10;
     2 := mkWithdrawal demoAddress 70000000 Completed 60 20 ]}.

(** The number of iterations of [for (let i = i0; i < loops; i++)]. *)
Fixpoint tripCount {N : Type} `{Arith N} (fuel : nat) (loops i : N) : option nat :=
  match fuel with
  | O => None
  | S fuel' =>
      if less i loops then option_map S (tripCount fuel' loops (plus i (lit 1)))
      else Some O
  end.

(** [n] iterations of the body of the leverage loop, from counter [i]. *)
Fixpoint leverageIter {N : Type} `{Arith N} (cf : N) (n : nat) (i : N)
    (st : LeverageEngine.LoopState N) : LeverageEngine.LoopState N :=
  match n with
  | O => st
  | S n' => leverageIter cf n' (plus i (lit 1)) (LeverageEngine.loopBody cf i st)
  end.

(** [n] iterations of the body of the restaking loop, from counter [i]. *)
Fixpoint restakingIter (cf : number) (n : nat) (i : number)
    (st : RestakingEngine.LoopState) : RestakingEngine.LoopState :=
  match n with
  | O => st
  | S n' => restakingIter cf n' (add i one) (RestakingEngine.loopBody cf i st)
  end.

(** The deposit of loop [n] and the totals after [n] loops, as the loop
    computes them. *)
Fixpoint depositAt {N : Type} `{Arith N} (p cf : N) (n : nat) : N :=
  match n with
  | O => p
  | S n' => times (depositAt p cf n') cf
  end.

Fixpoint stakedAfter {N : Type} `{Arith N} (p cf : N) (n : nat) : N :=
  match n with
  | O => lit 0
  | S n' => plus (stakedAfter p cf n') (depositAt p cf n')
  end.

Fixpoint borrowedAfter {N : Type} `{Arith N} (p cf : N) (n : nat) : N :=
  match n with
  | O => lit 0
  | S n' => plus (borrowedAfter p cf n') (times (depositAt p cf n') cf)
  end.

(** *** Statements of the specification that the programs do not meet *)

(** "[computeExchangeRate] returns [staked / supply] exactly, using
    10^7-scaled integer division, and the 1:1 rate for an empty supply":
    put on the 10^7 scale, the returned rate is that integer. *)
Definition rateIsScaledIntegerDivision (staked supply : Z) : Prop :=
  (toQ (computeExchangeRate staked supply) * inject_Z (10 ^ 7) ==
   inject_Z (if supply =? 0 then 10 ^ 7 else staked * 10 ^ 7 / supply))%Q.


(** "Converting [x] to sXLM and back loses at most one stroop per
    conversion and never gives more than [x]". *)
Definition roundTripLosesAtMostTwo (x : Z) (r : number) : Prop :=
  exists y z, xlmToSxlm x r = Some y /\ sxlmToXlm y r = Some z /\ z <= x /\ x - z <= 2.

(** "The max borrow is [collateral * er * cf / (10000 * 10^7)] in integer
    math with floor". *)
Definition maxBorrowIsFloored (collateral cfBps er : Z) : Prop :=
  (toQ (Gateway.maxBorrowStroops collateral (Some cfBps) (Some er)) ==
   inject_Z (collateral * er * cfBps / (10000 * 10 ^ 7)))%Q.

(** The leverage that the simulator returns for [n] loops, and the maximal
    leverage that it returns. *)
Definition leverageAfter (p cf : number) (n : Z) : option number :=
  option_map LeverageEngine.effectiveLeverage
    (LeverageEngine.simulate LeverageEngine.fuel tt
       (LeverageEngine.mkInput p (ofBigInt n) cf n0_06 n0_04)).

Definition maxLeverageOf (cf : number) : number := div one (sub one cf).

(** "The effective leverage is strictly increasing in the number of loops
    and strictly below the max leverage". *)
Definition leverageStrictlyIncreasingBelowMax (p cf : number) (n : Z) : Prop :=
  exists l l', leverageAfter p cf n = Some l /\ leverageAfter p cf (n + 1) = Some l' /\
               ltb l l' = true /\ ltb l (maxLeverageOf cf) = true.

(** [0.12] *)
Definition n0_12 : number := S754_finite false 8646911284551352 (-56).



(** [c^n] and [1 + c + ... + c^(n-1)] on the rationals. *)
Fixpoint geometricTerm (c : Q) (n : nat) : Q :=
  match n with
  | O => 1
  | S n' => geometricTerm c n' * c
  end.

Fixpoint geometricSum (c : Q) (n : nat) : Q :=
  match n with
  | O => 0
  | S n' => geometricSum c n' + geometricTerm c n'
  end.

(** The database answers every call. *)
Definition databaseAnswers (L : Ledger) : Prop := forall w, (database L w).1 = None.

(** A ledger whose event bus is not connected.  Its state is the list of
    the withdrawals that were claimed: the staking contract pays a
    withdrawal once and fails with "already claimed" afterwards. *)
Definition deafBusLedger : Ledger :=
  {| world := list Z;
     addressValid := fun _ => true;
     accountFound := fun _ _ => true;
     simulate := fun _ _ _ => SimSuccess None;
     submit := fun w call =>
       match call with
       | mkCall _ "claim_withdrawal" [_; ScU64 id] =>
           if bool_decide (id ∈ w)
           then (inl "claim_withdrawal failed: withdrawal already claimed", w)
           else (inr "tx", id :: w)
       | _ => (inr "tx", w)
       end;
     publish := fun _ _ => false;
     database := fun w => (None, w) |}.

(** The admin invocation that claims withdrawal [id] of [wallet]. *)
Definition claimWithdrawalCall (wallet : string) (id : Z) : ContractCall :=
  mkCall Config.stakingContractId "claim_withdrawal" [ScAddress wallet; ScU64 id].

(** The [add_rewards] invocation of the keeper. *)
Definition addRewardsCall (amount : Z) : ContractCall :=
  mkCall Config.stakingContractId "add_rewards" [ScI128 amount].

(** Two more ledgers with the views of [demoLedger]: on the first every
    invocation fails and the event bus is down, on the second every
    invocation goes through but [harvest_interest] harvests nothing. *)
Definition brokenLedger : Ledger :=
  {| world := Z;
     addressValid := fun _ => true;
     accountFound := fun _ _ => true;
     simulate := simulate demoLedger;
     submit := fun w _ => (inl "tx failed", w);
     publish := fun _ _ => false;
     database := fun w => (None, w) |}.

Definition stuckLedger : Ledger :=
  {| world := Z;
     addressValid := fun _ => true;
     accountFound := fun _ _ => true;
     simulate := simulate demoLedger;
     submit := fun w _ => (inr "tx", w);
     publish := fun _ _ => true;
     database := fun w => (None, w) |}.

(** The view of the sXLM balance of [address], and the withdrawal request
    that the unstake route builds. *)
Definition balanceCall (address : string) : ContractCall :=
  mkCall Config.sxlmTokenContractId "balance" [ScAddress address].

Definition requestWithdrawalCall (address : string) (sxlmStroops : Z) : ContractCall :=
  mkCall Config.stakingContractId "request_withdrawal" [ScAddress address; ScI128 sxlmStroops].

(** A simulation error that says the balance entry is archived. *)
Definition saysArchived (e : string) : bool :=
  includes "EntryArchived" e || includes "MissingValue" e.

(** A ledger on which the balance entries are archived. *)
Definition archivedLedger : Ledger :=
  {| world := Z;
     addressValid := fun _ => true;
     accountFound := fun _ _ => true;
     simulate := fun _ _ call =>
       if String.eqb (callMethod call) "balance" then SimRestore None else SimSuccess None;
     submit := fun w _ => (inr "tx", w);
     publish := fun _ _ => true;
     database := fun w => (None, w) |}.

(** The invocation that an amount route of the lending contract builds. *)
Definition lendingCall (method address : string) (stroops : Z) : ContractCall :=
  mkCall Config.lendingContractId method [ScAddress address; ScI128 stroops].

(** A ledger on which every simulation of a user transaction traps. *)
Definition trappingLedger : Ledger :=
  {| world := Z;
     addressValid := fun _ => true;
     accountFound := fun _ _ => true;
     simulate := fun _ _ call =>
       if String.eqb (callMethod call) "balance" then SimSuccess (Some 50000000)
       else SimError "HostError: Error(WasmVm, InvalidAction) UnreachableCodeReached";
     submit := fun w _ => (inr "tx", w);
     publish := fun _ _ => true;
     database := fun w => (None, w) |}.

(** The value that a route reads from a view: [BigInt(raw ?? 0)]. *)
Definition viewValue (simResult : Simulation) : Z :=
  match simResult with
  | SimSuccess (Some v) | SimRestore (Some v) => v
  | _ => 0
  end.




Definition lendingBuilt (r : LendingRoutes.Reply) : bool :=
  match r with LendingRoutes.Built _ => true | _ => false end.

(** The test that [refreshRate] applies to a fetched rate:
    [rate <= 0 || !isFinite(rate)]. *)
Definition invalidRate (r : number) : bool := leb r zero || negb (isFinite r).

(** The cache holds no invalid rate. *)
Definition cacheIsValid (m : RateCache.Manager) : Prop :=
  forall c, RateCache.cachedRate m = Some c -> invalidRate (RateCache.rate c) = false.

(** A ledger whose staking contract reports the rate 1.05. *)
Definition ratedLedger : Ledger :=
  {| world := Z;
     addressValid := fun _ => true;
     accountFound := fun _ _ => true;
     simulate := fun _ _ call =>
       if String.eqb (callMethod call) "get_exchange_rate" then SimSuccess (Some 10500000)
       else SimSuccess None;
     submit := fun w _ => (inr "tx", w);
     publish := fun _ _ => true;
     database := fun w => (None, w) |}.

(** The events that a run publishes. *)
Definition published (acts : list Action) : list Event :=
  omap (fun a => match a with Publish event => Some event | _ => None end) acts.

Definition applySlashingCall (slashAmount : Z) : ContractCall :=
  mkCall Config.stakingContractId "apply_slashing" [ScI128 slashAmount].

Definition recalibrateRateCall : ContractCall :=
  mkCall Config.stakingContractId "recalibrate_rate" [].

(** The stake allocated to [pubkey] in a table (0 when it has no row), the
    stake of a list of rows as they were read, and as a table has them. *)
Definition stakeOf (db : DelegationManager.Validators) (pubkey : string) : Z :=
  from_option DelegationManager.allocatedStake 0 (db !! pubkey).

Fixpoint stakeRead (rows : list (string * DelegationManager.Validator)) : Z :=
  match rows with
  | [] => 0
  | r :: rest => DelegationManager.allocatedStake r.2 + stakeRead rest
  end.

Fixpoint stakeIn (db : DelegationManager.Validators)
    (rows : list (string * DelegationManager.Validator)) : Z :=
  match rows with
  | [] => 0
  | r :: rest => stakeOf db r.1 + stakeIn db rest
  end.

(** Three validators with stakes of 50, 30 and 0 XLM. *)
Definition demoValidators : DelegationManager.Validators :=
  {[ "GA" := DelegationManager.mkValidator 500000000 (ofBigInt 90) one;
     "GB" := DelegationManager.mkValidator 300000000 (ofBigInt 70) one;
     "GC" := DelegationManager.mkValidator 0 (ofBigInt 80) one ]}.

(** The net yield that the simulator returns for [j] loops on a principal
    of 1000, and the test of [optimal] on the marginal yield of loop [j]:
    [netYield(j) - netYield(j - 1) < 1]. *)
Definition netYieldAt (cf sAPR bAPR : number) (j : Z) : number :=
  from_option LeverageEngine.netYield zero
    (LeverageOptimal.simulateAt (ofBigInt j) cf sAPR bAPR).

Definition marginalBelowOne (cf sAPR bAPR : number) (j : Z) : bool :=
  ltb (sub (netYieldAt cf sAPR bAPR j) (netYieldAt cf sAPR bAPR (j - 1))) one.

(** The detail that the leverage simulator records for loop [k + 1]. *)
Definition detailOf (p cf : number) (k : nat) : LeverageEngine.LeverageLoopDetail number :=
  LeverageEngine.mkDetail (ofBigInt (Z.of_nat k + 1)) (depositAt p cf k)
    (depositAt p cf (S k)) (stakedAfter p cf (S k)) (borrowedAfter p cf (S k)).

(** The result of a simulator as a value: the result object together with
    the array that it refers to, read from the store. *)
Definition leverageValue (h : Store.Heap) (r : LeverageEngineStore.LeverageSimulationResult)
    : option (LeverageEngine.LeverageSimulationResult number) :=
  match h !! LeverageEngineStore.loops r with
  | Some (Store.DetailArray items) =>
      Some (LeverageEngine.mkResult
              (LeverageEngineStore.maxLeverage r) (LeverageEngineStore.effectiveLeverage r)
              (LeverageEngineStore.totalStaked r) (LeverageEngineStore.totalBorrowed r)
              (LeverageEngineStore.netYieldPercent r) (LeverageEngineStore.grossYield r)
              (LeverageEngineStore.borrowCost r) (LeverageEngineStore.netYield r) items)
  | _ => None
  end.

Definition restakingValue (h : Store.Heap)
    (r : RestakingEngineStore.RestakingSimulationResult)
    : option RestakingEngine.RestakingSimulationResult :=
  match h !! RestakingEngineStore.steps r with
  | Some (Store.StepArray items) =>
      Some (RestakingEngine.mkResult
              (RestakingEngineStore.initialDeposit r) (RestakingEngineStore.resultLoops r)
              (RestakingEngineStore.totalStaked r) (RestakingEngineStore.totalBorrowed r)
              (RestakingEngineStore.effectiveLeverage r) (RestakingEngineStore.estimatedNetAPR r)
              (RestakingEngineStore.healthFactor r) items)
  | _ => None
  end.

(** A run from the store [h] to the store [h'] has written to no object of
    [h]: the one difference is the object [l], new in [h']. *)
Definition onlyAllocates (h h' : Store.Heap) (l : positive) : Prop :=
  h !! l = None /\ forall l', l' <> l -> h' !! l' = h !! l'.

(** Two stores: in each an engine of either kind and an input object with
    the same content, at different places and next to different objects. *)
Definition demoInput : LeverageEngine.LeverageSimulationInput number :=
  LeverageEngine.mkInput (ofBigInt 1000) (ofBigInt 3) n0_7 n0_06 n0_04.

Definition demoHeap : Store.Heap :=
  {[ 1%positive := Store.LeverageEngineObj;
     2%positive := Store.RestakingEngineObj demoTable;
     3%positive := Store.InputObj demoInput ]}.

Definition otherHeap : Store.Heap :=
  {[ 1%positive := Store.InputObj demoInput;
     2%positive := Store.DetailArray [];
     5%positive := Store.RestakingEngineObj ∅;
     7%positive := Store.LeverageEngineObj ]}.

(* ===================================================================== *)
(** * Properties *)
(* ===================================================================== *)

(** ** Binary64 rounding *)

Section Digits.

Lemma digits2_pos_bounds (p : positive) :
  2 ^ (Zpos (digits2_pos p) - 1) <= Zpos p < 2 ^ Zpos (digits2_pos p).
Proof.
  induction p as [p IH | p IH |]; cbn [digits2_pos].
  - rewrite Pos2Z.inj_succ.
    replace (Z.succ (Zpos (digits2_pos p)) - 1) with (Z.succ (Zpos (digits2_pos p) - 1)) by lia.
    rewrite !Z.pow_succ_r by lia. lia.
  - rewrite Pos2Z.inj_succ.
    replace (Z.succ (Zpos (digits2_pos p)) - 1) with (Z.succ (Zpos (digits2_pos p) - 1)) by lia.
    rewrite !Z.pow_succ_r by lia. lia.
  - cbn. lia.
Qed.

Lemma digits2_pos_unique (p : positive) (k : Z) :
  2 ^ (k - 1) <= Zpos p < 2 ^ k -> Zpos (digits2_pos p) = k.
Proof.
  intros [Hlo Hhi]. pose proof (digits2_pos_bounds p) as [Hlo' Hhi'].
  assert (Hk : 0 < k).
  { destruct (Z.lt_trichotomy k 0) as [Hneg | [-> | Hpos]]; [| cbn in Hhi; lia | exact Hpos].
    rewrite Z.pow_neg_r in Hhi by lia. lia. }
  destruct (Z.lt_trichotomy (Zpos (digits2_pos p)) k) as [Hlt | [Heq | Hgt]]; [| exact Heq |].
  - assert (2 ^ Zpos (digits2_pos p) <= 2 ^ (k - 1)) by (apply Z.pow_le_mono_r; lia). lia.
  - assert (2 ^ k <= 2 ^ (Zpos (digits2_pos p) - 1)) by (apply Z.pow_le_mono_r; lia). lia.
Qed.

End Digits.


Section Shift.

Lemma shr_1_locZ (N D : Z) :
  0 <= N -> 0 < D ->
  shr_1 (shr_record_of_loc (N / D) (locZ N D)) =
    shr_record_of_loc (N / (D * 2)) (locZ N (D * 2)).
Proof.
  intros HN HD.
  assert (Hdiv : N / (D * 2) = N / D / 2) by (rewrite Z.div_div by lia; reflexivity).
  assert (Hmod : N mod (D * 2) = N mod D + D * ((N / D) mod 2))
    by (apply Z.rem_mul_r; lia).
  pose proof (Z.mod_pos_bound N D HD) as Hr.
  assert (Hq : 0 <= N / D) by (apply Z.div_pos; lia).
  unfold locZ. rewrite Hdiv, Hmod.
  set (q := N / D) in *. set (r := N mod D) in *. clearbody q r.
  destruct q as [| [p | p |] |]; try lia.
  - (* q = 0 *)
    change (0 / 2) with 0. change (0 mod 2) with 0. rewrite Z.mul_0_r, Z.add_0_r.
    destruct (Z.eqb_spec r 0) as [Hr0 | Hr0]; [reflexivity |].
    destruct (Z.compare_spec (2 * r) D), (Z.compare_spec (2 * r) (D * 2)); cbn; try reflexivity; lia.
  - (* q = 2p+1 *)
    assert (Hq2 : Zpos p~1 / 2 = Zpos p) by (symmetry; apply (Z.div_unique _ _ _ 1); lia).
    assert (Hm2 : Zpos p~1 mod 2 = 1) by (symmetry; apply (Z.mod_unique _ _ (Zpos p)); lia).
    rewrite Hq2, Hm2, Z.mul_1_r.
    destruct (Z.eqb_spec (r + D) 0) as [H0 | H0]; [lia |].
    destruct (Z.eqb_spec r 0) as [Hr0 | Hr0].
    + subst r. cbn [shr_record_of_loc shr_1 orb]. rewrite Z.add_0_l.
      destruct (Z.compare_spec (2 * D) (D * 2)); try lia. reflexivity.
    + destruct (Z.compare_spec (2 * (r + D)) (D * 2)); try lia.
      destruct (Z.compare_spec (2 * r) D); reflexivity.
  - (* q = 2p *)
    assert (Hq2 : Zpos p~0 / 2 = Zpos p) by (symmetry; apply (Z.div_unique _ _ _ 0); lia).
    assert (Hm2 : Zpos p~0 mod 2 = 0) by (symmetry; apply (Z.mod_unique _ _ (Zpos p)); lia).
    rewrite Hq2, Hm2, Z.mul_0_r, Z.add_0_r.
    destruct (Z.eqb_spec r 0) as [Hr0 | Hr0]; [reflexivity |].
    destruct (Z.compare_spec (2 * r) D), (Z.compare_spec (2 * r) (D * 2)); cbn; try reflexivity; lia.
  - (* q = 1 *)
    change (1 / 2) with 0. change (1 mod 2) with 1. rewrite Z.mul_1_r.
    destruct (Z.eqb_spec (r + D) 0) as [H0 | H0]; [lia |].
    destruct (Z.eqb_spec r 0) as [Hr0 | Hr0].
    + subst r. cbn [shr_record_of_loc shr_1 orb]. rewrite Z.add_0_l.
      destruct (Z.compare_spec (2 * D) (D * 2)); try lia. reflexivity.
    + destruct (Z.compare_spec (2 * (r + D)) (D * 2)); try lia.
      destruct (Z.compare_spec (2 * r) D); reflexivity.
Qed.

Lemma iter_shr_1_locZ (p : positive) :
  forall N D, 0 <= N -> 0 < D ->
    SpecFloat.iter_pos shr_1 p (shr_record_of_loc (N / D) (locZ N D)) =
      shr_record_of_loc (N / (D * 2 ^ Zpos p)) (locZ N (D * 2 ^ Zpos p)).
Proof.
  induction p as [p IH | p IH |]; intros N D HN HD; cbn [SpecFloat.iter_pos].
  - rewrite shr_1_locZ by lia.
    rewrite IH by lia. rewrite IH by (try apply Z.mul_pos_pos; lia).
    replace (D * 2 * 2 ^ Zpos p * 2 ^ Zpos p) with (D * 2 ^ Zpos p~1); [reflexivity |].
    replace (Zpos p~1) with (Zpos p + Zpos p + 1) by lia.
    rewrite !Z.pow_add_r, Z.pow_1_r by lia. ring.
  - rewrite IH by lia. rewrite IH by (try apply Z.mul_pos_pos; lia).
    replace (D * 2 ^ Zpos p * 2 ^ Zpos p) with (D * 2 ^ Zpos p~0); [reflexivity |].
    replace (Zpos p~0) with (Zpos p + Zpos p) by lia.
    rewrite Z.pow_add_r by lia. ring.
  - rewrite shr_1_locZ by lia. reflexivity.
Qed.

End Shift.


Section RoundAux.

Lemma loc_of_shr_record_of_loc (m : Z) (l : location) :
  loc_of_shr_record (shr_record_of_loc m l) = l.
Proof. destruct l as [| []]; reflexivity. Qed.

Lemma shr_m_of_loc (m : Z) (l : location) : shr_m (shr_record_of_loc m l) = m.
Proof. destruct l as [| []]; reflexivity. Qed.

Lemma rneZ_floor_or_next (N D : Z) : rneZ N D = N / D \/ rneZ N D = N / D + 1.
Proof.
  unfold rneZ, round_nearest_even. destruct (locZ N D) as [| []]; auto.
  destruct (Z.even (N / D)); auto.
Qed.

Lemma fexp_normal (e : Z) : -1074 <= e - 53 -> fexp prec emax e = e - 53.
Proof. unfold fexp, emin, prec, emax. lia. Qed.

Lemma shr_locZ (N D e n : Z) :
  0 <= N -> 0 < D -> 0 <= n ->
  shr (shr_record_of_loc (N / D) (locZ N D)) e n =
    (shr_record_of_loc (N / (D * 2 ^ n)) (locZ N (D * 2 ^ n)), e + n).
Proof.
  intros HN HD Hn. unfold shr. destruct n as [| p | p]; [| | lia].
  - rewrite Z.pow_0_r, Z.mul_1_r, Z.add_0_r. reflexivity.
  - rewrite iter_shr_1_locZ by lia. reflexivity.
Qed.

Lemma round_aux_normal (s : bool) (N D ex : Z) :
  0 < D -> 2 ^ 52 <= N / D ->
  -1074 <= ex + (Zdigits2 (N / D) - 53) <= 970 ->
  binary_round_aux prec emax s (N / D) ex (locZ N D) =
    mkFloat s (rneZ N (D * 2 ^ (Zdigits2 (N / D) - 53))) (ex + (Zdigits2 (N / D) - 53)).
Proof.
  intros HD Hm HE.
  assert (HN : 0 <= N).
  { destruct (Z.lt_ge_cases N 0) as [Hneg | Hpos]; [| exact Hpos].
    assert (N / D < 0) by (apply Z.div_lt_upper_bound; lia). lia. }
  destruct (N / D) as [| p | p] eqn:Hq; try lia.
  cbn [Zdigits2] in *.
  pose proof (digits2_pos_bounds p) as [Hlo Hhi].
  set (d := Zpos (digits2_pos p)) in *.
  assert (Hd : 53 <= d).
  { destruct (Z.lt_ge_cases d 53) as [Hlt | Hge]; [| exact Hge].
    assert (2 ^ d <= 2 ^ 52) by (apply Z.pow_le_mono_r; lia). lia. }
  set (n := d - 53) in *.
  assert (Hq' : N / (D * 2 ^ n) = Zpos p / 2 ^ n) by (rewrite <- Z.div_div, Hq by lia; reflexivity).
  assert (Hpow : 2 ^ (d - 1) = 2 ^ 52 * 2 ^ n /\ 2 ^ d = 2 ^ 53 * 2 ^ n).
  { split.
    - replace (d - 1) with (52 + n) by lia. apply Z.pow_add_r; lia.
    - replace d with (53 + n) at 1 by lia. apply Z.pow_add_r; lia. }
  destruct Hpow as [Hp1 Hp2].
  assert (Hn2 : 0 < 2 ^ n) by (apply Z.pow_pos_nonneg; lia).
  assert (Hfloor : 2 ^ 52 <= Zpos p / 2 ^ n < 2 ^ 53).
  { split.
    - apply Z.div_le_lower_bound; lia.
    - apply Z.div_lt_upper_bound; lia. }
  unfold binary_round_aux, shr_fexp. cbn [Zdigits2]. fold d.
  rewrite fexp_normal by lia.
  replace (d + ex - 53 - ex) with n by lia.
  rewrite <- Hq, shr_locZ by lia.
  rewrite shr_m_of_loc, loc_of_shr_record_of_loc. fold (rneZ N (D * 2 ^ n)).
  replace (ex + (d - 53)) with (ex + n) by lia.
  pose proof (rneZ_floor_or_next N (D * 2 ^ n)) as Hk. rewrite Hq' in Hk.
  set (k := rneZ N (D * 2 ^ n)) in *. clearbody k.
  unfold mkFloat.
  destruct (Z.ltb_spec k (2 ^ 53)) as [Hlt | Hge].
  - (* no carry *)
    destruct k as [| pk | pk] eqn:Hkk; try lia.
    assert (Hdk : Zpos (digits2_pos pk) = 53) by (apply digits2_pos_unique; lia).
    cbn [Zdigits2]. rewrite Hdk, fexp_normal by lia.
    replace (53 + (ex + n) - 53 - (ex + n)) with 0 by lia.
    cbn [shr shr_record_of_loc shr_m].
    destruct (Z.leb_spec (ex + n) (emax - prec)) as [_ | Hbad]; [reflexivity |].
    unfold emax, prec in Hbad. lia.
  - (* the mantissa rounds up to 2^53 *)
    assert (Hk53 : k = 2 ^ 53) by lia. subst k.
    change (Zdigits2 (2 ^ 53)) with 54. rewrite fexp_normal by lia.
    replace (54 + (ex + n) - 53 - (ex + n)) with 1 by lia.
    change (shr (shr_record_of_loc (2 ^ 53) loc_Exact) (ex + n) 1)
      with (shr_record_of_loc (2 ^ 52) loc_Exact, ex + n + 1).
    cbn [shr_record_of_loc shr_m].
    change (2 ^ 52) with (Zpos (Z.to_pos (2 ^ 52))) at 1.
    destruct (Z.leb_spec (ex + n + 1) (emax - prec)) as [_ | Hbad]; [reflexivity |].
    unfold emax, prec in Hbad. lia.
Qed.

End RoundAux.

(** *** Powers of two in Q *)

Section Pow2.
Local Open Scope Q_scope.

Lemma pow2_pos (e : Z) : 0 < pow2 e.
Proof. unfold pow2. apply Qpower_0_lt. reflexivity. Qed.

Lemma pow2_add (a b : Z) : pow2 (a + b) == pow2 a * pow2 b.
Proof. unfold pow2. apply Qpower_plus. discriminate. Qed.

Lemma pow2_opp (a : Z) : pow2 (- a) == / pow2 a.
Proof. unfold pow2. apply Qpower_opp. Qed.

Lemma pow2_0 : pow2 0 == 1.
Proof. reflexivity. Qed.

Lemma pow2_1 : pow2 1 == 2.
Proof. reflexivity. Qed.

Lemma pow2_Z (e : Z) : (0 <= e)%Z -> pow2 e == inject_Z (2 ^ e).
Proof. intros He. unfold pow2. rewrite Zpower_Qpower by exact He. reflexivity. Qed.

Lemma pow2_succ (a : Z) : pow2 (a + 1) == 2 * pow2 a.
Proof. rewrite pow2_add, pow2_1. ring. Qed.

Lemma pow2_le (a b : Z) : (a <= b)%Z -> pow2 a <= pow2 b.
Proof.
  intros Hab. replace b with (a + (b - a))%Z by lia. rewrite pow2_add.
  assert (Hp : pow2 (b - a) == inject_Z (2 ^ (b - a))) by (apply pow2_Z; lia).
  rewrite Hp.
  assert (H1 : (1 <= 2 ^ (b - a))%Z)
    by (pose proof (Z.pow_pos_nonneg 2 (b - a)); lia).
  rewrite Zle_Qle in H1. change (inject_Z 1) with 1 in H1.
  generalize dependent (inject_Z (2 ^ (b - a))). intros t _ Ht.
  pose proof (pow2_pos a). nra.
Qed.

Lemma pow2_lt (a b : Z) : (a < b)%Z -> pow2 a < pow2 b.
Proof.
  intros Hab. apply Qlt_le_trans with (pow2 (a + 1)).
  - rewrite pow2_succ. pose proof (pow2_pos a). lra.
  - apply pow2_le. lia.
Qed.

Lemma pow2_lt_inv (a b : Z) : pow2 a < pow2 b -> (a < b)%Z.
Proof.
  intros Hlt. destruct (Z.lt_ge_cases a b) as [H | H]; [exact H |].
  apply pow2_le in H. lra.
Qed.

End Pow2.

(** *** The value of a rounded result *)

Section Values.
Local Open Scope Q_scope.

Lemma toQ_mkFloat (k E : Z) :
  (2 ^ 52 <= k <= 2 ^ 53)%Z -> toQ (mkFloat false k E) == inject_Z k * pow2 E.
Proof.
  intros Hk. unfold mkFloat. destruct (Z.ltb_spec k (2 ^ 53)) as [Hlt | Hge].
  - cbn [toQ cond_Zopp]. rewrite Z2Pos.id by lia. reflexivity.
  - assert (k = 2 ^ 53)%Z by lia. subst k.
    cbn [toQ cond_Zopp]. rewrite pow2_succ.
    change (Zpos (Z.to_pos (2 ^ 52))) with (2 ^ 52)%Z.
    change (inject_Z (2 ^ 53)) with (2 * inject_Z (2 ^ 52)). ring.
Qed.

Lemma pnormal_mkFloat (k E : Z) :
  (2 ^ 52 <= k <= 2 ^ 53)%Z -> pnormal E (E + 1) (mkFloat false k E) = true.
Proof.
  intros Hk. unfold mkFloat. destruct (Z.ltb_spec k (2 ^ 53)) as [Hlt | Hge].
  - cbn [pnormal]. rewrite Z2Pos.id by lia.
    rewrite !andb_true_iff, !Z.leb_le, Z.ltb_lt. lia.
  - cbn [pnormal]. change (Zpos (Z.to_pos (2 ^ 52))) with (2 ^ 52)%Z.
    rewrite !andb_true_iff, !Z.leb_le, Z.ltb_lt. lia.
Qed.

Lemma pnormal_inv (lo hi : Z) (x : number) :
  pnormal lo hi x = true ->
  exists m e, x = S754_finite false m e /\ (2 ^ 52 <= Zpos m < 2 ^ 53)%Z /\ (lo <= e <= hi)%Z.
Proof.
  destruct x as [| | | [] m e]; try discriminate. cbn [pnormal].
  rewrite !andb_true_iff, !Z.leb_le, Z.ltb_lt. intros [[[H1 H2] H3] H4].
  exists m, e. repeat split; assumption.
Qed.

Lemma pnormal_weaken (lo hi lo' hi' : Z) (x : number) :
  pnormal lo hi x = true -> (lo' <= lo)%Z -> (hi <= hi')%Z -> pnormal lo' hi' x = true.
Proof.
  intros Hx Hlo Hhi. apply pnormal_inv in Hx. destruct Hx as (m & e & -> & Hm & He).
  cbn [pnormal]. rewrite !andb_true_iff, !Z.leb_le, Z.ltb_lt. lia.
Qed.

End Values.

(** *** Rounding to nearest, ties to even, in Q *)


Section Nearest.
Local Open Scope Q_scope.

Lemma Qabs_lt_half (x : Q) : - (1 # 2) < x -> x < 1 # 2 -> ~ Qabs x == 1 # 2.
Proof.
  intros H1 H2 Habs. assert (Hlt : Qabs x < 1 # 2) by (apply Qabs_Qlt_condition; split; assumption).
  rewrite Habs in Hlt. lra.
Qed.

Lemma rneZ_nearestEven (N D : Z) :
  (0 <= N)%Z -> (0 < D)%Z -> nearestEven (inject_Z N / inject_Z D) (rneZ N D).
Proof.
  intros HN HD.
  pose proof (Z.div_mod N D ltac:(lia)) as Hdm.
  pose proof (Z.mod_pos_bound N D HD) as Hr.
  set (q := (N / D)%Z) in *. set (r := (N mod D)%Z) in *.
  assert (HDq : 0 < inject_Z D) by (change 0 with (inject_Z 0); rewrite <- Zlt_Qlt; exact HD).
  assert (Hy : inject_Z N / inject_Z D == inject_Z q + inject_Z r / inject_Z D).
  { rewrite Hdm, inject_Z_plus, inject_Z_mult. field. lra. }
  set (t := inject_Z r / inject_Z D) in *.
  assert (Ht : t * inject_Z D == inject_Z r) by (unfold t; field; lra).
  assert (Hr0 : 0 <= inject_Z r) by (change 0 with (inject_Z 0); rewrite <- Zle_Qle; lia).
  assert (Hr1 : inject_Z r < inject_Z D) by (rewrite <- Zlt_Qlt; lia).
  assert (Ht0 : 0 <= t) by nra.
  assert (Ht1 : t < 1) by nra.
  unfold nearestEven, rneZ, locZ. fold q r. rewrite Hy.
  destruct (Z.eqb_spec r 0) as [Hz | Hnz].
  - (* exact *)
    cbn [round_nearest_even].
    assert (Htz : t == 0) by (rewrite Hz in Ht; change (inject_Z 0) with 0 in Ht; nra).
    split.
    + apply Qabs_Qle_condition. lra.
    + intros Habs. exfalso. revert Habs. apply Qabs_lt_half; lra.
  - destruct (Z.compare_spec (2 * r) D) as [Heq | Hlt | Hgt]; cbn [round_nearest_even].
    + (* tie *)
      assert (Hth : t == 1 # 2).
      { assert (H2 : 2 * inject_Z r == inject_Z D)
          by (rewrite <- Heq, inject_Z_mult; reflexivity).
        nra. }
      destruct (Z.even q) eqn:Hev.
      * split; [apply Qabs_Qle_condition; lra | intros _; exact Hev].
      * split.
        -- rewrite inject_Z_plus. change (inject_Z 1) with 1. apply Qabs_Qle_condition. lra.
        -- intros _. rewrite Z.even_add, Hev. reflexivity.
    + (* below the middle *)
      assert (Hth : t < 1 # 2).
      { assert (H2 : 2 * inject_Z r < inject_Z D)
          by (change 2 with (inject_Z 2); rewrite <- inject_Z_mult, <- Zlt_Qlt; exact Hlt).
        nra. }
      split.
      * apply Qabs_Qle_condition. lra.
      * intros Habs. exfalso. revert Habs. apply Qabs_lt_half; lra.
    + (* above the middle *)
      assert (Hth : 1 # 2 < t).
      { assert (H2 : inject_Z D < 2 * inject_Z r)
          by (change 2 with (inject_Z 2); rewrite <- inject_Z_mult, <- Zlt_Qlt; exact Hgt).
        nra. }
      rewrite inject_Z_plus. change (inject_Z 1) with 1.
      split.
      * apply Qabs_Qle_condition. lra.
      * intros Habs. exfalso. revert Habs. apply Qabs_lt_half; lra.
Qed.

(** The bounds of the nearest integer. *)
Lemma nearestEven_bounds (y : Q) (k a b : Z) :
  nearestEven y k -> inject_Z a <= y -> y <= inject_Z b -> (a <= k <= b)%Z.
Proof.
  intros [Habs _] Ha Hb. apply Qabs_Qle_condition in Habs.
  split.
  - assert (H : inject_Z a < inject_Z k + 1) by lra.
    assert (H' : inject_Z a < inject_Z (k + 1))
      by (rewrite inject_Z_plus; change (inject_Z 1) with 1; lra).
    rewrite <- Zlt_Qlt in H'. lia.
  - assert (H : inject_Z k < inject_Z b + 1) by lra.
    assert (H' : inject_Z k < inject_Z (b + 1))
      by (rewrite inject_Z_plus; change (inject_Z 1) with 1; lra).
    rewrite <- Zlt_Qlt in H'. lia.
Qed.

Lemma nearestEven_mono (y y' : Q) (k k' : Z) :
  nearestEven y k -> nearestEven y' k' -> y <= y' -> (k <= k')%Z.
Proof.
  intros [Habs Hev] [Habs' Hev'] Hle.
  pose proof Habs as Hb. pose proof Habs' as Hb'.
  apply Qabs_Qle_condition in Hb. apply Qabs_Qle_condition in Hb'.
  destruct (Z.le_gt_cases k k') as [H | H]; [exact H | exfalso].
  assert (Hk : inject_Z k' + 1 <= inject_Z k).
  { change 1 with (inject_Z 1). rewrite <- inject_Z_plus, <- Zle_Qle. lia. }
  assert (Hkk : (k = k' + 1)%Z).
  { assert (H' : inject_Z k < inject_Z k' + 2) by lra.
    assert (H'' : inject_Z k < inject_Z (k' + 2))
      by (rewrite inject_Z_plus; change (inject_Z 2) with 2; lra).
    rewrite <- Zlt_Qlt in H''. lia. }
  assert (Hkq : inject_Z k == inject_Z k' + 1)
    by (rewrite Hkk, inject_Z_plus; reflexivity).
  assert (Ht : Qabs (inject_Z k - y) == 1 # 2).
  { assert (Hx : inject_Z k - y == 1 # 2) by lra. rewrite Hx. reflexivity. }
  assert (Ht' : Qabs (inject_Z k' - y') == 1 # 2).
  { assert (Hx : inject_Z k' - y' == - (1 # 2)) by lra. rewrite Hx. reflexivity. }
  apply Hev in Ht. apply Hev' in Ht'.
  rewrite Hkk, Z.even_add, Ht' in Ht. discriminate.
Qed.

End Nearest.

Section Rounds.
Local Open Scope Q_scope.

Lemma nearestEven_ext (y y' : Q) (k : Z) : y == y' -> nearestEven y k -> nearestEven y' k.
Proof. intros Hy [H1 H2]. unfold nearestEven. rewrite <- Hy. split; assumption. Qed.

Lemma inject_Z_pos (z : Z) : (0 < z)%Z -> 0 < inject_Z z.
Proof. intros Hz. change 0 with (inject_Z 0). rewrite <- Zlt_Qlt. exact Hz. Qed.

(** From the integer description of a rounding to [rounds]. *)
Lemma rounds_of_Z (N D E : Z) (X : Q) :
  (0 < D)%Z -> (2 ^ 52 <= N / D < 2 ^ 53)%Z -> (-1074 <= E <= 970)%Z ->
  X == inject_Z N / inject_Z D * pow2 E ->
  rounds X (mkFloat false (rneZ N D) E).
Proof.
  intros HD [Hlo Hhi] HE HX.
  pose proof (Z.div_mod N D ltac:(lia)) as Hdm.
  pose proof (Z.mod_pos_bound N D HD) as Hr.
  assert (HN : (0 <= N)%Z) by nia.
  assert (HloN : (2 ^ 52 * D <= N)%Z) by nia.
  assert (HhiN : (N < 2 ^ 53 * D)%Z) by nia.
  pose proof (inject_Z_pos D HD) as HDq. pose proof (pow2_pos E) as HP.
  assert (Hy : X / pow2 E == inject_Z N / inject_Z D) by (rewrite HX; field; lra).
  assert (Hylo : inject_Z (2 ^ 52) <= inject_Z N / inject_Z D).
  { apply Qle_shift_div_l; [exact HDq |]. rewrite <- inject_Z_mult, <- Zle_Qle. exact HloN. }
  assert (Hyhi : inject_Z N / inject_Z D < inject_Z (2 ^ 53)).
  { apply Qlt_shift_div_r; [exact HDq |]. rewrite <- inject_Z_mult, <- Zlt_Qlt. exact HhiN. }
  exists (rneZ N D), E. split; [reflexivity |]. split; [exact HE |].
  set (y := inject_Z N / inject_Z D) in *.
  split; [rewrite HX; nra |]. split; [rewrite HX; nra |].
  apply nearestEven_ext with y; [symmetry; exact Hy |].
  apply rneZ_nearestEven; assumption.
Qed.

Lemma rounds_inv (X : Q) (f : number) :
  rounds X f ->
  exists k E y,
    f = mkFloat false k E /\ (-1074 <= E <= 970)%Z /\ (2 ^ 52 <= k <= 2 ^ 53)%Z /\
    X == y * pow2 E /\ inject_Z (2 ^ 52) <= y /\ y < inject_Z (2 ^ 53) /\
    nearestEven y k /\ toQ f == inject_Z k * pow2 E.
Proof.
  intros (k & E & Hf & HE & Hlo & Hhi & Hne).
  pose proof (pow2_pos E) as HP.
  set (y := X / pow2 E) in *.
  assert (HX : X == y * pow2 E) by (unfold y; field; lra).
  assert (Hylo : inject_Z (2 ^ 52) <= y).
  { unfold y. apply Qle_shift_div_l; assumption. }
  assert (Hyhi : y < inject_Z (2 ^ 53)).
  { unfold y. apply Qlt_shift_div_r; assumption. }
  assert (Hk : (2 ^ 52 <= k <= 2 ^ 53)%Z).
  { apply (nearestEven_bounds y); [exact Hne | exact Hylo | lra]. }
  exists k, E, y.
  split; [exact Hf |]. split; [exact HE |]. split; [exact Hk |]. split; [exact HX |].
  split; [exact Hylo |]. split; [exact Hyhi |]. split; [exact Hne |].
  rewrite Hf. apply toQ_mkFloat. exact Hk.
Qed.

Lemma rounds_error (X : Q) (f : number) :
  rounds X f -> X * (1 - u) <= toQ f /\ toQ f <= X * (1 + u).
Proof.
  intros Hr. apply rounds_inv in Hr.
  destruct Hr as (k & E & y & _ & _ & _ & HX & Hylo & _ & [Habs _] & Hv).
  apply Qabs_Qle_condition in Habs. pose proof (pow2_pos E) as HP.
  rewrite Hv, HX. unfold u.
  change (inject_Z (2 ^ 52)) with (4503599627370496 # 1) in Hylo.
  set (P := pow2 E) in *. set (K := inject_Z k) in *. clearbody P K.
  split; nra.
Qed.

Lemma rounds_pos (X : Q) (f : number) : rounds X f -> 0 < X /\ 0 < toQ f.
Proof.
  intros Hr. apply rounds_inv in Hr.
  destruct Hr as (k & E & y & _ & _ & Hk & HX & Hylo & _ & _ & Hv).
  pose proof (pow2_pos E) as HP.
  change (inject_Z (2 ^ 52)) with (4503599627370496 # 1) in Hylo.
  assert (HK : inject_Z (2 ^ 52) <= inject_Z k) by (rewrite <- Zle_Qle; lia).
  change (inject_Z (2 ^ 52)) with (4503599627370496 # 1) in HK.
  rewrite Hv, HX. split; nra.
Qed.

(** The exponent of the result, from bounds of the exact value. *)
Lemma rounds_pnormal (X : Q) (f : number) (a b : Z) :
  rounds X f -> pow2 a <= X -> X < pow2 b -> pnormal (a - 52) (b - 52) f = true.
Proof.
  intros Hr Ha Hb. apply rounds_inv in Hr.
  destruct Hr as (k & E & y & Hf & HE & Hk & HX & Hylo & Hyhi & _ & _).
  pose proof (pow2_pos E) as HP.
  assert (H52 : pow2 52 == inject_Z (2 ^ 52)) by (apply pow2_Z; lia).
  assert (H53 : pow2 53 == inject_Z (2 ^ 53)) by (apply pow2_Z; lia).
  assert (HaE : (a < 53 + E)%Z).
  { apply pow2_lt_inv. rewrite pow2_add, H53. nra. }
  assert (HbE : (52 + E < b)%Z).
  { apply pow2_lt_inv. rewrite pow2_add, H52. nra. }
  rewrite Hf. apply pnormal_weaken with E (E + 1)%Z; [| lia | lia].
  apply pnormal_mkFloat. exact Hk.
Qed.

Lemma rounds_mono (X X' : Q) (f f' : number) :
  rounds X f -> rounds X' f' -> X <= X' -> toQ f <= toQ f'.
Proof.
  intros Hr Hr' Hle. apply rounds_inv in Hr. apply rounds_inv in Hr'.
  destruct Hr as (k & E & y & _ & _ & Hk & HX & Hylo & Hyhi & Hne & Hv).
  destruct Hr' as (k' & E' & y' & _ & _ & Hk' & HX' & Hylo' & Hyhi' & Hne' & Hv').
  rewrite Hv, Hv'.
  pose proof (pow2_pos E) as HP. pose proof (pow2_pos E') as HP'.
  assert (HK : inject_Z k <= inject_Z (2 ^ 53)) by (rewrite <- Zle_Qle; lia).
  assert (HK' : inject_Z (2 ^ 52) <= inject_Z k') by (rewrite <- Zle_Qle; lia).
  change (inject_Z (2 ^ 53)) with (2 * inject_Z (2 ^ 52)) in *.
  set (c := inject_Z (2 ^ 52)) in *.
  assert (Hc : 0 < c) by reflexivity.
  destruct (Z.lt_trichotomy E E') as [Hlt | [Heq | Hgt]].
  - (* a smaller binade *)
    assert (H2 : 2 * pow2 E <= pow2 E').
    { rewrite <- pow2_succ. apply pow2_le. lia. }
    apply Qle_trans with (2 * c * pow2 E); [nra |].
    apply Qle_trans with (c * pow2 E'); nra.
  - (* the same binade *)
    subst E'.
    assert (Hyy : y <= y') by (rewrite HX, HX' in Hle; nra).
    pose proof (nearestEven_mono y y' k k' Hne Hne' Hyy) as Hkk.
    rewrite Zle_Qle in Hkk. nra.
  - (* impossible: a larger binade for a smaller value *)
    exfalso.
    assert (H2 : 2 * pow2 E' <= pow2 E).
    { rewrite <- pow2_succ. apply pow2_le. lia. }
    rewrite HX, HX' in Hle.
    assert (H3 : y' * pow2 E' < 2 * c * pow2 E') by nra.
    assert (H4 : c * pow2 E <= y * pow2 E) by nra.
    nra.
Qed.

(** A normal number rounds to itself. *)
Lemma rounds_self (lo hi : Z) (x : number) :
  pnormal lo hi x = true -> (-1074 <= lo)%Z -> (hi <= 970)%Z -> rounds (toQ x) x.
Proof.
  intros Hx Hlo Hhi. apply pnormal_inv in Hx. destruct Hx as (m & e & -> & Hm & He).
  pose proof (pow2_pos e) as HP.
  assert (HM : inject_Z (2 ^ 52) <= inject_Z (Zpos m)) by (rewrite <- Zle_Qle; lia).
  assert (HM' : inject_Z (Zpos m) < inject_Z (2 ^ 53)) by (rewrite <- Zlt_Qlt; lia).
  exists (Zpos m), e. cbn [toQ cond_Zopp].
  split.
  { unfold mkFloat. destruct (Z.ltb_spec (Zpos m) (2 ^ 53)); [reflexivity | lia]. }
  split; [lia |]. split; [nra |]. split; [nra |].
  apply nearestEven_ext with (inject_Z (Zpos m)); [field; lra |].
  split.
  - assert (H0 : inject_Z (Zpos m) - inject_Z (Zpos m) == 0) by ring.
    rewrite H0. discriminate.
  - assert (H0 : inject_Z (Zpos m) - inject_Z (Zpos m) == 0) by ring.
    rewrite H0. intros Habs. discriminate.
Qed.

Lemma pnormal_value (lo hi : Z) (x : number) :
  pnormal lo hi x = true -> pow2 (lo + 52) <= toQ x /\ toQ x < pow2 (hi + 53).
Proof.
  intros Hx. apply pnormal_inv in Hx. destruct Hx as (m & e & -> & Hm & He).
  cbn [toQ cond_Zopp].
  assert (H52 : pow2 52 == inject_Z (2 ^ 52)) by (apply pow2_Z; lia).
  assert (H53 : pow2 53 == inject_Z (2 ^ 53)) by (apply pow2_Z; lia).
  assert (HM : inject_Z (2 ^ 52) <= inject_Z (Zpos m)) by (rewrite <- Zle_Qle; lia).
  assert (HM' : inject_Z (Zpos m) < inject_Z (2 ^ 53)) by (rewrite <- Zlt_Qlt; lia).
  pose proof (pow2_le lo e ltac:(lia)) as Hl. pose proof (pow2_le e hi ltac:(lia)) as Hh.
  pose proof (pow2_pos lo). pose proof (pow2_pos e). pose proof (pow2_pos hi).
  rewrite !pow2_add, H52, H53.
  set (c := inject_Z (2 ^ 52)) in *. assert (Hc : 0 < c) by reflexivity.
  set (c' := inject_Z (2 ^ 53)) in *. assert (Hc' : 0 < c') by reflexivity.
  split; nra.
Qed.

End Rounds.

(** *** The operations on positive normal numbers *)

Section Operations.

Lemma shifted_mantissa_bounds (M : Z) :
  2 ^ 52 <= M ->
  0 <= Zdigits2 M - 53 /\
  2 ^ 52 <= M / 2 ^ (Zdigits2 M - 53) < 2 ^ 53.
Proof.
  intros HM. destruct M as [| p | p]; try lia. cbn [Zdigits2].
  pose proof (digits2_pos_bounds p) as [Hlo Hhi].
  set (d := Zpos (digits2_pos p)) in *.
  assert (Hd : 53 <= d).
  { destruct (Z.lt_ge_cases d 53) as [Hlt | Hge]; [| exact Hge].
    assert (2 ^ d <= 2 ^ 52) by (apply Z.pow_le_mono_r; lia). lia. }
  split; [lia |].
  assert (Hp1 : 2 ^ (d - 1) = 2 ^ 52 * 2 ^ (d - 53)).
  { replace (d - 1) with (52 + (d - 53)) by lia. apply Z.pow_add_r; lia. }
  assert (Hp2 : 2 ^ d = 2 ^ 53 * 2 ^ (d - 53)).
  { replace d with (53 + (d - 53)) at 1 by lia. apply Z.pow_add_r; lia. }
  assert (Hn2 : 0 < 2 ^ (d - 53)) by (apply Z.pow_pos_nonneg; lia).
  split.
  - apply Z.div_le_lower_bound; lia.
  - apply Z.div_lt_upper_bound; lia.
Qed.

Lemma digits_between (M a b : Z) :
  0 <= a -> 2 ^ a <= M < 2 ^ b -> a + 1 <= Zdigits2 M <= b.
Proof.
  intros Ha [Hlo Hhi].
  assert (0 < 2 ^ a) by (apply Z.pow_pos_nonneg; lia).
  destruct M as [| p | p]; try lia. cbn [Zdigits2].
  pose proof (digits2_pos_bounds p) as [Hlo' Hhi'].
  set (d := Zpos (digits2_pos p)) in *.
  split.
  - destruct (Z.lt_ge_cases d (a + 1)) as [Hlt | Hge]; [| exact Hge].
    assert (2 ^ d <= 2 ^ a) by (apply Z.pow_le_mono_r; lia). lia.
  - destruct (Z.le_gt_cases d b) as [Hle | Hgt]; [exact Hle |].
    assert (2 ^ b <= 2 ^ (d - 1)) by (apply Z.pow_le_mono_r; lia). lia.
Qed.

(** Rounding a mantissa with an exact location. *)
Lemma round_aux_exact (s : bool) (M ex : Z) :
  2 ^ 52 <= M ->
  -1074 <= ex + (Zdigits2 M - 53) <= 970 ->
  binary_round_aux prec emax s M ex loc_Exact =
    mkFloat s (rneZ M (2 ^ (Zdigits2 M - 53))) (ex + (Zdigits2 M - 53)).
Proof.
  intros HM HE.
  pose proof (round_aux_normal s M 1 ex) as H.
  rewrite Z.div_1_r, Z.mul_1_l in H. unfold locZ at 1 in H.
  rewrite Z.mod_1_r in H. cbn [Z.eqb] in H. apply H; [lia | exact HM | exact HE].
Qed.

Lemma rneZ_1 (M : Z) : rneZ M 1 = M.
Proof. unfold rneZ, locZ. rewrite Z.mod_1_r, Z.div_1_r. reflexivity. Qed.

Lemma iter_xO (q p : positive) : Zpos (Pos.iter xO p q) = Zpos p * 2 ^ Zpos q.
Proof.
  induction q as [| q IH] using Pos.peano_ind.
  - cbn. lia.
  - rewrite Pos.iter_succ, Pos2Z.inj_succ, Z.pow_succ_r by lia.
    change (Zpos (Pos.iter xO p q)~0) with (2 * Zpos (Pos.iter xO p q)). rewrite IH. ring.
Qed.

(** [Number(z)] is exact up to [2^53]. *)
Lemma ofBigInt_small (z : Z) :
  0 < z < 2 ^ 53 ->
  ofBigInt z =
    S754_finite false (Z.to_pos (z * 2 ^ (53 - Zdigits2 z))) (Zdigits2 z - 53).
Proof.
  intros Hz. destruct z as [| p | p]; try lia.
  unfold ofBigInt, binary_normalize, binary_round. cbn [Zdigits2].
  pose proof (digits2_pos_bounds p) as [Hlo Hhi].
  set (d := Zpos (digits2_pos p)) in *.
  assert (Hd : 1 <= d <= 53).
  { split; [unfold d; lia |].
    destruct (Z.le_gt_cases d 53) as [Hle | Hgt]; [exact Hle |].
    assert (2 ^ 53 <= 2 ^ (d - 1)) by (apply Z.pow_le_mono_r; lia). lia. }
  rewrite Z.add_0_r, fexp_normal by lia.
  assert (Hm : 2 ^ 52 <= Zpos p * 2 ^ (53 - d) < 2 ^ 53).
  { assert (H1 : 2 ^ 52 = 2 ^ (d - 1) * 2 ^ (53 - d)).
    { rewrite <- Z.pow_add_r by lia. f_equal. lia. }
    assert (H2 : 2 ^ 53 = 2 ^ d * 2 ^ (53 - d)).
    { rewrite <- Z.pow_add_r by lia. f_equal. lia. }
    assert (0 < 2 ^ (53 - d)) by (apply Z.pow_pos_nonneg; lia).
    rewrite H1, H2. split; [apply Z.mul_le_mono_nonneg_r; lia | apply Z.mul_lt_mono_pos_r; lia]. }
  assert (Hres : forall M e, M = Zpos p * 2 ^ (53 - d) -> e = d - 53 ->
            binary_round_aux prec emax false M e loc_Exact =
              S754_finite false (Z.to_pos (Zpos p * 2 ^ (53 - d))) (d - 53)).
  { intros M e -> ->.
    assert (Hdig : Zdigits2 (Zpos p * 2 ^ (53 - d)) = 53).
    { pose proof (digits_between (Zpos p * 2 ^ (53 - d)) 52 53 ltac:(lia) Hm). lia. }
    rewrite round_aux_exact by (rewrite ?Hdig; lia).
    rewrite Hdig. change (2 ^ (53 - 53)) with 1. rewrite rneZ_1, Z.add_0_r.
    unfold mkFloat. destruct (Z.ltb_spec (Zpos p * 2 ^ (53 - d)) (2 ^ 53)); [reflexivity | lia]. }
  unfold shl_align. destruct (d - 53 - 0) as [| q | q] eqn:Hsh; try lia.
  - apply Hres; [replace (53 - d) with 0 by lia; lia | lia].
  - apply Hres; [rewrite iter_xO; f_equal; f_equal; lia | reflexivity].
Qed.

Local Open Scope Q_scope.

Lemma ofBigInt_exact (z : Z) :
  (0 < z < 2 ^ 53)%Z ->
  toQ (ofBigInt z) == inject_Z z /\ pnormal (-52) 0 (ofBigInt z) = true.
Proof.
  intros Hz. rewrite ofBigInt_small by exact Hz.
  pose proof (digits_between z 0 53 ltac:(lia) ltac:(lia)) as Hd.
  set (d := Zdigits2 z) in *.
  assert (Hpow : (0 < 2 ^ (53 - d))%Z) by (apply Z.pow_pos_nonneg; lia).
  split.
  - cbn [toQ cond_Zopp]. rewrite Z2Pos.id by lia.
    replace (d - 53)%Z with (- (53 - d))%Z by lia.
    rewrite pow2_opp, inject_Z_mult.
    assert (Hp : pow2 (53 - d) == inject_Z (2 ^ (53 - d))) by (apply pow2_Z; lia).
    rewrite Hp. pose proof (inject_Z_pos _ Hpow). field. lra.
  - destruct z as [| p | p]; try lia.
    pose proof (digits2_pos_bounds p) as [Hlo Hhi]. cbn [Zdigits2] in d. fold d in Hlo, Hhi.
    assert (Hm : (2 ^ 52 <= Zpos p * 2 ^ (53 - d) < 2 ^ 53)%Z).
    { assert (H1 : (2 ^ 52 = 2 ^ (d - 1) * 2 ^ (53 - d))%Z).
      { rewrite <- Z.pow_add_r by lia. f_equal. lia. }
      assert (H2 : (2 ^ 53 = 2 ^ d * 2 ^ (53 - d))%Z).
      { rewrite <- Z.pow_add_r by lia. f_equal. lia. }
      rewrite H1, H2.
      split; [apply Z.mul_le_mono_nonneg_r; lia | apply Z.mul_lt_mono_pos_r; lia]. }
    cbn [pnormal]. rewrite Z2Pos.id by lia.
    rewrite !andb_true_iff, !Z.leb_le, Z.ltb_lt. lia.
Qed.

End Operations.

Section MulDiv.

Lemma new_location_locZ (N D : Z) :
  0 < D -> new_location D (N mod D) = locZ N D.
Proof.
  intros HD. pose proof (Z.mod_pos_bound N D HD) as Hr.
  unfold new_location, new_location_even, new_location_odd, locZ.
  set (r := N mod D) in *. clearbody r.
  destruct (Z.even D) eqn:Hev; [reflexivity |].
  destruct (Z.eqb_spec r 0); [reflexivity |].
  assert (Hodd : Z.odd D = true) by (rewrite <- Z.negb_even, Hev; reflexivity).
  apply Z.odd_spec in Hodd. destruct Hodd as [h Hh].
  destruct (Z.compare_spec (2 * r + 1) D), (Z.compare_spec (2 * r) D); try reflexivity; lia.
Qed.

Local Open Scope Q_scope.

Lemma Qeq_le (a b : Q) : a == b -> a <= b.
Proof. intros H. rewrite H. apply Qle_refl. Qed.

Lemma mul_rounds (lo1 hi1 lo2 hi2 : Z) (x y : number) :
  pnormal lo1 hi1 x = true -> pnormal lo2 hi2 y = true ->
  (-1074 <= lo1 + lo2 + 52)%Z -> (hi1 + hi2 + 53 <= 970)%Z ->
  rounds (toQ x * toQ y) (mul x y).
Proof.
  intros Hx Hy Hlo Hhi.
  apply pnormal_inv in Hx. destruct Hx as (mx & ex & -> & Hmx & Hex).
  apply pnormal_inv in Hy. destruct Hy as (my & ey & -> & Hmy & Hey).
  unfold mul, SFmul. cbn [xorb toQ cond_Zopp].
  rewrite Pos2Z.inj_mul.
  set (M := (Zpos mx * Zpos my)%Z).
  assert (HM : (2 ^ 104 <= M < 2 ^ 106)%Z).
  { unfold M. change (2 ^ 104)%Z with (2 ^ 52 * 2 ^ 52)%Z.
    change (2 ^ 106)%Z with (2 ^ 53 * 2 ^ 53)%Z. nia. }
  pose proof (digits_between M 104 106 ltac:(lia) HM) as Hd.
  pose proof (shifted_mantissa_bounds M ltac:(lia)) as [Hn Hsh].
  rewrite round_aux_exact by lia.
  set (n := (Zdigits2 M - 53)%Z) in *.
  assert (Hpn : (0 < 2 ^ n)%Z) by (apply Z.pow_pos_nonneg; lia).
  apply rounds_of_Z; [exact Hpn | exact Hsh | lia |].
  rewrite !pow2_add.
  assert (Hp : pow2 n == inject_Z (2 ^ n)) by (apply pow2_Z; lia).
  rewrite Hp. unfold M. rewrite inject_Z_mult.
  pose proof (inject_Z_pos _ Hpn). field. lra.
Qed.

Lemma div_rounds (lo1 hi1 lo2 hi2 : Z) (x y : number) :
  pnormal lo1 hi1 x = true -> pnormal lo2 hi2 y = true ->
  (-1074 <= lo1 - hi2 - 53)%Z -> (hi1 - lo2 - 52 <= 970)%Z ->
  rounds (toQ x / toQ y) (div x y).
Proof.
  intros Hx Hy Hlo Hhi.
  apply pnormal_inv in Hx. destruct Hx as (mx & ex & -> & Hmx & Hex).
  apply pnormal_inv in Hy. destruct Hy as (my & ey & -> & Hmy & Hey).
  unfold div, SFdiv, SFdiv_core_binary. cbn [xorb toQ cond_Zopp Zdigits2].
  rewrite (digits2_pos_unique mx 53), (digits2_pos_unique my 53) by lia.
  replace (53 + ex - (53 + ey))%Z with (ex - ey)%Z by lia.
  rewrite fexp_normal by lia.
  rewrite Z.min_l by lia.
  replace (ex - ey - (ex - ey - 53))%Z with 53%Z by lia.
  rewrite Z.shiftl_mul_pow2 by lia.
  set (N := (Zpos mx * 2 ^ 53)%Z).
  assert (Hde : Z.div_eucl N (Zpos my) = ((N / Zpos my)%Z, (N mod Zpos my)%Z))
    by (unfold Z.div, Z.modulo; destruct (Z.div_eucl N (Zpos my)); reflexivity).
  rewrite Hde, new_location_locZ by lia.
  assert (Hq : (2 ^ 52 <= N / Zpos my < 2 ^ 54)%Z).
  { split.
    - apply Z.div_le_lower_bound; [lia |]. unfold N. nia.
    - apply Z.div_lt_upper_bound; [lia |]. unfold N.
      change (2 ^ 54)%Z with (2 * 2 ^ 53)%Z. nia. }
  pose proof (digits_between (N / Zpos my) 52 54 ltac:(lia) Hq) as Hd.
  pose proof (shifted_mantissa_bounds (N / Zpos my) ltac:(lia)) as [Hn Hsh].
  rewrite round_aux_normal by lia.
  set (n := (Zdigits2 (N / Zpos my) - 53)%Z) in *.
  assert (Hpn : (0 < 2 ^ n)%Z) by (apply Z.pow_pos_nonneg; lia).
  apply rounds_of_Z; [lia | rewrite <- Z.div_div by lia; exact Hsh | lia |].
  replace (ex - ey - 53 + n)%Z with (ex + (- ey) + (- (53)) + n)%Z by lia.
  rewrite !pow2_add, !pow2_opp.
  assert (Hp : pow2 n == inject_Z (2 ^ n)) by (apply pow2_Z; lia).
  assert (Hp53 : pow2 53 == inject_Z (2 ^ 53)) by (apply pow2_Z; lia).
  rewrite Hp, Hp53. unfold N. rewrite !inject_Z_mult.
  pose proof (inject_Z_pos _ Hpn). pose proof (pow2_pos ey). pose proof (pow2_pos ex).
  assert (0 < inject_Z (Zpos my)) by (apply inject_Z_pos; lia).
  assert (0 < inject_Z (2 ^ 53)) by reflexivity.
  field. repeat split; lra.
Qed.

(** The exact results with their error and range. *)
Lemma mul_spec (lo1 hi1 lo2 hi2 : Z) (x y : number) :
  pnormal lo1 hi1 x = true -> pnormal lo2 hi2 y = true ->
  (-1074 <= lo1 + lo2 + 52)%Z -> (hi1 + hi2 + 53 <= 970)%Z ->
  rounds (toQ x * toQ y) (mul x y) /\
  pnormal (lo1 + lo2 + 52) (hi1 + hi2 + 54) (mul x y) = true.
Proof.
  intros Hx Hy Hlo Hhi.
  pose proof (mul_rounds _ _ _ _ _ _ Hx Hy Hlo Hhi) as Hr. split; [exact Hr |].
  apply pnormal_value in Hx. apply pnormal_value in Hy.
  destruct Hx as [Hx1 Hx2]. destruct Hy as [Hy1 Hy2].
  pose proof (pow2_pos (lo1 + 52)). pose proof (pow2_pos (lo2 + 52)).
  replace (lo1 + lo2 + 52)%Z with ((lo1 + 52) + (lo2 + 52) - 52)%Z by lia.
  replace (hi1 + hi2 + 54)%Z with ((hi1 + 53) + (hi2 + 53) - 52)%Z by lia.
  apply rounds_pnormal with (toQ x * toQ y); [exact Hr | |]; rewrite pow2_add; nra.
Qed.

Lemma div_spec (lo1 hi1 lo2 hi2 : Z) (x y : number) :
  pnormal lo1 hi1 x = true -> pnormal lo2 hi2 y = true ->
  (-1074 <= lo1 - hi2 - 53)%Z -> (hi1 - lo2 - 52 <= 970)%Z ->
  rounds (toQ x / toQ y) (div x y) /\
  pnormal (lo1 - hi2 - 53) (hi1 - lo2 - 51) (div x y) = true.
Proof.
  intros Hx Hy Hlo Hhi.
  pose proof (div_rounds _ _ _ _ _ _ Hx Hy Hlo Hhi) as Hr. split; [exact Hr |].
  apply pnormal_value in Hx. apply pnormal_value in Hy.
  destruct Hx as [Hx1 Hx2]. destruct Hy as [Hy1 Hy2].
  pose proof (pow2_pos (lo1 + 52)). pose proof (pow2_pos (lo2 + 52)).
  pose proof (pow2_pos (hi2 + 53)). pose proof (pow2_pos (hi1 + 53)).
  replace (lo1 - hi2 - 53)%Z with ((lo1 + 52) + (- (hi2 + 53)) - 52)%Z by lia.
  replace (hi1 - lo2 - 51)%Z with ((hi1 + 53) + (- (lo2 + 52)) - 52)%Z by lia.
  apply rounds_pnormal with (toQ x / toQ y); [exact Hr | |]; rewrite pow2_add, pow2_opp.
  - apply Qle_shift_div_l; [lra |].
    apply Qle_trans with (pow2 (lo1 + 52) * (toQ y / pow2 (hi2 + 53))).
    + apply Qeq_le. field. lra.
    + assert (toQ y / pow2 (hi2 + 53) <= 1) by (apply Qle_shift_div_r; lra).
      nra.
  - apply Qlt_shift_div_r; [lra |].
    apply Qlt_le_trans with (pow2 (hi1 + 53)); [exact Hx2 |].
    apply Qle_trans with (pow2 (hi1 + 53) * (toQ y / pow2 (lo2 + 52))).
    + assert (1 <= toQ y / pow2 (lo2 + 52)) by (apply Qle_shift_div_l; lra).
      nra.
    + apply Qeq_le. field. lra.
Qed.

End MulDiv.

Section Floor.

Lemma toBigInt_ofBigInt (z : Z) : 0 < z < 2 ^ 53 -> toBigInt (ofBigInt z) = Some z.
Proof.
  intros Hz. rewrite ofBigInt_small by exact Hz.
  pose proof (digits_between z 0 53 ltac:(lia) ltac:(lia)) as Hd.
  set (d := Zdigits2 z) in *.
  assert (Hpow : 0 < 2 ^ (53 - d)) by (apply Z.pow_pos_nonneg; lia).
  unfold toBigInt. destruct (d - 53) as [| q | q] eqn:Hq; try lia.
  - unfold floorZ. cbn [cond_Zopp]. rewrite Z2Pos.id by lia.
    replace (53 - d) with 0 by lia. rewrite Z.pow_0_r, Z.mul_1_r. reflexivity.
  - rewrite Z2Pos.id by lia.
    replace (53 - d) with (Zpos q) by lia.
    rewrite Z.mod_mul by lia. cbn [Z.eqb].
    unfold floorZ. cbn [cond_Zopp]. rewrite Z2Pos.id by lia.
    rewrite Z.div_mul by lia. reflexivity.
Qed.

(** [BigInt(Math.floor(x))] is the integer part of a positive normal [x]. *)
Lemma bigIntFloor_spec (lo hi : Z) (x : number) :
  pnormal lo hi x = true -> toBigInt (Math_floor x) = Some (Qfloor (toQ x)).
Proof.
  intros Hx. apply pnormal_inv in Hx. destruct Hx as (m & e & -> & Hm & _).
  cbn [toQ cond_Zopp Math_floor].
  destruct (Z.leb_spec 0 e) as [He | He].
  - (* an integer already *)
    assert (Hp : (pow2 e == inject_Z (2 ^ e))%Q) by (apply pow2_Z; lia).
    rewrite Hp, <- inject_Z_mult, Qfloor_Z.
    destruct e as [| p | p]; try lia; cbn [toBigInt floorZ cond_Zopp].
    + rewrite Z.pow_0_r, Z.mul_1_r. reflexivity.
    + reflexivity.
  - destruct e as [| p | p]; try lia.
    assert (Hv : (inject_Z (Zpos m) * pow2 (Zneg p) == inject_Z (Zpos m) / inject_Z (2 ^ Zpos p))%Q).
    { change (Zneg p) with (- Zpos p). rewrite pow2_opp.
      assert (Hp : (pow2 (Zpos p) == inject_Z (2 ^ Zpos p))%Q) by (apply pow2_Z; lia).
      rewrite Hp. reflexivity. }
    rewrite Hv, <- Zdiv_Qdiv.
    cbn [floorZ cond_Zopp].
    assert (Hpow : 0 < 2 ^ Zpos p) by (apply Z.pow_pos_nonneg; lia).
    assert (Hz : 0 <= Zpos m / 2 ^ Zpos p < 2 ^ 53).
    { split; [apply Z.div_pos; lia |].
      apply Z.div_lt_upper_bound; [lia |]. nia. }
    destruct (Zpos m / 2 ^ Zpos p) as [| z | z] eqn:Hq; try lia.
    + reflexivity.
    + apply toBigInt_ofBigInt. lia.
Qed.

Lemma bigIntFloor_bounds (lo hi : Z) (x : number) :
  pnormal lo hi x = true ->
  exists z, toBigInt (Math_floor x) = Some z /\
            (inject_Z z <= toQ x)%Q /\ (toQ x < inject_Z z + 1)%Q /\ 0 <= z.
Proof.
  intros Hx. exists (Qfloor (toQ x)).
  split; [apply (bigIntFloor_spec lo hi); exact Hx |].
  split; [apply Qfloor_le |].
  split.
  - pose proof (Qlt_floor (toQ x)) as H. rewrite inject_Z_plus in H. exact H.
  - apply pnormal_value in Hx. destruct Hx as [Hx _].
    pose proof (pow2_pos (lo + 52)).
    change 0 with (Qfloor 0). apply Qfloor_resp_le. lra.
Qed.

End Floor.

(** *** Accumulated rounding errors *)


Section Near.
Local Open Scope Q_scope.

Lemma w_pos : 0 < 1 - u.
Proof. reflexivity. Qed.

Lemma wpow_pos (k : nat) : 0 < (1 - u) ^ Z.of_nat k.
Proof. apply Qpower_0_lt. exact w_pos. Qed.

Lemma wpow_add (j k : nat) :
  (1 - u) ^ Z.of_nat (j + k) == (1 - u) ^ Z.of_nat j * (1 - u) ^ Z.of_nat k.
Proof. rewrite Nat2Z.inj_add. apply Qpower_plus. discriminate. Qed.

Lemma near_pos (k : nat) (q v : Q) : near k q v -> 0 < v.
Proof. intros (Hq & Hlo & _). pose proof (wpow_pos k). nra. Qed.

Lemma near_exact (q v : Q) : 0 < q -> v == q -> near 0 q v.
Proof.
  intros Hq Hv. unfold near. change ((1 - u) ^ Z.of_nat 0) with 1.
  rewrite Hv. split; [exact Hq |]. split; lra.
Qed.

Lemma near_rounds (X : Q) (f : number) : rounds X f -> near 1 X (toQ f).
Proof.
  intros Hr. pose proof (rounds_pos X f Hr) as [HX _].
  apply rounds_error in Hr. destruct Hr as [Hlo Hhi].
  unfold near. change ((1 - u) ^ Z.of_nat 1) with (1 - u).
  split; [exact HX |]. split; [exact Hlo |].
  unfold u in *. nra.
Qed.

Lemma near_trans (j k : nat) (q X v : Q) : near j q X -> near k X v -> near (j + k) q v.
Proof.
  intros (Hq & Hlo & Hhi) (HX & Hlo' & Hhi').
  pose proof (wpow_pos j). pose proof (wpow_pos k).
  unfold near. rewrite wpow_add.
  set (a := (1 - u) ^ Z.of_nat j) in *. set (b := (1 - u) ^ Z.of_nat k) in *.
  split; [exact Hq |]. split.
  - apply Qle_trans with (X * b); [nra | exact Hlo'].
  - apply Qle_trans with (X * a); [nra | exact Hhi].
Qed.

Lemma near_mul (j k : nat) (q1 v1 q2 v2 : Q) :
  near j q1 v1 -> near k q2 v2 -> near (j + k) (q1 * q2) (v1 * v2).
Proof.
  intros H1 H2. pose proof (near_pos _ _ _ H1) as Hv1. pose proof (near_pos _ _ _ H2) as Hv2.
  destruct H1 as (Hq1 & Hlo1 & Hhi1). destruct H2 as (Hq2 & Hlo2 & Hhi2).
  pose proof (wpow_pos j). pose proof (wpow_pos k).
  unfold near. rewrite wpow_add.
  set (a := (1 - u) ^ Z.of_nat j) in *. set (b := (1 - u) ^ Z.of_nat k) in *.
  split; [nra |]. split.
  - apply Qle_trans with ((q1 * a) * (q2 * b)); [apply Qeq_le; ring |].
    assert (Hc : 0 < q2 * b) by nra. assert (Hd : 0 < q1 * a) by nra.
    set (c := q2 * b) in *. set (d := q1 * a) in *. nra.
  - apply Qle_trans with ((v1 * a) * (v2 * b)); [apply Qeq_le; ring |].
    assert (Hc : 0 < v2 * b) by nra. assert (Hd : 0 < v1 * a) by nra.
    set (c := v2 * b) in *. set (d := v1 * a) in *. nra.
Qed.

Lemma near_div (j k : nat) (q1 v1 q2 v2 : Q) :
  near j q1 v1 -> near k q2 v2 -> near (j + k) (q1 / q2) (v1 / v2).
Proof.
  intros H1 H2. pose proof (near_pos _ _ _ H1) as Hv1. pose proof (near_pos _ _ _ H2) as Hv2.
  destruct H1 as (Hq1 & Hlo1 & Hhi1). destruct H2 as (Hq2 & Hlo2 & Hhi2).
  pose proof (wpow_pos j). pose proof (wpow_pos k).
  unfold near. rewrite wpow_add.
  set (a := (1 - u) ^ Z.of_nat j) in *. set (b := (1 - u) ^ Z.of_nat k) in *.
  split; [apply Qlt_shift_div_l; lra |]. split.
  - apply Qle_shift_div_l; [exact Hv2 |].
    apply Qle_trans with ((q1 * a) * (v2 * b) / q2); [apply Qeq_le; field; lra |].
    apply Qle_shift_div_r; [exact Hq2 |].
    assert (Hc : 0 < v2 * b) by nra. assert (Hd : 0 < q1 * a) by nra.
    set (c := v2 * b) in *. set (d := q1 * a) in *. nra.
  - assert (Ht0 : 0 < b / v2) by (apply Qlt_shift_div_l; lra).
    assert (Ht1 : b / v2 * q2 <= 1).
    { apply Qle_trans with (q2 * b / v2); [apply Qeq_le; field; lra |].
      apply Qle_shift_div_r; lra. }
    apply Qle_trans with (q1 * (b / v2)).
    + apply Qle_trans with ((v1 * a) * (b / v2)); [apply Qeq_le; field; lra |].
      set (t := b / v2) in *. nra.
    + apply Qle_shift_div_l; [exact Hq2 |].
      set (t := b / v2) in *. nra.
Qed.

Lemma near_ext (k : nat) (q q' v : Q) : q == q' -> near k q v -> near k q' v.
Proof. intros Hq (H0 & H1 & H2). unfold near. rewrite <- Hq. repeat split; assumption. Qed.

End Near.

(** ** Reads of the exchange rate *)

Section RateReads.
Context {L : Ledger}.

Lemma getExchangeRate_run (w : world L) (acts : list Action) :
  exists new,
    ContractClient.getExchangeRate (w, acts) =
      (result ContractClient.getExchangeRate w, (w, acts ++ new)).
Proof.
  unfold result, run, ContractClient.getExchangeRate, bind, getAccount. cbn [fst snd].
  destruct (accountFound L w Config.adminPublicKey); cbn [fst snd app].
  - unfold simulateTransaction. cbn [fst snd app].
    destruct (simulate L w Config.adminPublicKey _) as [e | [v |] | [v |]]; cbn [fst].
    all: eexists [_; _]; rewrite <- app_assoc; reflexivity.
  - eexists [_]. reflexivity.
Qed.

(** A read of the rate never throws and never moves the ledger; it loads
    the admin account and simulates the view at most once, and what it does
    and answers is the same after every log of actions. *)
Lemma getCurrentRate_reads (this : RateCache.Manager) (now later : Z) (w : world L) :
  exists r this' new,
    (forall acts, RateCache.getCurrentRate this now later (w, acts)
                  = (inr (r, this'), (w, acts ++ new))) /\
    rateReadActions new.
Proof.
  assert (Hrefresh : exists r this' new,
            (forall acts, RateCache.refreshRate this later (w, acts)
                          = (inr (r, this'), (w, acts ++ new))) /\
            rateReadActions new).
  { unfold RateCache.refreshRate.
    destruct (if RateCache.isRefreshing this then RateCache.cachedRate this else None)
      as [cached |].
    { eexists _, _, []. split; [intros acts; rewrite app_nil_r; reflexivity | left; reflexivity]. }
    unfold catch, bind, ContractClient.getExchangeRate, bind, getAccount. cbn [fst snd].
    destruct (accountFound L w Config.adminPublicKey); cbn [fst snd app].
    - unfold simulateTransaction. cbn [fst snd app].
      assert (Hnew : rateReadActions [GetAccount Config.adminPublicKey;
                                      Simulate Config.adminPublicKey exchangeRateView])
        by (right; right; reflexivity).
      destruct (simulate L w Config.adminPublicKey _) as [e | [v |] | [v |]];
        cbn [ret throw raise fst snd].
      all: try (destruct (leb (div (ofBigInt v) n1e7) zero
                          || negb (isFinite (div (ofBigInt v) n1e7))); cbn [ret throw raise]).
      all: try (destruct (RateCache.cachedRate this)).
      all: eexists _, _, _; split; [intros acts; rewrite <- app_assoc; reflexivity | exact Hnew].
    - destruct (RateCache.cachedRate this).
      all: eexists _, _, _; split; [intros acts; reflexivity | right; left; reflexivity]. }
  unfold RateCache.getCurrentRate.
  destruct (RateCache.cachedRate this) as [cached |]; [| exact Hrefresh].
  destruct (negb (RateCache.isStale now cached)); [| exact Hrefresh].
  eexists _, _, []. split; [intros acts; rewrite app_nil_r; reflexivity | left; reflexivity].
Qed.

End RateReads.

(** ** The gateway: bounds of a stake request *)

Section StakeBounds.
Context {L : Ledger}.

Lemma bigIntFloor_run (x : number) (s : world L * list Action) :
  bigIntFloor (L := L) x s =
    match toBigInt (Math_floor x) with
    | Some z => (inr z, s)
    | None => (inl (Err "RangeError: The number cannot be converted to a BigInt because it is not an integer"), s)
    end.
Proof. unfold bigIntFloor. destruct (toBigInt (Math_floor x)); reflexivity. Qed.

(** The run of the stake route, case by case. *)
Lemma stake_run (rates : RateCache.Manager) (clock : nat -> Z * Z)
    (body : Gateway.AmountBody) (w : world L) :
  let address := Gateway.userAddress body in
  run (Gateway.stake rates clock body) w =
    if Gateway.schemaAccepts body then
      match stroopsOf (Gateway.amount body) with
      | None =>
          (inr (stakeCaught "RangeError: The number cannot be converted to a BigInt because it is not an integer", rates),
           (w, []))
      | Some z =>
          if z <? Config.minStakeAmount then (inr (Gateway.StakeBelowMinimum, rates), (w, []))
          else if z >? Config.maxStakeAmount
          then (inr (Gateway.StakeAboveMaximum, rates), (w, []))
          else if addressValid L address then
            let depositOp := mkCall Config.stakingContractId "deposit"
                               [ScAddress address; ScI128 z] in
            let simulated := [GetAccount address; Simulate address depositOp] in
            if accountFound L w address then
              match simulate L w address depositOp with
              | SimError e => (inr (Gateway.StakeSimulationFailed e, rates), (w, simulated))
              | SimSuccess (Some _) | SimRestore (Some _) =>
                  stakeBuilds rates clock body depositOp (w, simulated)
              | _ =>
                  (inr (stakeCaught "Cannot read properties of undefined (reading 'auth')",
                        rates),
                   (w, simulated))
              end
            else (inr (stakeCaught "Account not found", rates), (w, [GetAccount address]))
          else (inr (stakeCaught "Invalid address", rates), (w, []))
      end
    else (inr (stakeCaught "ZodError", rates), (w, [])).
Proof.
  cbv zeta.
  unfold run, Gateway.stake, catch, bind, Gateway.parse, stroopsOf.
  destruct (Gateway.schemaAccepts body); cbn [ret throw]; [| reflexivity].
  rewrite bigIntFloor_run.
  generalize (toBigInt (Math_floor (mul (Gateway.amount body) n1e7))) as stroops.
  intros [z |]; cbn [ret]; [| reflexivity].
  destruct (z <? Config.minStakeAmount); cbn [ret fst]; [reflexivity |].
  destruct (z >? Config.maxStakeAmount); cbn [ret fst]; [reflexivity |].
  unfold toAddress. destruct (addressValid L (Gateway.userAddress body)); cbn [ret throw fst];
    [| reflexivity].
  unfold getAccount; cbn [fst snd].
  destruct (accountFound L w (Gateway.userAddress body)); cbn [fst app]; [| reflexivity].
  unfold simulateTransaction; cbn [fst snd app].
  destruct (simulate L w (Gateway.userAddress body) _) as [e | [v |] | [v |]];
    cbn [ret throw fst Gateway.assembleTransaction]; try reflexivity.
  all: unfold stakeBuilds.
  all: destruct (Gateway.getExchangeRate rates (clock 0%nat) _) as [[m | first] s1];
    [reflexivity |].
  all: destruct (Gateway.getExchangeRate first.2 (clock 1%nat) s1) as [[m | second] s2];
    reflexivity.
Qed.

(** The replies of the end of the route are built transactions or answers
    of the handler. *)
Lemma stakeBuilds_reply (rates : RateCache.Manager) (clock : nat -> Z * Z)
    (body : Gateway.AmountBody) (depositOp : ContractCall) (s : world L * list Action) :
  (exists rawMsg rates', (stakeBuilds rates clock body depositOp s).1
                         = inr (stakeCaught rawMsg, rates')) \/
  (exists estimate rate rates', (stakeBuilds rates clock body depositOp s).1
                                = inr (Gateway.StakeBuilt depositOp estimate rate, rates')).
Proof.
  unfold stakeBuilds.
  destruct (Gateway.getExchangeRate rates (clock 0%nat) s) as [[m | first] s1];
    [left; eexists _, _; reflexivity |].
  destruct (Gateway.getExchangeRate first.2 (clock 1%nat) s1) as [[m | second] s2];
    [left; eexists _, _; reflexivity | right; eexists _, _, _; reflexivity].
Qed.

Lemma stake_reply (rates : RateCache.Manager) (clock : nat -> Z * Z)
    (body : Gateway.AmountBody) (w : world L) :
  reply (Gateway.stake rates clock body) w = inr Gateway.StakeBelowMinimum <->
  Gateway.schemaAccepts body = true /\
  exists z, stroopsOf (Gateway.amount body) = Some z /\ z < Config.minStakeAmount.
Proof.
  unfold reply, result. rewrite stake_run. cbv zeta. unfold stakeCaught.
  destruct (Gateway.schemaAccepts body); cbn [fst].
  2: { split; [discriminate | intros [? _]; discriminate]. }
  destruct (stroopsOf (Gateway.amount body)) as [z |]; cbn [fst].
  2: { split; [discriminate | intros [_ [z [? _]]]; discriminate]. }
  destruct (Z.ltb_spec z Config.minStakeAmount) as [Hlt | Hge]; cbn [fst].
  { split; [intros _; split; [reflexivity | exists z; split; [reflexivity | exact Hlt]]
           | reflexivity]. }
  split; [| intros [_ [z' [Hz' Hlt]]]; inversion Hz'; subst; lia].
  intros Hres; exfalso; revert Hres.
  destruct (z >? Config.maxStakeAmount); cbn [fst]; [discriminate |].
  destruct (addressValid L (Gateway.userAddress body)); cbn [fst]; [| discriminate].
  destruct (accountFound L w (Gateway.userAddress body)); cbn [fst]; [| discriminate].
  destruct (simulate L w (Gateway.userAddress body) _) as [e | [v |] | [v |]];
    cbn [fst]; try discriminate.
  all: match goal with
       | |- context [stakeBuilds ?r ?c ?b ?o ?s] =>
           destruct (stakeBuilds_reply r c b o s) as [(m & r' & ->) | (e' & x & r' & ->)]
       end; discriminate.
Qed.

End StakeBounds.

(** C4.  The stake route answers with the minimum-stake error exactly when
    the requested amount, in stroops, is strictly below
    MIN_STAKE = 10,000,000: a request of MIN_STAKE stroops (1 XLM) is not
    rejected by the bound check, and a request of MIN_STAKE - 1 stroops is
    rejected. *)
Theorem stake_rejects_exactly_below_min_stake :
  (forall (L : Ledger) (w : world L) (rates : RateCache.Manager) (clock : nat -> Z * Z)
          (body : Gateway.AmountBody),
     reply (Gateway.stake rates clock body) w = inr Gateway.StakeBelowMinimum <->
     Gateway.schemaAccepts body = true /\
     exists z, stroopsOf (Gateway.amount body) = Some z /\ z < 10000000) /\
  stroopsOf oneXlm = Some Config.minStakeAmount /\
  stroopsOf justBelowOneXlm = Some (Config.minStakeAmount - 1) /\
  (forall (L : Ledger) (w : world L) (rates : RateCache.Manager) (clock : nat -> Z * Z)
          (address : string),
     String.length address = 56%nat ->
     reply (Gateway.stake rates clock (Gateway.mkBody address oneXlm)) w
       <> inr Gateway.StakeBelowMinimum /\
     reply (Gateway.stake rates clock (Gateway.mkBody address oneXlm)) w
       <> inr Gateway.StakeAboveMaximum /\
     reply (Gateway.stake rates clock (Gateway.mkBody address justBelowOneXlm)) w
       = inr Gateway.StakeBelowMinimum).
Proof.
  split; [intros; apply stake_reply |].
  split; [vm_compute; reflexivity |].
  split; [vm_compute; reflexivity |].
  intros L w rates clock address Hlen.
  split; [| split].
  - intros Hres. apply stake_reply in Hres. destruct Hres as [_ [z [Hz Hlt]]].
    vm_compute in Hz. inversion Hz; subst. vm_compute in Hlt. discriminate.
  - unfold reply, result. rewrite stake_run. cbv zeta. unfold Gateway.schemaAccepts.
    cbn [Gateway.userAddress Gateway.amount]. rewrite Hlen.
    replace (gtb oneXlm zero) with true by (vm_compute; reflexivity).
    cbn [andb Nat.eqb].
    replace (stroopsOf oneXlm) with (Some 10000000) by (vm_compute; reflexivity).
    replace (10000000 <? Config.minStakeAmount) with false by reflexivity.
    replace (10000000 >? Config.maxStakeAmount) with false by reflexivity.
    unfold stakeCaught.
    destruct (addressValid L address); cbn [fst]; [| discriminate].
    destruct (accountFound L w address); cbn [fst]; [| discriminate].
    destruct (simulate L w address _) as [e | [v |] | [v |]]; cbn [fst]; try discriminate.
    all: match goal with
         | |- context [stakeBuilds ?r ?c ?b ?o ?s] =>
             destruct (stakeBuilds_reply r c b o s) as [(m & r' & ->) | (e' & x & r' & ->)]
         end; discriminate.
  - apply stake_reply. split.
    + unfold Gateway.schemaAccepts. cbn [Gateway.userAddress Gateway.amount].
      rewrite Hlen. vm_compute. reflexivity.
    + exists 9999999. split; vm_compute; reflexivity.
Qed.

Lemma stake_rejects_exactly_below_min_stake_witness :
  reply (L := demoLedger)
    (Gateway.stake demoRates demoClock (Gateway.mkBody demoAddress oneXlm)) 0
    <> inr Gateway.StakeBelowMinimum /\
  reply (L := demoLedger)
    (Gateway.stake demoRates demoClock (Gateway.mkBody demoAddress oneXlm)) 0
    <> inr Gateway.StakeAboveMaximum /\
  reply (L := demoLedger)
    (Gateway.stake demoRates demoClock (Gateway.mkBody demoAddress justBelowOneXlm)) 0
    = inr Gateway.StakeBelowMinimum.
Proof.
  apply (proj2 (proj2 (proj2 stake_rejects_exactly_below_min_stake)) demoLedger 0
           demoRates demoClock demoAddress).
  reflexivity.
Defined.

(** ** The gateway: pre-flight checks *)

Section PreFlight.
Context {L : Ledger}.

(** The run of the unstake route, case by case. *)
Lemma unstake_run (rates : RateCache.Manager) (clock : Z * Z) (now : Z) (hasPrisma : bool)
    (body : Gateway.AmountBody) (w : world L) :
  let address := Gateway.userAddress body in
  let admin := Gateway.adminPublicKey in
  run (Gateway.unstake rates clock now hasPrisma body) w =
    if Gateway.schemaAccepts body then
      match stroopsOf (Gateway.amount body) with
      | None =>
          (inr (Gateway.UnstakeFailed "RangeError: The number cannot be converted to a BigInt because it is not an integer", rates),
           (w, []))
      | Some z =>
          if z <=? 0 then (inr (Gateway.UnstakeNotPositive, rates), (w, []))
          else if addressValid L address then
            if accountFound L w admin then
              let checked := [GetAccount admin; Simulate admin (balanceCall address)] in
              match simulate L w admin (balanceCall address) with
              | SimRestore _ => (inr (Gateway.UnstakeEntryArchived, rates), (w, checked))
              | SimError e =>
                  if saysArchived e
                  then (inr (Gateway.UnstakeEntryArchived, rates), (w, checked))
                  else (inr (Gateway.UnstakeFailed ("Balance check failed: " +:+ e), rates),
                        (w, checked))
              | SimSuccess retval =>
                  let userBalance := default 0 retval in
                  if userBalance <? z
                  then (inr (Gateway.UnstakeInsufficientBalance userBalance, rates),
                        (w, checked))
                  else if accountFound L w address then
                    let simulated :=
                      checked ++ [GetAccount address;
                                  Simulate address (requestWithdrawalCall address z)] in
                    match simulate L w address (requestWithdrawalCall address z) with
                    | SimError e =>
                        if includes "UnreachableCodeReached" e
                        then (inr (Gateway.UnstakeWithdrawalFailed, rates), (w, simulated))
                        else (inr (Gateway.UnstakeSimulationFailed e, rates), (w, simulated))
                    | SimSuccess (Some _) | SimRestore (Some _) =>
                        unstakeBuilds rates clock now hasPrisma body z
                          (requestWithdrawalCall address z) (w, simulated)
                    | _ =>
                        (inr (Gateway.UnstakeFailed
                                "Cannot read properties of undefined (reading 'auth')", rates),
                         (w, simulated))
                    end
                  else (inr (Gateway.UnstakeFailed "Account not found", rates),
                        (w, checked ++ [GetAccount address]))
              end
            else (inr (Gateway.UnstakeFailed "Account not found", rates),
                  (w, [GetAccount admin]))
          else (inr (Gateway.UnstakeFailed "Invalid address", rates), (w, []))
      end
    else (inr (Gateway.UnstakeFailed "ZodError", rates), (w, [])).
Proof.
  cbv zeta.
  unfold run, Gateway.unstake, catch, bind, Gateway.parse, stroopsOf.
  destruct (Gateway.schemaAccepts body); cbn [ret throw]; [| reflexivity].
  rewrite bigIntFloor_run.
  generalize (toBigInt (Math_floor (mul (Gateway.amount body) n1e7))) as stroops.
  intros [z |]; cbn [ret]; [| reflexivity].
  destruct (z <=? 0); cbn [ret fst]; [reflexivity |].
  unfold Gateway.querySxlmBalance, bind, toAddress.
  destruct (addressValid L (Gateway.userAddress body)); cbn [ret throw fst snd];
    [| reflexivity].
  unfold getAccount; cbn [fst snd].
  destruct (accountFound L w Gateway.adminPublicKey); cbn [fst snd app]; [| reflexivity].
  unfold simulateTransaction; cbn [fst snd app]. unfold balanceCall, saysArchived.
  destruct (simulate L w Gateway.adminPublicKey _) as [e | r | r]; cbn [ret throw fst snd].
  - destruct (includes "EntryArchived" e || includes "MissingValue" e); reflexivity.
  - reflexivity.
  - destruct r as [v |]; cbn [default from_option id ret fst snd].
    all: match goal with
         | |- context [?b <? ?c] => destruct (b <? c); cbn [ret fst snd]; [reflexivity |]
         end.
    all: unfold getAccount; cbn [fst snd].
    all: destruct (accountFound L w (Gateway.userAddress body)); cbn [fst snd app];
           [| reflexivity].
    all: unfold simulateTransaction, requestWithdrawalCall; cbn [fst snd app].
    all: destruct (simulate L w (Gateway.userAddress body) _) as [e' | [v' |] | [v' |]];
           cbn [ret throw fst snd Gateway.assembleTransaction].
    all: try (destruct (includes "UnreachableCodeReached" e'); reflexivity).
    all: try reflexivity.
    all: unfold unstakeBuilds.
    all: destruct (Gateway.getExchangeRate rates clock _) as [[m | read] [w1 acts1]];
           [reflexivity |].
    all: destruct hasPrisma; cbn [ret log fst snd app]; [| reflexivity].
    all: unfold prismaCall; cbn [fst snd].
    all: destruct (database L w1) as [[m |] w2]; reflexivity.
Qed.

Lemma unstake_preflight (rates : RateCache.Manager) (clock : Z * Z) (now : Z)
    (hasPrisma : bool) (body : Gateway.AmountBody) (w : world L) (z b : Z) :
  stroopsOf (Gateway.amount body) = Some z ->
  simulate L w Gateway.adminPublicKey
    (mkCall Config.sxlmTokenContractId "balance" [ScAddress (Gateway.userAddress body)])
    = SimSuccess (Some b) ->
  b < z ->
  (exists r, reply (Gateway.unstake rates clock now hasPrisma body) w = inr r
             /\ unstakeError r = true) /\
  invokes "request_withdrawal" (actions (Gateway.unstake rates clock now hasPrisma body) w)
    = false.
Proof.
  intros Hz Hsim Hlt.
  unfold reply, result, actions. rewrite unstake_run. cbv zeta. rewrite Hz.
  unfold balanceCall. rewrite Hsim. cbn [default from_option id].
  destruct (Z.ltb_spec b z); [| lia].
  destruct (Gateway.schemaAccepts body); cbn [fst snd].
  2: { split; [eexists; split; reflexivity | reflexivity]. }
  destruct (z <=? 0); cbn [fst snd].
  { split; [eexists; split; reflexivity | reflexivity]. }
  destruct (addressValid L (Gateway.userAddress body)); cbn [fst snd].
  2: { split; [eexists; split; reflexivity | reflexivity]. }
  destruct (accountFound L w Gateway.adminPublicKey); cbn [fst snd].
  2: { split; [eexists; split; reflexivity | reflexivity]. }
  split; [eexists; split; reflexivity | reflexivity].
Qed.

Lemma borrow_preflight (body : Gateway.AmountBody) (w : world L) (z b : Z) :
  stroopsOf (Gateway.amount body) = Some z ->
  simulate L w Gateway.adminPublicKey (mkCall Config.lendingContractId "get_pool_balance" [])
    = SimSuccess (Some b) ->
  b < z ->
  (exists r, result (Gateway.borrow body) w = inr r /\ lendingError r = true) /\
  invokes "borrow" (actions (Gateway.borrow body) w) = false.
Proof.
  unfold stroopsOf. intros Hz Hsim Hlt.
  unfold result, actions, run, Gateway.borrow, catch, bind, Gateway.parse.
  destruct (Gateway.schemaAccepts body); cbn [ret throw fst snd].
  2: { split; [eexists; split; reflexivity | reflexivity]. }
  rewrite bigIntFloor_run, Hz. cbn.
  unfold Gateway.queryContractView, bind, getAccount; cbn.
  destruct (accountFound L w Gateway.adminPublicKey); cbn.
  2: { split; [eexists; split; reflexivity | reflexivity]. }
  rewrite Hsim. cbn.
  destruct (Z.ltb_spec b z); [| lia]. cbn.
  split; [eexists; split; reflexivity | reflexivity].
Qed.

End PreFlight.

(** C6.  When the sXLM balance that the ledger reports for the user is
    strictly below the requested amount, the unstake route answers with an
    error and neither builds nor simulates a [request_withdrawal]
    transaction; when the free balance of the lending pool is strictly below
    the requested amount, the borrow route answers with an error and neither
    builds nor simulates a [borrow] transaction. *)
Theorem preflight_rejects_without_building (L : Ledger) (w : world L)
    (rates : RateCache.Manager) (clock : Z * Z) (now : Z) (hasPrisma : bool)
    (body : Gateway.AmountBody) (requested : Z) :
  stroopsOf (Gateway.amount body) = Some requested ->
  (forall balance,
     simulate L w Gateway.adminPublicKey
       (mkCall Config.sxlmTokenContractId "balance" [ScAddress (Gateway.userAddress body)])
       = SimSuccess (Some balance) ->
     balance < requested ->
     (exists r, reply (Gateway.unstake rates clock now hasPrisma body) w = inr r
                /\ unstakeError r = true) /\
     invokes "request_withdrawal"
       (actions (Gateway.unstake rates clock now hasPrisma body) w) = false) /\
  (forall poolBalance,
     simulate L w Gateway.adminPublicKey
       (mkCall Config.lendingContractId "get_pool_balance" []) = SimSuccess (Some poolBalance) ->
     poolBalance < requested ->
     (exists r, result (Gateway.borrow body) w = inr r /\ lendingError r = true) /\
     invokes "borrow" (actions (Gateway.borrow body) w) = false).
Proof.
  intros Hz. split.
  - intros b Hsim Hlt. eapply unstake_preflight; eassumption.
  - intros b Hsim Hlt. eapply borrow_preflight; eassumption.
Qed.

Lemma preflight_rejects_without_building_witness :
  ((exists r,
      reply (L := demoLedger)
        (Gateway.unstake demoRates (1000, 1000) 0 true
           (Gateway.mkBody demoAddress (ofBigInt 10))) 0 = inr r
      /\ unstakeError r = true) /\
   invokes "request_withdrawal"
     (actions (L := demoLedger)
        (Gateway.unstake demoRates (1000, 1000) 0 true
           (Gateway.mkBody demoAddress (ofBigInt 10))) 0) = false) /\
  ((exists r,
      result (L := demoLedger) (Gateway.borrow (Gateway.mkBody demoAddress (ofBigInt 10))) 0
        = inr r /\ lendingError r = true) /\
   invokes "borrow"
     (actions (L := demoLedger) (Gateway.borrow (Gateway.mkBody demoAddress (ofBigInt 10))) 0)
     = false).
Proof.
  pose proof (preflight_rejects_without_building demoLedger 0 demoRates (1000, 1000) 0 true
                (Gateway.mkBody demoAddress (ofBigInt 10)) 100000000 eq_refl) as [Hu Hb].
  split.
  - apply (Hu 50000000); [reflexivity | lia].
  - apply (Hb 20000000); [reflexivity | lia].
Defined.

(** ** The withdrawal queue processor *)

Section Tables.

Lemma findMany_spec (where_ : Withdrawal -> bool) (db : Table) (id : Z) (w : Withdrawal) :
  (id, w) ∈ findMany where_ db <-> db !! id = Some w /\ where_ w = true.
Proof.
  unfold findMany. rewrite list_elem_of_filter, elem_of_map_to_list. cbn.
  rewrite Is_true_true. tauto.
Qed.

Lemma findMany_NoDup (where_ : Withdrawal -> bool) (db : Table) :
  NoDup (findMany where_ db).*1.
Proof.
  apply sublist_NoDup with ((map_to_list db).*1); [apply NoDup_fst_map_to_list |].
  apply fmap_sublist, sublist_filter.
Qed.

Lemma setStatus_same (wd : Withdrawal) : setStatus (status wd) wd = wd.
Proof. destruct wd; reflexivity. Qed.

Lemma setStatus_twice (st st' : Status) (wd : Withdrawal) :
  setStatus st (setStatus st' wd) = setStatus st wd.
Proof. reflexivity. Qed.

(** The rows that a cycle selects: rows of the table, pending and
    unlocked, each id once, at most 50. *)
Lemma readyWithdrawals_elem (now : Z) (db : Table) (id : Z) (wd : Withdrawal) :
  (id, wd) ∈ readyWithdrawals now db ->
  db !! id = Some wd /\ status wd = Pending /\ unlockTime wd <= now.
Proof.
  intros Hin. unfold readyWithdrawals in Hin. apply elem_of_take in Hin.
  destruct Hin as (i & Hi & _). apply list_elem_of_lookup_2 in Hi.
  unfold orderByCreatedAt in Hi. rewrite merge_sort_Permutation in Hi.
  apply findMany_spec in Hi. destruct Hi as [Hi Hready]. split; [exact Hi |].
  unfold isReady in Hready. apply andb_true_iff in Hready.
  destruct Hready as [H1 H2]. apply bool_decide_eq_true in H1. apply bool_decide_eq_true in H2.
  split; assumption.
Qed.

Lemma readyWithdrawals_spec (now : Z) (db : Table) (id : Z) :
  id ∈ (readyWithdrawals now db).*1 ->
  exists wd, db !! id = Some wd /\ status wd = Pending /\ unlockTime wd <= now.
Proof.
  intros Hin. apply list_elem_of_fmap in Hin. destruct Hin as [[id' wd] [-> Hin]].
  exists wd. apply (readyWithdrawals_elem now db id' wd Hin).
Qed.

Lemma readyWithdrawals_NoDup (now : Z) (db : Table) : NoDup (readyWithdrawals now db).*1.
Proof.
  unfold readyWithdrawals.
  apply sublist_NoDup with (orderByCreatedAt (findMany (isReady now) db)).*1;
    [| apply fmap_sublist, sublist_take].
  unfold orderByCreatedAt. rewrite merge_sort_Permutation.
  apply findMany_NoDup.
Qed.

Lemma readyWithdrawals_length (now : Z) (db : Table) :
  (length (readyWithdrawals now db) <= 50)%nat.
Proof. unfold readyWithdrawals. rewrite length_take. lia. Qed.

End Tables.

Section QueueProcessor.
Context {L : Ledger}.

Lemma claimedIds_app (l1 l2 : list Action) :
  claimedIds (l1 ++ l2) = claimedIds l1 ++ claimedIds l2.
Proof. unfold claimedIds. apply omap_app. Qed.

Ltac queue_leaf Hlook :=
  first [ eexists _, _, (@nil Action), _; split; [rewrite app_nil_r; reflexivity |]
        | eexists _, _, _, _; split; [rewrite <- ?app_assoc; reflexivity |] ];
  cbn [tableAfter];
  split; [unfold update; rewrite ?lookup_alter_eq, Hlook; cbn [fmap option_fmap option_map];
          first [reflexivity | symmetry; f_equal; apply setStatus_same] |];
  split; [intros id' Hid'; unfold update; rewrite ?lookup_alter_ne by congruence; reflexivity |];
  split; [first [left; reflexivity | right; reflexivity] |].

(** The processing of one withdrawal that the table holds: it logs at most
    one claim, for this withdrawal, and changes nothing but its status;
    when it returns, the status is completed, failed or pending; and it
    returns when the database answers. *)
Lemma processOne_run (id : Z) (wd : Withdrawal) (db : Table) (s : world L * list Action) :
  db !! id = Some wd ->
  exists c w' new st,
    processOne (id, wd) db s = (inr c, (w', s.2 ++ new)) /\
    tableAfter c !! id = Some (setStatus st wd) /\
    (forall id', id' <> id -> tableAfter c !! id' = db !! id') /\
    (claimedIds new = [] \/ claimedIds new = [id]) /\
    (forall db', c = Finished db' -> st = Completed \/ st = Failed \/ st = Pending) /\
    (databaseAnswers L -> exists db', c = Finished db').
Proof.
  intros Hlook. destruct s as [w acts].
  unfold processOne, tryClaim, bind, outcome, prismaCall, callClaimWithdrawal, bind,
    getAccount, toAddress, sendTransaction, publishEvent, throw.
  cbn [fst snd].
  destruct (database L w) as [[m1 |] w1] eqn:D1; cbn [fst snd ret messageOrString].
  { destruct (database L w1) as [[m2 |] w2] eqn:D2; cbn [fst snd ret messageOrString].
    - queue_leaf Hlook. split; [discriminate |].
      intros Hdb. specialize (Hdb w). rewrite D1 in Hdb. discriminate.
    - queue_leaf Hlook. split; [intros; destruct (isPermanentFailure m1); tauto |].
      intros Hdb. specialize (Hdb w). rewrite D1 in Hdb. discriminate. }
  destruct (accountFound L w1 Config.adminPublicKey); cbn [fst snd ret throw raise messageOrString].
  2: { destruct (database L w1) as [[m2 |] w2] eqn:D2; cbn [fst snd ret messageOrString].
       - queue_leaf Hlook. split; [discriminate |].
         intros Hdb. specialize (Hdb w1). rewrite D2 in Hdb. discriminate.
       - queue_leaf Hlook. split; [intros; tauto |]. intros _. eexists; reflexivity. }
  destruct (addressValid L (wallet wd)); cbn [fst snd ret throw raise messageOrString].
  2: { destruct (database L w1) as [[m2 |] w2] eqn:D2; cbn [fst snd ret messageOrString].
       - queue_leaf Hlook. split; [discriminate |].
         intros Hdb. specialize (Hdb w1). rewrite D2 in Hdb. discriminate.
       - queue_leaf Hlook. split; [intros; tauto |]. intros _. eexists; reflexivity. }
  destruct (submit L w1 _) as [[message | hash] w2]; cbn [fst snd ret messageOrString].
  { destruct (database L w2) as [[m2 |] w3] eqn:D2; cbn [fst snd ret messageOrString].
    - queue_leaf Hlook. split; [discriminate |].
      intros Hdb. specialize (Hdb w2). rewrite D2 in Hdb. discriminate.
    - queue_leaf Hlook. split; [intros; destruct (isPermanentFailure message); tauto |].
      intros _. eexists; reflexivity. }
  destruct (database L w2) as [[m2 |] w3] eqn:D2; cbn [fst snd ret messageOrString].
  { destruct (database L w3) as [[m3 |] w4] eqn:D3; cbn [fst snd ret messageOrString].
    - queue_leaf Hlook. split; [discriminate |].
      intros Hdb. specialize (Hdb w2). rewrite D2 in Hdb. discriminate.
    - queue_leaf Hlook. split; [intros; destruct (isPermanentFailure m2); tauto |].
      intros Hdb. specialize (Hdb w2). rewrite D2 in Hdb. discriminate. }
  destruct (publish L w3 _); cbn [fst snd ret messageOrString].
  { queue_leaf Hlook. split; [intros; tauto |]. intros _. eexists; reflexivity. }
  destruct (database L w3) as [[m3 |] w4] eqn:D3; cbn [fst snd ret messageOrString].
  - queue_leaf Hlook. split; [discriminate |].
    intros Hdb. specialize (Hdb w3). rewrite D3 in Hdb. discriminate.
  - queue_leaf Hlook. split; [intros; tauto |]. intros _. eexists; reflexivity.
Qed.


(** The loop over rows with distinct ids that the table holds. *)
Lemma processLoop_run (rows : list (Z * Withdrawal)) :
  forall (db : Table) (s : world L * list Action),
    NoDup rows.*1 ->
    (forall id wd, (id, wd) ∈ rows -> db !! id = Some wd) ->
    exists c w' new,
      processLoop rows db s = (inr c, (w', s.2 ++ new)) /\
      (forall id, id ∉ rows.*1 -> tableAfter c !! id = db !! id) /\
      (forall id wd, (id, wd) ∈ rows ->
         exists st, tableAfter c !! id = Some (setStatus st wd) /\
                    (forall db', c = Finished db' ->
                       st = Completed \/ st = Failed \/ st = Pending)) /\
      claimedIds new `sublist_of` rows.*1 /\
      (databaseAnswers L -> exists db', c = Finished db').
Proof.
  induction rows as [| [id0 wd0] rows IH]; intros db s Hnd Hdb.
  - exists (Finished db), s.1, []. cbn. rewrite app_nil_r. destruct s. split; [reflexivity |].
    split; [reflexivity |].
    split; [intros id wd Hin; apply elem_of_nil in Hin; destruct Hin |].
    split; [constructor | intros _; eexists; reflexivity].
  - rewrite fmap_cons in Hnd. cbn [fst] in Hnd. apply NoDup_cons in Hnd.
    destruct Hnd as [Hnin Hnd].
    cbn [processLoop]. unfold bind.
    destruct (processOne_run id0 wd0 db s (Hdb id0 wd0 (list_elem_of_here _ _)))
      as (c1 & w1 & new1 & st1 & Hrun1 & Hst1 & Hkeep1 & Hclaim1 & Hcase1 & Hup1).
    rewrite Hrun1.
    assert (Hother : forall id wd, (id, wd) ∈ rows -> id <> id0).
    { intros id wd Hin ->. apply Hnin. apply (list_elem_of_fmap_2 fst) in Hin. exact Hin. }
    assert (Hsub1 : claimedIds new1 `sublist_of` [id0]).
    { destruct Hclaim1 as [-> | ->]; [apply sublist_nil_l | reflexivity]. }
    destruct c1 as [db1 | e1 db1].
    + cbn [tableAfter] in Hst1, Hkeep1.
      destruct (IH db1 (w1, s.2 ++ new1) Hnd)
        as (c2 & w2 & new2 & Hrun2 & Hkeep2 & Hst2 & Hsub2 & Hup2).
      { intros id wd Hin. rewrite (Hkeep1 id (Hother id wd Hin)).
        apply Hdb. apply list_elem_of_further. exact Hin. }
      rewrite Hrun2. cbn [snd].
      exists c2, w2, (new1 ++ new2). split; [rewrite app_assoc; reflexivity |].
      split; [| split; [| split]].
      * intros id Hid. rewrite fmap_cons in Hid. cbn [fst] in Hid.
        apply not_elem_of_cons in Hid. destruct Hid as [Hne Hid].
        rewrite (Hkeep2 id Hid). apply Hkeep1. exact Hne.
      * intros id wd Hin. apply elem_of_cons in Hin. destruct Hin as [E | Hin].
        -- inversion E; subst id wd. exists st1. rewrite (Hkeep2 id0 Hnin).
           split; [exact Hst1 |]. intros _ _. apply (Hcase1 db1 eq_refl).
        -- apply Hst2. exact Hin.
      * rewrite claimedIds_app, fmap_cons. cbn [fst].
        change (id0 :: rows.*1) with ([id0] ++ rows.*1).
        apply sublist_app; assumption.
      * exact Hup2.
    + cbn [ret tableAfter] in *.
      exists (Rejected e1 db1), w1, new1. split; [reflexivity |]. cbn [tableAfter].
      split; [| split; [| split]].
      * intros id Hid. rewrite fmap_cons in Hid. cbn [fst] in Hid.
        apply not_elem_of_cons in Hid. destruct Hid as [Hne Hid]. apply Hkeep1. exact Hne.
      * intros id wd Hin. apply elem_of_cons in Hin. destruct Hin as [E | Hin].
        -- inversion E; subst id wd. exists st1. split; [exact Hst1 | discriminate].
        -- exists (status wd). rewrite setStatus_same, (Hkeep1 id (Hother id wd Hin)).
           split; [| discriminate]. apply Hdb. apply list_elem_of_further. exact Hin.
      * rewrite fmap_cons. cbn [fst]. change (id0 :: rows.*1) with ([id0] ++ rows.*1).
        rewrite <- (app_nil_r (claimedIds new1)).
        apply sublist_app; [exact Hsub1 | apply sublist_nil_l].
      * exact Hup1.
Qed.

(** One cycle. *)
Lemma processQueue_run (now : Z) (db : Table) (s : world L * list Action) :
  exists c w' new,
    processQueue now db s = (inr c, (w', s.2 ++ new)) /\
    (forall id, id ∉ (readyWithdrawals now db).*1 -> tableAfter c !! id = db !! id) /\
    (forall id wd, (id, wd) ∈ readyWithdrawals now db ->
       exists st, tableAfter c !! id = Some (setStatus st wd) /\
                  (forall db', c = Finished db' ->
                     st = Completed \/ st = Failed \/ st = Pending)) /\
    claimedIds new `sublist_of` (readyWithdrawals now db).*1 /\
    (databaseAnswers L -> exists db', c = Finished db').
Proof.
  destruct s as [w acts].
  unfold processQueue, bind, outcome, prismaCall. cbn [fst snd].
  destruct (database L w) as [[m |] w1] eqn:D; cbn [fst snd ret].
  - exists (Rejected (Err m) db), w1, []. rewrite app_nil_r. split; [reflexivity |].
    cbn [tableAfter]. split; [reflexivity |].
    split; [| split; [apply sublist_nil_l |]].
    + intros id wd Hin. exists (status wd). rewrite setStatus_same.
      split; [| discriminate]. apply (readyWithdrawals_elem now db id wd Hin).
    + intros Hdb. specialize (Hdb w). rewrite D in Hdb. discriminate.
  - apply (processLoop_run (readyWithdrawals now db) db (w1, acts)
             (readyWithdrawals_NoDup now db)).
    intros id wd Hin. apply (readyWithdrawals_elem now db id wd Hin).
Qed.

(** A row that is not pending when a cycle starts is neither claimed nor
    rewritten by it. *)
Lemma processQueue_settled (now : Z) (db : Table) (s : world L * list Action)
    (id : Z) (wd : Withdrawal) :
  db !! id = Some wd -> status wd <> Pending ->
  exists c w' new,
    processQueue now db s = (inr c, (w', s.2 ++ new)) /\
    (id ∉ claimedIds new) /\ tableAfter c !! id = Some wd.
Proof.
  intros Hlook Hst.
  destruct (processQueue_run now db s) as (c & w' & new & Hrun & Hkeep & _ & Hsub & _).
  assert (Hnot : id ∉ (readyWithdrawals now db).*1).
  { intros Hin. apply readyWithdrawals_spec in Hin.
    destruct Hin as (wd' & Hlook' & Hpend & _). congruence. }
  exists c, w', new. split; [exact Hrun |]. split.
  - intros Hin. apply Hnot. apply (elem_of_sublist _ _ _ Hin Hsub).
  - rewrite (Hkeep id Hnot). exact Hlook.
Qed.

Lemma processCycles_settled (nows : list Z) (id : Z) (wd : Withdrawal) :
  status wd <> Pending ->
  forall (db : Table) (s : world L * list Action),
    db !! id = Some wd ->
    exists db' w' new,
      processCycles nows db s = (inr db', (w', s.2 ++ new)) /\
      (id ∉ claimedIds new) /\ db' !! id = Some wd.
Proof.
  intros Hst. induction nows as [| now nows IH]; intros db s Hlook.
  - exists db, s.1, []. cbn. rewrite app_nil_r. destruct s. split; [reflexivity |].
    split; [apply not_elem_of_nil | exact Hlook].
  - cbn [processCycles]. unfold bind.
    destruct (processQueue_settled now db s id wd Hlook Hst)
      as (c1 & w1 & new1 & Hrun1 & Hnin1 & Hlook1).
    rewrite Hrun1.
    destruct (IH (tableAfter c1) (w1, s.2 ++ new1) Hlook1)
      as (db2 & w2 & new2 & Hrun2 & Hnin2 & Hlook2).
    rewrite Hrun2. cbn [snd].
    exists db2, w2, (new1 ++ new2). split; [rewrite app_assoc; reflexivity |].
    split; [| exact Hlook2].
    rewrite claimedIds_app. intros Hin. apply elem_of_app in Hin. tauto.
Qed.

End QueueProcessor.

(** C7.  A record that the processor marked completed is processed again:
    with the event bus not connected, the claim of a ready withdrawal goes
    through on chain and the record is marked completed, but the
    publication of the event throws inside the same [try] and the handler
    puts the record back to pending; the next cycle claims it a second
    time, and since the contract has paid it already, the record ends as
    failed. *)
Theorem completed_withdrawal_is_claimed_again :
  (demoTable !! 1 = Some (mkWithdrawal demoAddress 30000000 Pending 50 10)) /\
  (exists db1,
     result (L := deafBusLedger) (processQueue 100 demoTable) [] = inr (Finished db1) /\
     after (L := deafBusLedger) (processQueue 100 demoTable) [] = [1] /\
     actions (L := deafBusLedger) (processQueue 100 demoTable) [] =
       [ GetAccount Config.adminPublicKey; Submit (claimWithdrawalCall demoAddress 1);
         Publish (WithdrawalReady 1 demoAddress 30000000 "tx") ] /\
     db1 !! 1 = Some (mkWithdrawal demoAddress 30000000 Pending 50 10)) /\
  claimedIds (actions (L := deafBusLedger) (processCycles [100; 200] demoTable) []) = [1; 1] /\
  (exists db2,
     result (L := deafBusLedger) (processCycles [100; 200] demoTable) [] = inr db2 /\
     db2 !! 1 = Some (mkWithdrawal demoAddress 30000000 Failed 50 10)).
Proof.
  split; [reflexivity |].
  split; [eexists; split; [vm_compute; reflexivity |]; repeat split; vm_compute; reflexivity |].
  split; [vm_compute; reflexivity |].
  eexists. split; vm_compute; reflexivity.
Qed.

(** ** The keeper *)

Section KeeperBot.
Context {L : Ledger}.
Hypothesis adminExists : forall w, accountFound L w Keeper.adminPublicKey = true.


Lemma query_interest (w : world L) (acts : list Action) (v : Z) :
  simulate L w Keeper.adminPublicKey accruedInterestView = SimSuccess (Some v) ->
  Keeper.queryLendingAccruedInterest (w, acts) =
    (inr v, (w, (acts ++ [GetAccount Keeper.adminPublicKey]) ++
                [Simulate Keeper.adminPublicKey accruedInterestView])).
Proof using adminExists.
  intros Hsim.
  unfold Keeper.queryLendingAccruedInterest, catch, bind, Keeper.simulateView, bind, getAccount.
  cbn [fst snd]. rewrite adminExists. unfold simulateTransaction. cbn [fst snd].
  unfold accruedInterestView in Hsim. rewrite Hsim. reflexivity.
Qed.





End KeeperBot.





(** ** The simulators *)

Section Loops.
Context {N : Type} `{Arith N}.

Lemma tripCount_more (fuel fuel' : nat) (loops i : N) (n : nat) :
  (fuel <= fuel')%nat -> tripCount fuel loops i = Some n -> tripCount fuel' loops i = Some n.
Proof.
  revert fuel' i n. induction fuel as [| fuel IH]; intros fuel' i n Hle Hrun; [discriminate |].
  destruct fuel' as [| fuel']; [lia |]. cbn in *.
  destruct (less i loops); [| exact Hrun].
  destruct (tripCount fuel loops (plus i (lit 1))) as [m |] eqn:Hm; [| discriminate].
  rewrite (IH fuel' _ m); [exact Hrun | lia | exact Hm].
Qed.

Lemma leverage_forLoop_trips (fuel : nat) (loops cf i : N) (st : LeverageEngine.LoopState N) :
  LeverageEngine.forLoop fuel loops cf i st =
    option_map (fun n => leverageIter cf n i st) (tripCount fuel loops i).
Proof.
  revert i st. induction fuel as [| fuel IH]; intros i st; [reflexivity |].
  cbn. destruct (less i loops); [| reflexivity].
  rewrite IH. destruct (tripCount fuel loops (plus i (lit 1))); reflexivity.
Qed.

End Loops.

Lemma restaking_forLoop_trips (fuel : nat) (loops cf i : number)
    (st : RestakingEngine.LoopState) :
  RestakingEngine.forLoop fuel loops cf i st =
    option_map (fun n => restakingIter cf n i st) (tripCount fuel loops i).
Proof.
  revert i st. induction fuel as [| fuel IH]; intros i st; [reflexivity |].
  cbn [RestakingEngine.forLoop tripCount less plus lit binary64].
  change (ofBigInt 1) with one.
  destruct (ltb i loops); [| reflexivity].
  rewrite IH. destruct (tripCount fuel loops (add i one)); reflexivity.
Qed.

(** On binary64, a loop bound that is an integer from 0 to 20 gives that
    many iterations. *)
Lemma small_counter_step (k : Z) :
  0 <= k <= 20 -> add (ofBigInt k) one = ofBigInt (k + 1).
Proof.
  intros Hk.
  assert (Hcases : k = 0 \/ k = 1 \/ k = 2 \/ k = 3 \/ k = 4 \/ k = 5 \/ k = 6 \/ k = 7 \/
                   k = 8 \/ k = 9 \/ k = 10 \/ k = 11 \/ k = 12 \/ k = 13 \/ k = 14 \/
                   k = 15 \/ k = 16 \/ k = 17 \/ k = 18 \/ k = 19 \/ k = 20) by lia.
  repeat (destruct Hcases as [-> | Hcases]; [vm_compute; reflexivity |]).
  subst. vm_compute. reflexivity.
Qed.

Lemma small_counter_less (k n : Z) :
  0 <= k <= 21 -> 0 <= n <= 20 -> ltb (ofBigInt k) (ofBigInt n) = (k <? n).
Proof.
  intros Hk Hn.
  assert (Hk' : exists k', k = Z.of_nat k' /\ (k' < 22)%nat)
    by (exists (Z.to_nat k); lia).
  assert (Hn' : exists n', n = Z.of_nat n' /\ (n' < 21)%nat)
    by (exists (Z.to_nat n); lia).
  destruct Hk' as (k' & -> & Hk'). destruct Hn' as (n' & -> & Hn').
  assert (Hall : forallb (fun a => forallb (fun b =>
                   Bool.eqb (ltb (ofBigInt (Z.of_nat a)) (ofBigInt (Z.of_nat b)))
                            (Z.of_nat a <? Z.of_nat b)) (seq 0 21)) (seq 0 22) = true)
    by (vm_compute; reflexivity).
  rewrite forallb_forall in Hall.
  specialize (Hall k'). rewrite forallb_forall in Hall.
  apply Bool.eqb_prop. apply Hall; apply in_seq; lia.
Qed.

Lemma small_tripCount (n : Z) (count : nat) (k : Z) (fuel : nat) :
  0 <= k -> n <= 20 -> Z.of_nat count = n - k -> (count < fuel)%nat ->
  tripCount (N := number) fuel (ofBigInt n) (ofBigInt k) = Some count.
Proof.
  revert k fuel. induction count as [| count IH]; intros k fuel Hk Hn Hcount Hfuel.
  - destruct fuel as [| fuel]; [lia |].
    cbn [tripCount less plus lit binary64].
    rewrite small_counter_less by lia.
    destruct (Z.ltb_spec k n); [lia | reflexivity].
  - destruct fuel as [| fuel]; [lia |].
    cbn [tripCount less plus lit binary64].
    rewrite small_counter_less by lia.
    destruct (Z.ltb_spec k n); [| lia].
    change (ofBigInt 1) with one.
    rewrite small_counter_step by lia.
    rewrite (IH (k + 1) fuel) by lia. reflexivity.
Qed.

Lemma leverage_simulate_more (fuel fuel' : nat) (this this' : unit)
    (input : LeverageEngine.LeverageSimulationInput number)
    (r : LeverageEngine.LeverageSimulationResult number) :
  (fuel <= fuel')%nat ->
  LeverageEngine.simulate fuel this input = Some r ->
  LeverageEngine.simulate fuel' this' input = Some r.
Proof.
  intros Hle. unfold LeverageEngine.simulate. rewrite !leverage_forLoop_trips.
  destruct (tripCount fuel _ _) as [n |] eqn:Hn; [| discriminate].
  rewrite (tripCount_more fuel fuel' _ _ n Hle Hn). trivial.
Qed.

Lemma restaking_simulate_more (fuel fuel' : nat) (this this' : RestakingEngine.Engine)
    (principal loops : number) (cf sAPR bAPR : option number)
    (r : RestakingEngine.RestakingSimulationResult) :
  (fuel <= fuel')%nat ->
  RestakingEngine.simulate fuel this principal loops cf sAPR bAPR = Some r ->
  RestakingEngine.simulate fuel' this' principal loops cf sAPR bAPR = Some r.
Proof.
  intros Hle. unfold RestakingEngine.simulate. rewrite !restaking_forLoop_trips.
  destruct (tripCount fuel _ _) as [n |] eqn:Hn; [| discriminate].
  rewrite (tripCount_more fuel fuel' _ _ n Hle Hn). trivial.
Qed.

Lemma leverage_simulate_returns (n : Z) (p cf sAPR bAPR : number) :
  0 <= n <= 20 ->
  exists r, LeverageEngine.simulate LeverageEngine.fuel tt
              (LeverageEngine.mkInput p (ofBigInt n) cf sAPR bAPR) = Some r.
Proof.
  intros Hn. unfold LeverageEngine.simulate. rewrite leverage_forLoop_trips.
  cbn [LeverageEngine.loops LeverageEngine.collateralFactor lit binary64].
  rewrite (small_tripCount n (Z.to_nat n) 0 LeverageEngine.fuel)
    by (unfold LeverageEngine.fuel; lia).
  eexists. reflexivity.
Qed.

Lemma restaking_simulate_returns (n : Z) (this : RestakingEngine.Engine) (p : number)
    (cf sAPR bAPR : option number) :
  0 <= n <= 20 ->
  exists r, RestakingEngine.simulate LeverageEngine.fuel this p (ofBigInt n) cf sAPR bAPR = Some r.
Proof.
  intros Hn. unfold RestakingEngine.simulate. rewrite restaking_forLoop_trips.
  change zero with (ofBigInt 0).
  rewrite (small_tripCount n (Z.to_nat n) 0 LeverageEngine.fuel)
    by (unfold LeverageEngine.fuel; lia).
  eexists. reflexivity.
Qed.

Section StoreRuns.

Lemma leverage_store_forLoop (fuel : nat) (loops cf : number) (array : positive) :
  forall (i : number) (v : LeverageEngineStore.Locals)
         (items : list (LeverageEngine.LeverageLoopDetail number)) (h : Store.Heap),
    h !! array = Some (Store.DetailArray items) ->
    LeverageEngineStore.forLoop fuel loops cf array i v h =
      match LeverageEngine.forLoop fuel loops cf i
              (LeverageEngine.mkState (LeverageEngineStore.varTotalStaked v)
                 (LeverageEngineStore.varTotalBorrowed v)
                 (LeverageEngineStore.varCurrentDeposit v) items) with
      | Some st =>
          Some (LeverageEngineStore.mkLocals (LeverageEngine.stTotalStaked st)
                  (LeverageEngine.stTotalBorrowed st) (LeverageEngine.currentDeposit st),
                <[array := Store.DetailArray (LeverageEngine.loopDetails st)]> h)
      | None => None
      end.
Proof.
  induction fuel as [| fuel IH]; intros i v items h Hitems; [reflexivity |].
  cbn [LeverageEngineStore.forLoop LeverageEngine.forLoop].
  destruct (less i loops).
  - cbv [Store.bind LeverageEngineStore.loopBody Store.pushDetail Store.ret].
    rewrite Hitems.
    rewrite (IH _ _ _ _ (lookup_insert_eq h array _)).
    cbn [LeverageEngineStore.varTotalStaked LeverageEngineStore.varTotalBorrowed
         LeverageEngineStore.varCurrentDeposit].
    unfold LeverageEngine.loopBody.
    cbn [LeverageEngine.stTotalStaked LeverageEngine.stTotalBorrowed
         LeverageEngine.currentDeposit LeverageEngine.loopDetails].
    destruct (LeverageEngine.forLoop fuel loops cf _ _) as [st |]; [| reflexivity].
    rewrite insert_insert_eq. reflexivity.
  - unfold Store.ret.
    cbn [LeverageEngine.stTotalStaked LeverageEngine.stTotalBorrowed
         LeverageEngine.currentDeposit LeverageEngine.loopDetails].
    rewrite (insert_id _ _ _ Hitems). destruct v; reflexivity.
Qed.


Lemma restaking_store_forLoop (fuel : nat) (loops cf : number) (array : positive) :
  forall (i : number) (v : RestakingEngineStore.Locals)
         (items : list RestakingEngine.RestakingLoopStep) (h : Store.Heap),
    h !! array = Some (Store.StepArray items) ->
    RestakingEngineStore.forLoop fuel loops cf array i v h =
      match RestakingEngine.forLoop fuel loops cf i
              (RestakingEngine.mkState (RestakingEngineStore.varTotalStaked v)
                 (RestakingEngineStore.varTotalBorrowed v)
                 (RestakingEngineStore.varCurrentAmount v) items) with
      | Some st =>
          Some (RestakingEngineStore.mkLocals (RestakingEngine.stTotalStaked st)
                  (RestakingEngine.stTotalBorrowed st) (RestakingEngine.currentAmount st),
                <[array := Store.StepArray (RestakingEngine.stSteps st)]> h)
      | None => None
      end.
Proof.
  induction fuel as [| fuel IH]; intros i v items h Hitems; [reflexivity |].
  cbn [RestakingEngineStore.forLoop RestakingEngine.forLoop].
  destruct (ltb i loops).
  - cbv [Store.bind RestakingEngineStore.loopBody Store.pushStep Store.ret].
    rewrite Hitems, !lookup_insert_eq, !insert_insert_eq.
    rewrite (IH _ _ _ _ (lookup_insert_eq h array _)).
    cbn [RestakingEngineStore.varTotalStaked RestakingEngineStore.varTotalBorrowed
         RestakingEngineStore.varCurrentAmount].
    unfold RestakingEngine.loopBody.
    cbn [RestakingEngine.stTotalStaked RestakingEngine.stTotalBorrowed
         RestakingEngine.currentAmount RestakingEngine.stSteps].
    rewrite <- !app_assoc. cbn [app].
    destruct (RestakingEngine.forLoop fuel loops cf _ _) as [st |]; [| reflexivity].
    rewrite insert_insert_eq. reflexivity.
  - unfold Store.ret.
    cbn [RestakingEngine.stTotalStaked RestakingEngine.stTotalBorrowed
         RestakingEngine.currentAmount RestakingEngine.stSteps].
    rewrite (insert_id _ _ _ Hitems). destruct v; reflexivity.
Qed.

(** A run of the leverage simulator on the store: the pure function on the
    content of the input object, and one new array. *)
Lemma leverage_store_run (fuel : nat) (this input : positive) (h : Store.Heap)
    (given : LeverageEngine.LeverageSimulationInput number) :
  h !! input = Some (Store.InputObj given) ->
  LeverageEngineStore.simulate fuel this input h =
    match LeverageEngine.simulate fuel tt given with
    | Some r =>
        Some (LeverageEngineStore.mkResult
                (LeverageEngine.maxLeverage r) (LeverageEngine.effectiveLeverage r)
                (LeverageEngine.totalStaked r) (LeverageEngine.totalBorrowed r)
                (LeverageEngine.netYieldPercent r) (LeverageEngine.grossYield r)
                (LeverageEngine.borrowCost r) (LeverageEngine.netYield r) (fresh (dom h)),
              <[fresh (dom h) := Store.DetailArray (LeverageEngine.loopDetailsOf r)]> h)
    | None => None
    end.
Proof.
  intros Hinput.
  unfold LeverageEngineStore.simulate, LeverageEngine.simulate.
  cbv [Store.bind Store.readInput Store.alloc Store.ret].
  rewrite Hinput.
  rewrite (leverage_store_forLoop _ _ _ _ _ _ [] _ (lookup_insert_eq h _ _)).
  cbn [LeverageEngineStore.varTotalStaked LeverageEngineStore.varTotalBorrowed
       LeverageEngineStore.varCurrentDeposit].
  destruct (LeverageEngine.forLoop fuel _ _ _ _) as [st |]; [| reflexivity].
  rewrite insert_insert_eq. reflexivity.
Qed.

Lemma restaking_store_run (fuel : nat) (this : positive) (h : Store.Heap)
    (principal loops : number) (cf sAPR bAPR : option number) (engine : RestakingEngine.Engine) :
  RestakingEngineStore.simulate fuel this principal loops cf sAPR bAPR h =
    match RestakingEngine.simulate fuel engine principal loops cf sAPR bAPR with
    | Some r =>
        Some (RestakingEngineStore.mkResult
                (RestakingEngine.initialDeposit r) (RestakingEngine.resultLoops r)
                (RestakingEngine.totalStaked r) (RestakingEngine.totalBorrowed r)
                (RestakingEngine.effectiveLeverage r) (RestakingEngine.estimatedNetAPR r)
                (RestakingEngine.healthFactor r) (fresh (dom h)),
              <[fresh (dom h) := Store.StepArray (RestakingEngine.steps r)]> h)
    | None => None
    end.
Proof.
  unfold RestakingEngineStore.simulate, RestakingEngine.simulate.
  cbv [Store.bind Store.alloc Store.ret].
  rewrite (restaking_store_forLoop _ _ _ _ _ _ [] _ (lookup_insert_eq h _ _)).
  cbn [RestakingEngineStore.varTotalStaked RestakingEngineStore.varTotalBorrowed
       RestakingEngineStore.varCurrentAmount].
  destruct (RestakingEngine.forLoop fuel _ _ _ _) as [st |]; [| reflexivity].
  rewrite insert_insert_eq. reflexivity.
Qed.

Lemma fresh_onlyAllocates (h : Store.Heap) (o : Store.Obj) :
  onlyAllocates h (<[fresh (dom h) := o]> h) (fresh (dom h)).
Proof.
  split.
  - apply not_elem_of_dom, is_fresh.
  - intros l' Hl'. apply lookup_insert_ne. congruence.
Qed.

End StoreRuns.

(** Two runs of the pure simulator that return, with whatever fuel, return
    the same result. *)
Lemma leverage_simulate_agree (fuel fuel' : nat)
    (input : LeverageEngine.LeverageSimulationInput number)
    (r r' : LeverageEngine.LeverageSimulationResult number) :
  LeverageEngine.simulate fuel tt input = Some r ->
  LeverageEngine.simulate fuel' tt input = Some r' -> r = r'.
Proof.
  intros Hr Hr'. destruct (Nat.le_ge_cases fuel fuel') as [Hle | Hle].
  - rewrite (leverage_simulate_more fuel fuel' tt tt input r Hle Hr) in Hr'. congruence.
  - rewrite (leverage_simulate_more fuel' fuel tt tt input r' Hle Hr') in Hr. congruence.
Qed.

Lemma restaking_simulate_agree (fuel fuel' : nat) (this this' : RestakingEngine.Engine)
    (principal loops : number) (cf sAPR bAPR : option number)
    (r r' : RestakingEngine.RestakingSimulationResult) :
  RestakingEngine.simulate fuel this principal loops cf sAPR bAPR = Some r ->
  RestakingEngine.simulate fuel' this' principal loops cf sAPR bAPR = Some r' -> r = r'.
Proof.
  intros Hr Hr'. destruct (Nat.le_ge_cases fuel fuel') as [Hle | Hle].
  - rewrite (restaking_simulate_more fuel fuel' this this' _ _ _ _ _ r Hle Hr) in Hr'.
    congruence.
  - rewrite (restaking_simulate_more fuel' fuel this' this _ _ _ _ _ r' Hle Hr') in Hr.
    congruence.
Qed.

(** What a run of the leverage simulator that returns has done. *)
Lemma leverage_store_returns (fuel : nat) (this input : positive) (h h' : Store.Heap)
    (given : LeverageEngine.LeverageSimulationInput number)
    (r : LeverageEngineStore.LeverageSimulationResult) :
  h !! input = Some (Store.InputObj given) ->
  LeverageEngineStore.simulate fuel this input h = Some (r, h') ->
  (exists v, LeverageEngine.simulate fuel tt given = Some v /\ leverageValue h' r = Some v) /\
  onlyAllocates h h' (LeverageEngineStore.loops r).
Proof.
  intros Hinput Hrun. rewrite (leverage_store_run fuel this input h given Hinput) in Hrun.
  destruct (LeverageEngine.simulate fuel tt given) as [v |]; [| discriminate].
  injection Hrun as <- <-. split.
  - exists v. split; [reflexivity |]. unfold leverageValue.
    cbn [LeverageEngineStore.loops]. rewrite lookup_insert_eq. destruct v; reflexivity.
  - apply fresh_onlyAllocates.
Qed.

Lemma restaking_store_returns (fuel : nat) (this : positive) (h h' : Store.Heap)
    (principal loops : number) (cf sAPR bAPR : option number)
    (engine : RestakingEngine.Engine) (r : RestakingEngineStore.RestakingSimulationResult) :
  RestakingEngineStore.simulate fuel this principal loops cf sAPR bAPR h = Some (r, h') ->
  (exists v, RestakingEngine.simulate fuel engine principal loops cf sAPR bAPR = Some v /\
             restakingValue h' r = Some v) /\
  onlyAllocates h h' (RestakingEngineStore.steps r).
Proof.
  intros Hrun.
  rewrite (restaking_store_run fuel this h principal loops cf sAPR bAPR engine) in Hrun.
  destruct (RestakingEngine.simulate fuel engine principal loops cf sAPR bAPR) as [v |];
    [| discriminate].
  injection Hrun as <- <-. split.
  - exists v. split; [reflexivity |]. unfold restakingValue.
    cbn [RestakingEngineStore.steps]. rewrite lookup_insert_eq. destruct v; reflexivity.
  - apply fresh_onlyAllocates.
Qed.

(** C9.  The simulators are pure, stateless calculators.  [simulate] of
    either engine is run on the store of objects, where it could read and
    write any of them.  Take two runs that return: in any two stores, on
    any two engine objects, with the inputs equal (for the leverage
    simulator, two input objects of equal content; for the restaking
    simulator, equal arguments).  Then the two results, read with their
    arrays from the stores the runs end in, are equal, and they are the
    value that the function of the input alone gives; and each run has
    written to no object that existed before it: the one difference
    between the store before and the store after is the new array of the
    result.  The last part says that there are such runs: for every
    number of loops that the gateway accepts (an integer from 0 to 20) the
    simulators return. *)
Theorem simulators_are_pure :
  (forall (fuel1 fuel2 : nat) (this1 this2 input1 input2 : positive)
          (h1 h2 h1' h2' : Store.Heap)
          (given : LeverageEngine.LeverageSimulationInput number)
          (r1 r2 : LeverageEngineStore.LeverageSimulationResult),
     h1 !! input1 = Some (Store.InputObj given) ->
     h2 !! input2 = Some (Store.InputObj given) ->
     LeverageEngineStore.simulate fuel1 this1 input1 h1 = Some (r1, h1') ->
     LeverageEngineStore.simulate fuel2 this2 input2 h2 = Some (r2, h2') ->
     (exists v, leverageValue h1' r1 = Some v /\ leverageValue h2' r2 = Some v /\
                LeverageEngine.simulate fuel1 tt given = Some v) /\
     onlyAllocates h1 h1' (LeverageEngineStore.loops r1) /\
     onlyAllocates h2 h2' (LeverageEngineStore.loops r2)) /\
  (forall (fuel1 fuel2 : nat) (this1 this2 : positive) (h1 h2 h1' h2' : Store.Heap)
          (principal loops : number) (cf sAPR bAPR : option number)
          (r1 r2 : RestakingEngineStore.RestakingSimulationResult),
     RestakingEngineStore.simulate fuel1 this1 principal loops cf sAPR bAPR h1
       = Some (r1, h1') ->
     RestakingEngineStore.simulate fuel2 this2 principal loops cf sAPR bAPR h2
       = Some (r2, h2') ->
     (exists v, restakingValue h1' r1 = Some v /\ restakingValue h2' r2 = Some v /\
                forall engine : RestakingEngine.Engine,
                  RestakingEngine.simulate fuel1 engine principal loops cf sAPR bAPR = Some v) /\
     onlyAllocates h1 h1' (RestakingEngineStore.steps r1) /\
     onlyAllocates h2 h2' (RestakingEngineStore.steps r2)) /\
  (forall (n : Z) (this input : positive) (h : Store.Heap) (p cf sAPR bAPR : number),
     0 <= n <= 20 ->
     h !! input = Some (Store.InputObj (LeverageEngine.mkInput p (ofBigInt n) cf sAPR bAPR)) ->
     (exists r h', LeverageEngineStore.simulate LeverageEngine.fuel this input h
                     = Some (r, h')) /\
     (exists r h', RestakingEngineStore.simulate LeverageEngine.fuel this p (ofBigInt n)
                     (Some cf) (Some sAPR) (Some bAPR) h = Some (r, h'))).
Proof.
  split; [| split].
  - intros fuel1 fuel2 this1 this2 input1 input2 h1 h2 h1' h2' given r1 r2 Hin1 Hin2 Hrun1 Hrun2.
    destruct (leverage_store_returns _ _ _ _ _ _ _ Hin1 Hrun1) as [(v1 & Hv1 & Hread1) Hframe1].
    destruct (leverage_store_returns _ _ _ _ _ _ _ Hin2 Hrun2) as [(v2 & Hv2 & Hread2) Hframe2].
    rewrite <- (leverage_simulate_agree _ _ _ _ _ Hv1 Hv2) in Hread2.
    split; [| split; assumption].
    exists v1. repeat split; assumption.
  - intros fuel1 fuel2 this1 this2 h1 h2 h1' h2' principal loops cf sAPR bAPR r1 r2 Hrun1 Hrun2.
    destruct (restaking_store_returns _ _ _ _ _ _ _ _ _ (RestakingEngine.mkEngine ∅) _ Hrun1)
      as [(v1 & Hv1 & Hread1) Hframe1].
    destruct (restaking_store_returns _ _ _ _ _ _ _ _ _ (RestakingEngine.mkEngine ∅) _ Hrun2)
      as [(v2 & Hv2 & Hread2) Hframe2].
    rewrite <- (restaking_simulate_agree _ _ _ _ _ _ _ _ _ _ _ Hv1 Hv2) in Hread2.
    split; [| split; assumption].
    exists v1. split; [assumption |]. split; [assumption |].
    intros engine. exact Hv1.
  - intros n this input h p cf sAPR bAPR Hn Hinput. split.
    + rewrite (leverage_store_run _ this input h _ Hinput).
      destruct (leverage_simulate_returns n p cf sAPR bAPR Hn) as [r ->].
      eexists _, _. reflexivity.
    + rewrite (restaking_store_run _ this h _ _ _ _ _ (RestakingEngine.mkEngine ∅)).
      destruct (restaking_simulate_returns n (RestakingEngine.mkEngine ∅) p
                  (Some cf) (Some sAPR) (Some bAPR) Hn) as [r ->].
      eexists _, _. reflexivity.
Qed.

Lemma simulators_are_pure_witness :
  (exists r1 h1' r2 h2',
     LeverageEngineStore.simulate 32 1 3 demoHeap = Some (r1, h1') /\
     LeverageEngineStore.simulate 40 7 1 otherHeap = Some (r2, h2') /\
     (exists v, leverageValue h1' r1 = Some v /\ leverageValue h2' r2 = Some v /\
                LeverageEngine.simulate 32 tt demoInput = Some v) /\
     onlyAllocates demoHeap h1' (LeverageEngineStore.loops r1) /\
     onlyAllocates otherHeap h2' (LeverageEngineStore.loops r2)) /\
  (exists r1 h1' r2 h2',
     RestakingEngineStore.simulate 32 2 (ofBigInt 1000) (ofBigInt 3) None None None demoHeap
       = Some (r1, h1') /\
     RestakingEngineStore.simulate 40 5 (ofBigInt 1000) (ofBigInt 3) None None None otherHeap
       = Some (r2, h2') /\
     (exists v, restakingValue h1' r1 = Some v /\ restakingValue h2' r2 = Some v /\
                forall engine : RestakingEngine.Engine,
                  RestakingEngine.simulate 32 engine (ofBigInt 1000) (ofBigInt 3) None None None
                    = Some v) /\
     onlyAllocates demoHeap h1' (RestakingEngineStore.steps r1) /\
     onlyAllocates otherHeap h2' (RestakingEngineStore.steps r2)).
Proof.
  split.
  - destruct (LeverageEngineStore.simulate 32 1 3 demoHeap) as [[r1 h1'] |] eqn:Hrun1;
      [| vm_compute in Hrun1; discriminate].
    destruct (LeverageEngineStore.simulate 40 7 1 otherHeap) as [[r2 h2'] |] eqn:Hrun2;
      [| vm_compute in Hrun2; discriminate].
    exists r1, h1', r2, h2'. split; [reflexivity |]. split; [reflexivity |].
    apply (proj1 simulators_are_pure 32%nat 40%nat 1%positive 7%positive 3%positive
             1%positive demoHeap otherHeap h1' h2' demoInput r1 r2 eq_refl eq_refl Hrun1 Hrun2).
  - destruct (RestakingEngineStore.simulate 32 2 (ofBigInt 1000) (ofBigInt 3) None None None
                demoHeap) as [[r1 h1'] |] eqn:Hrun1; [| vm_compute in Hrun1; discriminate].
    destruct (RestakingEngineStore.simulate 40 5 (ofBigInt 1000) (ofBigInt 3) None None None
                otherHeap) as [[r2 h2'] |] eqn:Hrun2; [| vm_compute in Hrun2; discriminate].
    exists r1, h1', r2, h2'. split; [reflexivity |]. split; [reflexivity |].
    apply (proj1 (proj2 simulators_are_pure) 32%nat 40%nat 2%positive 5%positive demoHeap
             otherHeap h1' h2' (ofBigInt 1000) (ofBigInt 3) None None None r1 r2 Hrun1 Hrun2).
Defined.

(** ** Where binary64 arithmetic departs from the integer formulas *)

(** C1, as stated, fails: for 1 stroop staked and a supply of 3, the
    returned rate, on the 10^7 scale, is not the integer 3333333. *)
Lemma rate_not_scaled_integer_division : ~ rateIsScaledIntegerDivision 1 3.
Proof. unfold rateIsScaledIntegerDivision. vm_compute. discriminate. Qed.


(** C3, as stated, fails: at the rate 4, 7 stroops of XLM give 1 stroop of
    sXLM, which gives back 4 stroops: 3 are lost. *)
Lemma round_trip_loses_three : ~ roundTripLosesAtMostTwo 7 (ofBigInt 4).
Proof.
  intros (y & z & Hy & Hz & _ & Hloss).
  vm_compute in Hy. inversion Hy; subst y.
  vm_compute in Hz. inversion Hz; subst z.
  lia.
Qed.

(** C5, as stated, fails: for a collateral of 10000001 stroops at the rate
    1 and a factor of 7000 bps the reported value is 7000000.7 (in
    binary64), not 7000000. *)
Lemma max_borrow_not_floored : ~ maxBorrowIsFloored 10000001 7000 10000000.
Proof. unfold maxBorrowIsFloored. vm_compute. discriminate. Qed.

(** C10, as stated, fails: with a principal of 1 and a collateral factor of
    0.12, 18 and 19 loops give the same leverage, and it is above the max
    leverage that is returned. *)
Lemma leverage_not_strictly_increasing :
  ~ leverageStrictlyIncreasingBelowMax one n0_12 18.
Proof.
  intros (l & l' & Hl & Hl' & Hlt & _).
  vm_compute in Hl. inversion Hl; subst l.
  vm_compute in Hl'. inversion Hl'; subst l'.
  vm_compute in Hlt. discriminate.
Qed.

(** ** The exchange rate and the conversions *)

Section ExchangeRate.
Local Open Scope Q_scope.

Lemma rounds_ext (X X' : Q) (f : number) : X == X' -> rounds X f -> rounds X' f.
Proof.
  intros HX (k & E & Hf & HE & Hlo & Hhi & Hne).
  exists k, E. split; [exact Hf |]. split; [exact HE |].
  split; [rewrite <- HX; exact Hlo |]. split; [rewrite <- HX; exact Hhi |].
  apply nearestEven_ext with (X / pow2 E); [| exact Hne].
  rewrite HX. reflexivity.
Qed.

Lemma rounds_abs_error (X : Q) (f : number) : rounds X f -> Qabs (toQ f - X) <= u * X.
Proof.
  intros Hr. apply rounds_error in Hr. destruct Hr as [Hlo Hhi].
  apply Qabs_Qle_condition. split; lra.
Qed.

(** The bounds of [k] accumulated roundings, for [k <= 4]. *)
Lemma near_bound (k : nat) (q v : Q) :
  near k q v -> (k <= 4)%nat ->
  Qabs (v - q) <= (inject_Z (Z.of_nat k) + 1) * u * q.
Proof.
  intros (Hq & Hlo & Hhi) Hk.
  assert (Hw : 1 - inject_Z (Z.of_nat k) * u <= (1 - u) ^ Z.of_nat k /\
               1 <= (1 + (inject_Z (Z.of_nat k) + 1) * u) * (1 - u) ^ Z.of_nat k).
  { destruct k as [| [| [| [| [| k]]]]]; try lia; split; vm_compute; discriminate. }
  destruct Hw as [Hw1 Hw2]. pose proof (wpow_pos k) as Hw0.
  set (w := (1 - u) ^ Z.of_nat k) in *. set (c := inject_Z (Z.of_nat k)) in *.
  assert (Hc : 0 <= c) by (unfold c; change 0 with (inject_Z 0); rewrite <- Zle_Qle; lia).
  assert (Hu : 0 < u) by reflexivity.
  clearbody w c.
  apply Qabs_Qle_condition. split.
  - apply Qle_trans with (q * w - q); [| lra].
    assert (q * (1 - c * u) <= q * w) by nra. nra.
  - assert (Hv : v * w <= q * ((1 + (c + 1) * u) * w)) by nra.
    assert (Hv' : v <= q * (1 + (c + 1) * u)).
    { set (d := q * (1 + (c + 1) * u)) in *.
      assert (Hd : v * w <= d * w) by (unfold d; lra). nra. }
    lra.
Qed.

End ExchangeRate.

(** C1 (amended).  [computeExchangeRate] returns an unscaled binary64
    ratio: [1.0] when the supply is zero, zero when nothing is staked, and
    otherwise, for amounts below 2^53 stroops, the binary64 number nearest
    to [staked / supply] (ties to even), which is within a relative error of
    2^-53 of it. *)
Theorem exchange_rate_is_nearest_quotient :
  (forall staked : Z,
     computeExchangeRate staked 0 = one /\ (toQ one == 1)%Q) /\
  (forall supply : Z,
     0 < supply < 2 ^ 53 -> computeExchangeRate 0 supply = zero) /\
  (forall staked supply : Z,
     0 < staked < 2 ^ 53 -> 0 < supply < 2 ^ 53 ->
     rounds (inject_Z staked / inject_Z supply)%Q (computeExchangeRate staked supply) /\
     (Qabs (toQ (computeExchangeRate staked supply) - inject_Z staked / inject_Z supply)
      <= u * (inject_Z staked / inject_Z supply))%Q).
Proof.
  split; [| split].
  - intros staked. split; reflexivity.
  - intros supply Hs. unfold computeExchangeRate.
    destruct (Z.eqb_spec supply 0); [lia |].
    rewrite (ofBigInt_small supply) by exact Hs. reflexivity.
  - intros staked supply Hst Hsu. unfold computeExchangeRate.
    destruct (Z.eqb_spec supply 0); [lia |].
    destruct (ofBigInt_exact staked Hst) as [Hv1 Hn1].
    destruct (ofBigInt_exact supply Hsu) as [Hv2 Hn2].
    pose proof (div_rounds _ _ _ _ _ _ Hn1 Hn2 ltac:(lia) ltac:(lia)) as Hr.
    assert (Hr' : rounds (inject_Z staked / inject_Z supply)%Q
                    (div (ofBigInt staked) (ofBigInt supply))).
    { apply rounds_ext with (toQ (ofBigInt staked) / toQ (ofBigInt supply))%Q; [| exact Hr].
      rewrite Hv1, Hv2. reflexivity. }
    split; [exact Hr' | apply rounds_abs_error; exact Hr'].
Qed.

Lemma exchange_rate_is_nearest_quotient_witness :
  computeExchangeRate 0 3 = zero /\
  rounds (inject_Z 1 / inject_Z 3)%Q (computeExchangeRate 1 3) /\
  (Qabs (toQ (computeExchangeRate 1 3) - inject_Z 1 / inject_Z 3)
   <= u * (inject_Z 1 / inject_Z 3))%Q.
Proof.
  split.
  - apply (proj1 (proj2 exchange_rate_is_nearest_quotient) 3). lia.
  - apply (proj2 (proj2 exchange_rate_is_nearest_quotient) 1 3); lia.
Defined.

(** ** The max borrow of a lending position *)

Section MaxBorrow.
Local Open Scope Q_scope.

Lemma near_ofBigInt (z : Z) :
  (0 < z < 2 ^ 53)%Z ->
  near 0 (inject_Z z) (toQ (ofBigInt z)) /\ pnormal (-52) 0 (ofBigInt z) = true.
Proof.
  intros Hz. destruct (ofBigInt_exact z Hz) as [Hv Hn]. split; [| exact Hn].
  apply near_exact; [apply inject_Z_pos; lia | exact Hv].
Qed.

(** One more rounding of a product or of a quotient. *)
Lemma near_mul_rounded (j k : nat) (lo1 hi1 lo2 hi2 : Z) (q1 q2 : Q) (x y : number) :
  near j q1 (toQ x) -> near k q2 (toQ y) ->
  pnormal lo1 hi1 x = true -> pnormal lo2 hi2 y = true ->
  (-1074 <= lo1 + lo2 + 52)%Z -> (hi1 + hi2 + 53 <= 970)%Z ->
  near (j + k + 1) (q1 * q2) (toQ (mul x y)) /\
  pnormal (lo1 + lo2 + 52) (hi1 + hi2 + 54) (mul x y) = true.
Proof.
  intros H1 H2 Hx Hy Hlo Hhi.
  destruct (mul_spec _ _ _ _ _ _ Hx Hy Hlo Hhi) as [Hr Hn]. split; [| exact Hn].
  apply near_trans with (toQ x * toQ y); [apply near_mul; assumption | apply near_rounds; exact Hr].
Qed.

Lemma near_div_rounded (j k : nat) (lo1 hi1 lo2 hi2 : Z) (q1 q2 : Q) (x y : number) :
  near j q1 (toQ x) -> near k q2 (toQ y) ->
  pnormal lo1 hi1 x = true -> pnormal lo2 hi2 y = true ->
  (-1074 <= lo1 - hi2 - 53)%Z -> (hi1 - lo2 - 52 <= 970)%Z ->
  near (j + k + 1) (q1 / q2) (toQ (div x y)) /\
  pnormal (lo1 - hi2 - 53) (hi1 - lo2 - 51) (div x y) = true.
Proof.
  intros H1 H2 Hx Hy Hlo Hhi.
  destruct (div_spec _ _ _ _ _ _ Hx Hy Hlo Hhi) as [Hr Hn]. split; [| exact Hn].
  apply near_trans with (toQ x / toQ y); [apply near_div; assumption | apply near_rounds; exact Hr].
Qed.

Lemma maxBorrowStroops_near (collateral cfBps er : Z) :
  (0 < collateral < 2 ^ 53)%Z -> (0 < cfBps < 2 ^ 53)%Z -> (0 < er < 2 ^ 53)%Z ->
  near 3 (inject_Z collateral * inject_Z er * inject_Z cfBps / inject_Z (10000 * 10 ^ 7))
    (toQ (Gateway.maxBorrowStroops collateral (Some cfBps) (Some er))) /\
  pnormal (-89) 73 (Gateway.maxBorrowStroops collateral (Some cfBps) (Some er)) = true.
Proof.
  intros Hc Hf He. unfold Gateway.maxBorrowStroops. cbn [default].
  destruct (near_ofBigInt collateral Hc) as [N1 P1].
  destruct (near_ofBigInt cfBps Hf) as [N2 P2].
  destruct (near_ofBigInt er He) as [N3 P3].
  destruct (near_mul_rounded _ _ _ _ _ _ _ _ _ _ N1 N3 P1 P3 ltac:(lia) ltac:(lia)) as [N4 P4].
  destruct (near_mul_rounded _ _ _ _ _ _ _ _ _ _ N4 N2 P4 P2 ltac:(lia) ltac:(lia)) as [N5 P5].
  assert (N6 : near 0 (inject_Z (10000 * 10 ^ 7)) (toQ (mul n10000 n1e7)))
    by (apply near_exact; reflexivity).
  assert (P6 : pnormal (-16) (-16) (mul n10000 n1e7) = true) by reflexivity.
  destruct (near_div_rounded _ _ _ _ _ _ _ _ _ _ N5 N6 P5 P6 ltac:(lia) ltac:(lia)) as [N7 P7].
  split; [exact N7 | exact P7].
Qed.

End MaxBorrow.

(** C5 (amended).  The max borrow that the gateway computes for a position
    is the binary64 value of
    [collateral * er * cfBps / (10000 * 1e7)], with the factor 7000 and the
    rate 10^7 when the views answer [null]; it is not floored.  For
    quantities below 2^53 it is within a relative error of 4 * 2^-53 of
    the exact quotient; the reported [maxBorrow] is this value divided by
    [1e7], within 5 * 2^-53 of the exact quotient in XLM. *)
Theorem max_borrow_is_rounded_quotient (collateral cfBps er : Z) :
  0 < collateral < 2 ^ 53 -> 0 < cfBps < 2 ^ 53 -> 0 < er < 2 ^ 53 ->
  let exact_ := (inject_Z collateral * inject_Z er * inject_Z cfBps
                 / inject_Z (10000 * 10 ^ 7))%Q in
  (Qabs (toQ (Gateway.maxBorrowStroops collateral (Some cfBps) (Some er)) - exact_)
   <= 4 * u * exact_)%Q /\
  (Qabs (toQ (Gateway.maxBorrow collateral (Some cfBps) (Some er)) - exact_ / inject_Z (10 ^ 7))
   <= 5 * u * (exact_ / inject_Z (10 ^ 7)))%Q /\
  Gateway.maxBorrowStroops collateral None None =
    Gateway.maxBorrowStroops collateral (Some 7000) (Some 10000000).
Proof.
  intros Hc Hf He exact_.
  destruct (maxBorrowStroops_near collateral cfBps er Hc Hf He) as [N7 P7].
  fold exact_ in N7.
  split; [| split].
  - apply (near_bound 3) in N7; [| lia]. exact N7.
  - unfold Gateway.maxBorrow.
    assert (N8 : near 0 (inject_Z (10 ^ 7)) (toQ n1e7)) by (apply near_exact; reflexivity).
    assert (P8 : pnormal (-29) (-29) n1e7 = true) by reflexivity.
    destruct (near_div_rounded _ _ _ _ _ _ _ _ _ _ N7 N8 P7 P8 ltac:(lia) ltac:(lia)) as [N9 _].
    apply (near_bound 4) in N9; [| lia]. exact N9.
  - reflexivity.
Qed.

Lemma max_borrow_is_rounded_quotient_witness :
  (Qabs (toQ (Gateway.maxBorrowStroops 10000001%Z (Some 7000%Z) (Some 10000000%Z))
         - inject_Z 10000001 * inject_Z 10000000 * inject_Z 7000 / inject_Z (10000 * 10 ^ 7))
   <= 4 * u * (inject_Z 10000001 * inject_Z 10000000 * inject_Z 7000
               / inject_Z (10000 * 10 ^ 7)))%Q.
Proof.
  apply (max_borrow_is_rounded_quotient 10000001 7000 10000000); lia.
Defined.

(** ** The round trip XLM -> sXLM -> XLM *)

Section RoundTrip.
Local Open Scope Q_scope.

Lemma leb_zero_pnormal (lo hi : Z) (r : number) :
  pnormal lo hi r = true -> leb r zero = false.
Proof.
  intros Hr. apply pnormal_inv in Hr. destruct Hr as (m & e & -> & _ & _). reflexivity.
Qed.

Lemma mul_zero_pnormal (lo hi : Z) (r : number) :
  pnormal lo hi r = true -> mul (ofBigInt 0) r = zero.
Proof.
  intros Hr. apply pnormal_inv in Hr. destruct Hr as (m & e & -> & _ & _). reflexivity.
Qed.

Lemma round_trip_bounds (x : Z) (r : number) :
  (0 < x <= 100000000000000)%Z -> pnormal (-57) (-43) r = true ->
  exists y z,
    xlmToSxlm x r = Some y /\ sxlmToXlm y r = Some z /\
    (0 <= z <= x)%Z /\ inject_Z (x - z) < toQ r + 1 + (1 # 32).
Proof.
  intros Hx Hr.
  pose proof (leb_zero_pnormal _ _ _ Hr) as Hleb.
  destruct (near_ofBigInt x ltac:(lia)) as [_ Px].
  destruct (ofBigInt_exact x ltac:(lia)) as [Vx _].
  destruct (div_spec _ _ _ _ _ _ Px Hr ltac:(lia) ltac:(lia)) as [Rq Pq].
  destruct (bigIntFloor_bounds _ _ _ Pq) as (y & Hy & Hylo & Hyhi & Hy0).
  apply rounds_error in Rq. destruct Rq as [Hqlo Hqhi].
  destruct (pnormal_value _ _ _ Hr) as [Hrlo Hrhi].
  change (pow2 (-57 + 52)) with (1 # 32) in Hrlo.
  change (pow2 (-43 + 53)) with (1024 # 1) in Hrhi.
  rewrite Vx in Hqlo, Hqhi.
  assert (HX1 : 1 <= inject_Z x) by (change 1 with (inject_Z 1); rewrite <- Zle_Qle; lia).
  assert (HX2 : inject_Z x <= 100000000000000)
    by (change 100000000000000 with (inject_Z 100000000000000); rewrite <- Zle_Qle; lia).
  set (X := inject_Z x) in *. set (R := toQ r) in *. set (vq := toQ (div (ofBigInt x) r)) in *.
  set (t := X / R) in *.
  assert (HtR : t * R == X) by (unfold t; field; lra).
  assert (Ht0 : 0 < t) by (unfold t; apply Qlt_shift_div_l; lra).
  assert (Ht1 : t <= 32 * X).
  { unfold t. apply Qle_shift_div_r; [lra |]. nra. }
  assert (Hu : u == 1 # 9007199254740992) by reflexivity.
  (* the sXLM amount stays below 2^53 *)
  assert (HY : inject_Z y < inject_Z (2 ^ 53)).
  { change (inject_Z (2 ^ 53)) with (9007199254740992 # 1).
    apply Qle_lt_trans with vq; [exact Hylo |].
    apply Qle_lt_trans with (t * (1 + u)); [exact Hqhi |].
    apply Qle_lt_trans with (t * 2); [| lra].
    assert (Hu2 : 1 + u <= 2) by (rewrite Hu; lra).
    set (c := 1 + u) in *. nra. }
  rewrite <- Zlt_Qlt in HY.
  exists y. unfold xlmToSxlm, sxlmToXlm. rewrite Hleb, Hy.
  assert (Hu0 : 0 <= 1 - u) by (rewrite Hu; lra).
  assert (Hu1 : 0 <= 1 + u) by (rewrite Hu; lra).
  assert (HR0 : 0 <= R) by lra.
  destruct (Z.eq_dec y 0%Z) as [-> | Hynz].
  - (* nothing is minted *)
    exists 0%Z. rewrite (mul_zero_pnormal _ _ _ Hr).
    split; [reflexivity |]. split; [reflexivity |]. split; [lia |].
    rewrite Z.sub_0_r. fold X. change (inject_Z 0) with 0 in Hyhi.
    assert (H0 : t * (1 - u) < 1) by lra.
    assert (H1 : X * (1 - u) < R).
    { apply Qle_lt_trans with (t * (1 - u) * R); [apply Qeq_le; rewrite <- HtR; ring |].
      apply Qlt_le_trans with (1 * R); [| apply Qeq_le; ring].
      apply Qmult_lt_compat_r; [lra | exact H0]. }
    clear - H1 HX1 HX2 Hu. rewrite Hu in H1. lra.
  - destruct (near_ofBigInt y ltac:(lia)) as [_ Py].
    destruct (ofBigInt_exact y ltac:(lia)) as [Vy _].
    destruct (mul_spec _ _ _ _ _ _ Py Hr ltac:(lia) ltac:(lia)) as [Rp Pp].
    destruct (bigIntFloor_bounds _ _ _ Pp) as (z & Hz & Hzlo & Hzhi & Hz0).
    apply rounds_error in Rp. destruct Rp as [Hplo Hphi].
    rewrite Vy in Hplo, Hphi.
    set (vp := toQ (mul (ofBigInt y) r)) in *. set (Y := inject_Z y) in *.
    exists z. split; [reflexivity |]. split; [exact Hz |].
    assert (Ha : Y * R <= X * (1 + u)).
    { apply Qle_trans with (vq * R); [apply Qmult_le_compat_r; assumption |].
      apply Qle_trans with (t * (1 + u) * R); [apply Qmult_le_compat_r; assumption |].
      apply Qeq_le. rewrite <- HtR. ring. }
    assert (Hb : X * (1 - u) - R <= Y * R).
    { apply Qle_trans with ((vq - 1) * R); [| apply Qmult_le_compat_r; [lra | assumption]].
      apply Qle_trans with ((t * (1 - u) - 1) * R);
        [apply Qeq_le; rewrite <- HtR; ring | apply Qmult_le_compat_r; [lra | assumption]]. }
    set (a := Y * R) in *.
    assert (Hzx : inject_Z z < inject_Z (x + 1)).
    { rewrite inject_Z_plus. fold X. change (inject_Z 1) with 1.
      apply Qle_lt_trans with vp; [exact Hzlo |].
      apply Qle_lt_trans with (a * (1 + u)); [exact Hphi |].
      apply Qle_lt_trans with (X * (1 + u) * (1 + u));
        [apply Qmult_le_compat_r; assumption |].
      clear - HX1 HX2 Hu. rewrite Hu. lra. }
    rewrite <- Zlt_Qlt in Hzx.
    split; [lia |].
    unfold Z.sub. rewrite inject_Z_plus, inject_Z_opp. fold X.
    assert (Hc : (X * (1 - u) - R) * (1 - u) <= vp).
    { apply Qle_trans with (a * (1 - u)); [apply Qmult_le_compat_r; assumption | exact Hplo]. }
    clear - Hc Hzhi HX1 HX2 Hrlo Hrhi Hu. rewrite Hu in Hc. lra.
Qed.

End RoundTrip.

(** C3 (amended).  For an amount of at most 10^14 stroops (the largest
    stake that the gateway accepts) and a rate between 1/32 and 1024,
    converting to sXLM and back succeeds, never returns more than [x], and
    loses less than [r + 1 + 1/32] stroops: the sXLM stroop that the first
    floor drops is worth [r] stroops of XLM.  The loss is at most 2 stroops
    when the rate is at most 1. *)
Theorem round_trip_loss_below_rate_plus_one (x : Z) (r : number) :
  0 < x <= Config.maxStakeAmount -> pnormal (-57) (-43) r = true ->
  exists y z,
    xlmToSxlm x r = Some y /\ sxlmToXlm y r = Some z /\
    0 <= z <= x /\ (inject_Z (x - z) < toQ r + 1 + (1 # 32))%Q /\
    ((toQ r <= 1)%Q -> x - z <= 2).
Proof.
  intros Hx Hr. destruct (round_trip_bounds x r Hx Hr) as (y & z & Hy & Hz & Hzx & Hloss).
  exists y, z. split; [exact Hy |]. split; [exact Hz |]. split; [exact Hzx |].
  split; [exact Hloss |].
  intros Hr1.
  assert (H3 : (inject_Z (x - z) < inject_Z 3)%Q) by (change (inject_Z 3) with 3%Q; lra).
  rewrite <- Zlt_Qlt in H3. lia.
Qed.

Lemma round_trip_loss_below_rate_plus_one_witness :
  exists y z,
    xlmToSxlm 1000000007 (ofBigInt 4) = Some y /\ sxlmToXlm y (ofBigInt 4) = Some z /\
    0 <= z <= 1000000007 /\ (inject_Z (1000000007 - z) < toQ (ofBigInt 4) + 1 + (1 # 32))%Q /\
    ((toQ (ofBigInt 4) <= 1)%Q -> 1000000007 - z <= 2).
Proof.
  apply (round_trip_loss_below_rate_plus_one 1000000007 (ofBigInt 4)).
  - unfold Config.maxStakeAmount. lia.
  - reflexivity.
Defined.

(** ** The reconciliation of the withdrawal queue after a slashing *)

Section Reconciliation.



Local Open Scope Q_scope.





End Reconciliation.





(** ** Addition and subtraction in binary64 *)

Section AddSub.

Lemma round_aux_exact_rounds (M e : Z) :
  2 ^ 52 <= M -> -1074 <= e + (Zdigits2 M - 53) <= 970 ->
  rounds (inject_Z M * pow2 e) (binary_round_aux prec emax false M e loc_Exact).
Proof.
  intros HM HE.
  pose proof (shifted_mantissa_bounds M HM) as [Hn Hsh].
  rewrite round_aux_exact by assumption.
  set (n := Zdigits2 M - 53) in *.
  assert (Hpn : 0 < 2 ^ n) by (apply Z.pow_pos_nonneg; lia).
  apply rounds_of_Z; [exact Hpn | exact Hsh | lia |].
  rewrite pow2_add.
  assert (Hp : (pow2 n == inject_Z (2 ^ n))%Q) by (apply pow2_Z; lia).
  rewrite Hp. pose proof (inject_Z_pos _ Hpn). field. lra.
Qed.

(** [binary_round] of a positive mantissa is the correct rounding as long as
    the result is in the normal range. *)
Lemma binary_round_rounds (m : positive) (e : Z) :
  -1074 <= e + (Zpos (digits2_pos m) - 53) <= 970 ->
  rounds (inject_Z (Zpos m) * pow2 e) (binary_round prec emax false m e).
Proof.
  intros HE. unfold binary_round.
  pose proof (digits2_pos_bounds m) as [Hlo Hhi].
  set (d := Zpos (digits2_pos m)) in *.
  assert (Hd : 1 <= d) by (unfold d; lia).
  rewrite fexp_normal by lia.
  unfold shl_align. destruct (d + e - 53 - e) as [| q | q] eqn:Hsh.
  - assert (Hd53 : d = 53) by lia. rewrite Hd53 in Hlo. change (2 ^ (53 - 1)) with (2 ^ 52) in Hlo.
    apply round_aux_exact_rounds; [lia | cbn [Zdigits2]; fold d; lia].
  - assert (H52 : 2 ^ 52 <= 2 ^ (d - 1)) by (apply Z.pow_le_mono_r; lia).
    apply round_aux_exact_rounds; [lia | cbn [Zdigits2]; fold d; lia].
  - assert (Hq : Zpos q = 53 - d) by lia.
    assert (Hm : 2 ^ 52 <= Zpos m * 2 ^ (53 - d) < 2 ^ 53).
    { assert (H1 : 2 ^ 52 = 2 ^ (d - 1) * 2 ^ (53 - d)).
      { rewrite <- Z.pow_add_r by lia. f_equal. lia. }
      assert (H2 : 2 ^ 53 = 2 ^ d * 2 ^ (53 - d)).
      { rewrite <- Z.pow_add_r by lia. f_equal. lia. }
      assert (0 < 2 ^ (53 - d)) by (apply Z.pow_pos_nonneg; lia).
      rewrite H1, H2.
      split; [apply Z.mul_le_mono_nonneg_r; lia | apply Z.mul_lt_mono_pos_r; lia]. }
    rewrite iter_xO, Hq.
    pose proof (digits_between _ 52 53 ltac:(lia) Hm) as Hdig.
    apply rounds_ext with (inject_Z (Zpos m * 2 ^ (53 - d)) * pow2 (d + e - 53))%Q.
    + replace e with ((53 - d) + (d + e - 53)) at 2 by lia. rewrite pow2_add.
      assert (Hp : (pow2 (53 - d) == inject_Z (2 ^ (53 - d)))%Q) by (apply pow2_Z; lia).
      rewrite Hp, inject_Z_mult. ring.
    + apply round_aux_exact_rounds; lia.
Qed.

Lemma shl_align_fst (m : positive) (e ez : Z) :
  ez <= e -> Zpos (fst (shl_align m e ez)) = Zpos m * 2 ^ (e - ez).
Proof.
  intros Hle. unfold shl_align. destruct (ez - e) as [| q | q] eqn:Hsh; try lia.
  - cbn [fst]. replace (e - ez) with 0 by lia. lia.
  - cbn [fst]. rewrite iter_xO. f_equal. f_equal. lia.
Qed.

Local Open Scope Q_scope.

(** The sum of two positive normal numbers is correctly rounded. *)
Lemma add_rounds (lo hi : Z) (x y : number) :
  pnormal lo hi x = true -> pnormal lo hi y = true ->
  (-1074 <= lo)%Z -> (hi + 1 <= 970)%Z ->
  rounds (toQ x + toQ y) (add x y).
Proof.
  intros Hx Hy Hlo Hhi.
  apply pnormal_inv in Hx. destruct Hx as (mx & ex & -> & Hmx & Hex).
  apply pnormal_inv in Hy. destruct Hy as (my & ey & -> & Hmy & Hey).
  unfold add, SFadd. cbn [cond_Zopp toQ].
  set (ez := Z.min ex ey).
  pose proof (shl_align_fst mx ex ez ltac:(lia)) as Ha.
  pose proof (shl_align_fst my ey ez ltac:(lia)) as Hb.
  set (a := fst (shl_align mx ex ez)) in *. set (b := fst (shl_align my ey ez)) in *.
  change (Zpos a + Zpos b)%Z with (Zpos (a + b)). cbn [binary_normalize].
  assert (Hpa : (1 <= 2 ^ (ex - ez))%Z) by (apply (Z.pow_le_mono_r 2 0); lia).
  assert (Hpb : (1 <= 2 ^ (ey - ez))%Z) by (apply (Z.pow_le_mono_r 2 0); lia).
  set (emx := Z.max ex ey).
  assert (Hqa : (2 ^ (ex - ez) <= 2 ^ (emx - ez))%Z) by (apply Z.pow_le_mono_r; lia).
  assert (Hqb : (2 ^ (ey - ez) <= 2 ^ (emx - ez))%Z) by (apply Z.pow_le_mono_r; lia).
  assert (HM : (2 ^ 53 <= Zpos (a + b) < 2 ^ (54 + (emx - ez)))%Z).
  { rewrite Pos2Z.inj_add, Ha, Hb. split; [nia |].
    rewrite Z.pow_add_r by lia. change (2 ^ 54)%Z with (2 * 2 ^ 53)%Z. nia. }
  pose proof (digits_between _ 53 _ ltac:(lia) HM) as Hd. cbn [Zdigits2] in Hd.
  apply rounds_ext with (inject_Z (Zpos (a + b)) * pow2 ez).
  - rewrite Pos2Z.inj_add, Ha, Hb, inject_Z_plus, !inject_Z_mult.
    assert (H1 : pow2 ex == inject_Z (2 ^ (ex - ez)) * pow2 ez).
    { rewrite <- pow2_Z by lia. rewrite <- pow2_add. replace (ex - ez + ez)%Z with ex by lia.
      reflexivity. }
    assert (H2 : pow2 ey == inject_Z (2 ^ (ey - ez)) * pow2 ez).
    { rewrite <- pow2_Z by lia. rewrite <- pow2_add. replace (ey - ez + ez)%Z with ey by lia.
      reflexivity. }
    rewrite H1, H2. ring.
  - apply binary_round_rounds. lia.
Qed.

Lemma add_spec (lo hi : Z) (x y : number) :
  pnormal lo hi x = true -> pnormal lo hi y = true ->
  (-1074 <= lo)%Z -> (hi + 1 <= 970)%Z ->
  rounds (toQ x + toQ y) (add x y) /\ pnormal lo (hi + 2) (add x y) = true.
Proof.
  intros Hx Hy Hlo Hhi.
  pose proof (add_rounds lo hi x y Hx Hy Hlo Hhi) as Hr.
  split; [exact Hr |].
  destruct (pnormal_value _ _ _ Hx) as [Hx1 Hx2].
  destruct (pnormal_value _ _ _ Hy) as [Hy1 Hy2].
  pose proof (pow2_pos (lo + 52)).
  replace lo with (lo + 52 - 52)%Z at 1 by lia.
  replace (hi + 2)%Z with (hi + 53 + 1 - 52)%Z by lia.
  apply (rounds_pnormal _ _ _ _ Hr); [lra |].
  rewrite pow2_succ. lra.
Qed.

(** The difference of two positive normal numbers, the larger first, is
    correctly rounded. *)
Lemma sub_rounds (lo hi : Z) (x y : number) :
  pnormal lo hi x = true -> pnormal lo hi y = true ->
  (-1074 <= lo - 52)%Z -> (hi <= 970)%Z -> toQ y < toQ x ->
  rounds (toQ x - toQ y) (sub x y).
Proof.
  intros Hx Hy Hlo Hhi Hlt.
  apply pnormal_inv in Hx. destruct Hx as (mx & ex & -> & Hmx & Hex).
  apply pnormal_inv in Hy. destruct Hy as (my & ey & -> & Hmy & Hey).
  unfold sub, SFsub. cbn [cond_Zopp toQ] in *.
  set (ez := Z.min ex ey) in *.
  pose proof (shl_align_fst mx ex ez ltac:(lia)) as Ha.
  pose proof (shl_align_fst my ey ez ltac:(lia)) as Hb.
  set (a := fst (shl_align mx ex ez)) in *. set (b := fst (shl_align my ey ez)) in *.
  assert (H1 : pow2 ex == inject_Z (2 ^ (ex - ez)) * pow2 ez).
  { rewrite <- pow2_Z by lia. rewrite <- pow2_add. replace (ex - ez + ez)%Z with ex by lia.
    reflexivity. }
  assert (H2 : pow2 ey == inject_Z (2 ^ (ey - ez)) * pow2 ez).
  { rewrite <- pow2_Z by lia. rewrite <- pow2_add. replace (ey - ez + ez)%Z with ey by lia.
    reflexivity. }
  assert (Hval : toQ (S754_finite false mx ex) - toQ (S754_finite false my ey)
                 == inject_Z (Zpos a - Zpos b) * pow2 ez).
  { cbn [toQ cond_Zopp]. unfold Z.sub. rewrite inject_Z_plus, inject_Z_opp, Ha, Hb, !inject_Z_mult.
    rewrite H1, H2. ring. }
  cbn [toQ cond_Zopp] in Hval.
  pose proof (pow2_pos ez) as Hpz.
  assert (Hpos : (0 < Zpos a - Zpos b)%Z).
  { rewrite Zlt_Qlt. change (inject_Z 0) with 0.
    assert (Hd : 0 < inject_Z (Zpos a - Zpos b) * pow2 ez) by (rewrite <- Hval; lra).
    set (t := inject_Z (Zpos a - Zpos b)) in *. nra. }
  assert (Hpa : (2 ^ (ex - ez) <= 2 ^ (hi - ez))%Z) by (apply Z.pow_le_mono_r; lia).
  assert (Hpa0 : (0 < 2 ^ (ex - ez))%Z) by (apply Z.pow_pos_nonneg; lia).
  assert (Hub : (Zpos a - Zpos b < 2 ^ (53 + (hi - ez)))%Z).
  { rewrite Ha, Z.pow_add_r by lia. nia. }
  destruct (Zpos a - Zpos b)%Z as [| m | m] eqn:Hm; try lia.
  cbn [binary_normalize].
  pose proof (digits2_pos_bounds m) as [Hdlo Hdhi].
  assert (Hdig : (1 <= Zpos (digits2_pos m) <= 53 + (hi - ez))%Z).
  { split; [lia |].
    destruct (Z.le_gt_cases (Zpos (digits2_pos m)) (53 + (hi - ez))) as [Hle | Hgt]; [exact Hle |].
    assert (2 ^ (53 + (hi - ez)) <= 2 ^ (Zpos (digits2_pos m) - 1))%Z
      by (apply Z.pow_le_mono_r; lia).
    lia. }
  apply rounds_ext with (inject_Z (Zpos m) * pow2 ez); [symmetry; exact Hval |].
  apply binary_round_rounds. lia.
Qed.

End AddSub.

(** ** The leverage simulator *)

Section LeverageTotals.
Context {N : Type} `{Arith N}.

Lemma leverageIter_S (cf : N) (n : nat) :
  forall (i : N) (st : LeverageEngine.LoopState N),
    exists j, leverageIter cf (S n) i st = LeverageEngine.loopBody cf j (leverageIter cf n i st).
Proof.
  induction n as [| n IH]; intros i st.
  - exists i. reflexivity.
  - destruct (IH (plus i (lit 1)) (LeverageEngine.loopBody cf i st)) as [j Hj].
    exists j. exact Hj.
Qed.

(** The totals after [n] loops follow the recurrences of the loop body. *)
Lemma leverageIter_totals (p cf : N) (n : nat) (i : N) :
  let st := leverageIter cf n i (LeverageEngine.mkState (lit 0) (lit 0) p []) in
  LeverageEngine.stTotalStaked st = stakedAfter p cf n /\
  LeverageEngine.stTotalBorrowed st = borrowedAfter p cf n /\
  LeverageEngine.currentDeposit st = depositAt p cf n.
Proof.
  induction n as [| n IH].
  - cbn. repeat split.
  - destruct (leverageIter_S cf n i (LeverageEngine.mkState (lit 0) (lit 0) p [])) as [j Hj].
    cbv zeta in *. rewrite Hj. destruct IH as (IH1 & IH2 & IH3).
    cbn [LeverageEngine.loopBody LeverageEngine.stTotalStaked LeverageEngine.stTotalBorrowed
         LeverageEngine.currentDeposit stakedAfter borrowedAfter depositAt].
    rewrite IH1, IH2, IH3. repeat split.
Qed.

End LeverageTotals.

Lemma leverage_simulate_totals (n : Z) (p cf sAPR bAPR : number) :
  0 <= n <= 20 ->
  exists r,
    LeverageEngine.simulate LeverageEngine.fuel tt
      (LeverageEngine.mkInput p (ofBigInt n) cf sAPR bAPR) = Some r /\
    LeverageEngine.totalStaked r = stakedAfter p cf (Z.to_nat n) /\
    LeverageEngine.totalBorrowed r = borrowedAfter p cf (Z.to_nat n) /\
    LeverageEngine.effectiveLeverage r = div (stakedAfter p cf (Z.to_nat n)) p /\
    LeverageEngine.maxLeverage r = div one (sub one cf).
Proof.
  intros Hn. unfold LeverageEngine.simulate. rewrite leverage_forLoop_trips.
  cbn [LeverageEngine.loops LeverageEngine.collateralFactor LeverageEngine.principal
       lit binary64].
  rewrite (small_tripCount n (Z.to_nat n) 0 LeverageEngine.fuel)
    by (unfold LeverageEngine.fuel; lia).
  cbn [option_map].
  destruct (leverageIter_totals (N := number) p cf (Z.to_nat n) (ofBigInt 0)) as (H1 & H2 & _).
  cbn [lit binary64] in H1, H2.
  eexists. split; [reflexivity |].
  cbn [LeverageEngine.totalStaked LeverageEngine.totalBorrowed LeverageEngine.effectiveLeverage
       LeverageEngine.maxLeverage over minus binary64].
  rewrite H1, H2. repeat split.
Qed.

Section LeverageRounding.
Local Open Scope Q_scope.

Lemma wpow_le_1 (k : nat) : (1 - u) ^ Z.of_nat k <= 1.
Proof.
  induction k as [| k IH]; [apply Qle_refl |].
  replace (S k) with (k + 1)%nat by lia. rewrite wpow_add.
  change ((1 - u) ^ Z.of_nat 1) with (1 - u).
  pose proof (wpow_pos k). assert (Hu : 0 < u) by reflexivity.
  set (a := (1 - u) ^ Z.of_nat k) in *. nra.
Qed.

Lemma near_weaken (j k : nat) (q v : Q) : (j <= k)%nat -> near j q v -> near k q v.
Proof.
  intros Hjk Hn. replace k with (j + (k - j))%nat by lia.
  apply near_trans with v; [exact Hn |].
  pose proof (near_pos _ _ _ Hn) as Hv. pose proof (wpow_le_1 (k - j)) as Hw.
  pose proof (wpow_pos (k - j)).
  unfold near. set (a := (1 - u) ^ Z.of_nat (k - j)) in *.
  split; [exact Hv |]. split; nra.
Qed.

Lemma near_add (k : nat) (q1 v1 q2 v2 : Q) :
  near k q1 v1 -> near k q2 v2 -> near k (q1 + q2) (v1 + v2).
Proof.
  intros (Hq1 & Hlo1 & Hhi1) (Hq2 & Hlo2 & Hhi2).
  unfold near. set (a := (1 - u) ^ Z.of_nat k) in *.
  split; [lra |]. split; lra.
Qed.

Lemma near_add_rounded (k : nat) (lo hi : Z) (q1 q2 : Q) (x y : number) :
  near k q1 (toQ x) -> near k q2 (toQ y) ->
  pnormal lo hi x = true -> pnormal lo hi y = true ->
  (-1074 <= lo)%Z -> (hi + 1 <= 970)%Z ->
  near (k + 1) (q1 + q2) (toQ (add x y)) /\ pnormal lo (hi + 2) (add x y) = true.
Proof.
  intros Hx Hy Px Py Hlo Hhi.
  destruct (add_spec lo hi x y Px Py Hlo Hhi) as [Hr Hp].
  split; [| exact Hp].
  apply near_trans with (toQ x + toQ y); [apply near_add; assumption | apply near_rounds; exact Hr].
Qed.

Lemma add_zero_l (lo hi : Z) (x : number) :
  pnormal lo hi x = true -> add (ofBigInt 0) x = x.
Proof.
  intros Hx. apply pnormal_inv in Hx. destruct Hx as (m & e & -> & _ & _). reflexivity.
Qed.

Lemma geometricTerm_pos (c : Q) (n : nat) : 0 < c -> 0 < geometricTerm c n.
Proof.
  intros Hc. induction n as [| n IH]; [reflexivity |].
  cbn [geometricTerm]. nra.
Qed.

Lemma geometricSum_closed (c : Q) (n : nat) :
  geometricSum c n * (1 - c) == 1 - geometricTerm c n.
Proof.
  induction n as [| n IH]; [cbn; ring |].
  cbn [geometricSum geometricTerm].
  apply Qeq_trans with (geometricSum c n * (1 - c) + geometricTerm c n * (1 - c)); [ring |].
  rewrite IH. ring.
Qed.

Lemma geometricSum_below (c : Q) (n : nat) :
  0 < c -> c < 1 -> geometricSum c n < 1 / (1 - c).
Proof.
  intros Hc0 Hc1. apply Qlt_shift_div_l; [lra |].
  rewrite geometricSum_closed. pose proof (geometricTerm_pos c n Hc0). lra.
Qed.

Lemma geometricSum_pos (c : Q) (n : nat) : 0 < c -> 0 < geometricSum c (S n).
Proof.
  intros Hc. induction n as [| n IH]; [reflexivity |].
  change (geometricSum c (S (S n))) with (geometricSum c (S n) + geometricTerm c (S n)).
  pose proof (geometricTerm_pos c (S n) Hc). lra.
Qed.

(** A collateral factor in [[1/16, 1)]. *)
Lemma factor_value (cf : number) :
  pnormal (-56) (-53) cf = true -> (1 # 16) <= toQ cf /\ toQ cf <= 1 - u.
Proof.
  intros Hc. split.
  - apply pnormal_value in Hc. destruct Hc as [Hlo _]. exact Hlo.
  - apply pnormal_inv in Hc. destruct Hc as (m & e & -> & Hm & He).
    cbn [toQ cond_Zopp].
    assert (Hm' : inject_Z (Zpos m) <= inject_Z (2 ^ 53 - 1)) by (rewrite <- Zle_Qle; lia).
    assert (Hm0 : 0 < inject_Z (Zpos m)) by (apply inject_Z_pos; lia).
    pose proof (pow2_le e (-53) ltac:(lia)) as He'.
    pose proof (pow2_pos e) as Hpe.
    change (pow2 (-53)) with u in He'.
    change (inject_Z (2 ^ 53 - 1)) with (9007199254740991 # 1) in Hm'.
    assert (Hu : u == 1 # 9007199254740992) by reflexivity.
    apply Qle_trans with ((9007199254740991 # 1) * u); [| rewrite Hu; apply Qeq_le; reflexivity].
    set (a := inject_Z (Zpos m)) in *. set (b := pow2 e) in *.
    apply Qle_trans with ((9007199254740991 # 1) * b); [| rewrite Hu in *; lra].
    apply Qmult_le_compat_r; [exact Hm' | lra].
Qed.

Section Totals.
Variables p cf : number.
Hypothesis principal_range : pnormal (-500) 400 p = true.
Hypothesis factor_range : pnormal (-56) (-53) cf = true.

Lemma depositAt_near (n : nat) :
  (n <= 20)%nat ->
  near n (toQ p * geometricTerm (toQ cf) n) (toQ (depositAt p cf n)) /\
  pnormal (-500 - 4 * Z.of_nat n) (400 + Z.of_nat n) (depositAt p cf n) = true.
Proof using principal_range factor_range.
  induction n as [| n IH]; intros Hn.
  - cbn [depositAt geometricTerm]. split.
    + apply near_exact; [| ring].
      pose proof (pnormal_value _ _ _ principal_range) as [Hlo _].
      pose proof (pow2_pos (-500 + 52)). lra.
    + exact principal_range.
  - destruct (IH ltac:(lia)) as [Hnear Hp].
    cbn [depositAt geometricTerm times binary64].
    assert (Hc : near 0 (toQ cf) (toQ cf)).
    { apply near_exact; [| reflexivity]. pose proof (factor_value cf factor_range). lra. }
    destruct (near_mul_rounded _ _ _ _ _ _ _ _ _ _ Hnear Hc Hp factor_range ltac:(lia) ltac:(lia))
      as [Hnear' Hp'].
    split.
    + apply near_ext with (toQ p * geometricTerm (toQ cf) n * toQ cf); [ring |].
      replace (S n) with (n + 0 + 1)%nat by lia. exact Hnear'.
    + apply pnormal_weaken with (1 := Hp'); lia.
Qed.

Lemma stakedAfter_near (n : nat) :
  (S n <= 20)%nat ->
  near (S n) (toQ p * geometricSum (toQ cf) (S n)) (toQ (stakedAfter p cf (S n))) /\
  pnormal (-500 - 4 * Z.of_nat (S n)) (400 + 2 * Z.of_nat (S n)) (stakedAfter p cf (S n)) = true.
Proof using principal_range factor_range.
  induction n as [| n IH]; intros Hn.
  - change (stakedAfter p cf 1) with (add (ofBigInt 0) p).
    rewrite (add_zero_l _ _ _ principal_range). split.
    + apply near_weaken with 0%nat; [lia |]. apply near_exact; [| cbn; ring].
      pose proof (pnormal_value _ _ _ principal_range) as [Hlo _].
      pose proof (pow2_pos (-500 + 52)). cbn. lra.
    + apply pnormal_weaken with (1 := principal_range); lia.
  - destruct (IH ltac:(lia)) as [Hnear Hp].
    destruct (depositAt_near (S n) ltac:(lia)) as [Hd Hpd].
    change (stakedAfter p cf (S (S n)))
      with (add (stakedAfter p cf (S n)) (depositAt p cf (S n))).
    destruct (near_add_rounded (S n) (-500 - 4 * Z.of_nat (S n)) (400 + 2 * Z.of_nat (S n))
                _ _ _ _ Hnear Hd Hp
                ltac:(apply pnormal_weaken with (1 := Hpd); lia) ltac:(lia) ltac:(lia))
      as [Hnear' Hp'].
    split.
    + apply near_ext with (toQ p * geometricSum (toQ cf) (S n)
                           + toQ p * geometricTerm (toQ cf) (S n)).
      * change (geometricSum (toQ cf) (S (S n)))
          with (geometricSum (toQ cf) (S n) + geometricTerm (toQ cf) (S n)). ring.
      * replace (S (S n)) with (S n + 1)%nat by lia. exact Hnear'.
    + apply pnormal_weaken with (1 := Hp'); lia.
Qed.

Lemma borrowedAfter_near (n : nat) :
  (S n <= 20)%nat ->
  near (S n + 1) (toQ p * (toQ cf * geometricSum (toQ cf) (S n)))
    (toQ (borrowedAfter p cf (S n))) /\
  pnormal (-500 - 4 * Z.of_nat (S n)) (400 + 2 * Z.of_nat (S n))
    (borrowedAfter p cf (S n)) = true.
Proof using principal_range factor_range.
  induction n as [| n IH]; intros Hn.
  - destruct (depositAt_near 1 ltac:(lia)) as [Hd Hpd].
    change (borrowedAfter p cf 1) with (add (ofBigInt 0) (depositAt p cf 1)).
    rewrite (add_zero_l _ _ _ Hpd). split.
    + apply near_weaken with 1%nat; [lia |].
      apply near_ext with (2 := Hd). cbn. ring.
    + apply pnormal_weaken with (1 := Hpd); lia.
  - destruct (IH ltac:(lia)) as [Hnear Hp].
    destruct (depositAt_near (S (S n)) ltac:(lia)) as [Hd Hpd].
    change (borrowedAfter p cf (S (S n)))
      with (add (borrowedAfter p cf (S n)) (depositAt p cf (S (S n)))).
    destruct (near_add_rounded (S n + 1) (-500 - 4 * Z.of_nat (S (S n)))
                (400 + 2 * Z.of_nat (S n)) _ _ _ _ Hnear
                ltac:(apply near_weaken with (2 := Hd); lia)
                ltac:(apply pnormal_weaken with (1 := Hp); lia)
                ltac:(apply pnormal_weaken with (1 := Hpd); lia) ltac:(lia) ltac:(lia))
      as [Hnear' Hp'].
    split.
    + apply near_ext with (toQ p * (toQ cf * geometricSum (toQ cf) (S n))
                           + toQ p * geometricTerm (toQ cf) (S (S n))).
      * change (geometricSum (toQ cf) (S (S n)))
          with (geometricSum (toQ cf) (S n) + geometricTerm (toQ cf) (S n)).
        change (geometricTerm (toQ cf) (S (S n))) with (geometricTerm (toQ cf) (S n) * toQ cf).
        ring.
      * replace (S (S n) + 1)%nat with (S n + 1 + 1)%nat by lia. exact Hnear'.
    + apply pnormal_weaken with (1 := Hp'); lia.
Qed.

End Totals.

End LeverageRounding.

Section LeverageOrder.
Local Open Scope Q_scope.
Variables p cf : number.
Hypothesis principal_range : pnormal (-500) 400 p = true.
Hypothesis factor_range : pnormal (-56) (-53) cf = true.

(** One more loop never lowers the leverage that is returned. *)
Lemma leverage_mono (n : nat) :
  (S (S n) <= 20)%nat ->
  toQ (div (stakedAfter p cf (S n)) p) <= toQ (div (stakedAfter p cf (S (S n))) p).
Proof using principal_range factor_range.
  intros Hn.
  destruct (stakedAfter_near p cf principal_range factor_range n ltac:(lia)) as [Hs Ps].
  destruct (stakedAfter_near p cf principal_range factor_range (S n) Hn) as [Hs' Ps'].
  destruct (depositAt_near p cf principal_range factor_range (S n) ltac:(lia)) as [Hd Pd].
  pose proof (near_pos _ _ _ Hd) as Hd0.
  pose proof (near_pos _ _ _ Hs) as Hs0.
  assert (Hstaked : toQ (stakedAfter p cf (S n)) <= toQ (stakedAfter p cf (S (S n)))).
  { change (stakedAfter p cf (S (S n)))
      with (add (stakedAfter p cf (S n)) (depositAt p cf (S n))).
    apply rounds_mono with (toQ (stakedAfter p cf (S n)))
                           (toQ (stakedAfter p cf (S n)) + toQ (depositAt p cf (S n))).
    - apply (rounds_self _ _ _ Ps); lia.
    - apply (add_rounds (-500 - 4 * Z.of_nat (S n)) (400 + 2 * Z.of_nat (S n)));
        [exact Ps | apply pnormal_weaken with (1 := Pd); lia | lia | lia].
    - lra. }
  pose proof (pnormal_value _ _ _ principal_range) as [Hp0 _].
  pose proof (pow2_pos (-500 + 52)) as Hpp.
  apply rounds_mono with (toQ (stakedAfter p cf (S n)) / toQ p)
                         (toQ (stakedAfter p cf (S (S n))) / toQ p).
  - apply (div_rounds _ _ _ _ _ _ Ps principal_range); lia.
  - apply (div_rounds _ _ _ _ _ _ Ps' principal_range); lia.
  - apply Qmult_le_compat_r; [exact Hstaked |].
    apply Qlt_le_weak, Qinv_lt_0_compat. lra.
Qed.

Lemma maxLeverage_near : near 2 (1 / (1 - toQ cf)) (toQ (div one (sub one cf))).
Proof using factor_range.
  destruct (factor_value cf factor_range) as [Hc0 Hc1].
  assert (Hu : u == 1 # 9007199254740992) by reflexivity.
  assert (H1 : toQ one == 1) by reflexivity.
  assert (Pone : pnormal (-56) (-52) one = true) by reflexivity.
  assert (Rsub : rounds (1 - toQ cf) (sub one cf)).
  { apply rounds_ext with (toQ one - toQ cf); [rewrite H1; reflexivity |].
    apply (sub_rounds (-56) (-52));
      [exact Pone | apply pnormal_weaken with (1 := factor_range); lia | lia | lia |].
    rewrite H1, Hu in *. lra. }
  assert (Psub : pnormal (-105) (-52) (sub one cf) = true).
  { apply (rounds_pnormal _ _ (-53) 0 Rsub).
    - change (pow2 (-53)) with u. lra.
    - change (pow2 0) with 1. lra. }
  assert (None_ : near 0 1 (toQ one)) by (apply near_exact; [reflexivity | exact H1]).
  destruct (near_div_rounded 0 1 (-56) (-52) (-105) (-52) _ _ _ _ None_ (near_rounds _ _ Rsub)
              Pone Psub ltac:(lia) ltac:(lia)) as [Hnear _].
  exact Hnear.
Qed.

End LeverageOrder.

(** C10 (amended).  For 1 to 20 loops, a principal in [[2^-448, 2^453)] and
    a collateral factor in [[1/16, 1)], the simulator returns; its totals
    and its leverage are the geometric sums up to one rounding per
    operation ([near]); the max leverage is [1 / (1 - c)] up to two
    roundings; the geometric sums are strictly increasing and below
    [1 / (1 - c)]; and the leverage that is returned for one more loop is
    not smaller. *)
Theorem leverage_is_rounded_geometric_sum (n : Z) (p cf sAPR bAPR : number) :
  1 <= n <= 20 -> pnormal (-500) 400 p = true -> pnormal (-56) (-53) cf = true ->
  let k := Z.to_nat n in
  let c := toQ cf in
  exists r,
    LeverageEngine.simulate LeverageEngine.fuel tt
      (LeverageEngine.mkInput p (ofBigInt n) cf sAPR bAPR) = Some r /\
    near k (toQ p * geometricSum c k) (toQ (LeverageEngine.totalStaked r)) /\
    near (k + 1) (toQ p * (c * geometricSum c k)) (toQ (LeverageEngine.totalBorrowed r)) /\
    near (k + 1) (geometricSum c k) (toQ (LeverageEngine.effectiveLeverage r)) /\
    near 2 (1 / (1 - c)) (toQ (LeverageEngine.maxLeverage r)) /\
    (geometricSum c k < geometricSum c (S k))%Q /\
    (geometricSum c k < 1 / (1 - c))%Q /\
    (n < 20 ->
     exists r',
       LeverageEngine.simulate LeverageEngine.fuel tt
         (LeverageEngine.mkInput p (ofBigInt (n + 1)) cf sAPR bAPR) = Some r' /\
       (toQ (LeverageEngine.effectiveLeverage r) <= toQ (LeverageEngine.effectiveLeverage r'))%Q).
Proof.
  intros Hn Hp Hc k c.
  destruct (leverage_simulate_totals n p cf sAPR bAPR ltac:(lia))
    as (r & Hrun & Hstaked & Hborrowed & Hlev & Hmax).
  exists r. split; [exact Hrun |].
  rewrite Hstaked, Hborrowed, Hlev, Hmax. fold k.
  destruct (factor_value cf Hc) as [Hc0 Hc1]. fold c in Hc0, Hc1.
  assert (Hu : (u == 1 # 9007199254740992)%Q) by reflexivity.
  assert (Hk : exists k', k = S k' /\ (S k' <= 20)%nat).
  { exists (Nat.pred k). unfold k. lia. }
  destruct Hk as (k' & Hk & Hk20). rewrite Hk.
  destruct (stakedAfter_near p cf Hp Hc k' Hk20) as [Hs Ps].
  destruct (borrowedAfter_near p cf Hp Hc k' Hk20) as [Hb _].
  fold c in Hs, Hb.
  split; [exact Hs |]. split; [exact Hb |]. split.
  { assert (Hp0 : near 0 (toQ p) (toQ p)).
    { apply near_exact; [| reflexivity].
      pose proof (pnormal_value _ _ _ Hp) as [Hlo _]. pose proof (pow2_pos (-500 + 52)).
      lra. }
    destruct (near_div_rounded _ _ _ _ _ _ _ _ _ _ Hs Hp0 Ps Hp ltac:(lia) ltac:(lia))
      as [Hnear _].
    replace (S k' + 1)%nat with (S k' + 0 + 1)%nat by lia.
    apply near_ext with (2 := Hnear). field.
    pose proof (pnormal_value _ _ _ Hp) as [Hlo _]. pose proof (pow2_pos (-500 + 52)).
    lra. }
  split; [exact (maxLeverage_near cf Hc) |].
  split.
  { change (geometricSum c (S (S k')))
      with (geometricSum c (S k') + geometricTerm c (S k'))%Q.
    assert (Hc00 : (0 < c)%Q) by lra.
    pose proof (geometricTerm_pos c (S k') Hc00). lra. }
  split.
  { apply geometricSum_below; [lra | rewrite Hu in Hc1; lra]. }
  intros Hn20.
  destruct (leverage_simulate_totals (n + 1) p cf sAPR bAPR ltac:(lia))
    as (r' & Hrun' & _ & _ & Hlev' & _).
  exists r'. split; [exact Hrun' |]. rewrite Hlev'.
  replace (Z.to_nat (n + 1)) with (S (S k')) by (unfold k in Hk; lia).
  apply (leverage_mono p cf Hp Hc k'). unfold k in Hk. lia.
Qed.

Lemma leverage_is_rounded_geometric_sum_witness :
  let k := Z.to_nat 18 in
  let c := toQ n0_12 in
  exists r,
    LeverageEngine.simulate LeverageEngine.fuel tt
      (LeverageEngine.mkInput one (ofBigInt 18) n0_12 n0_06 n0_04) = Some r /\
    near k (toQ one * geometricSum c k) (toQ (LeverageEngine.totalStaked r)) /\
    near (k + 1) (toQ one * (c * geometricSum c k)) (toQ (LeverageEngine.totalBorrowed r)) /\
    near (k + 1) (geometricSum c k) (toQ (LeverageEngine.effectiveLeverage r)) /\
    near 2 (1 / (1 - c)) (toQ (LeverageEngine.maxLeverage r)) /\
    (geometricSum c k < geometricSum c (S k))%Q /\
    (geometricSum c k < 1 / (1 - c))%Q /\
    (18 < 20 ->
     exists r',
       LeverageEngine.simulate LeverageEngine.fuel tt
         (LeverageEngine.mkInput one (ofBigInt (18 + 1)) n0_12 n0_06 n0_04) = Some r' /\
       (toQ (LeverageEngine.effectiveLeverage r) <= toQ (LeverageEngine.effectiveLeverage r'))%Q).
Proof.
  apply (leverage_is_rounded_geometric_sum 18 one n0_12 n0_06 n0_04).
  - lia.
  - reflexivity.
  - reflexivity.
Defined.

(* ===================================================================== *)
(** * Further properties of the services *)
(* ===================================================================== *)

(** ** The withdrawal queue processor: what a cycle does to the table *)

(** X1.  A processing cycle changes nothing but statuses, also when a call
    of the database client rejects and ends it early: absent ids stay
    absent, every record keeps its wallet, amount, unlock time and creation
    time, and only a record that was pending and unlocked can have another
    status afterwards.  When the cycle runs to its end, the status of every
    record is unchanged, completed or failed, so none is left in the
    processing state; and the cycle does run to its end when the database
    answers every call. *)
Theorem queue_cycle_changes_only_status (L : Ledger) (w : world L) (now : Z) (db : Table) :
  exists c,
    result (processQueue now db) w = inr c /\
    (forall id,
       match db !! id with
       | None => tableAfter c !! id = None
       | Some wd =>
           exists st, tableAfter c !! id = Some (setStatus st wd) /\
             (st = status wd \/ (status wd = Pending /\ unlockTime wd <= now)) /\
             (forall db', c = Finished db' ->
                st = status wd \/ st = Completed \/ st = Failed)
       end) /\
    (databaseAnswers L -> exists db', c = Finished db').
Proof.
  unfold result, run.
  destruct (processQueue_run now db (w, [])) as (c & w' & new & Hrun & Hkeep & Hst & _ & Hup).
  rewrite Hrun. exists c. split; [reflexivity |]. split; [| exact Hup].
  intros id. destruct (db !! id) as [wd |] eqn:Hlook.
  - destruct (decide (id ∈ (readyWithdrawals now db).*1)) as [Hin | Hnin].
    + apply list_elem_of_fmap in Hin. destruct Hin as [[id' wd'] [E Hin]]. cbn in E. subst id'.
      pose proof (readyWithdrawals_elem now db id wd' Hin) as (Hlook' & Hpend & Hunl).
      assert (wd' = wd) by congruence. subst wd'.
      destruct (Hst id wd Hin) as (st & Hnew & Hcase).
      exists st. split; [exact Hnew |]. split; [right; split; assumption |].
      intros db' Hc. destruct (Hcase db' Hc) as [-> | [-> | ->]]; [tauto | tauto |].
      left. symmetry. exact Hpend.
    + exists (status wd). rewrite setStatus_same, (Hkeep id Hnin).
      split; [exact Hlook |]. split; [left; reflexivity | intros; left; reflexivity].
  - rewrite Hkeep; [exact Hlook |].
    intros Hin. apply readyWithdrawals_spec in Hin. destruct Hin as (wd & Hl & _). congruence.
Qed.

Lemma queue_cycle_changes_only_status_witness :
  exists db',
    result (L := demoLedger) (processQueue 100 demoTable) 0 = inr (Finished db') /\
    db' !! 1 = Some (mkWithdrawal demoAddress 30000000 Completed 50 10) /\
    db' !! 2 = Some (mkWithdrawal demoAddress 70000000 Completed 60 20).
Proof.
  destruct (queue_cycle_changes_only_status demoLedger 0 100 demoTable)
    as (c & Hrun & _ & Hend).
  destruct (Hend (fun w => eq_refl)) as (db' & ->).
  exists db'. split; [exact Hrun |].
  vm_compute in Hrun. injection Hrun as <-. split; reflexivity.
Defined.

(** X2.  A processing cycle attempts at most 50 claims, and never two for
    the same withdrawal. *)
Theorem queue_cycle_claims_at_most_fifty (L : Ledger) (w : world L) (now : Z) (db : Table) :
  (length (claimedIds (actions (processQueue now db) w)) <= 50)%nat /\
  NoDup (claimedIds (actions (processQueue now db) w)).
Proof.
  unfold actions, run.
  destruct (processQueue_run now db (w, [])) as (c & w' & new & Hrun & _ & _ & Hsub & _).
  rewrite Hrun. cbn [snd app]. split.
  - apply sublist_length in Hsub. rewrite length_fmap in Hsub.
    pose proof (readyWithdrawals_length now db). lia.
  - apply sublist_NoDup with (2 := Hsub). apply readyWithdrawals_NoDup.
Qed.

(** X3.  The outcome of one claim, for a record of the table with a valid
    wallet address, when the database answers every call.  When the admin
    account cannot be loaded nothing is submitted and the record goes back
    to pending.  When it is loaded: if the claim goes through and its event
    is published the record becomes completed; if the claim throws, the
    record becomes failed when the message mentions "already claimed",
    "not found" or "insufficient", and goes back to pending otherwise. *)
Theorem claim_outcome_sets_status (L : Ledger) (w : world L) (id : Z) (wd : Withdrawal)
    (db : Table) :
  db !! id = Some wd -> databaseAnswers L -> addressValid L (wallet wd) = true ->
  (accountFound L (database L w).2 Config.adminPublicKey = false ->
   actions (processOne (id, wd) db) w = [GetAccount Config.adminPublicKey] /\
   exists db', result (processOne (id, wd) db) w = inr (Finished db') /\
               db' !! id = Some (setStatus Pending wd)) /\
  (accountFound L (database L w).2 Config.adminPublicKey = true ->
   (forall hash w',
      submit L (database L w).2 (claimWithdrawalCall (wallet wd) id) = (inr hash, w') ->
      publish L (database L w').2 (WithdrawalReady id (wallet wd) (amount wd) hash) = true ->
      exists db', result (processOne (id, wd) db) w = inr (Finished db') /\
                  db' !! id = Some (setStatus Completed wd)) /\
   (forall message w',
      submit L (database L w).2 (claimWithdrawalCall (wallet wd) id) = (inl message, w') ->
      exists db', result (processOne (id, wd) db) w = inr (Finished db') /\
                  db' !! id = Some (setStatus (if isPermanentFailure message
                                               then Failed else Pending) wd))).
Proof.
  intros Hlook Hdb Hvalid.
  assert (Hup : forall st, update id (setStatus st) (update id (setStatus Processing) db) !! id
                           = Some (setStatus st wd)).
  { intros st. unfold update. rewrite !lookup_alter_eq, Hlook. cbn.
    rewrite setStatus_twice. reflexivity. }
  assert (Hup3 : forall st st',
             update id (setStatus st)
               (update id (setStatus st') (update id (setStatus Processing) db)) !! id
             = Some (setStatus st wd)).
  { intros st st'. unfold update. rewrite !lookup_alter_eq, Hlook. cbn.
    rewrite !setStatus_twice. reflexivity. }
  assert (Hanswer : forall w0, database L w0 = (None, (database L w0).2)).
  { intros w0. specialize (Hdb w0). destruct (database L w0) as [[m |] w1]; [discriminate |].
    reflexivity. }
  unfold claimWithdrawalCall, actions, result, run.
  unfold processOne, tryClaim, bind, outcome, prismaCall, callClaimWithdrawal, bind,
    getAccount, toAddress, sendTransaction, publishEvent, throw.
  cbn [fst snd]. rewrite (Hanswer w). cbn [fst snd ret].
  set (w1 := (database L w).2).
  split.
  - intros Hadmin. rewrite Hadmin. cbn [fst snd ret raise messageOrString app].
    rewrite (Hanswer w1). cbn [fst snd ret].
    split; [reflexivity |]. eexists. split; [reflexivity | apply Hup].
  - intros Hadmin. rewrite Hadmin, Hvalid. cbn [fst snd ret app]. split.
    + intros hash w' Hsub Hpub.
      rewrite Hsub. cbn [fst snd ret]. rewrite (Hanswer w'). cbn [fst snd ret].
      rewrite Hpub. cbn [fst snd ret].
      eexists. split; [reflexivity | apply Hup].
    + intros message w' Hsub.
      rewrite Hsub. cbn [fst snd ret raise messageOrString]. rewrite (Hanswer w').
      cbn [fst snd ret].
      eexists. split; [reflexivity | apply Hup].
Qed.

Lemma claim_outcome_sets_status_witness :
  exists db',
    result (L := demoLedger)
      (processOne (1, mkWithdrawal demoAddress 30000000 Pending 50 10) demoTable) 0
      = inr (Finished db') /\
    db' !! 1 = Some (setStatus Completed (mkWithdrawal demoAddress 30000000 Pending 50 10)).
Proof.
  apply (proj1 (proj2 (claim_outcome_sets_status demoLedger 0 1
                         (mkWithdrawal demoAddress 30000000 Pending 50 10) demoTable
                         eq_refl (fun w => eq_refl) eq_refl) eq_refl) "tx" 0); reflexivity.
Defined.

(** X29.  What the processor selects.  Every claim that a cycle attempts is
    for a record that was pending, with its unlock time passed, when the
    cycle started; and a record that is not pending when a series of
    cycles starts (completed, failed or processing) is not claimed and not
    rewritten by any of them, whatever the ledger, the event bus and the
    database do. *)
Theorem queue_selects_pending_unlocked (L : Ledger) (w : world L) :
  (forall (now : Z) (db : Table) (id : Z),
     id ∈ claimedIds (actions (processQueue now db) w) ->
     exists wd, db !! id = Some wd /\ status wd = Pending /\ unlockTime wd <= now) /\
  (forall (nows : list Z) (db : Table) (id : Z) (wd : Withdrawal),
     db !! id = Some wd -> status wd <> Pending ->
     (id ∉ claimedIds (actions (processCycles nows db) w)) /\
     exists db', result (processCycles nows db) w = inr db' /\ db' !! id = Some wd).
Proof.
  split.
  - intros now db id Hin. unfold actions, run in Hin.
    destruct (processQueue_run now db (w, [])) as (c & w' & new & Hrun & _ & _ & Hsub & _).
    rewrite Hrun in Hin. cbn [snd app] in Hin.
    apply readyWithdrawals_spec. apply (elem_of_sublist _ _ _ Hin Hsub).
  - intros nows db id wd Hlook Hst. unfold actions, result, run.
    destruct (processCycles_settled nows id wd Hst db (w, []) Hlook)
      as (db' & w' & new & Hrun & Hnin & Hlook').
    rewrite Hrun. cbn [fst snd app]. split; [exact Hnin |].
    exists db'. split; [reflexivity | exact Hlook'].
Qed.

Lemma queue_selects_pending_unlocked_witness :
  (2 ∉ claimedIds (actions (L := demoLedger) (processCycles [100; 200] demoTable) 0)) /\
  exists db', result (L := demoLedger) (processCycles [100; 200] demoTable) 0 = inr db' /\
              db' !! 2 = Some (mkWithdrawal demoAddress 70000000 Completed 60 20).
Proof.
  apply (proj2 (queue_selects_pending_unlocked demoLedger 0) [100; 200] demoTable 2
           (mkWithdrawal demoAddress 70000000 Completed 60 20)).
  - reflexivity.
  - discriminate.
Defined.
(** ** The keeper: failures and idle cycles *)

Section KeeperEdges.
Context {L : Ledger}.

Lemma executeAdminCall_run (contractId method : string) (args : list ScVal)
    (s : world L * list Action) :
  exists r w' new,
    Keeper.executeAdminCall contractId method args s = (r, (w', s.2 ++ new)).
Proof.
  destruct s as [w acts]. unfold Keeper.executeAdminCall, bind, getAccount. cbn [fst snd].
  destruct (accountFound L w Keeper.adminPublicKey).
  - unfold sendTransaction. cbn [fst snd].
    destruct (submit L w _) as [[message | hash] w'].
    + eexists _, w', [_; _]. rewrite <- app_assoc. reflexivity.
    + eexists _, w', [_; _]. rewrite <- app_assoc. reflexivity.
  - eexists _, w, [_]. reflexivity.
Qed.

Lemma bumpLoop_returns (cs : list (string * string)) (s : world L * list Action) :
  exists s', Keeper.bumpLoop cs s = (inr tt, s').
Proof.
  revert s. induction cs as [| c cs IH]; intros s.
  - exists s. reflexivity.
  - cbn [Keeper.bumpLoop]. unfold bind at 1. unfold catch.
    destruct (executeAdminCall_run c.2 "bump_instance" [] s) as (r & w' & new & Hrun).
    unfold bind at 1. rewrite Hrun. destruct r as [e | hash]; cbn; apply IH.
Qed.

(** What the query of the accrued interest answers: it never throws and
    leaves the ledger as it is. *)
Lemma queryLendingAccruedInterest_run (w : world L) (acts : list Action) :
  exists v new,
    Keeper.queryLendingAccruedInterest (w, acts) = (inr v, (w, acts ++ new)) /\
    Keeper.submitted new = [] /\
    (0 < v -> accountFound L w Keeper.adminPublicKey = true) /\
    (forall acts', exists new',
        Keeper.queryLendingAccruedInterest (w, acts') = (inr v, (w, acts' ++ new')) /\
        Keeper.submitted new' = []).
Proof.
  unfold Keeper.queryLendingAccruedInterest, catch, bind, Keeper.simulateView, bind, getAccount.
  cbn [fst snd].
  destruct (accountFound L w Keeper.adminPublicKey); cbn.
  - unfold simulateTransaction. cbn.
    destruct (simulate L w Keeper.adminPublicKey _) as [e | [v |] | [v |]]; cbn.
    all: eexists _, [_; _]; rewrite <- app_assoc.
    all: split; [reflexivity |]; split; [reflexivity |]; split; [reflexivity |].
    all: intros acts'; eexists [_; _]; rewrite <- app_assoc; split; reflexivity.
  - eexists _, [_]. split; [reflexivity |]. split; [reflexivity |]. split; [lia |].
    intros acts'. eexists [_]. split; reflexivity.
Qed.

Lemma submitted_app (l1 l2 : list Action) :
  Keeper.submitted (l1 ++ l2) = Keeper.submitted l1 ++ Keeper.submitted l2.
Proof. unfold Keeper.submitted. apply omap_app. Qed.

End KeeperEdges.

Section KeeperCycle.
Context {L : Ledger}.

Lemma query_result (w : world L) (v : Z) (acts : list Action) :
  result Keeper.queryLendingAccruedInterest w = inr v ->
  exists new,
    Keeper.queryLendingAccruedInterest (w, acts) = (inr v, (w, acts ++ new)) /\
    Keeper.submitted new = [] /\
    (0 < v -> accountFound L w Keeper.adminPublicKey = true).
Proof.
  intros Hres. unfold result, run in Hres.
  destruct (queryLendingAccruedInterest_run w []) as (v0 & new0 & Hrun0 & _ & Hacc & Hany).
  rewrite Hrun0 in Hres. cbn in Hres. inversion Hres; subst v0.
  destruct (Hany acts) as (new & Hrun & Hsub).
  exists new. split; [exact Hrun |]. split; [exact Hsub | exact Hacc].
Qed.

Lemma harvestLendingInterest_returns (pendingBefore : Z) (s : world L * list Action) :
  exists h s', Keeper.harvestLendingInterest pendingBefore s = (inr h, s').
Proof.
  unfold Keeper.harvestLendingInterest, catch.
  destruct (executeAdminCall_run Config.lendingContractId "harvest_interest" [] s)
    as (r & w' & new & Hrun).
  unfold bind at 1. rewrite Hrun. destruct r as [e | hash]; cbn.
  - eexists _, _. reflexivity.
  - destruct (queryLendingAccruedInterest_run w' (s.2 ++ new)) as (v & new' & Hq & _).
    unfold bind. rewrite Hq. cbn. eexists _, _. reflexivity.
Qed.

Lemma runHarvestCycle_returns (s : world L * list Action) :
  exists s', Keeper.runHarvestCycle s = (inr tt, s').
Proof.
  destruct s as [w acts]. unfold Keeper.runHarvestCycle.
  destruct (queryLendingAccruedInterest_run w acts) as (v & new & Hq & _).
  unfold bind at 1. rewrite Hq.
  destruct (v <=? 0); [eexists; reflexivity |].
  destruct (harvestLendingInterest_returns v (w, acts ++ new)) as (h & s1 & Hh).
  unfold bind at 1. rewrite Hh.
  destruct (h <=? 0); [eexists; reflexivity |].
  unfold catch, Keeper.callAddRewards.
  destruct (executeAdminCall_run Config.stakingContractId "add_rewards" [ScI128 h] s1)
    as (r & w' & new' & Hrun).
  unfold bind. rewrite Hrun. destruct r; cbn; eexists; reflexivity.
Qed.

Lemma harvest_cycle_idle (w : world L) (v : Z) :
  result Keeper.queryLendingAccruedInterest w = inr v -> v <= 0 ->
  Keeper.submitted (actions Keeper.runHarvestCycle w) = [].
Proof.
  intros Hres Hv. destruct (query_result w v [] Hres) as (new & Hq & Hsub & _).
  unfold actions, run, Keeper.runHarvestCycle, bind. rewrite Hq.
  destruct (Z.leb_spec v 0); [| lia]. cbn. exact Hsub.
Qed.

Lemma harvest_cycle_failed_harvest (w w' : world L) (v : Z) (message : string) :
  result Keeper.queryLendingAccruedInterest w = inr v -> 0 < v ->
  submit L w harvestInterestCall = (inl message, w') ->
  Keeper.submitted (actions Keeper.runHarvestCycle w) = [harvestInterestCall].
Proof.
  intros Hres Hv Hsubmit. destruct (query_result w v [] Hres) as (new & Hq & Hsub & Hacc).
  unfold actions, run, Keeper.runHarvestCycle, bind. rewrite Hq.
  destruct (Z.leb_spec v 0); [lia |].
  unfold Keeper.harvestLendingInterest, catch, bind, Keeper.executeAdminCall, bind, getAccount.
  cbn [fst snd]. rewrite (Hacc Hv). unfold sendTransaction. cbn [fst snd].
  unfold harvestInterestCall in Hsubmit. rewrite Hsubmit.
  cbn [ret fst snd Z.leb Z.compare].
  rewrite !submitted_app, Hsub. reflexivity.
Qed.

Lemma harvest_cycle_fallback (w w' : world L) (v v' : Z) (hash : string) :
  result Keeper.queryLendingAccruedInterest w = inr v -> 0 < v ->
  submit L w harvestInterestCall = (inr hash, w') ->
  result Keeper.queryLendingAccruedInterest w' = inr v' -> v <= v' ->
  Keeper.submitted (actions Keeper.runHarvestCycle w) =
    [harvestInterestCall; addRewardsCall v].
Proof.
  intros Hres Hv Hsubmit Hres' Hvv.
  destruct (query_result w v [] Hres) as (new & Hq & Hsub & Hacc).
  unfold actions, run, Keeper.runHarvestCycle, bind. rewrite Hq.
  destruct (Z.leb_spec v 0); [lia |].
  unfold Keeper.harvestLendingInterest, catch, bind, Keeper.executeAdminCall, bind, getAccount.
  cbn [fst snd]. rewrite (Hacc Hv). unfold sendTransaction. cbn [fst snd].
  unfold harvestInterestCall in Hsubmit. rewrite Hsubmit. cbn [fst snd].
  match goal with
  | |- context [Keeper.queryLendingAccruedInterest (w', ?a)] =>
      destruct (query_result w' v' a Hres') as (new' & Hq' & Hsub' & Hacc')
  end.
  rewrite Hq'. cbn [ret fst snd].
  replace (v >? v') with false by (symmetry; rewrite Z.gtb_ltb; apply Z.ltb_ge; exact Hvv).
  destruct (Z.leb_spec v 0); [lia |].
  unfold Keeper.callAddRewards, Keeper.executeAdminCall, bind, getAccount. cbn [fst snd].
  rewrite (Hacc' ltac:(lia)). unfold sendTransaction. cbn [fst snd].
  destruct (submit L w' _) as [[m | hsh] w'']; cbn [ret fst snd];
    rewrite !submitted_app, Hsub, Hsub'; reflexivity.
Qed.

End KeeperCycle.

(** X4.  The tasks of the keeper never throw: whatever the ledger answers,
    a harvest cycle, a TTL pass and a recalibration return normally. *)
Theorem keeper_tasks_never_throw (L : Ledger) (w : world L) :
  result Keeper.runHarvestCycle w = inr tt /\
  result Keeper.bumpAllContractTTLs w = inr tt /\
  result Keeper.recalibrateStakingRate w = inr tt.
Proof.
  unfold result, run. split; [| split].
  - destruct (runHarvestCycle_returns (w, [])) as [s' Hrun]. rewrite Hrun. reflexivity.
  - unfold Keeper.bumpAllContractTTLs.
    destruct (bumpLoop_returns Keeper.contracts (w, [])) as [s' Hrun]. rewrite Hrun. reflexivity.
  - unfold Keeper.recalibrateStakingRate, catch.
    destruct (executeAdminCall_run Config.stakingContractId "recalibrate_rate" [] (w, []))
      as (r & w' & new & Hrun).
    unfold bind. rewrite Hrun. destruct r; reflexivity.
Qed.

(** X5.  A harvest cycle submits nothing when no interest is pending: when
    the query of the accrued interest answers zero or less (which is also
    its answer when the view fails), neither [harvest_interest] nor
    [add_rewards] is invoked. *)
Theorem harvest_cycle_idle_without_interest (L : Ledger) (w : world L) (pending : Z) :
  result Keeper.queryLendingAccruedInterest w = inr pending -> pending <= 0 ->
  Keeper.submitted (actions Keeper.runHarvestCycle w) = [].
Proof. apply harvest_cycle_idle. Qed.

Lemma harvest_cycle_idle_without_interest_witness :
  Keeper.submitted (actions (L := demoLedger) Keeper.runHarvestCycle 0) = [].
Proof.
  apply (harvest_cycle_idle_without_interest demoLedger 0 0); [reflexivity | lia].
Defined.

(** X6.  When [harvest_interest] fails, the cycle stops there: [add_rewards]
    is not invoked. *)
Theorem failed_harvest_adds_no_rewards (L : Ledger) (w w' : world L) (pending : Z)
    (message : string) :
  result Keeper.queryLendingAccruedInterest w = inr pending -> 0 < pending ->
  submit L w harvestInterestCall = (inl message, w') ->
  Keeper.submitted (actions Keeper.runHarvestCycle w) = [harvestInterestCall].
Proof. apply harvest_cycle_failed_harvest. Qed.

(** X7.  The fallback of the harvest: when the accrued interest that is read
    after [harvest_interest] is not below the amount read before, the keeper
    invokes [add_rewards] with the whole amount that was pending before. *)
Theorem harvest_fallback_adds_pending (L : Ledger) (w w' : world L)
    (pendingBefore pendingAfter : Z) (hash : string) :
  result Keeper.queryLendingAccruedInterest w = inr pendingBefore -> 0 < pendingBefore ->
  submit L w harvestInterestCall = (inr hash, w') ->
  result Keeper.queryLendingAccruedInterest w' = inr pendingAfter ->
  pendingBefore <= pendingAfter ->
  Keeper.submitted (actions Keeper.runHarvestCycle w) =
    [harvestInterestCall; addRewardsCall pendingBefore].
Proof. apply harvest_cycle_fallback. Qed.

Lemma failed_harvest_adds_no_rewards_witness :
  Keeper.submitted (actions (L := brokenLedger) Keeper.runHarvestCycle 1234567)
    = [harvestInterestCall].
Proof.
  apply (failed_harvest_adds_no_rewards brokenLedger 1234567 1234567 1234567 "tx failed");
    [reflexivity | lia | reflexivity].
Defined.

Lemma harvest_fallback_adds_pending_witness :
  Keeper.submitted (actions (L := stuckLedger) Keeper.runHarvestCycle 1234567)
    = [harvestInterestCall; addRewardsCall 1234567].
Proof.
  apply (harvest_fallback_adds_pending stuckLedger 1234567 1234567 1234567 1234567 "tx");
    [reflexivity | lia | reflexivity | reflexivity | lia].
Defined.

(** ** The gateway: what the stake and unstake routes build *)

Section StakeBuilds.
Context {L : Ledger}.

(** The end of the stake route: two reads of the rate, one after the
    other, the second on the cache that the first leaves. *)
Lemma stakeBuilds_run (rates : RateCache.Manager) (clock : nat -> Z * Z)
    (body : Gateway.AmountBody) (depositOp : ContractCall) (w : world L)
    (acts : list Action) :
  exists r1 rates1 new1 r2 rates2 new2,
    stakeBuilds rates clock body depositOp (w, acts) =
      (inr (Gateway.StakeBuilt depositOp (toFixed7 (div (Gateway.amount body) r1)) r2, rates2),
       (w, acts ++ new1 ++ new2)) /\
    run (Gateway.getExchangeRate rates (clock 0%nat)) w = (inr (r1, rates1), (w, new1)) /\
    run (Gateway.getExchangeRate rates1 (clock 1%nat)) w = (inr (r2, rates2), (w, new2)) /\
    rateReadActions new1 /\ rateReadActions new2.
Proof.
  unfold stakeBuilds, run, Gateway.getExchangeRate.
  destruct (getCurrentRate_reads rates (clock 0%nat).1 (clock 0%nat).2 w)
    as (r1 & rates1 & new1 & Hrun1 & Hnew1).
  destruct (getCurrentRate_reads rates1 (clock 1%nat).1 (clock 1%nat).2 w)
    as (r2 & rates2 & new2 & Hrun2 & Hnew2).
  exists r1, rates1, new1, r2, rates2, new2.
  rewrite (Hrun1 acts), (Hrun1 []). cbn [fst snd].
  rewrite (Hrun2 (acts ++ new1)), (Hrun2 []). cbn [fst snd app].
  rewrite <- app_assoc. repeat split; assumption.
Qed.

End StakeBuilds.

(** X8.  Every transaction that the stake route builds is a [deposit] of
    the user's address with exactly [floor(amount * 1e7)] stroops, an amount
    between MIN_STAKE and MAX_STAKE, for a body that the schema accepts, and
    its simulation succeeded with a result.  The route then reads the
    exchange rate twice, through the rate cache, the second time on the
    cache that the first read leaves: the estimate that it returns is
    [(amount / rate).toFixed(7)] for the first read and the rate that it
    returns is the second read.  What it does to the ledger is the load of
    the user's account and the simulation, followed by the actions of the
    two reads: each of them nothing, or the load of the admin account with
    at most the simulation of [get_exchange_rate]. *)
Theorem stake_builds_only_within_bounds (L : Ledger) (w : world L)
    (rates : RateCache.Manager) (clock : nat -> Z * Z) (body : Gateway.AmountBody)
    (xdr : ContractCall) (estimatedSxlm : Fixed) (rate : number) :
  reply (Gateway.stake rates clock body) w = inr (Gateway.StakeBuilt xdr estimatedSxlm rate) ->
  exists z r1 rates1 new1 rates2 new2,
    stroopsOf (Gateway.amount body) = Some z /\
    Config.minStakeAmount <= z <= Config.maxStakeAmount /\
    Gateway.schemaAccepts body = true /\
    xdr = mkCall Config.stakingContractId "deposit"
            [ScAddress (Gateway.userAddress body); ScI128 z] /\
    hasResult (simulate L w (Gateway.userAddress body) xdr) = true /\
    run (Gateway.getExchangeRate rates (clock 0%nat)) w = (inr (r1, rates1), (w, new1)) /\
    run (Gateway.getExchangeRate rates1 (clock 1%nat)) w = (inr (rate, rates2), (w, new2)) /\
    estimatedSxlm = toFixed7 (div (Gateway.amount body) r1) /\
    result (Gateway.stake rates clock body) w
      = inr (Gateway.StakeBuilt xdr estimatedSxlm rate, rates2) /\
    actions (Gateway.stake rates clock body) w =
      [GetAccount (Gateway.userAddress body); Simulate (Gateway.userAddress body) xdr]
        ++ new1 ++ new2 /\
    rateReadActions new1 /\ rateReadActions new2.
Proof.
  unfold reply, result, actions. rewrite stake_run. cbv zeta. unfold stakeCaught.
  destruct (Gateway.schemaAccepts body); [| discriminate].
  destruct (stroopsOf (Gateway.amount body)) as [z |]; [| discriminate].
  destruct (Z.ltb_spec z Config.minStakeAmount); [discriminate |].
  destruct (z >? Config.maxStakeAmount) eqn:Hmax; [discriminate |].
  destruct (addressValid L (Gateway.userAddress body)); [| discriminate].
  destruct (accountFound L w (Gateway.userAddress body)); [| discriminate].
  destruct (simulate L w (Gateway.userAddress body) _) as [e | [v |] | [v |]] eqn:Hsim;
    cbn [fst snd]; try discriminate.
  all: match goal with
       | |- context [stakeBuilds ?r ?c ?b ?o (?w0, ?a)] =>
           destruct (stakeBuilds_run r c b o w0 a)
             as (r1 & rates1 & new1 & r2 & rates2 & new2 & Hrun & Hrun1 & Hrun2 & Hnew1 & Hnew2)
       end.
  all: rewrite Hrun; cbn [fst snd]; intros Hres; inversion Hres; subst.
  all: exists z, r1, rates1, new1, rates2, new2.
  all: split; [reflexivity |].
  all: split; [rewrite Z.gtb_ltb in Hmax; apply Z.ltb_ge in Hmax; lia |].
  all: rewrite Hsim.
  all: repeat split; assumption.
Qed.

Lemma stake_builds_only_within_bounds_witness :
  exists z r1 rates1 new1 rates2 new2,
    stroopsOf oneXlm = Some z /\
    Config.minStakeAmount <= z <= Config.maxStakeAmount /\
    Gateway.schemaAccepts (Gateway.mkBody demoAddress oneXlm) = true /\
    mkCall Config.stakingContractId "deposit" [ScAddress demoAddress; ScI128 10000000]
      = mkCall Config.stakingContractId "deposit" [ScAddress demoAddress; ScI128 z] /\
    hasResult (simulate demoLedger 0 demoAddress
                 (mkCall Config.stakingContractId "deposit"
                    [ScAddress demoAddress; ScI128 10000000])) = true /\
    run (L := demoLedger) (Gateway.getExchangeRate demoRates (demoClock 0%nat)) 0
      = (inr (r1, rates1), (0, new1)) /\
    run (L := demoLedger) (Gateway.getExchangeRate rates1 (demoClock 1%nat)) 0
      = (inr (one, rates2), (0, new2)) /\
    FixedDigits false 10000000 = toFixed7 (div oneXlm r1) /\
    result (L := demoLedger)
      (Gateway.stake demoRates demoClock (Gateway.mkBody demoAddress oneXlm)) 0
      = inr (Gateway.StakeBuilt
               (mkCall Config.stakingContractId "deposit"
                  [ScAddress demoAddress; ScI128 10000000])
               (FixedDigits false 10000000) one, rates2) /\
    actions (L := demoLedger)
      (Gateway.stake demoRates demoClock (Gateway.mkBody demoAddress oneXlm)) 0 =
      [GetAccount demoAddress;
       Simulate demoAddress
         (mkCall Config.stakingContractId "deposit" [ScAddress demoAddress; ScI128 10000000])]
        ++ new1 ++ new2 /\
    rateReadActions new1 /\ rateReadActions new2.
Proof.
  apply (stake_builds_only_within_bounds demoLedger 0 demoRates demoClock
           (Gateway.mkBody demoAddress oneXlm)
           (mkCall Config.stakingContractId "deposit" [ScAddress demoAddress; ScI128 10000000])
           (FixedDigits false 10000000) one).
  vm_compute. reflexivity.
Defined.

(** X9.  The stake route answers with the maximum-stake error exactly when
    the amount, in stroops, is above MAX_STAKE = 10^14; and a request that
    it rejects for its amount (below the minimum or above the maximum) never
    reaches the ledger. *)
Theorem stake_rejects_above_max_offline (L : Ledger) (w : world L)
    (rates : RateCache.Manager) (clock : nat -> Z * Z) (body : Gateway.AmountBody) :
  (reply (Gateway.stake rates clock body) w = inr Gateway.StakeAboveMaximum <->
   Gateway.schemaAccepts body = true /\
   exists z, stroopsOf (Gateway.amount body) = Some z /\ 100000000000000 < z) /\
  (reply (Gateway.stake rates clock body) w = inr Gateway.StakeBelowMinimum \/
   reply (Gateway.stake rates clock body) w = inr Gateway.StakeAboveMaximum ->
   actions (Gateway.stake rates clock body) w = []).
Proof.
  unfold reply, result, actions. rewrite stake_run. cbv zeta. unfold stakeCaught.
  destruct (Gateway.schemaAccepts body).
  2: { split; [split; [discriminate | intros [? _]; discriminate]
              | intros [? | ?]; discriminate]. }
  destruct (stroopsOf (Gateway.amount body)) as [z |].
  2: { split; [split; [discriminate | intros [_ [z [? _]]]; discriminate]
              | intros [? | ?]; discriminate]. }
  destruct (Z.ltb_spec z Config.minStakeAmount) as [Hmin | Hmin].
  { unfold Config.minStakeAmount in Hmin.
    split; [split; [discriminate | intros [_ [z' [Hz' Hgt]]]; inversion Hz'; subst; lia]
           | reflexivity]. }
  rewrite Z.gtb_ltb. destruct (Z.ltb_spec Config.maxStakeAmount z) as [Hmax | Hmax].
  { split; [split; [intros _; split; [reflexivity | exists z; split; [reflexivity | exact Hmax]]
                   | reflexivity]
           | reflexivity]. }
  unfold Config.maxStakeAmount in Hmax.
  assert (Hno : forall (r : Gateway.StakeReply) (rates' : RateCache.Manager)
                       (s : world L * list Action),
            r <> Gateway.StakeAboveMaximum -> r <> Gateway.StakeBelowMinimum ->
            (match (inr (r, rates') : Thrown + Gateway.StakeReply * RateCache.Manager, s).1 with
             | inl e => inl e
             | inr x => inr x.1
             end = inr Gateway.StakeAboveMaximum <->
             true = true /\ exists z', Some z = Some z' /\ 100000000000000 < z') /\
            (match (inr (r, rates') : Thrown + Gateway.StakeReply * RateCache.Manager, s).1 with
             | inl e => inl e
             | inr x => inr x.1
             end = inr Gateway.StakeBelowMinimum \/
             match (inr (r, rates') : Thrown + Gateway.StakeReply * RateCache.Manager, s).1 with
             | inl e => inl e
             | inr x => inr x.1
             end = inr Gateway.StakeAboveMaximum ->
             (inr (r, rates') : Thrown + Gateway.StakeReply * RateCache.Manager, s).2.2
               = @nil Action)).
  { intros r rates' s H1 H2. cbn [fst snd]. split.
    - split; [intros E; congruence
             | intros [_ [z' [Hz' Hgt]]]; inversion Hz'; subst; lia].
    - intros [E | E]; congruence. }
  destruct (addressValid L (Gateway.userAddress body)); [| apply Hno; discriminate].
  destruct (accountFound L w (Gateway.userAddress body)); [| apply Hno; discriminate].
  destruct (simulate L w (Gateway.userAddress body) _) as [e | [v |] | [v |]];
    try (apply Hno; discriminate).
  all: match goal with
       | |- context [stakeBuilds ?r ?c ?b ?o (?w0, ?a)] =>
           destruct (stakeBuilds_run r c b o w0 a)
             as (r1 & rates1 & new1 & r2 & rates2 & new2 & Hrun & _)
       end.
  all: rewrite Hrun; apply Hno; discriminate.
Qed.

Lemma stake_rejects_above_max_offline_witness :
  reply (L := demoLedger)
    (Gateway.stake demoRates demoClock (Gateway.mkBody demoAddress (ofBigInt 20000000))) 0
    = inr Gateway.StakeAboveMaximum.
Proof.
  apply (proj1 (stake_rejects_above_max_offline demoLedger 0 demoRates demoClock
                  (Gateway.mkBody demoAddress (ofBigInt 20000000)))).
  split; [reflexivity |]. exists 200000000000000. split; [vm_compute; reflexivity | lia].
Defined.

Section UnstakeBuilds.
Context {L : Ledger}.

Lemma not_recorded_nil (a : string) (z u : Z) : DbCreateWithdrawal a z u ∉ @nil Action.
Proof. apply not_elem_of_nil. Qed.

Lemma not_recorded_cons (x : Action) (l : list Action) (a : string) (z u : Z) :
  (forall a' z' u', x <> DbCreateWithdrawal a' z' u') ->
  DbCreateWithdrawal a z u ∉ l -> DbCreateWithdrawal a z u ∉ x :: l.
Proof.
  intros Hx Hl Hin. apply elem_of_cons in Hin. destruct Hin as [E | Hin].
  - exact (Hx _ _ _ (eq_sym E)).
  - exact (Hl Hin).
Qed.

Lemma not_recorded_read (new : list Action) (a : string) (z u : Z) :
  rateReadActions new -> DbCreateWithdrawal a z u ∉ new.
Proof.
  intros [-> | [-> | ->]].
  - apply not_recorded_nil.
  - apply not_recorded_cons; [discriminate | apply not_recorded_nil].
  - do 2 (apply not_recorded_cons; [discriminate |]). apply not_recorded_nil.
Qed.

(** The end of the unstake route, with the read of the rate as a run of
    its own. *)
Lemma unstakeBuilds_reads (rates : RateCache.Manager) (clock : Z * Z) (now : Z)
    (hasPrisma : bool) (body : Gateway.AmountBody) (z : Z) (withdrawOp : ContractCall)
    (w : world L) (acts : list Action) :
  exists r rates' w' new,
    unstakeBuilds rates clock now hasPrisma body z withdrawOp (w, acts) =
      (inr (Gateway.UnstakeBuilt withdrawOp (toFixed7 (mul (Gateway.amount body) r)) r
              (now + Config.unbondingPeriodMs), rates'),
       (w', acts ++ new ++
              (if hasPrisma
               then [DbCreateWithdrawal (Gateway.userAddress body) z
                       (now + Config.unbondingPeriodMs)]
               else []))) /\
    run (Gateway.getExchangeRate rates clock) w = (inr (r, rates'), (w, new)) /\
    rateReadActions new.
Proof.
  unfold unstakeBuilds, run, Gateway.getExchangeRate.
  destruct (getCurrentRate_reads rates clock.1 clock.2 w) as (r & rates' & new & Hrun & Hnew).
  rewrite (Hrun acts), (Hrun []). cbv zeta. cbn [fst snd app].
  destruct hasPrisma.
  - eexists r, rates', _, new. rewrite <- app_assoc.
    split; [reflexivity |]. split; [reflexivity | exact Hnew].
  - eexists r, rates', _, new. rewrite !app_nil_r.
    split; [reflexivity |]. split; [reflexivity | exact Hnew].
Qed.

End UnstakeBuilds.

(** X10.  The unstake route hands a withdrawal to the database only for a
    transaction that it builds.  A built transaction is a
    [request_withdrawal] of [floor(amount * 1e7)] stroops, a positive amount
    that the sXLM balance read from the ledger covers, and its simulation
    succeeded with a result; its unlock time is seven days after the
    request; the rate that the route returns is one read of the exchange
    rate through the rate cache and the estimate is
    [(amount * rate).toFixed(7)]; with a database client the route asks the
    database to create the pending withdrawal with that wallet, amount and
    unlock time.  A request that is answered with an error asks the
    database for nothing. *)
Theorem unstake_records_only_what_it_builds (L : Ledger) (w : world L)
    (rates : RateCache.Manager) (clock : Z * Z) (now : Z) (hasPrisma : bool)
    (body : Gateway.AmountBody) :
  let address := Gateway.userAddress body in
  (forall xdr estimatedXlm rate unlockTime,
     reply (Gateway.unstake rates clock now hasPrisma body) w
       = inr (Gateway.UnstakeBuilt xdr estimatedXlm rate unlockTime) ->
     exists z balance,
       stroopsOf (Gateway.amount body) = Some z /\ 0 < z <= balance /\
       simulate L w Gateway.adminPublicKey (balanceCall address) = SimSuccess (Some balance) /\
       xdr = requestWithdrawalCall address z /\
       hasResult (simulate L w address xdr) = true /\
       unlockTime = now + 604800000 /\
       (exists rates', result (Gateway.getExchangeRate rates clock) w = inr (rate, rates')) /\
       estimatedXlm = toFixed7 (mul (Gateway.amount body) rate) /\
       (hasPrisma = true ->
        DbCreateWithdrawal address z unlockTime
          ∈ actions (Gateway.unstake rates clock now hasPrisma body) w)) /\
  (forall wallet z unlockTime,
     DbCreateWithdrawal wallet z unlockTime
       ∈ actions (Gateway.unstake rates clock now hasPrisma body) w ->
     hasPrisma = true /\
     exists estimatedXlm rate,
       reply (Gateway.unstake rates clock now hasPrisma body) w
         = inr (Gateway.UnstakeBuilt (requestWithdrawalCall wallet z) estimatedXlm
                  rate unlockTime)).
Proof.
  cbv zeta. unfold reply, result, actions. rewrite unstake_run. cbv zeta.
  set (nothing := fun (r : Gateway.UnstakeReply) (acts : list Action) =>
                    unstakeError r = true /\ forall a z u, DbCreateWithdrawal a z u ∉ acts).
  assert (Hnone : forall r rates' acts o, nothing r acts ->
            let outcome := (inr (r, rates') : Thrown + Gateway.UnstakeReply * RateCache.Manager,
                            (w, acts)) in
            (forall xdr estimatedXlm rate unlockTime,
               match outcome.1 with inl e => inl e | inr x => inr x.1 end
                 = inr (Gateway.UnstakeBuilt xdr estimatedXlm rate unlockTime) ->
               exists z balance,
                 o = Some z /\ 0 < z <= balance /\
                 simulate L w Gateway.adminPublicKey (balanceCall (Gateway.userAddress body))
                   = SimSuccess (Some balance) /\
                 xdr = requestWithdrawalCall (Gateway.userAddress body) z /\
                 hasResult (simulate L w (Gateway.userAddress body) xdr) = true /\
                 unlockTime = now + 604800000 /\
                 (exists rates'',
                    (Gateway.getExchangeRate rates clock (w, [])).1 = inr (rate, rates'')) /\
                 estimatedXlm = toFixed7 (mul (Gateway.amount body) rate) /\
                 (hasPrisma = true ->
                  DbCreateWithdrawal (Gateway.userAddress body) z unlockTime ∈ outcome.2.2)) /\
            (forall wallet z unlockTime,
               DbCreateWithdrawal wallet z unlockTime ∈ outcome.2.2 ->
               hasPrisma = true /\
               exists estimatedXlm rate,
                 match outcome.1 with inl e => inl e | inr x => inr x.1 end
                   = inr (Gateway.UnstakeBuilt (requestWithdrawalCall wallet z) estimatedXlm
                            rate unlockTime))).
  { intros r rates' acts o [Hr Hacts]. cbv zeta. cbn [fst snd]. split.
    - intros xdr e r' u E. inversion E; subst. discriminate.
    - intros a z u Hin. exfalso. exact (Hacts _ _ _ Hin). }
  assert (Hlog : forall r acts,
            unstakeError r = true ->
            Forall (fun x => forall a z u, x <> DbCreateWithdrawal a z u) acts ->
            nothing r acts).
  { intros r acts Hr Hall. split; [exact Hr |]. intros a z u Hin.
    rewrite Forall_forall in Hall. exact (Hall _ Hin a z u eq_refl). }
  unfold run in *.
  destruct (Gateway.schemaAccepts body);
    [| apply Hnone, Hlog; [reflexivity | constructor]].
  destruct (stroopsOf (Gateway.amount body)) as [z |];
    [| apply Hnone, Hlog; [reflexivity | constructor]].
  destruct (Z.leb_spec z 0) as [Hz | Hz];
    [apply Hnone, Hlog; [reflexivity | constructor] |].
  destruct (addressValid L (Gateway.userAddress body));
    [| apply Hnone, Hlog; [reflexivity | constructor]].
  destruct (accountFound L w Gateway.adminPublicKey);
    [| apply Hnone, Hlog; [reflexivity | repeat constructor; discriminate]].
  destruct (simulate L w Gateway.adminPublicKey (balanceCall (Gateway.userAddress body)))
    as [e | r | r] eqn:Hbal.
  { destruct (saysArchived e); apply Hnone, Hlog;
      first [reflexivity | repeat constructor; discriminate]. }
  { apply Hnone, Hlog; [reflexivity | repeat constructor; discriminate]. }
  destruct (Z.ltb_spec (default 0 r) z) as [Hlt | Hge];
    [apply Hnone, Hlog; [reflexivity | repeat constructor; discriminate] |].
  destruct r as [balance |]; cbn [default from_option id] in Hge; [| lia].
  destruct (accountFound L w (Gateway.userAddress body));
    [| apply Hnone, Hlog; [reflexivity | cbn [app]; repeat constructor; discriminate]].
  cbn [app].
  destruct (simulate L w (Gateway.userAddress body)
              (requestWithdrawalCall (Gateway.userAddress body) z))
    as [e | [v |] | [v |]] eqn:Hsim.
  1: destruct (includes "UnreachableCodeReached" e).
  1, 2, 4, 6: apply Hnone, Hlog; [reflexivity | repeat constructor; discriminate].
  all: match goal with
       | |- context [unstakeBuilds ?r ?c ?n ?p ?b ?z0 ?o (?w0, ?a)] =>
           destruct (unstakeBuilds_reads r c n p b z0 o w0 a)
             as (rate0 & rates0 & w0' & new & Hrun & Hread & Hnew)
       end.
  all: rewrite Hrun; cbn [fst snd]; unfold run in Hread; split.
  1, 3: intros xdr e' r' u E; inversion E; subst; exists z, balance;
    split; [reflexivity |]; split; [lia |]; split; [reflexivity |];
    split; [reflexivity |]; split; [rewrite Hsim; reflexivity |];
    split; [reflexivity |];
    split; [exists rates0; rewrite Hread; reflexivity |];
    split; [reflexivity |];
    intros ->; rewrite !elem_of_app; right; right; apply list_elem_of_here.
  all: intros a z0 u Hin; rewrite !elem_of_app in Hin; destruct Hin as [Hin | [Hin | Hin]].
  all: try (exfalso; revert Hin;
            first [ apply not_recorded_read; exact Hnew
                  | repeat (apply not_recorded_cons; [discriminate |]);
                    apply not_recorded_nil ]).
  all: destruct hasPrisma; [| apply elem_of_nil in Hin; destruct Hin].
  all: apply list_elem_of_singleton in Hin; inversion Hin; subst.
  all: split; [reflexivity |]; eexists _, _; reflexivity.
Qed.

Lemma unstake_records_only_what_it_builds_witness :
  exists z balance,
    stroopsOf (ofBigInt 2) = Some z /\ 0 < z <= balance /\
    simulate demoLedger 0 Gateway.adminPublicKey (balanceCall demoAddress)
      = SimSuccess (Some balance) /\
    requestWithdrawalCall demoAddress 20000000 = requestWithdrawalCall demoAddress z /\
    hasResult (simulate demoLedger 0 demoAddress (requestWithdrawalCall demoAddress 20000000))
      = true /\
    604801000 = 1000 + 604800000 /\
    (exists rates',
       result (L := demoLedger) (Gateway.getExchangeRate demoRates (1000, 1000)) 0
         = inr (one, rates')) /\
    FixedDigits false 20000000 = toFixed7 (mul (ofBigInt 2) one) /\
    (true = true ->
     DbCreateWithdrawal demoAddress z 604801000
       ∈ actions (L := demoLedger)
           (Gateway.unstake demoRates (1000, 1000) 1000 true
              (Gateway.mkBody demoAddress (ofBigInt 2))) 0).
Proof.
  apply (proj1 (unstake_records_only_what_it_builds demoLedger 0 demoRates (1000, 1000) 1000
                  true (Gateway.mkBody demoAddress (ofBigInt 2)))
           (requestWithdrawalCall demoAddress 20000000) (FixedDigits false 20000000) one
           604801000).
  vm_compute. reflexivity.
Defined.

(** X11.  An archived balance entry: when the simulation of the balance view
    asks for a restore, or fails with an error that mentions
    "EntryArchived" or "MissingValue", the unstake route answers with the
    ENTRY_ARCHIVED error and neither builds nor simulates a
    [request_withdrawal]. *)
Theorem unstake_reports_archived_balance (L : Ledger) (w : world L)
    (rates : RateCache.Manager) (clock : Z * Z) (now : Z) (hasPrisma : bool)
    (body : Gateway.AmountBody) (z : Z) :
  Gateway.schemaAccepts body = true ->
  stroopsOf (Gateway.amount body) = Some z -> 0 < z ->
  addressValid L (Gateway.userAddress body) = true ->
  accountFound L w Gateway.adminPublicKey = true ->
  (match simulate L w Gateway.adminPublicKey (balanceCall (Gateway.userAddress body)) with
   | SimRestore _ => True
   | SimError e => saysArchived e = true
   | SimSuccess _ => False
   end) ->
  reply (Gateway.unstake rates clock now hasPrisma body) w = inr Gateway.UnstakeEntryArchived /\
  invokes "request_withdrawal" (actions (Gateway.unstake rates clock now hasPrisma body) w)
    = false.
Proof.
  intros Hschema Hz Hpos Hvalid Hadmin Hsim.
  unfold reply, result, actions. rewrite unstake_run. cbv zeta.
  rewrite Hschema, Hz, Hvalid, Hadmin.
  destruct (Z.leb_spec z 0); [lia |].
  destruct (simulate L w Gateway.adminPublicKey (balanceCall (Gateway.userAddress body)))
    as [e | r | r].
  - rewrite Hsim. split; reflexivity.
  - split; reflexivity.
  - destruct Hsim.
Qed.

Lemma unstake_reports_archived_balance_witness :
  reply (L := archivedLedger)
    (Gateway.unstake demoRates (1000, 1000) 0 true (Gateway.mkBody demoAddress (ofBigInt 2))) 0
    = inr Gateway.UnstakeEntryArchived /\
  invokes "request_withdrawal"
    (actions (L := archivedLedger)
       (Gateway.unstake demoRates (1000, 1000) 0 true
          (Gateway.mkBody demoAddress (ofBigInt 2))) 0) = false.
Proof.
  apply (unstake_reports_archived_balance archivedLedger 0 demoRates (1000, 1000) 0 true
           (Gateway.mkBody demoAddress (ofBigInt 2)) 20000000);
    [reflexivity | vm_compute; reflexivity | lia | reflexivity | reflexivity | exact I].
Defined.

(** ** The lending routes *)

Section LendingTraps.
Context {L : Ledger}.

(** [buildContractTx] on a failed simulation: the message of the trap of the
    method when the error is a WASM trap and the method has one, and the raw
    error otherwise. *)
Lemma buildContractTx_error (contractId method : string) (args : list ScVal)
    (address e : string) (s : world L * list Action) :
  accountFound L s.1 address = true ->
  simulate L s.1 address (mkCall contractId method args) = SimError e ->
  Gateway.buildContractTx contractId method args address s =
    (inl (Err (if includes "UnreachableCodeReached" e
               then default ("Simulation failed: " +:+ e) (Gateway.trapMessage method)
               else "Simulation failed: " +:+ e)),
     (s.1, (s.2 ++ [GetAccount address]) ++ [Simulate address (mkCall contractId method args)])).
Proof.
  intros Hacc Hsim. destruct s as [w acts]. cbn [fst snd] in *.
  unfold Gateway.buildContractTx, bind, getAccount. cbn [fst snd]. rewrite Hacc.
  unfold simulateTransaction. cbn [fst snd]. rewrite Hsim.
  destruct (includes "UnreachableCodeReached" e); [| reflexivity].
  destruct (Gateway.trapMessage method); reflexivity.
Qed.

Lemma amountRoute_error (method : string) (body : Gateway.AmountBody) (w : world L)
    (z : Z) (e : string) :
  Gateway.schemaAccepts body = true ->
  stroopsOf (Gateway.amount body) = Some z ->
  addressValid L (Gateway.userAddress body) = true ->
  accountFound L w (Gateway.userAddress body) = true ->
  simulate L w (Gateway.userAddress body) (lendingCall method (Gateway.userAddress body) z)
    = SimError e ->
  result (LendingRoutes.amountRoute method body) w =
    inr (LendingRoutes.Failed
           (if includes "UnreachableCodeReached" e
            then default ("Simulation failed: " +:+ e) (Gateway.trapMessage method)
            else "Simulation failed: " +:+ e)).
Proof.
  intros Hschema Hz Hvalid Hacc Hsim. unfold stroopsOf in Hz.
  unfold result, run, LendingRoutes.amountRoute, catch, bind at 1 2 3, Gateway.parse.
  rewrite Hschema. cbn [ret]. rewrite bigIntFloor_run, Hz.
  unfold toAddress. rewrite Hvalid. cbn [ret]. unfold bind.
  rewrite (buildContractTx_error _ _ _ _ e) by assumption. reflexivity.
Qed.

End LendingTraps.

(** X12.  The lending routes translate WASM traps: when the simulation of
    the user's transaction fails with an error that mentions
    "UnreachableCodeReached", the withdraw-collateral and repay routes
    answer with the message of their method; for any other simulation error
    they answer "Simulation failed: " followed by the error. *)
Theorem lending_routes_translate_traps (L : Ledger) (w : world L)
    (body : Gateway.AmountBody) (z : Z) (e : string) :
  Gateway.schemaAccepts body = true ->
  stroopsOf (Gateway.amount body) = Some z ->
  addressValid L (Gateway.userAddress body) = true ->
  accountFound L w (Gateway.userAddress body) = true ->
  (simulate L w (Gateway.userAddress body)
     (lendingCall "withdraw_collateral" (Gateway.userAddress body) z) = SimError e ->
   result (LendingRoutes.withdrawCollateral body) w =
     inr (LendingRoutes.Failed
            (if includes "UnreachableCodeReached" e
             then "Withdrawal would make your position unhealthy, or you have no collateral deposited."
             else "Simulation failed: " +:+ e))) /\
  (simulate L w (Gateway.userAddress body)
     (lendingCall "repay" (Gateway.userAddress body) z) = SimError e ->
   result (LendingRoutes.repay body) w =
     inr (LendingRoutes.Failed
            (if includes "UnreachableCodeReached" e
             then "Repay amount exceeds your outstanding debt."
             else "Simulation failed: " +:+ e))).
Proof.
  intros Hschema Hz Hvalid Hacc. split; intros Hsim.
  - unfold LendingRoutes.withdrawCollateral.
    rewrite (amountRoute_error _ body w z e Hschema Hz Hvalid Hacc Hsim). reflexivity.
  - unfold LendingRoutes.repay.
    rewrite (amountRoute_error _ body w z e Hschema Hz Hvalid Hacc Hsim). reflexivity.
Qed.

Lemma lending_routes_translate_traps_witness :
  result (L := trappingLedger)
    (LendingRoutes.repay (Gateway.mkBody demoAddress (ofBigInt 2))) 0 =
    inr (LendingRoutes.Failed "Repay amount exceeds your outstanding debt.").
Proof.
  apply (proj2 (lending_routes_translate_traps trappingLedger 0
                  (Gateway.mkBody demoAddress (ofBigInt 2)) 20000000
                  "HostError: Error(WasmVm, InvalidAction) UnreachableCodeReached"
                  eq_refl eq_refl eq_refl eq_refl)).
  reflexivity.
Defined.

(** X13.  The pre-flight check of the deposit-collateral route: when the
    sXLM balance that the ledger reports for the user (zero when the view
    gives nothing) is strictly below the requested amount, the route answers
    with an error, the insufficient-balance one for a well-formed request,
    and it neither builds nor simulates a [deposit_collateral]. *)
Theorem deposit_collateral_checks_balance (L : Ledger) (w : world L)
    (body : Gateway.AmountBody) (requested : Z) :
  stroopsOf (Gateway.amount body) = Some requested ->
  viewValue (simulate L w Gateway.adminPublicKey (balanceCall (Gateway.userAddress body)))
    < requested ->
  (exists reply, result (LendingRoutes.depositCollateral body) w = inr reply /\
                 lendingBuilt reply = false) /\
  invokes "deposit_collateral" (actions (LendingRoutes.depositCollateral body) w) = false /\
  (Gateway.schemaAccepts body = true ->
   addressValid L (Gateway.userAddress body) = true ->
   accountFound L w Gateway.adminPublicKey = true ->
   result (LendingRoutes.depositCollateral body) w =
     inr (LendingRoutes.InsufficientSxlm
            (viewValue (simulate L w Gateway.adminPublicKey
                          (balanceCall (Gateway.userAddress body)))))).
Proof.
  unfold stroopsOf, balanceCall. intros Hz Hlt.
  unfold result, actions, run, LendingRoutes.depositCollateral, catch, bind, Gateway.parse.
  destruct (Gateway.schemaAccepts body); cbn [ret throw fst snd].
  2: { split; [eexists; split; reflexivity |]. split; [reflexivity | discriminate]. }
  rewrite bigIntFloor_run, Hz. cbn [fst snd].
  unfold toAddress.
  destruct (addressValid L (Gateway.userAddress body)); cbn [ret throw fst snd].
  2: { split; [eexists; split; reflexivity |]. split; [reflexivity | discriminate]. }
  unfold Gateway.queryContractView, bind, getAccount; cbn [fst snd].
  destruct (accountFound L w Gateway.adminPublicKey); cbn [fst snd app].
  2: { split; [eexists; split; reflexivity |]. split; [reflexivity | discriminate]. }
  unfold simulateTransaction. cbn [fst snd app].
  destruct (simulate L w Gateway.adminPublicKey _) as [e | [v |] | [v |]];
    cbn [viewValue] in Hlt; cbn [ret fst snd default from_option id viewValue].
  all: match goal with
       | |- context [?b <? ?c] => destruct (Z.ltb_spec b c); [| lia]
       end.
  all: cbn [ret fst snd].
  all: split; [eexists; split; reflexivity |]; split; reflexivity.
Qed.

Lemma deposit_collateral_checks_balance_witness :
  (exists reply,
     result (L := demoLedger)
       (LendingRoutes.depositCollateral (Gateway.mkBody demoAddress (ofBigInt 10))) 0
       = inr reply /\ lendingBuilt reply = false) /\
  invokes "deposit_collateral"
    (actions (L := demoLedger)
       (LendingRoutes.depositCollateral (Gateway.mkBody demoAddress (ofBigInt 10))) 0) = false /\
  (Gateway.schemaAccepts (Gateway.mkBody demoAddress (ofBigInt 10)) = true ->
   addressValid demoLedger demoAddress = true ->
   accountFound demoLedger 0 Gateway.adminPublicKey = true ->
   result (L := demoLedger)
     (LendingRoutes.depositCollateral (Gateway.mkBody demoAddress (ofBigInt 10))) 0 =
     inr (LendingRoutes.InsufficientSxlm 50000000)).
Proof.
  apply (deposit_collateral_checks_balance demoLedger 0
           (Gateway.mkBody demoAddress (ofBigInt 10)) 100000000).
  - vm_compute. reflexivity.
  - vm_compute. reflexivity.
Defined.

(** ** The cached exchange rate *)

Section CachedRate.
Context {L : Ledger}.

Lemma refreshRate_valid (this : RateCache.Manager) (later : Z) (s : world L * list Action) :
  cacheIsValid this ->
  exists r this' s',
    RateCache.refreshRate this later s = (inr (r, this'), s') /\
    invalidRate r = false /\ cacheIsValid this'.
Proof.
  intros Hvalid. destruct s as [w acts]. unfold RateCache.refreshRate.
  destruct (if RateCache.isRefreshing this then RateCache.cachedRate this else None)
    as [cached |] eqn:Hearly.
  - exists (RateCache.rate cached), this, (w, acts). split; [reflexivity |].
    split; [| exact Hvalid]. apply Hvalid.
    destruct (RateCache.isRefreshing this); [exact Hearly | discriminate].
  - unfold catch. destruct (getExchangeRate_run w acts) as [new Hrun].
    unfold bind. rewrite Hrun.
    assert (Hfallback : forall s' : world L * list Action,
              exists r this',
                (match RateCache.cachedRate this with
                 | Some cached =>
                     ret (L := L) (RateCache.rate cached,
                                   RateCache.mkManager (RateCache.cachedRate this) false)
                 | None => ret (one, RateCache.mkManager None false)
                 end) s' = (inr (r, this'), s') /\
                invalidRate r = false /\ cacheIsValid this').
    { intros s'. destruct (RateCache.cachedRate this) as [cached |] eqn:Hc.
      - eexists _, _. split; [reflexivity |]. split; [apply Hvalid; exact Hc |].
        intros c Hc'. cbn in Hc'. inversion Hc'; subst. apply Hvalid. exact Hc.
      - eexists _, _. split; [reflexivity |]. split; [reflexivity |].
        intros c Hc'. discriminate. }
    destruct (result ContractClient.getExchangeRate w) as [e | fetched].
    + destruct (Hfallback (w, acts ++ new)) as (r & this' & Hf & Hr & Hc).
      exists r, this', (w, acts ++ new). split; [exact Hf |]. split; assumption.
    + fold (invalidRate fetched). destruct (invalidRate fetched) eqn:Hinv; cbn [throw ret].
      * destruct (Hfallback (w, acts ++ new)) as (r & this' & Hf & Hr & Hc).
        exists r, this', (w, acts ++ new). split; [exact Hf |]. split; assumption.
      * eexists _, _, _. split; [reflexivity |]. split; [exact Hinv |].
        intros c Hc. cbn in Hc. inversion Hc; subst. exact Hinv.
Qed.

End CachedRate.

(** X14.  The rate that [getCurrentRate] hands out is always usable: from a
    cache that is empty or holds a rate that passed the test of
    [refreshRate], it never throws, the rate that it returns is positive and
    finite (so that [xlmToSxlm] and [sxlmToXlm] do not reject it), and the
    cache is again empty or valid afterwards. *)
Theorem current_rate_is_always_valid (L : Ledger) (w : world L)
    (this : RateCache.Manager) (now later : Z) :
  cacheIsValid this ->
  exists r this',
    result (RateCache.getCurrentRate this now later) w = inr (r, this') /\
    leb r zero = false /\ isFinite r = true /\ cacheIsValid this'.
Proof.
  intros Hvalid.
  assert (Hsplit : forall r, invalidRate r = false -> leb r zero = false /\ isFinite r = true).
  { intros r Hr. unfold invalidRate in Hr. apply orb_false_elim in Hr.
    destruct Hr as [H1 H2]. split; [exact H1 |]. apply negb_false_iff. exact H2. }
  unfold result, run, RateCache.getCurrentRate.
  destruct (RateCache.cachedRate this) as [cached |] eqn:Hc.
  - destruct (negb (RateCache.isStale now cached)).
    + exists (RateCache.rate cached), this. split; [reflexivity |].
      destruct (Hsplit _ (Hvalid cached Hc)) as [H1 H2]. repeat split; assumption.
    + destruct (refreshRate_valid this later (w, []) Hvalid) as (r & this' & s' & Hrun & Hr & Hv).
      rewrite Hrun. exists r, this'. split; [reflexivity |].
      destruct (Hsplit _ Hr) as [H1 H2]. repeat split; assumption.
  - destruct (refreshRate_valid this later (w, []) Hvalid) as (r & this' & s' & Hrun & Hr & Hv).
    rewrite Hrun. exists r, this'. split; [reflexivity |].
    destruct (Hsplit _ Hr) as [H1 H2]. repeat split; assumption.
Qed.

Lemma current_rate_is_always_valid_witness :
  exists r this',
    result (L := ratedLedger)
      (RateCache.getCurrentRate (RateCache.mkManager None false) 1000 1001) 0
      = inr (r, this') /\
    leb r zero = false /\ isFinite r = true /\ cacheIsValid this'.
Proof.
  apply (current_rate_is_always_valid ratedLedger 0 (RateCache.mkManager None false) 1000 1001).
  intros c Hc. discriminate.
Defined.

(** X15.  How the cache answers.  A cached rate that is not older than
    three refresh intervals (180 s) is returned without contacting the
    ledger.  Otherwise the rate is fetched: a rate that passes the test is
    returned and stored with the time of the fetch; when the fetch throws or
    gives an invalid rate, the cached rate is returned however old it is,
    and 1.0 when there is none, and the cache keeps what it held. *)
Theorem rate_cache_answers (L : Ledger) (w : world L) (this : RateCache.Manager)
    (now later : Z) :
  (forall cached,
     RateCache.cachedRate this = Some cached ->
     now - RateCache.fetchedAt cached <= 180000 ->
     run (RateCache.getCurrentRate this now later) w
       = (inr (RateCache.rate cached, this), (w, []))) /\
  (RateCache.isRefreshing this = false ->
   (forall fetched,
      result ContractClient.getExchangeRate w = inr fetched -> invalidRate fetched = false ->
      result (RateCache.refreshRate this later) w =
        inr (fetched, RateCache.mkManager (Some (RateCache.mkCached fetched later)) false)) /\
   ((forall fetched,
       result ContractClient.getExchangeRate w = inr fetched -> invalidRate fetched = true) ->
    result (RateCache.refreshRate this later) w =
      inr (from_option RateCache.rate one (RateCache.cachedRate this),
           RateCache.mkManager (RateCache.cachedRate this) false))).
Proof.
  split.
  - intros cached Hc Hfresh. unfold run, RateCache.getCurrentRate. rewrite Hc.
    unfold RateCache.isStale, RateCache.STALE_THRESHOLD_MS, RateCache.exchangeRateRefreshIntervalMs.
    replace (now - RateCache.fetchedAt cached >? 60000 * 3) with false
      by (symmetry; rewrite Z.gtb_ltb; apply Z.ltb_ge; lia).
    reflexivity.
  - intros Hidle. unfold result at 2 4, run, RateCache.refreshRate. rewrite Hidle.
    unfold catch. destruct (getExchangeRate_run w []) as [new Hrun].
    unfold bind. rewrite Hrun. split.
    + intros fetched Hfetch Hok. rewrite Hfetch. fold (invalidRate fetched). rewrite Hok.
      reflexivity.
    + intros Hbad. destruct (result ContractClient.getExchangeRate w) as [e | fetched].
      * destruct (RateCache.cachedRate this); reflexivity.
      * fold (invalidRate fetched). rewrite (Hbad fetched eq_refl). cbn [throw].
        destruct (RateCache.cachedRate this); reflexivity.
Qed.

Lemma rate_cache_answers_witness :
  run (L := ratedLedger)
    (RateCache.getCurrentRate
       (RateCache.mkManager (Some (RateCache.mkCached one 1000)) false) 181000 181001) 0
    = (inr (one, RateCache.mkManager (Some (RateCache.mkCached one 1000)) false), (0, [])).
Proof.
  apply (proj1 (rate_cache_answers ratedLedger 0
                  (RateCache.mkManager (Some (RateCache.mkCached one 1000)) false)
                  181000 181001) (RateCache.mkCached one 1000)).
  - reflexivity.
  - cbn. lia.
Defined.

(** ** The admin operations of the staking engine *)

(** X16.  [applySlashing]: when the [apply_slashing] invocation fails, the
    operation throws its error, invokes nothing else and publishes no event;
    when it goes through, the slashing event is published with the amount
    and the reason "admin" whether the recalibration that follows succeeds
    or not, no invocation other than [recalibrate_rate] follows, and the
    hash of the slashing transaction is returned if the event bus accepts
    the event. *)
Theorem slashing_publishes_after_success (L : Ledger) (w : world L) (slashAmount : Z) :
  accountFound L w Gateway.adminPublicKey = true ->
  (forall message w',
     submit L w (applySlashingCall slashAmount) = (inl message, w') ->
     result (StakingAdmin.applySlashing slashAmount) w = inl (Err message) /\
     Keeper.submitted (actions (StakingAdmin.applySlashing slashAmount) w)
       = [applySlashingCall slashAmount] /\
     published (actions (StakingAdmin.applySlashing slashAmount) w) = []) /\
  (forall hash w',
     submit L w (applySlashingCall slashAmount) = (inr hash, w') ->
     published (actions (StakingAdmin.applySlashing slashAmount) w)
       = [SlashingApplied slashAmount "admin"] /\
     (Keeper.submitted (actions (StakingAdmin.applySlashing slashAmount) w)
        = [applySlashingCall slashAmount] \/
      Keeper.submitted (actions (StakingAdmin.applySlashing slashAmount) w)
        = [applySlashingCall slashAmount; recalibrateRateCall]) /\
     (result (StakingAdmin.applySlashing slashAmount) w = inr hash \/
      result (StakingAdmin.applySlashing slashAmount) w
        = inl (Err "[EventBus] Not connected. Call connect() first."))).
Proof.
  intros Hacc. unfold Gateway.adminPublicKey in Hacc. unfold applySlashingCall. split.
  - intros message w' Hsub.
    unfold result, actions, run, StakingAdmin.applySlashing, bind,
      ContractClient.callApplySlashing, ContractClient.executeAdminContractCall, bind,
      getAccount.
    cbn [fst snd]. rewrite Hacc. unfold sendTransaction. cbn [fst snd]. rewrite Hsub.
    repeat split.
  - intros hash w' Hsub.
    unfold result, actions, run, StakingAdmin.applySlashing, bind, catch,
      ContractClient.callApplySlashing, ContractClient.callRecalibrateRate,
      ContractClient.executeAdminContractCall, bind, getAccount.
    cbn [fst snd]. rewrite Hacc. unfold sendTransaction. cbn [fst snd]. rewrite Hsub.
    cbn [fst snd app].
    destruct (accountFound L w' Config.adminPublicKey); cbn [fst snd app].
    + destruct (submit L w' _) as [[m | h] w'']; cbn [ret fst snd app];
        unfold publishEvent; cbn [fst snd app];
        destruct (publish L w'' _); cbn [ret fst snd app];
        (split; [reflexivity |]; split; [right; reflexivity |]; (left; reflexivity) || (right; reflexivity)).
    + unfold publishEvent; cbn [ret fst snd app].
      destruct (publish L w' _); cbn [ret fst snd app];
        (split; [reflexivity |]; split; [left; reflexivity |]; (left; reflexivity) || (right; reflexivity)).
Qed.

Lemma slashing_publishes_after_success_witness :
  published (actions (L := demoLedger) (StakingAdmin.applySlashing 50000000) 0)
    = [SlashingApplied 50000000 "admin"].
Proof.
  apply (proj2 (slashing_publishes_after_success demoLedger 0 50000000 eq_refl) "tx" 0).
  reflexivity.
Defined.

(** ** The delegation manager: deallocation *)

Section Deallocation.
Import DelegationManager.

Lemma decrement_zero (v : Validator) : decrement 0 v = v.
Proof. destruct v. unfold decrement. cbn. rewrite Z.sub_0_r. reflexivity. Qed.

Lemma staked_spec (db : Validators) (k : string) (v : Validator) :
  (k, v) ∈ staked db <-> db !! k = Some v /\ 0 < allocatedStake v.
Proof.
  unfold staked. rewrite merge_sort_Permutation, list_elem_of_filter, elem_of_map_to_list.
  cbn. tauto.
Qed.

Lemma staked_NoDup (db : Validators) : NoDup (staked db).*1.
Proof.
  unfold staked. rewrite merge_sort_Permutation.
  apply sublist_NoDup with ((map_to_list db).*1); [apply NoDup_fst_map_to_list |].
  apply fmap_sublist, sublist_filter.
Qed.

Lemma stakeRead_nonneg (rows : list (string * Validator)) :
  (forall k v, (k, v) ∈ rows -> 0 <= allocatedStake v) -> 0 <= stakeRead rows.
Proof.
  induction rows as [| [k v] rows IH]; intros Hpos; cbn; [lia |].
  pose proof (Hpos k v (list_elem_of_here _ _)).
  assert (0 <= stakeRead rows)
    by (apply IH; intros k' v' Hin; apply (Hpos k' v'); apply list_elem_of_further; exact Hin).
  lia.
Qed.

Lemma stakeIn_read (db : Validators) (rows : list (string * Validator)) :
  (forall k v, (k, v) ∈ rows -> db !! k = Some v) -> stakeIn db rows = stakeRead rows.
Proof.
  induction rows as [| [k v] rows IH]; intros Hdb; cbn [stakeIn stakeRead fst snd];
    [reflexivity |].
  unfold stakeOf at 1. rewrite (Hdb k v (list_elem_of_here _ _)). cbn [from_option].
  rewrite IH; [reflexivity |].
  intros k' v' Hin. apply Hdb. apply list_elem_of_further. exact Hin.
Qed.

(** The loop over rows with distinct keys that the table holds. *)
Lemma deallocateLoop_spec (rows : list (string * Validator)) :
  forall (remaining : Z) (db : Validators),
    NoDup rows.*1 ->
    (forall k v, (k, v) ∈ rows -> db !! k = Some v /\ 0 <= allocatedStake v) ->
    let db' := deallocateLoop rows remaining db in
    (forall k, k ∉ rows.*1 -> db' !! k = db !! k) /\
    (forall k v, (k, v) ∈ rows ->
       exists d, 0 <= d <= allocatedStake v /\ db' !! k = Some (decrement d v)) /\
    stakeRead rows - stakeIn db' rows = Z.min (Z.max remaining 0) (stakeRead rows) /\
    (forall l1 k v l2, rows = l1 ++ (k, v) :: l2 -> 0 < stakeOf db' k ->
       forall k2 v2, (k2, v2) ∈ l2 -> db' !! k2 = Some v2).
Proof.
  induction rows as [| [k0 v0] rows IH]; intros remaining db Hnd Hdb.
  - cbn. split; [reflexivity |].
    split; [intros k v Hin; apply elem_of_nil in Hin; destruct Hin |].
    split; [lia |]. intros l1 k v l2 E. destruct l1; discriminate.
  - rewrite fmap_cons in Hnd. cbn [fst] in Hnd. apply NoDup_cons in Hnd.
    destruct Hnd as [Hnin Hnd].
    destruct (Hdb k0 v0 (list_elem_of_here _ _)) as [Hlook0 Hpos0].
    assert (Hrest : forall k v, (k, v) ∈ rows -> db !! k = Some v /\ 0 <= allocatedStake v).
    { intros k v Hin. apply Hdb. apply list_elem_of_further. exact Hin. }
    assert (Hother : forall k v, (k, v) ∈ rows -> k <> k0).
    { intros k v Hin ->. apply Hnin. apply (list_elem_of_fmap_2 fst) in Hin. exact Hin. }
    pose proof (stakeRead_nonneg rows (fun k v Hin => proj2 (Hrest k v Hin))) as Htot.
    cbn [deallocateLoop]. cbv zeta.
    destruct (Z.leb_spec remaining 0) as [Hle | Hgt].
    + (* nothing left to deallocate: the loop breaks *)
      split; [reflexivity |]. split; [| split].
      * intros k v Hin. exists 0. rewrite decrement_zero.
        destruct (Hdb k v Hin) as [Hl Hp]. split; [lia | exact Hl].
      * rewrite (stakeIn_read db) by (intros k v Hin; apply (Hdb k v Hin)).
        change (stakeRead ((k0, v0) :: rows)) with (allocatedStake v0 + stakeRead rows). lia.
      * intros l1 k v l2 E _ k2 v2 Hin. apply (Hdb k2 v2). rewrite E.
        apply elem_of_app. right. apply list_elem_of_further. exact Hin.
    + set (d0 := if remaining <? allocatedStake v0 then remaining else allocatedStake v0).
      assert (Hd0 : 0 <= d0 <= allocatedStake v0 /\ d0 = Z.min remaining (allocatedStake v0)).
      { unfold d0. destruct (Z.ltb_spec remaining (allocatedStake v0)); lia. }
      set (db1 := alter (decrement d0) k0 db).
      assert (Hdb1 : forall k v, (k, v) ∈ rows -> db1 !! k = Some v /\ 0 <= allocatedStake v).
      { intros k v Hin. unfold db1. rewrite lookup_alter_ne by (intros E; symmetry in E; exact (Hother k v Hin E)).
        apply Hrest. exact Hin. }
      destruct (IH (remaining - d0) db1 Hnd Hdb1) as (Hkeep & Hin' & Hsum & Hseq).
      set (db' := deallocateLoop rows (remaining - d0) db1) in *.
      assert (Hk0 : db' !! k0 = Some (decrement d0 v0)).
      { rewrite (Hkeep k0 Hnin). unfold db1. rewrite lookup_alter_eq, Hlook0. reflexivity. }
      split; [| split; [| split]].
      * intros k Hk. rewrite fmap_cons in Hk. cbn [fst] in Hk. apply not_elem_of_cons in Hk.
        destruct Hk as [Hne Hk]. rewrite (Hkeep k Hk). unfold db1.
        apply lookup_alter_ne. congruence.
      * intros k v Hin. apply elem_of_cons in Hin. destruct Hin as [E | Hin].
        -- inversion E; subst k v. exists d0. split; [lia | exact Hk0].
        -- apply Hin'. exact Hin.
      * change (stakeRead ((k0, v0) :: rows)) with (allocatedStake v0 + stakeRead rows).
        change (stakeIn db' ((k0, v0) :: rows)) with (stakeOf db' k0 + stakeIn db' rows).
        unfold stakeOf at 1. rewrite Hk0. cbn [from_option decrement allocatedStake]. lia.
      * intros l1 k v l2 E Hk k2 v2 Hin2. destruct l1 as [| r l1].
        -- cbn in E. inversion E; subst k v l2.
           unfold stakeOf in Hk. rewrite Hk0 in Hk. cbn in Hk.
           (* the first validator keeps some stake: the amount ran out *)
           assert (Hzero : remaining - d0 <= 0) by lia.
           assert (Hstop : db' = db1).
           { unfold db'. destruct rows as [| [k1 v1] rows']; [reflexivity |].
             cbn [deallocateLoop]. destruct (Z.leb_spec (remaining - d0) 0); [reflexivity | lia]. }
           rewrite Hstop. apply (Hdb1 k2 v2 Hin2).
        -- cbn in E. inversion E; subst r rows. apply (Hseq l1 k v l2 eq_refl Hk k2 v2 Hin2).
Qed.

End Deallocation.


(** X18.  [deallocateWithdrawal] takes from the validators in the order in
    which it read them (ascending performance score): a validator that
    keeps a positive stake ends the deallocation, the validators after it
    are untouched. *)
Theorem deallocation_is_sequential (db : DelegationManager.Validators) (amount : Z)
    (before after : list (string * DelegationManager.Validator))
    (k : string) (v : DelegationManager.Validator) :
  DelegationManager.staked db = before ++ (k, v) :: after ->
  0 < stakeOf (DelegationManager.deallocateWithdrawal amount db) k ->
  forall k2 v2, (k2, v2) ∈ after ->
    DelegationManager.deallocateWithdrawal amount db !! k2 = Some v2.
Proof.
  intros Hsplit.
  unfold DelegationManager.deallocateWithdrawal.
  assert (Hrun : (if (length (DelegationManager.staked db) =? 0)%nat then db
                  else DelegationManager.deallocateLoop (DelegationManager.staked db) amount db)
                 = DelegationManager.deallocateLoop (DelegationManager.staked db) amount db)
    by (destruct (DelegationManager.staked db) as [| [k' v'] l]; reflexivity).
  rewrite Hrun.
  destruct (deallocateLoop_spec (DelegationManager.staked db) amount db (staked_NoDup db))
    as (_ & _ & _ & Hseq).
  { intros k' v' Hmem. apply staked_spec in Hmem. split; [tauto | lia]. }
  exact (Hseq before k v after Hsplit).
Qed.

Lemma deallocation_is_sequential_witness :
  DelegationManager.deallocateWithdrawal 100000000 demoValidators !! "GA"
    = Some (DelegationManager.mkValidator 500000000 (ofBigInt 90) one).
Proof.
  apply (deallocation_is_sequential demoValidators 100000000 []
           [("GA", DelegationManager.mkValidator 500000000 (ofBigInt 90) one)]
           "GB" (DelegationManager.mkValidator 300000000 (ofBigInt 70) one)).
  - vm_compute. reflexivity.
  - vm_compute. reflexivity.
  - apply list_elem_of_here.
Defined.

(** ** Polling a transaction *)

Lemma pollLoop_spec (getTransaction : nat -> ContractClient.TxStatus) (remaining : nat) :
  forall attempt : nat,
    match ContractClient.pollLoop getTransaction remaining attempt with
    | ContractClient.Confirmed k =>
        (attempt <= k < attempt + remaining)%nat /\
        getTransaction k = ContractClient.SUCCESS /\
        (forall j, (attempt <= j < k)%nat -> getTransaction j = ContractClient.NOT_FOUND)
    | ContractClient.TransactionFailed k =>
        (attempt <= k < attempt + remaining)%nat /\
        getTransaction k = ContractClient.FAILED /\
        (forall j, (attempt <= j < k)%nat -> getTransaction j = ContractClient.NOT_FOUND)
    | ContractClient.NotConfirmed =>
        forall j, (attempt <= j < attempt + remaining)%nat ->
                  getTransaction j = ContractClient.NOT_FOUND
    end.
Proof.
  induction remaining as [| remaining IH]; intros attempt.
  - cbn. intros j Hj. lia.
  - cbn [ContractClient.pollLoop].
    destruct (getTransaction attempt) eqn:Hnow.
    + split; [lia |]. split; [exact Hnow |]. intros j Hj. lia.
    + split; [lia |]. split; [exact Hnow |]. intros j Hj. lia.
    + specialize (IH (S attempt)).
      destruct (ContractClient.pollLoop getTransaction remaining (S attempt)) as [k | k |].
      * destruct IH as (Hk & Hok & Hbefore). split; [lia |]. split; [exact Hok |].
        intros j Hj. destruct (Nat.eq_dec j attempt) as [-> | Hne]; [exact Hnow |].
        apply Hbefore. lia.
      * destruct IH as (Hk & Hok & Hbefore). split; [lia |]. split; [exact Hok |].
        intros j Hj. destruct (Nat.eq_dec j attempt) as [-> | Hne]; [exact Hnow |].
        apply Hbefore. lia.
      * intros j Hj. destruct (Nat.eq_dec j attempt) as [-> | Hne]; [exact Hnow |].
        apply IH. lia.
Qed.

(** X19.  [pollTransaction] stops at the first answer that is not
    NOT_FOUND: it returns at attempt [k] exactly when the answer to attempt
    [k] is SUCCESS and the answers before were NOT_FOUND, it throws the
    failure in the same way on FAILED, and it gives up after [maxAttempts]
    attempts when all their answers were NOT_FOUND; it never asks more than
    [maxAttempts] times. *)
Theorem poll_stops_at_first_decisive_answer
    (getTransaction : nat -> ContractClient.TxStatus) (maxAttempts : nat) :
  match ContractClient.pollTransaction getTransaction maxAttempts with
  | ContractClient.Confirmed k =>
      (k < maxAttempts)%nat /\ getTransaction k = ContractClient.SUCCESS /\
      (forall j, (j < k)%nat -> getTransaction j = ContractClient.NOT_FOUND)
  | ContractClient.TransactionFailed k =>
      (k < maxAttempts)%nat /\ getTransaction k = ContractClient.FAILED /\
      (forall j, (j < k)%nat -> getTransaction j = ContractClient.NOT_FOUND)
  | ContractClient.NotConfirmed =>
      forall j, (j < maxAttempts)%nat -> getTransaction j = ContractClient.NOT_FOUND
  end.
Proof.
  unfold ContractClient.pollTransaction.
  pose proof (pollLoop_spec getTransaction maxAttempts 0) as H.
  destruct (ContractClient.pollLoop getTransaction maxAttempts 0) as [k | k |].
  - destruct H as (Hk & Hok & Hbefore). split; [lia |]. split; [exact Hok |].
    intros j Hj. apply Hbefore. lia.
  - destruct H as (Hk & Hok & Hbefore). split; [lia |]. split; [exact Hok |].
    intros j Hj. apply Hbefore. lia.
  - intros j Hj. apply H. lia.
Qed.

(** ** The optimal number of loops *)

Section Optimal.
Variables cf sAPR bAPR : number.

Lemma small_counter_leb (k : Z) :
  0 <= k <= 21 -> leb (ofBigInt k) LeverageOptimal.n20 = (k <=? 20).
Proof.
  intros Hk.
  assert (Hk' : exists k', k = Z.of_nat k' /\ (k' < 22)%nat) by (exists (Z.to_nat k); lia).
  destruct Hk' as (k' & -> & Hk').
  assert (Hall : forallb (fun a => Bool.eqb (leb (ofBigInt (Z.of_nat a)) LeverageOptimal.n20)
                                     (Z.of_nat a <=? 20)) (seq 0 22) = true)
    by (vm_compute; reflexivity).
  rewrite forallb_forall in Hall. specialize (Hall k').
  apply Bool.eqb_prop. apply Hall. apply in_seq. lia.
Qed.

Lemma simulateAt_netYield (j : Z) :
  0 <= j <= 20 ->
  exists r, LeverageOptimal.simulateAt (ofBigInt j) cf sAPR bAPR = Some r /\
            LeverageEngine.netYield r = netYieldAt cf sAPR bAPR j.
Proof.
  intros Hj. unfold netYieldAt, LeverageOptimal.simulateAt.
  destruct (leverage_simulate_returns j LeverageOptimal.n1000 cf sAPR bAPR Hj) as [r Hr].
  exists r. rewrite Hr. split; reflexivity.
Qed.

(** The search from [loops = k] on, with [bestLoops = k - 1] once [k > 1]. *)
Lemma searchLoop_spec (n : nat) :
  forall (k : Z) (fuel : nat),
    Z.of_nat n = 21 - k -> 1 <= k -> (n < fuel)%nat ->
    exists k',
      LeverageOptimal.searchLoop fuel cf sAPR bAPR (ofBigInt k) (ofBigInt (Z.max 1 (k - 1)))
        (if k =? 1 then zero else netYieldAt cf sAPR bAPR (k - 1)) = Some (ofBigInt k') /\
      Z.max 1 (k - 1) <= k' <= 20 /\
      (forall j, Z.max 2 k <= j <= k' -> marginalBelowOne cf sAPR bAPR j = false) /\
      (k' < 20 -> marginalBelowOne cf sAPR bAPR (k' + 1) = true).
Proof.
  induction n as [| n IH]; intros k fuel Hn Hk Hfuel.
  - (* loops = 21: the loop ends *)
    assert (k = 21) by lia. subst k.
    destruct fuel as [| fuel]; [lia |]. cbn [LeverageOptimal.searchLoop].
    rewrite small_counter_leb by lia. cbn [Z.leb Z.compare].
    exists 20. split; [reflexivity |]. split; [lia |]. split; [intros j Hj; lia | lia].
  - destruct fuel as [| fuel]; [lia |]. cbn [LeverageOptimal.searchLoop].
    rewrite small_counter_leb by lia.
    destruct (Z.leb_spec k 20) as [Hk20 | Hk20]; [| lia].
    destruct (simulateAt_netYield k ltac:(lia)) as (r & Hsim & Hyield). rewrite Hsim, Hyield.
    unfold gtb. change (SFltb one (ofBigInt k)) with (ltb (ofBigInt 1) (ofBigInt k)).
    rewrite small_counter_less by lia.
    change (ofBigInt 1) with one. rewrite small_counter_step by lia.
    destruct (Z.eqb_spec k 1) as [-> | Hk1].
    + (* the first loop is always taken *)
      cbn [Z.ltb Z.compare andb].
      destruct (IH 2 fuel ltac:(lia) ltac:(lia) ltac:(lia)) as (k' & Hrun & Hk' & Hno & Hyes).
      cbn [Z.eqb Z.max Z.sub Z.add Z.pos_sub Z.compare Pos.compare Pos.compare_cont Z.opp
           Pos.pred_double] in Hrun.
      exists k'. split; [exact Hrun |]. split; [lia |].
      split; [intros j Hj; apply Hno; lia | exact Hyes].
    + destruct (Z.ltb_spec 1 k) as [Hgt | Hle]; [| lia]. cbn [andb].
      fold (marginalBelowOne cf sAPR bAPR k).
      replace (Z.max 1 (k - 1)) with (k - 1) by lia.
      destruct (marginalBelowOne cf sAPR bAPR k) eqn:Hmarg.
      * exists (k - 1). split; [reflexivity |]. split; [lia |].
        split; [intros j Hj; lia |].
        intros _. replace (k - 1 + 1) with k by lia. exact Hmarg.
      * destruct (IH (k + 1) fuel ltac:(lia) ltac:(lia) ltac:(lia))
          as (k' & Hrun & Hk' & Hno & Hyes).
        replace (Z.max 1 (k + 1 - 1)) with k in Hrun, Hk' by lia.
        replace (k + 1 - 1) with k in Hrun by lia.
        destruct (Z.eqb_spec (k + 1) 1); [lia |].
        exists k'. split; [exact Hrun |]. split; [lia |]. split; [| exact Hyes].
        intros j Hj. destruct (Z.eq_dec j k) as [-> | Hne]; [exact Hmarg |].
        apply Hno. lia.
Qed.

End Optimal.

(** X20.  [optimal] returns, and its [optimalLoops] is a number of loops
    [k] between 1 and 20: the loops 2 to [k] each add a net yield that is
    not below 1 (0.1% of the principal of 1000), and, unless [k] is 20, loop
    [k + 1] adds less than 1.  The net yield percent that it returns is the
    one of the simulation with [k] loops, and the max leverage is
    [1 / (1 - collateralFactor)]. *)
Theorem optimal_loops_stop_at_marginal_yield (stakingAPR borrowAPR collateralFactor : option number) :
  let sAPR := default n0_06 stakingAPR in
  let bAPR := default n0_04 borrowAPR in
  let cf := default n0_7 collateralFactor in
  exists r k final,
    LeverageOptimal.optimal LeverageEngine.fuel stakingAPR borrowAPR collateralFactor = Some r /\
    LeverageOptimal.optimalLoops r = ofBigInt k /\ 1 <= k <= 20 /\
    (forall j, 2 <= j <= k -> marginalBelowOne cf sAPR bAPR j = false) /\
    (k < 20 -> marginalBelowOne cf sAPR bAPR (k + 1) = true) /\
    LeverageOptimal.simulateAt (ofBigInt k) cf sAPR bAPR = Some final /\
    LeverageOptimal.netYieldPercent r = LeverageEngine.netYieldPercent final /\
    LeverageOptimal.maxLeverage r = div one (sub one cf).
Proof.
  cbv zeta. unfold LeverageOptimal.optimal.
  set (sAPR := default n0_06 stakingAPR). set (bAPR := default n0_04 borrowAPR).
  set (cf := default n0_7 collateralFactor).
  destruct (searchLoop_spec cf sAPR bAPR 20 1 LeverageEngine.fuel ltac:(lia) ltac:(lia)
              ltac:(unfold LeverageEngine.fuel; lia))
    as (k & Hrun & Hk & Hno & Hyes).
  change (ofBigInt (Z.max 1 (1 - 1))) with one in Hrun.
  change (ofBigInt 1) with one in Hrun.
  change (if 1 =? 1 then zero else netYieldAt cf sAPR bAPR (1 - 1)) with zero in Hrun.
  rewrite Hrun.
  destruct (simulateAt_netYield cf sAPR bAPR k ltac:(lia)) as (final & Hfinal & _).
  rewrite Hfinal.
  eexists _, k, final. split; [reflexivity |]. cbn [LeverageOptimal.optimalLoops
    LeverageOptimal.netYieldPercent LeverageOptimal.maxLeverage].
  split; [reflexivity |]. split; [lia |].
  split; [intros j Hj; apply Hno; lia |].
  split; [exact Hyes |]. split; [exact Hfinal |]. split; reflexivity.
Qed.

(** ** The two simulators side by side *)

Section Simulators.

Lemma simulators_iterate_alike (cf : number) (n : nat) :
  forall (i i' : number) (sr : RestakingEngine.LoopState) (sl : LeverageEngine.LoopState number),
    RestakingEngine.stTotalStaked sr = LeverageEngine.stTotalStaked sl ->
    RestakingEngine.stTotalBorrowed sr = LeverageEngine.stTotalBorrowed sl ->
    RestakingEngine.currentAmount sr = LeverageEngine.currentDeposit sl ->
    RestakingEngine.stTotalStaked (restakingIter cf n i sr)
      = LeverageEngine.stTotalStaked (leverageIter cf n i' sl) /\
    RestakingEngine.stTotalBorrowed (restakingIter cf n i sr)
      = LeverageEngine.stTotalBorrowed (leverageIter cf n i' sl) /\
    RestakingEngine.currentAmount (restakingIter cf n i sr)
      = LeverageEngine.currentDeposit (leverageIter cf n i' sl).
Proof.
  induction n as [| n IH]; intros i i' sr sl H1 H2 H3.
  - cbn. repeat split; assumption.
  - cbn [restakingIter leverageIter]. apply IH.
    + cbn [RestakingEngine.loopBody LeverageEngine.loopBody RestakingEngine.stTotalStaked
           LeverageEngine.stTotalStaked plus binary64]. rewrite H1, H3. reflexivity.
    + cbn [RestakingEngine.loopBody LeverageEngine.loopBody RestakingEngine.stTotalBorrowed
           LeverageEngine.stTotalBorrowed plus times binary64]. rewrite H2, H3. reflexivity.
    + cbn [RestakingEngine.loopBody LeverageEngine.loopBody RestakingEngine.currentAmount
           LeverageEngine.currentDeposit times binary64]. rewrite H3. reflexivity.
Qed.

End Simulators.

(** X21.  The restaking simulator and the leverage simulator agree: on the
    same principal, loops, collateral factor and rates, either both run out
    of iterations or both return, with the same total staked, total
    borrowed and effective leverage, and the estimated net APR of the one is
    the net yield percent of the other. *)
Theorem restaking_agrees_with_leverage (fuel : nat) (this : RestakingEngine.Engine)
    (p loops cf sAPR bAPR : number) :
  match RestakingEngine.simulate fuel this p loops (Some cf) (Some sAPR) (Some bAPR),
        LeverageEngine.simulate fuel tt (LeverageEngine.mkInput p loops cf sAPR bAPR) with
  | Some r, Some l =>
      RestakingEngine.totalStaked r = LeverageEngine.totalStaked l /\
      RestakingEngine.totalBorrowed r = LeverageEngine.totalBorrowed l /\
      RestakingEngine.effectiveLeverage r = LeverageEngine.effectiveLeverage l /\
      RestakingEngine.estimatedNetAPR r = LeverageEngine.netYieldPercent l
  | None, None => True
  | _, _ => False
  end.
Proof.
  unfold RestakingEngine.simulate, LeverageEngine.simulate.
  rewrite restaking_forLoop_trips, leverage_forLoop_trips.
  cbn [LeverageEngine.loops LeverageEngine.collateralFactor LeverageEngine.principal
       LeverageEngine.stakingAPR LeverageEngine.borrowAPR default from_option id].
  change (lit (Arith := binary64) 0) with zero.
  destruct (tripCount fuel loops zero) as [n |]; cbn [option_map]; [| exact I].
  destruct (simulators_iterate_alike cf n zero zero
              (RestakingEngine.mkState zero zero p [])
              (LeverageEngine.mkState zero zero p []) eq_refl eq_refl eq_refl)
    as (H1 & H2 & _).
  cbn [RestakingEngine.totalStaked RestakingEngine.totalBorrowed
       RestakingEngine.effectiveLeverage RestakingEngine.estimatedNetAPR
       LeverageEngine.totalStaked LeverageEngine.totalBorrowed
       LeverageEngine.effectiveLeverage LeverageEngine.netYieldPercent
       over times minus lit binary64].
  change (lit (Arith := binary64) 0) with zero. rewrite H1, H2.
  repeat split.
Qed.

(** ** The loop details of the leverage simulator *)

Section LoopDetails.
Variables p cf : number.

Lemma leverageIter_snoc (n : nat) :
  forall (k : Z) (st : LeverageEngine.LoopState number),
    0 <= k -> k + Z.of_nat n <= 20 ->
    leverageIter cf (S n) (ofBigInt k) st =
      LeverageEngine.loopBody cf (ofBigInt (k + Z.of_nat n)) (leverageIter cf n (ofBigInt k) st).
Proof.
  induction n as [| n IH]; intros k st Hk Hn.
  - cbn [leverageIter]. replace (k + Z.of_nat 0) with k by lia. reflexivity.
  - change (leverageIter cf (S (S n)) (ofBigInt k) st)
      with (leverageIter cf (S n) (add (ofBigInt k) (ofBigInt 1))
              (LeverageEngine.loopBody cf (ofBigInt k) st)).
    change (ofBigInt 1) with one. rewrite small_counter_step by lia.
    rewrite IH by lia.
    replace (k + 1 + Z.of_nat n) with (k + Z.of_nat (S n)) by lia.
    f_equal. cbn [leverageIter plus lit binary64]. change (ofBigInt 1) with one.
    rewrite small_counter_step by lia. reflexivity.
Qed.

Lemma leverageIter_details (n : nat) :
  (Z.of_nat n <= 20) ->
  LeverageEngine.loopDetails
    (leverageIter cf n (ofBigInt 0) (LeverageEngine.mkState (ofBigInt 0) (ofBigInt 0) p []))
    = detailOf p cf <$> seq 0 n.
Proof.
  induction n as [| n IH]; intros Hn; [reflexivity |].
  rewrite leverageIter_snoc by lia.
  destruct (leverageIter_totals (N := number) p cf n (ofBigInt 0)) as (H1 & H2 & H3).
  cbn [lit binary64] in H1, H2, H3.
  cbn [LeverageEngine.loopBody LeverageEngine.loopDetails].
  rewrite IH by lia. rewrite H1, H2, H3.
  rewrite seq_S, fmap_app. cbn [fmap list_fmap Nat.add].
  unfold detailOf at 2. cbn [plus times lit binary64 depositAt stakedAfter borrowedAfter].
  change (ofBigInt 1) with one. rewrite small_counter_step by lia.
  replace (0 + Z.of_nat n + 1) with (Z.of_nat n + 1) by lia. reflexivity.
Qed.

End LoopDetails.

(** X22.  The loop details are the simulations of the shorter runs: a
    simulation with [n] loops (0 to 20) records [n] details, and the detail
    of loop [k] carries the number [k], what was deposited and borrowed in
    that loop (the borrowed amount is the deposit times the collateral
    factor, and is the deposit of the next loop), and the totals that the
    simulation with [k] loops returns. *)
Theorem loop_details_are_shorter_runs (n : Z) (p cf sAPR bAPR : number) :
  0 <= n <= 20 ->
  exists r,
    LeverageEngine.simulate LeverageEngine.fuel tt
      (LeverageEngine.mkInput p (ofBigInt n) cf sAPR bAPR) = Some r /\
    length (LeverageEngine.loopDetailsOf r) = Z.to_nat n /\
    forall k, 1 <= k <= n ->
      exists d rk,
        LeverageEngine.loopDetailsOf r !! Z.to_nat (k - 1) = Some d /\
        LeverageEngine.simulate LeverageEngine.fuel tt
          (LeverageEngine.mkInput p (ofBigInt k) cf sAPR bAPR) = Some rk /\
        LeverageEngine.loop d = ofBigInt k /\
        LeverageEngine.deposited d = depositAt p cf (Z.to_nat (k - 1)) /\
        LeverageEngine.borrowed d = mul (LeverageEngine.deposited d) cf /\
        LeverageEngine.borrowed d = depositAt p cf (Z.to_nat k) /\
        LeverageEngine.detailTotalStaked d = LeverageEngine.totalStaked rk /\
        LeverageEngine.detailTotalBorrowed d = LeverageEngine.totalBorrowed rk.
Proof.
  intros Hn.
  assert (Hrun : LeverageEngine.simulate LeverageEngine.fuel tt
                   (LeverageEngine.mkInput p (ofBigInt n) cf sAPR bAPR)
                 = Some (LeverageEngine.mkResult
                           (div one (sub one cf))
                           (div (stakedAfter p cf (Z.to_nat n)) p)
                           (stakedAfter p cf (Z.to_nat n))
                           (borrowedAfter p cf (Z.to_nat n))
                           (mul (div (sub (mul (stakedAfter p cf (Z.to_nat n)) sAPR)
                                          (mul (borrowedAfter p cf (Z.to_nat n)) bAPR)) p)
                                (ofBigInt 100))
                           (mul (stakedAfter p cf (Z.to_nat n)) sAPR)
                           (mul (borrowedAfter p cf (Z.to_nat n)) bAPR)
                           (sub (mul (stakedAfter p cf (Z.to_nat n)) sAPR)
                                (mul (borrowedAfter p cf (Z.to_nat n)) bAPR))
                           (detailOf p cf <$> seq 0 (Z.to_nat n)))).
  { unfold LeverageEngine.simulate. rewrite leverage_forLoop_trips.
    cbn [LeverageEngine.loops LeverageEngine.collateralFactor LeverageEngine.principal
         LeverageEngine.stakingAPR LeverageEngine.borrowAPR lit binary64].
    rewrite (small_tripCount n (Z.to_nat n) 0 LeverageEngine.fuel)
      by (unfold LeverageEngine.fuel; lia).
    cbn [option_map].
    destruct (leverageIter_totals (N := number) p cf (Z.to_nat n) (ofBigInt 0)) as (H1 & H2 & _).
    cbn [lit binary64] in H1, H2.
    rewrite H1, H2, leverageIter_details by lia. reflexivity. }
  eexists. split; [exact Hrun |].
  cbn [LeverageEngine.loopDetailsOf]. split; [rewrite length_fmap, length_seq; reflexivity |].
  intros k Hk.
  destruct (leverage_simulate_totals k p cf sAPR bAPR ltac:(lia))
    as (rk & Hrk & Hstaked & Hborrowed & _).
  exists (detailOf p cf (Z.to_nat (k - 1))), rk.
  split.
  { rewrite list_lookup_fmap, lookup_seq_lt by lia. reflexivity. }
  split; [exact Hrk |].
  unfold detailOf. cbn [LeverageEngine.loop LeverageEngine.deposited LeverageEngine.borrowed
    LeverageEngine.detailTotalStaked LeverageEngine.detailTotalBorrowed].
  replace (S (Z.to_nat (k - 1))) with (Z.to_nat k) by lia.
  split; [f_equal; lia |]. split; [reflexivity |].
  split.
  { replace (Z.to_nat k) with (S (Z.to_nat (k - 1))) by lia. reflexivity. }
  split; [reflexivity |]. split; [symmetry; exact Hstaked | symmetry; exact Hborrowed].
Qed.

Lemma loop_details_are_shorter_runs_witness :
  exists r,
    LeverageEngine.simulate LeverageEngine.fuel tt
      (LeverageEngine.mkInput (ofBigInt 1000) (ofBigInt 3) n0_7 n0_06 n0_04) = Some r /\
    length (LeverageEngine.loopDetailsOf r) = Z.to_nat 3 /\
    forall k, 1 <= k <= 3 ->
      exists d rk,
        LeverageEngine.loopDetailsOf r !! Z.to_nat (k - 1) = Some d /\
        LeverageEngine.simulate LeverageEngine.fuel tt
          (LeverageEngine.mkInput (ofBigInt 1000) (ofBigInt k) n0_7 n0_06 n0_04) = Some rk /\
        LeverageEngine.loop d = ofBigInt k /\
        LeverageEngine.deposited d = depositAt (ofBigInt 1000) n0_7 (Z.to_nat (k - 1)) /\
        LeverageEngine.borrowed d = mul (LeverageEngine.deposited d) n0_7 /\
        LeverageEngine.borrowed d = depositAt (ofBigInt 1000) n0_7 (Z.to_nat k) /\
        LeverageEngine.detailTotalStaked d = LeverageEngine.totalStaked rk /\
        LeverageEngine.detailTotalBorrowed d = LeverageEngine.totalBorrowed rk.
Proof.
  apply (loop_details_are_shorter_runs 3 (ofBigInt 1000) n0_7 n0_06 n0_04). lia.
Defined.

(** ** The health factor of a simulated restaking position *)

Section HealthFactor.
Local Open Scope Q_scope.

(** Bernoulli: [(1 - u)^k >= 1 - k u]. *)
Lemma wpow_ge (k : nat) : 1 - inject_Z (Z.of_nat k) * u <= (1 - u) ^ Z.of_nat k.
Proof.
  induction k as [| k IH].
  { change ((1 - u) ^ Z.of_nat 0) with 1. change (inject_Z (Z.of_nat 0)) with 0. lra. }
  replace (S k) with (k + 1)%nat by lia. rewrite wpow_add.
  change ((1 - u) ^ Z.of_nat 1) with (1 - u).
  rewrite Nat2Z.inj_add, inject_Z_plus. change (inject_Z (Z.of_nat 1)) with 1.
  assert (Hk : 0 <= inject_Z (Z.of_nat k)) by (change 0 with (inject_Z 0); rewrite <- Zle_Qle; lia).
  assert (Hu : u == 1 # 9007199254740992) by reflexivity.
  pose proof (wpow_pos k) as Hw.
  set (a := (1 - u) ^ Z.of_nat k) in *. set (t := inject_Z (Z.of_nat k)) in *.
  apply Qle_trans with ((1 - t * u) * (1 - u)).
  - assert (Hq : 0 <= t * u * u) by (rewrite Hu; nra). lra.
  - apply Qmult_le_compat_r; [exact IH | rewrite Hu; lra].
Qed.

Lemma wpow_ge_half (k : nat) : (k <= 64)%nat -> 1 # 2 <= (1 - u) ^ Z.of_nat k.
Proof.
  intros Hk. apply Qle_trans with (1 - inject_Z (Z.of_nat k) * u); [| apply wpow_ge].
  assert (Hle : inject_Z (Z.of_nat k) <= 64)
    by (change 64 with (inject_Z 64); rewrite <- Zle_Qle; lia).
  assert (Hu : u == 1 # 9007199254740992) by reflexivity.
  rewrite Hu. lra.
Qed.

(** A value that is close to 1 up to [k <= 44] roundings is within
    [64 u = 2^-47] of 1. *)
Lemma near_one_bound (k : nat) (v : Q) :
  (k <= 44)%nat -> near k 1 v -> 1 - 64 * u <= v /\ v <= 1 + 64 * u.
Proof.
  intros Hk (_ & Hlo & Hhi).
  pose proof (wpow_ge k) as Hb. pose proof (wpow_pos k) as Hw.
  assert (Hle : inject_Z (Z.of_nat k) <= 44)
    by (change 44 with (inject_Z 44); rewrite <- Zle_Qle; lia).
  assert (Hu : u == 1 # 9007199254740992) by reflexivity.
  set (a := (1 - u) ^ Z.of_nat k) in *. set (t := inject_Z (Z.of_nat k)) in *.
  assert (Ha : 1 - 44 * u <= a) by (rewrite Hu in *; lra).
  split.
  - rewrite Hu in *. lra.
  - assert (Hv : v * (1 - 44 * u) <= 1).
    { apply Qle_trans with (v * a); [| exact Hhi].
      rewrite !(Qmult_comm v). apply Qmult_le_compat_r; [exact Ha |].
      apply Qle_trans with (1 * a); [| exact Hlo]. lra. }
    rewrite Hu in *. nra.
Qed.

Lemma pnormal_tighten (lo hi b : Z) (x : number) :
  pnormal lo hi x = true -> toQ x < pow2 b -> pnormal lo (b - 53) x = true.
Proof.
  intros Hx Hb. pose proof Hx as Hx'. apply pnormal_inv in Hx'.
  destruct Hx' as (m & e & -> & Hm & He).
  cbn [toQ cond_Zopp] in Hb.
  assert (He' : (52 + e < b)%Z).
  { apply pow2_lt_inv. apply Qle_lt_trans with (inject_Z (Zpos m) * pow2 e); [| exact Hb].
    rewrite pow2_add.
    assert (H52 : pow2 52 == inject_Z (2 ^ 52)) by (apply pow2_Z; lia).
    rewrite H52. apply Qmult_le_compat_r; [rewrite <- Zle_Qle; lia |].
    apply Qlt_le_weak, pow2_pos. }
  cbn [pnormal]. rewrite !andb_true_iff, !Z.leb_le, Z.ltb_lt. lia.
Qed.

Lemma gtb_zero_pnormal (lo hi : Z) (x : number) :
  pnormal lo hi x = true -> gtb x zero = true.
Proof.
  intros Hx. apply pnormal_inv in Hx. destruct Hx as (m & e & -> & _ & _). reflexivity.
Qed.

Lemma geometricTerm_le_1 (c : Q) (n : nat) : 0 < c -> c <= 1 -> geometricTerm c n <= 1.
Proof.
  intros Hc0 Hc1. induction n as [| n IH]; [apply Qle_refl |].
  cbn [geometricTerm]. pose proof (geometricTerm_pos c n Hc0). nra.
Qed.

Lemma geometricSum_le (c : Q) (n : nat) :
  0 < c -> c <= 1 -> geometricSum c n <= inject_Z (Z.of_nat n).
Proof.
  intros Hc0 Hc1. induction n as [| n IH]; [apply Qle_refl |].
  cbn [geometricSum]. rewrite Nat2Z.inj_succ. unfold Z.succ. rewrite inject_Z_plus.
  change (inject_Z 1) with 1. pose proof (geometricTerm_le_1 c n Hc0 Hc1). lra.
Qed.

Variables p cf : number.
Hypothesis principal_range : pnormal (-500) 400 p = true.
Hypothesis factor_range : pnormal (-56) (-53) cf = true.

(** After [n >= 1] loops the collateral value [staked * cf] over the debt is
    1 up to [2 n + 3] roundings. *)
Lemma healthOf_near (n : nat) :
  (S n <= 20)%nat ->
  RestakingEngine.healthOf (stakedAfter p cf (S n)) (borrowedAfter p cf (S n)) cf
    = div (mul (stakedAfter p cf (S n)) cf) (borrowedAfter p cf (S n)) /\
  near (2 * S n + 3) 1
    (toQ (div (mul (stakedAfter p cf (S n)) cf) (borrowedAfter p cf (S n)))) /\
  isFinite (div (mul (stakedAfter p cf (S n)) cf) (borrowedAfter p cf (S n))) = true.
Proof using principal_range factor_range.
  intros Hn.
  destruct (stakedAfter_near p cf principal_range factor_range n Hn) as [Ns Ps].
  destruct (borrowedAfter_near p cf principal_range factor_range n Hn) as [Nb Pb].
  destruct (factor_value cf factor_range) as [Hc0 Hc1].
  assert (Hu : u == 1 # 9007199254740992) by reflexivity.
  assert (Hc00 : 0 < toQ cf) by lra.
  assert (Hc11 : toQ cf <= 1) by (rewrite Hu in Hc1; lra).
  destruct (pnormal_value _ _ _ principal_range) as [Hp0 Hp1].
  pose proof (pow2_pos (-500 + 52)) as Hpp.
  pose proof (geometricSum_pos (toQ cf) n Hc00) as HG0.
  pose proof (geometricSum_le (toQ cf) (S n) Hc00 Hc11) as HG1.
  assert (HG20 : geometricSum (toQ cf) (S n) <= 20).
  { apply Qle_trans with (1 := HG1). change 20 with (inject_Z 20). rewrite <- Zle_Qle. lia. }
  (* the debt is below 2^459 *)
  assert (Pb' : pnormal (-500 - 4 * Z.of_nat (S n)) 406 (borrowedAfter p cf (S n)) = true).
  { change 406%Z with (459 - 53)%Z. apply pnormal_tighten with (1 := Pb).
    destruct Nb as (Hq & _ & Hhi).
    pose proof (wpow_ge_half (S n + 1) ltac:(lia)) as Hw.
    set (v := toQ (borrowedAfter p cf (S n))) in *.
    set (a := (1 - u) ^ Z.of_nat (S n + 1)) in *.
    set (G := geometricSum (toQ cf) (S n)) in *.
    assert (HcG : toQ cf * G <= 20).
    { apply Qle_trans with (1 * G); [apply Qmult_le_compat_r; lra | lra]. }
    assert (HcG0 : 0 <= toQ cf * G) by (apply Qmult_le_0_compat; lra).
    assert (Hq20 : toQ p * (toQ cf * G) <= toQ p * 20).
    { rewrite !(Qmult_comm (toQ p)). apply Qmult_le_compat_r; lra. }
    assert (Hv : v * (1 # 2) <= toQ p * 20).
    { apply Qle_trans with (v * a); [| lra].
      assert (Hv0 : 0 <= v).
      { destruct (pnormal_value _ _ _ Pb) as [Hb0 _].
        pose proof (pow2_pos (-500 - 4 * Z.of_nat (S n) + 52)). fold v in Hb0. lra. }
      rewrite !(Qmult_comm v). apply Qmult_le_compat_r; assumption. }
    change (400 + 53)%Z with 453%Z in Hp1.
    assert (H459 : pow2 459 == 64 * pow2 453).
    { change 459%Z with (6 + 453)%Z. rewrite pow2_add. reflexivity. }
    rewrite H459. pose proof (pow2_pos 453). lra. }
  assert (Nc : near 0 (toQ cf) (toQ cf)) by (apply near_exact; [exact Hc00 | reflexivity]).
  destruct (near_mul_rounded _ _ _ _ _ _ _ _ _ _ Ns Nc Ps factor_range ltac:(lia) ltac:(lia))
    as [Nm Pm].
  destruct (near_div_rounded _ _ _ _ _ _ _ _ _ _ Nm Nb Pm Pb' ltac:(lia) ltac:(lia))
    as [Nh Ph].
  split; [| split].
  - unfold RestakingEngine.healthOf. rewrite (gtb_zero_pnormal _ _ _ Pb). reflexivity.
  - replace (2 * S n + 3)%nat with (S n + 0 + 1 + (S n + 1) + 1)%nat by lia.
    apply near_ext with (2 := Nh). field. split; [lra |]. split; lra.
  - apply pnormal_inv in Ph. destruct Ph as (m & e & -> & _ & _). reflexivity.
Qed.

End HealthFactor.

Lemma restaking_simulate_totals (n : Z) (this : RestakingEngine.Engine) (p cf : number)
    (sAPR bAPR : option number) :
  0 <= n <= 20 ->
  exists r,
    RestakingEngine.simulate LeverageEngine.fuel this p (ofBigInt n) (Some cf) sAPR bAPR
      = Some r /\
    RestakingEngine.totalStaked r = stakedAfter p cf (Z.to_nat n) /\
    RestakingEngine.totalBorrowed r = borrowedAfter p cf (Z.to_nat n) /\
    RestakingEngine.healthFactor r =
      RestakingEngine.healthOf (stakedAfter p cf (Z.to_nat n))
        (borrowedAfter p cf (Z.to_nat n)) cf.
Proof.
  intros Hn. unfold RestakingEngine.simulate. rewrite restaking_forLoop_trips.
  change zero with (ofBigInt 0).
  rewrite (small_tripCount n (Z.to_nat n) 0 LeverageEngine.fuel)
    by (unfold LeverageEngine.fuel; lia).
  cbn [option_map default from_option id].
  destruct (simulators_iterate_alike cf (Z.to_nat n) (ofBigInt 0) (ofBigInt 0)
              (RestakingEngine.mkState (ofBigInt 0) (ofBigInt 0) p [])
              (LeverageEngine.mkState (ofBigInt 0) (ofBigInt 0) p []) eq_refl eq_refl eq_refl)
    as (H1 & H2 & _).
  destruct (leverageIter_totals (N := number) p cf (Z.to_nat n) (ofBigInt 0)) as (T1 & T2 & _).
  cbn [lit binary64] in T1, T2. rewrite T1 in H1. rewrite T2 in H2.
  eexists. split; [reflexivity |].
  cbn [RestakingEngine.totalStaked RestakingEngine.totalBorrowed RestakingEngine.healthFactor].
  rewrite H1, H2. repeat split.
Qed.

(** X23.  A simulated restaking position sits at the liquidation threshold:
    for 1 to 20 loops, a principal in [[2^-448, 2^453)] and a collateral
    factor in [[1/16, 1)], the health factor that the simulator returns is a
    finite number within [2^-47] of 1, because the debt is the collateral
    factor times the stake; for zero loops it is [Infinity]. *)
Theorem restaking_health_factor_is_one (this : RestakingEngine.Engine) (p cf : number)
    (sAPR bAPR : option number) :
  (exists r,
     RestakingEngine.simulate LeverageEngine.fuel this p (ofBigInt 0) (Some cf) sAPR bAPR
       = Some r /\
     RestakingEngine.healthFactor r = infinity /\ RestakingEngine.steps r = []) /\
  (forall n : Z,
     1 <= n <= 20 -> pnormal (-500) 400 p = true -> pnormal (-56) (-53) cf = true ->
     exists r,
       RestakingEngine.simulate LeverageEngine.fuel this p (ofBigInt n) (Some cf) sAPR bAPR
         = Some r /\
       isFinite (RestakingEngine.healthFactor r) = true /\
       (1 - 64 * u <= toQ (RestakingEngine.healthFactor r))%Q /\
       (toQ (RestakingEngine.healthFactor r) <= 1 + 64 * u)%Q).
Proof.
  split.
  - eexists. split; [reflexivity |]. split; reflexivity.
  - intros n Hn Hp Hc.
    destruct (restaking_simulate_totals n this p cf sAPR bAPR ltac:(lia))
      as (r & Hrun & _ & _ & Hhf).
    exists r. split; [exact Hrun |]. rewrite Hhf.
    assert (Hk : exists k, Z.to_nat n = S k /\ (S k <= 20)%nat)
      by (exists (Nat.pred (Z.to_nat n)); lia).
    destruct Hk as (k & -> & Hk).
    destruct (healthOf_near p cf Hp Hc k Hk) as (Heq & Hnear & Hfin).
    rewrite Heq. split; [exact Hfin |].
    apply (near_one_bound (2 * S k + 3)); [lia | exact Hnear].
Qed.

Lemma restaking_health_factor_is_one_witness :
  exists r,
    RestakingEngine.simulate LeverageEngine.fuel (RestakingEngine.mkEngine demoTable)
      (ofBigInt 1000) (ofBigInt 5) (Some n0_7) None None = Some r /\
    isFinite (RestakingEngine.healthFactor r) = true /\
    (1 - 64 * u <= toQ (RestakingEngine.healthFactor r))%Q /\
    (toQ (RestakingEngine.healthFactor r) <= 1 + 64 * u)%Q.
Proof.
  apply (proj2 (restaking_health_factor_is_one (RestakingEngine.mkEngine demoTable)
                  (ofBigInt 1000) n0_7 None None) 5); [lia | reflexivity | reflexivity].
Defined.

(** ** The conversions between XLM and sXLM *)

Section Conversions.
Local Open Scope Q_scope.

(** Both conversions on a positive amount below 2^53 and a positive normal
    rate: the integer part of the rounded quotient and product. *)
Lemma xlmToSxlm_floor (x : Z) (r : number) :
  (0 < x < 2 ^ 53)%Z -> pnormal (-1022) 917 r = true ->
  xlmToSxlm x r = Some (Qfloor (toQ (div (ofBigInt x) r))) /\
  rounds (inject_Z x / toQ r) (div (ofBigInt x) r).
Proof.
  intros Hx Hr. destruct (ofBigInt_exact x Hx) as [Vx Px].
  destruct (div_spec _ _ _ _ _ _ Px Hr ltac:(lia) ltac:(lia)) as [Rq Pq].
  unfold xlmToSxlm. rewrite (leb_zero_pnormal _ _ _ Hr).
  split; [apply (bigIntFloor_spec _ _ _ Pq) |].
  apply rounds_ext with (2 := Rq). rewrite Vx. reflexivity.
Qed.

Lemma sxlmToXlm_floor (y : Z) (r : number) :
  (0 < y < 2 ^ 53)%Z -> pnormal (-1022) 917 r = true ->
  sxlmToXlm y r = Some (Qfloor (toQ (mul (ofBigInt y) r))) /\
  rounds (inject_Z y * toQ r) (mul (ofBigInt y) r).
Proof.
  intros Hy Hr. destruct (ofBigInt_exact y Hy) as [Vy Py].
  destruct (mul_spec _ _ _ _ _ _ Py Hr ltac:(lia) ltac:(lia)) as [Rp Pp].
  unfold sxlmToXlm. rewrite (leb_zero_pnormal _ _ _ Hr).
  split; [apply (bigIntFloor_spec _ _ _ Pp) |].
  apply rounds_ext with (2 := Rp). rewrite Vy. reflexivity.
Qed.

Lemma rate_value_pos (r : number) : pnormal (-1022) 917 r = true -> 0 < toQ r.
Proof.
  intros Hr. apply pnormal_value in Hr. destruct Hr as [Hlo _].
  pose proof (pow2_pos (-1022 + 52)). lra.
Qed.

(** A number that rounds an integer below 2^53 is that integer. *)
Lemma rounds_integer (z : Z) (f : number) :
  (0 < z < 2 ^ 53)%Z -> rounds (inject_Z z) f -> toQ f == inject_Z z.
Proof.
  intros Hz Hf. destruct (ofBigInt_exact z Hz) as [Vz Pz].
  assert (Hself : rounds (inject_Z z) (ofBigInt z)).
  { apply rounds_ext with (toQ (ofBigInt z)); [exact Vz |].
    apply (rounds_self _ _ _ Pz); lia. }
  apply Qle_antisym.
  - rewrite <- Vz. apply (rounds_mono _ _ _ _ Hf Hself). apply Qle_refl.
  - rewrite <- Vz. apply (rounds_mono _ _ _ _ Hself Hf). apply Qle_refl.
Qed.

End Conversions.

(** X24.  Both conversions are monotone in the amount: at a positive normal
    rate, a larger amount (below 2^53 stroops) never converts to less. *)
Theorem conversions_are_monotone (x x' : Z) (r : number) :
  0 < x <= x' -> x' < 2 ^ 53 -> pnormal (-1022) 917 r = true ->
  (exists y y', xlmToSxlm x r = Some y /\ xlmToSxlm x' r = Some y' /\ 0 <= y <= y') /\
  (exists z z', sxlmToXlm x r = Some z /\ sxlmToXlm x' r = Some z' /\ 0 <= z <= z').
Proof.
  intros Hx Hx' Hr. pose proof (rate_value_pos r Hr) as Hr0.
  assert (HX : (inject_Z x <= inject_Z x')%Q) by (rewrite <- Zle_Qle; lia).
  assert (HX0 : (0 < inject_Z x)%Q) by (apply inject_Z_pos; lia).
  split.
  - destruct (xlmToSxlm_floor x r ltac:(lia) Hr) as [Hy Ry].
    destruct (xlmToSxlm_floor x' r ltac:(lia) Hr) as [Hy' Ry'].
    eexists _, _. split; [exact Hy |]. split; [exact Hy' |]. split.
    + change 0 with (Qfloor 0). apply Qfloor_resp_le.
      destruct (rounds_pos _ _ Ry) as [_ H]. apply Qlt_le_weak. exact H.
    + apply Qfloor_resp_le. apply (rounds_mono _ _ _ _ Ry Ry').
      apply Qmult_le_compat_r; [exact HX |]. apply Qlt_le_weak, Qinv_lt_0_compat. exact Hr0.
  - destruct (sxlmToXlm_floor x r ltac:(lia) Hr) as [Hz Rz].
    destruct (sxlmToXlm_floor x' r ltac:(lia) Hr) as [Hz' Rz'].
    eexists _, _. split; [exact Hz |]. split; [exact Hz' |]. split.
    + change 0 with (Qfloor 0). apply Qfloor_resp_le.
      destruct (rounds_pos _ _ Rz) as [_ H]. apply Qlt_le_weak. exact H.
    + apply Qfloor_resp_le. apply (rounds_mono _ _ _ _ Rz Rz').
      apply Qmult_le_compat_r; [exact HX |]. apply Qlt_le_weak. exact Hr0.
Qed.

Lemma conversions_are_monotone_witness :
  (exists y y', xlmToSxlm 10000000 n0_7 = Some y /\ xlmToSxlm 10000001 n0_7 = Some y'
                /\ 0 <= y <= y') /\
  (exists z z', sxlmToXlm 10000000 n0_7 = Some z /\ sxlmToXlm 10000001 n0_7 = Some z'
                /\ 0 <= z <= z').
Proof.
  apply (conversions_are_monotone 10000000 10000001 n0_7); [lia | lia | reflexivity].
Defined.

(** X25.  At the rate 1.0, which is the rate of an empty supply, both
    conversions are the identity on every amount from 0 to 2^53 - 1
    stroops. *)
Theorem conversions_at_parity_are_exact (x : Z) :
  0 <= x < 2 ^ 53 ->
  xlmToSxlm x (computeExchangeRate 0 0) = Some x /\
  sxlmToXlm x (computeExchangeRate 0 0) = Some x.
Proof.
  intros Hx. change (computeExchangeRate 0 0) with one.
  destruct (Z.eq_dec x 0) as [-> | Hnz]; [split; reflexivity |].
  assert (Pone : pnormal (-1022) 917 one = true) by reflexivity.
  assert (H1 : (toQ one == 1)%Q) by reflexivity.
  destruct (xlmToSxlm_floor x one ltac:(lia) Pone) as [Hy Ry].
  destruct (sxlmToXlm_floor x one ltac:(lia) Pone) as [Hz Rz].
  rewrite Hy, Hz. split; f_equal.
  - transitivity (Qfloor (inject_Z x)); [| apply Qfloor_Z].
    apply Qfloor_comp. apply rounds_integer; [lia |].
    apply rounds_ext with (2 := Ry). rewrite H1. field.
  - transitivity (Qfloor (inject_Z x)); [| apply Qfloor_Z].
    apply Qfloor_comp. apply rounds_integer; [lia |].
    apply rounds_ext with (2 := Rz). rewrite H1. ring.
Qed.

Lemma conversions_at_parity_are_exact_witness :
  xlmToSxlm 123456789 (computeExchangeRate 0 0) = Some 123456789 /\
  sxlmToXlm 123456789 (computeExchangeRate 0 0) = Some 123456789.
Proof. apply (conversions_at_parity_are_exact 123456789). lia. Defined.

(** ** Reconciliations that have nothing to do *)





(** ** The steps of a simulated restaking position *)

Section RestakingSteps.
Import RestakingEngine.

Lemma step_numbers (k : Z) :
  0 <= k <= 19 ->
  add (mul (ofBigInt k) n3) one = ofBigInt (3 * k + 1) /\
  add (mul (ofBigInt k) n3) n2 = ofBigInt (3 * k + 2) /\
  add (mul (ofBigInt k) n3) n3 = ofBigInt (3 * k + 3).
Proof.
  intros Hk.
  assert (Hcases : k = 0 \/ k = 1 \/ k = 2 \/ k = 3 \/ k = 4 \/ k = 5 \/ k = 6 \/ k = 7 \/
                   k = 8 \/ k = 9 \/ k = 10 \/ k = 11 \/ k = 12 \/ k = 13 \/ k = 14 \/
                   k = 15 \/ k = 16 \/ k = 17 \/ k = 18 \/ k = 19) by lia.
  repeat (destruct Hcases as [-> | Hcases]; [vm_compute; repeat split |]).
  subst. vm_compute. repeat split.
Qed.

(** Each iteration appends its three steps; they carry the state the
    iteration started from. *)
Lemma restakingIter_steps (cf : number) (n : nat) :
  forall (k : Z) (st : LoopState),
    0 <= k -> k + Z.of_nat n <= 20 ->
    exists new,
      stSteps (restakingIter cf n (ofBigInt k) st) = stSteps st ++ new /\
      length new = (3 * n)%nat /\
      forall j, (j < n)%nat ->
        let before := restakingIter cf j (ofBigInt k) st in
        let a := currentAmount before in
        let staked := add (stTotalStaked before) a in
        let borrowed := stTotalBorrowed before in
        exists h h',
          new !! (3 * j)%nat
            = Some (mkStep (ofBigInt (3 * (k + Z.of_nat j) + 1)) "stake" a staked borrowed h) /\
          new !! (3 * j + 1)%nat
            = Some (mkStep (ofBigInt (3 * (k + Z.of_nat j) + 2)) "deposit_collateral"
                      a staked borrowed h) /\
          new !! (3 * j + 2)%nat
            = Some (mkStep (ofBigInt (3 * (k + Z.of_nat j) + 3)) "borrow"
                      (mul a cf) staked (add borrowed (mul a cf)) h').
Proof.
  induction n as [| n IH]; intros k st Hk Hn.
  - exists []. rewrite app_nil_r. split; [reflexivity |]. split; [reflexivity |].
    intros j Hj. lia.
  - cbn [restakingIter]. rewrite small_counter_step by lia.
    destruct (IH (k + 1) (loopBody cf (ofBigInt k) st)) as (new' & Hs & Hl & Ht); [lia | lia |].
    destruct (step_numbers k) as (N1 & N2 & N3); [lia |].
    rewrite Hs. cbn [loopBody stSteps]. rewrite N1, N2, N3, <- app_assoc.
    eexists. split; [reflexivity |]. split.
    { rewrite length_app, Hl. cbn [length]. lia. }
    intros [| j] Hj.
    + cbv zeta. cbn [restakingIter]. replace (k + Z.of_nat 0) with k by lia.
      eexists _, _. split; [reflexivity |]. split; reflexivity.
    + specialize (Ht j ltac:(lia)). cbv zeta in Ht. destruct Ht as (h & h' & H1 & H2 & H3).
      cbv zeta. cbn [restakingIter]. rewrite small_counter_step by lia.
      replace (k + Z.of_nat (S j)) with (k + 1 + Z.of_nat j) by lia.
      exists h, h'.
      replace (3 * S j)%nat with (S (S (S (3 * j)))) by lia.
      split; [exact H1 |]. split; [exact H2 | exact H3].
Qed.

End RestakingSteps.

(** X27.  The steps of a simulated restaking position come in triples: for
    0 to 20 loops the simulation returns three steps per loop, numbered
    1, 2, 3, ... in order; loop [j] (from 0) stakes the current amount,
    deposits the same amount as collateral with the same totals and health
    factor, and borrows that amount times the collateral factor, which is
    the amount of the next loop. *)
Theorem restaking_steps_come_in_triples (this : RestakingEngine.Engine) (p cf : number)
    (sAPR bAPR : option number) (n : Z) :
  0 <= n <= 20 ->
  exists r,
    RestakingEngine.simulate LeverageEngine.fuel this p (ofBigInt n) (Some cf) sAPR bAPR
      = Some r /\
    length (RestakingEngine.steps r) = (3 * Z.to_nat n)%nat /\
    forall j, (j < Z.to_nat n)%nat ->
      let a := depositAt p cf j in
      let staked := stakedAfter p cf (S j) in
      let borrowed := borrowedAfter p cf j in
      exists h h',
        RestakingEngine.steps r !! (3 * j)%nat
          = Some (RestakingEngine.mkStep (ofBigInt (3 * Z.of_nat j + 1)) "stake"
                    a staked borrowed h) /\
        RestakingEngine.steps r !! (3 * j + 1)%nat
          = Some (RestakingEngine.mkStep (ofBigInt (3 * Z.of_nat j + 2)) "deposit_collateral"
                    a staked borrowed h) /\
        RestakingEngine.steps r !! (3 * j + 2)%nat
          = Some (RestakingEngine.mkStep (ofBigInt (3 * Z.of_nat j + 3)) "borrow"
                    (depositAt p cf (S j)) staked (borrowedAfter p cf (S j)) h').
Proof.
  intros Hn. unfold RestakingEngine.simulate. rewrite restaking_forLoop_trips.
  change zero with (ofBigInt 0).
  rewrite (small_tripCount n (Z.to_nat n) 0 LeverageEngine.fuel)
    by (unfold LeverageEngine.fuel; lia).
  cbn [option_map default from_option id].
  eexists. split; [reflexivity |]. cbn [RestakingEngine.steps].
  destruct (restakingIter_steps cf (Z.to_nat n) 0
              (RestakingEngine.mkState (ofBigInt 0) (ofBigInt 0) p []))
    as (new & Hs & Hl & Ht); [lia | lia |].
  cbn [RestakingEngine.stSteps app] in Hs. rewrite Hs. split; [exact Hl |].
  intros j Hj. specialize (Ht j Hj). cbv zeta in Ht. destruct Ht as (h & h' & H1 & H2 & H3).
  destruct (simulators_iterate_alike cf j (ofBigInt 0) (ofBigInt 0)
              (RestakingEngine.mkState (ofBigInt 0) (ofBigInt 0) p [])
              (LeverageEngine.mkState (ofBigInt 0) (ofBigInt 0) p []) eq_refl eq_refl eq_refl)
    as (E1 & E2 & E3).
  destruct (leverageIter_totals (N := number) p cf j (ofBigInt 0)) as (T1 & T2 & T3).
  cbn [lit binary64] in T1, T2, T3. rewrite T1 in E1. rewrite T2 in E2. rewrite T3 in E3.
  rewrite E1, E2, E3 in H1, H2, H3. replace (3 * (0 + Z.of_nat j)) with (3 * Z.of_nat j) in * by lia.
  cbv zeta. exists h, h'. split; [exact H1 |]. split; [exact H2 | exact H3].
Qed.

Lemma restaking_steps_come_in_triples_witness :
  exists r,
    RestakingEngine.simulate LeverageEngine.fuel (RestakingEngine.mkEngine ∅)
      (ofBigInt 1000) (ofBigInt 2) (Some n0_7) None None = Some r /\
    length (RestakingEngine.steps r) = (3 * Z.to_nat 2)%nat /\
    forall j, (j < Z.to_nat 2)%nat ->
      let a := depositAt (ofBigInt 1000) n0_7 j in
      let staked := stakedAfter (ofBigInt 1000) n0_7 (S j) in
      let borrowed := borrowedAfter (ofBigInt 1000) n0_7 j in
      exists h h',
        RestakingEngine.steps r !! (3 * j)%nat
          = Some (RestakingEngine.mkStep (ofBigInt (3 * Z.of_nat j + 1)) "stake"
                    a staked borrowed h) /\
        RestakingEngine.steps r !! (3 * j + 1)%nat
          = Some (RestakingEngine.mkStep (ofBigInt (3 * Z.of_nat j + 2)) "deposit_collateral"
                    a staked borrowed h) /\
        RestakingEngine.steps r !! (3 * j + 2)%nat
          = Some (RestakingEngine.mkStep (ofBigInt (3 * Z.of_nat j + 3)) "borrow"
                    (depositAt (ofBigInt 1000) n0_7 (S j)) staked
                    (borrowedAfter (ofBigInt 1000) n0_7 (S j)) h').
Proof.
  apply (restaking_steps_come_in_triples (RestakingEngine.mkEngine ∅) (ofBigInt 1000) n0_7
           None None 2).
  lia.
Defined.

(** ** The liquidation route *)

(** X28.  The liquidation route builds for the liquidator.  A request whose
    addresses are not two valid 56-character addresses is refused before
    any access to the ledger.  A transaction that the route builds is a
    [liquidate] of the lending contract with the liquidator and the borrower,
    loaded and simulated on the account of the liquidator.  When that
    simulation fails with an error that mentions "UnreachableCodeReached",
    the answer says that the position cannot be liquidated; for any other
    simulation error it is "Simulation failed: " followed by the error. *)
Theorem liquidation_is_built_for_the_liquidator (L : Ledger) (w : world L)
    (body : LendingRoutes.LiquidateBody) :
  let liquidator := LendingRoutes.liquidatorAddress body in
  let borrower := LendingRoutes.borrowerAddress body in
  let call := mkCall Config.lendingContractId "liquidate"
                [ScAddress liquidator; ScAddress borrower] in
  (LendingRoutes.liquidateSchemaAccepts body = false \/ addressValid L liquidator = false \/
   addressValid L borrower = false ->
   exists message,
     run (LendingRoutes.liquidate body) w = (inr (LendingRoutes.Failed message), (w, []))) /\
  (forall xdr,
     result (LendingRoutes.liquidate body) w = inr (LendingRoutes.Built xdr) ->
     String.length liquidator = 56%nat /\ String.length borrower = 56%nat /\
     addressValid L liquidator = true /\ addressValid L borrower = true /\
     xdr = call /\
     actions (LendingRoutes.liquidate body) w
       = [GetAccount liquidator; Simulate liquidator call]) /\
  (forall e,
     LendingRoutes.liquidateSchemaAccepts body = true ->
     addressValid L liquidator = true -> addressValid L borrower = true ->
     accountFound L w liquidator = true ->
     simulate L w liquidator call = SimError e ->
     result (LendingRoutes.liquidate body) w =
       inr (LendingRoutes.Failed
              (if includes "UnreachableCodeReached" e
               then "This position cannot be liquidated — it may already be healthy or have no debt."
               else "Simulation failed: " +:+ e))).
Proof.
  cbv zeta. unfold result, actions, run, LendingRoutes.liquidate, catch, bind.
  unfold LendingRoutes.liquidateSchemaAccepts, toAddress, Gateway.buildContractTx, bind,
    getAccount, simulateTransaction.
  destruct (String.length (LendingRoutes.liquidatorAddress body) =? 56)%nat eqn:H1;
    cbn -[includes String.append].
  2: { split; [intros _; eexists; reflexivity |]. split; intros; discriminate. }
  destruct (String.length (LendingRoutes.borrowerAddress body) =? 56)%nat eqn:H2;
    cbn -[includes String.append].
  2: { split; [intros _; eexists; reflexivity |]. split; intros; discriminate. }
  apply Nat.eqb_eq in H1, H2.
  destruct (addressValid L (LendingRoutes.liquidatorAddress body));
    cbn -[includes String.append].
  2: { split; [intros _; eexists; reflexivity |]. split; intros; discriminate. }
  destruct (addressValid L (LendingRoutes.borrowerAddress body));
    cbn -[includes String.append].
  2: { split; [intros _; eexists; reflexivity |]. split; intros; discriminate. }
  split; [intros [H | [H | H]]; discriminate |].
  destruct (accountFound L w (LendingRoutes.liquidatorAddress body));
    cbn -[includes String.append].
  2: { split; intros; discriminate. }
  destruct (simulate L w (LendingRoutes.liquidatorAddress body) _) as [e' | [v |] | [v |]];
    cbn -[includes String.append].
  - split.
    + intros xdr. destruct (includes "UnreachableCodeReached" e'); discriminate.
    + intros e _ _ _ _ He. inversion He; subst e'.
      destruct (includes "UnreachableCodeReached" e); reflexivity.
  - split; [| intros; congruence]. intros xdr Hx. inversion Hx; subst xdr.
    repeat split; assumption.
  - split; [intros; discriminate | intros; congruence].
  - split; [| intros; congruence]. intros xdr Hx. inversion Hx; subst xdr.
    repeat split; assumption.
  - split; [intros; discriminate | intros; congruence].
Qed.

Lemma liquidation_is_built_for_the_liquidator_witness :
  result (L := trappingLedger)
    (LendingRoutes.liquidate (LendingRoutes.mkLiquidate demoAddress demoAddress)) 0 =
    inr (LendingRoutes.Failed
           "This position cannot be liquidated — it may already be healthy or have no debt.").
Proof.
  apply (proj2 (proj2 (liquidation_is_built_for_the_liquidator trappingLedger 0
                         (LendingRoutes.mkLiquidate demoAddress demoAddress)))
           "HostError: Error(WasmVm, InvalidAction) UnreachableCodeReached");
    reflexivity.
Defined.
